(* ===== verification/_CoqProject ===== *)
-Q . S2P
Prelude.v
F64.v
Bytes.v
Rpc.v
Types.v
Dex.v
Bus.v
Fanout.v
Sim.v
Positions.v
KolBudget.v
Limits.v
Nonce.v
Kol.v
Strategy.v
FourMeme.v
ExecMath.v
Executor.v
ExitTasks.v
NonceGaps.v
Finalize.v
Trail.v
Live.v
PaperPrice.v
Paper.v
Csv.v
Ledger.v
Capture.v
BlockOracle.v
Sniper.v
Services.v
Multicall.v
NodeReads.v
Relay.v
Venus.v
Sources.v
DevResolver.v
Telegram.v
Alerts.v
LiveNotices.v
System.v
Config.v
Runner.v
