(* ===== verification/Prelude.v ===== *)
(** * Verification of bsc-mempool

    bsc-mempool watches the BSC mempool for transactions of a list of wallets
    (KOLs) and copies their trades.  This development models the Rust sources
    under src/crates/ as executable Rocq functions and proves what they do.

    ** The program, and where it is modelled

    Transactions arrive from several sources.  The bus (crates/bsc-bus)
    deduplicates them, decodes them in a pool of workers and publishes each
    once.  kol_watch.rs turns a published transaction of a KOL into a [KolHit];
    kol_confirm.rs scans new blocks for the same wallets, forwards confirmed
    sells and finds the trades that never were in the mempool.  A hit goes to
    the traders: strategy.rs decides, limits.rs gates, executor_live.rs buys
    and sells, nonce.rs numbers the transactions.  adaptive_trail.rs can
    replace the KOL's sells by a price-driven exit, fed by
    four_meme_price.rs.

    - [Prelude]: Rust's [Result], machine integers, bounded channels, lists.
    - [F64]: Rust's [f64] as exact IEEE-754 binary64, with its total order.
    - [Bytes]: big-endian words, slices, hexadecimal and decimal text.
    - [Types]: trader/types.rs, the vocabulary of the traders.
    - [Dex]: crates/bsc-dex, modules [Hex], [V2], [V3]: the quoters.
    - [Bus]: crates/bsc-core and crates/bsc-bus, modules [Core],
      [CurrentBlock], [Dedupe], [Pipeline].
    - [Fanout]: the broadcast of crates/bsc-bus, [Bus] and [Subscription] over a
      class of channels, and the loop of the consumers.
    - [Sim]: trader/sim.rs, venue choice over the quoters.
    - [Positions]: trader/position.rs and the JSON part of trader/ledger.rs.
    - [KolBudget]: trader/kol_budget.rs.
    - [Limits]: trader/limits.rs and the kill-switch poller of trader/mod.rs.
    - [Nonce]: trader/nonce.rs; the class [NonceSource] is what a client may
      rely on.
    - [Kol]: gmgn.rs, kol_watch.rs, kol_confirm.rs (modules [Gmgn], [Watch],
      [Confirm], [Dispatch]).
    - [Strategy]: trader/strategy.rs.
    - [FourMeme]: four_meme_price.rs.
    - [ExecMath]: the arithmetic of trader/executor_live.rs, blacklist.rs and
      live_ledger.rs.
    - [Executor]: trader/executor_live.rs, the buy and exit pipelines and the
      background finalisation, over a store of shared position entries.
    - [ExitTasks]: the exits of the same file as concurrent tasks, suspended at
      their awaits under the lock of their token.  [Finalize]: the background
      tasks of its buys under their semaphore.  [NonceGaps]: what the chain can
      execute of what it sends.  [LiveNotices]: its chat notices.
    - [Trail]: trader/adaptive_trail.rs; its tick is written against the class
      [ExitHost], which the executor implements.
    - [Live]: trader/mod.rs, [start_live_only]: the consumer of hits, the
      poller and the trail on one executor.
    - [PaperPrice], [Paper]: trader/paper.rs and held_tokens.rs: what a
      simulated fill is worth, and the paper trader's entries, proportional
      exits and timeout sweep over its books.  [Alerts]: its messages.
    - [Csv]: trader/ledger.rs and trader/live_ledger.rs, the text of the rows
      and their header, and what the trail reads back of them.  [Ledger]: the
      file of closed trades.
    - [Capture], [BlockOracle]: crates/bsc-telemetry, the segment writer, its
      janitor and the replay; the coverage of blocks by the mempool.
    - [Sniper]: dev_sniper.rs; it buys through the class [BuyHost].
    - [Services]: token_flow.rs, bnb_price.rs, token_resolver.rs, mcap.rs,
      price_oracle.rs: the readers that serve the traders.
    - [Multicall]: crates/bsc-dex/src/multicall.rs.
    - [Rpc]: JSON values as the readers see them, and hexadecimal quantities.
    - [NodeReads], [Relay]: the node's replies and the relays' answers in
      trader/executor_live.rs.
    - [Venus]: venus.rs, the borrower scan and the health poll.
    - [Sources]: crates/bsc-sources, the IPC session, the backfill of announced
      hashes, the reconnection loops.
    - [DevResolver]: trader/dev_resolver.rs and trader/wallet.rs (modules [Dev]
      and [Wallet]).
    - [Telegram]: the alert of kol_watch.rs, against a reader of its markup, and
      its dispatcher.
    - [System]: the running program: pipeline, watcher, confirmation scanner,
      channels, paper traders and live trader as one step function.
    - [Config]: config.rs, every section with its defaults.
    - [Runner]: wiring.rs and the starts of trader/mod.rs: what runs, in which
      state, from a configuration and a machine.

    ** Conventions

    State is a record, an operation a function from a state and the answers of
    the outside world to a state; an async task's interleaving is a sequence of
    operations (the [step] and [run] of each component), split where the code
    can be interrupted and it matters ([resync_load] and [resync_store] of the
    nonce, the background steps of a buy).  An exit is one operation in
    [Executor] and a task split at every await in [ExitTasks], which agree when
    nothing interrupts it; a buy is one operation, as one consumer runs the
    buys one after the other.  Where Rust would panic a definition returns
    [None].  Node replies, the signer, the relays, clocks and the
    parsers of third-party crates are arguments, so every theorem holds for all
    their answers.  Integers are [Z] with their width written out; prices are
    binary64 floats, never reals.  Logging and
    metrics are left out.

    ** What the theorems show

    - [Live]: the running trader is a history of executor operations; what a
      hit can lead to and what a KOL's sell must lead to; the positions that
      no signal can close.
    - [Executor]: a buy passes every gate, exits conserve the tokens, nonces on
      the wire increase, the position store is consistent, and the exits that
      skip an allowance or miscount the open positions.
    - [ExitTasks]: exits never oversell a position however they interleave, no
      nonce is sent twice, no exit is dead-locked.  [Finalize]: the background
      tasks refine the executor's history and end; the one that comes late
      revives a sold position.  [NonceGaps]: a failed sale, or a shadow run,
      leaves a nonce that is never sent, behind which the wallet waits.
    - [Trail]: the incremental state machine equals a stateless rule on the
      whole price history; what holding means; timeouts fire; the trail only
      sells; a failed exit forgets the peak.
    - [Limits], [Nonce], [KolBudget]: invariants over all histories (trades per
      day, the loss halt, unique nonces, conservation of the budget), and the
      cases the code does not cover.
    - [Paper]: over any history of hits and sweeps each KOL's pot equals its
      open positions plus the reservations that aborted entries leaked; exits
      are proportional; the sweep closes what is old; the held set is the book;
      two racing closes are credited twice.
    - [Kol], [Strategy], [FourMeme]: routing of hits to the sinks, decoding
      against the encodings, the statistics window against its specification.
    - [Bus], [Dex], [Positions], [Sim], [ExecMath]: exactly-once publication,
      best quote, round trips and bounds.
    - [Fanout]: a subscriber hears each transaction once or is told how many it
      lost, and loses none while it keeps up.
    - [System], [Runner]: from the configuration to the wire: every buy of the
      program copies a buy of a whitelisted KOL of the configured list, and a
      KOL's buy is copied when every gate passes; the paper traders split the
      order flow and their books balance as they run; a pending sell closes
      everything; what a start needs and what it forgets;
      the subscriptions come back; the summary fires once a day.
    - [Config]: decoding undoes the reference encoding; the parts are opt-in.
    - [Capture]: what was written is replayed, also from a torn segment, and
      the reader ends.  [Csv], [Ledger]: rows and the whole file read back, and
      the row a comma hides.
    - [Sources]: an announcement seen by two sources is published once.
    - [Relay], [NodeReads]: resubmission is idempotent; the readers give the
      chain's state; what silence of the node or of a relay leads to.
    - [Venus]: the windows cover each block once and the tracked set is the set
      of borrowers the logs name.  [Sniper]: it buys launches of trusted
      developers only.
    - [Multicall]: the encoder's offsets against the ABI of the contract.
    - [Telegram], [Alerts]: messages are well-formed markup for every name;
      [LiveNotices]: these only for names that are.
    - [Services], [DevResolver], [BlockOracle]: caches, conversions, alarms.

    ** Fuel and bounds

    Most recursions are structural.  Those with fuel have a theorem that it is
    enough: [Bytes.decimal] prints with 20 digits for 64 bits
    ([parse_u64_to_string]) and 78 for 256; [Csv.fmt_fixed] uses 310 digits, as
    the largest double has 309; [Rpc.hexadecimal] has 64 digits for 256 bits;
    [Venus.windows] runs for [turns], and more turns change nothing
    ([windows_cover_each_block_once]); [Capture.read_all] ends within one turn
    more than the bytes ([read_all_terminates]).  An exit takes eight polls once
    its token's lock is free and fifteen when another exit holds it
    ([every_exit_finishes]); a background task that has its permit at most 92
    polls, half a second apart ([finalisation_ends]).  [wire_nonces_increase] assumes
    the counter stays below 2^64, where the code would wrap.

    ** Not modelled

    - tokio's channels, which are third-party code: the broadcast channel is the
      class [Fanout.BroadcastLaws], with [Fanout.Ring] as an instance.
      [System.watch_recv] may skip any number of messages, so what is shown of
      the system holds whatever the ring drops; a turn of the watcher on a
      subscription is one of those steps ([System.watcher_turn_refines_step]).
    - Websocket clients, HTTP clients, the TOML and JSON readers, figment's
      merge, RLP decoding, signature recovery and signing are third-party code:
      arguments, with their documented behaviour as hypotheses where used.
    - bloxroute.rs, a stub that waits for the shutdown; metrics_exporter.rs and
      the counters; the warm-up pings of the live executor, whose replies nothing
      reads;
      main.rs, which parses arguments and sets up logging; the scripts beside
      the program. *)

From Stdlib Require Import ZArith Lia.
From stdpp Require Export base list gmap strings sets sorting.

#[export] Set Warnings "-clear-no-such-hyp".

(** ** Notations *)

Declare Scope bsc_scope.
Delimit Scope bsc_scope with bsc.
Open Scope bsc_scope.
Open Scope Z_scope.

(** ** Fallible computations: Rust's [Result] *)

Inductive result (A E : Type) : Type :=
| Ok (a : A)
| Err (e : E).
Arguments Ok {A E} a.
Arguments Err {A E} e.

Definition result_bind {A B E : Type} (r : result A E) (k : A → result B E) : result B E :=
  match r with
  | Ok a => k a
  | Err e => Err e
  end.

Notation "x '<-?' r ';;' k" := (result_bind r (fun x => k))
  (at level 60, r at next level, right associativity) : bsc_scope.

Definition is_ok {A E : Type} (r : result A E) : bool :=
  match r with Ok _ => true | Err _ => false end.

(** [unwrap_or] on options. *)
Definition unwrap_or {A : Type} (o : option A) (d : A) : A :=
  match o with Some a => a | None => d end.

(** ** Machine integers

    A [w]-bit unsigned integer is a [Z] in [[0, 2^w)].  The operations are
    Rust's: [wrapping], [saturating] and the lossy [as] casts. *)

Definition in_width (w z : Z) : Prop := 0 ≤ z < 2 ^ w.
Definition umax (w : Z) : Z := 2 ^ w - 1.
Definition wrap (w z : Z) : Z := z mod 2 ^ w.
Definition sat_add (w a b : Z) : Z := Z.min (a + b) (umax w).
Definition sat_sub (a b : Z) : Z := Z.max (a - b) 0.
Definition sat_mul (w a b : Z) : Z := Z.min (a * b) (umax w).
(** Signed saturation to [w] bits ([i128::saturating_add] and friends). *)
Definition imin (w : Z) : Z := - 2 ^ (w - 1).
Definition imax (w : Z) : Z := 2 ^ (w - 1) - 1.
Definition sat_signed (w z : Z) : Z := Z.max (imin w) (Z.min z (imax w)).
(** [x as i128] for an unsigned [w]-bit [x]: reinterpretation of the bits. *)
Definition as_signed (w z : Z) : Z :=
  let r := z mod 2 ^ w in if r <? 2 ^ (w - 1) then r else r - 2 ^ w.
(** [uN::try_from]. *)
Definition try_from_width (w z : Z) : option Z :=
  if (0 <=? z) && (z <? 2 ^ w) then Some z else None.

#[global] Instance in_width_dec w z : Decision (in_width w z).
Proof. unfold in_width. apply _. Defined.

Create HintDb width.

Lemma pow2_pos w : 0 ≤ w → 0 < 2 ^ w.
Proof. intros. lia. Qed.

Lemma sat_add_width w a b :
  0 ≤ w → in_width w a → in_width w b → in_width w (sat_add w a b).
Proof. unfold in_width, sat_add, umax. intros Hw ? ?. pose proof (pow2_pos w Hw). lia. Qed.

Lemma sat_sub_width w a b : in_width w a → in_width w b → in_width w (sat_sub a b).
Proof. unfold in_width, sat_sub. lia. Qed.

Lemma sat_mul_width w a b :
  0 ≤ w → in_width w a → in_width w b → in_width w (sat_mul w a b).
Proof. unfold in_width, sat_mul, umax. intros Hw ? ?. pose proof (pow2_pos w Hw). nia. Qed.

Lemma wrap_width w z : 0 ≤ w → in_width w (wrap w z).
Proof. unfold in_width, wrap. intros Hw. apply Z.mod_pos_bound, pow2_pos, Hw. Qed.

Lemma wrap_small w z : in_width w z → wrap w z = z.
Proof. unfold in_width, wrap. intros. by apply Z.mod_small. Qed.

Lemma sat_add_exact w a b : a + b < 2 ^ w → sat_add w a b = a + b.
Proof. unfold sat_add, umax. lia. Qed.

Lemma sat_sub_exact a b : b ≤ a → sat_sub a b = a - b.
Proof. unfold sat_sub. lia. Qed.

Lemma sat_signed_exact w z : imin w ≤ z ≤ imax w → sat_signed w z = z.
Proof. unfold sat_signed. lia. Qed.

Lemma sat_add_le_l w a b : in_width w a → 0 ≤ b → a ≤ sat_add w a b.
Proof. unfold in_width, sat_add, umax. lia. Qed.

#[export] Hint Resolve sat_add_width sat_sub_width sat_mul_width wrap_width : width.

(** ** Options, lists *)

Lemma unwrap_or_Some {A} (a d : A) : unwrap_or (Some a) d = a.
Proof. done. Qed.

(** Rust's [Iterator::sum] over an integer projection. *)
Definition sum_by {A : Type} (f : A → Z) (l : list A) : Z :=
  foldr (fun a acc => f a + acc) 0 l.

Lemma sum_by_cons {A} (f : A → Z) a l : sum_by f (a :: l) = f a + sum_by f l.
Proof. done. Qed.

Lemma sum_by_app {A} (f : A → Z) l1 l2 : sum_by f (l1 ++ l2) = sum_by f l1 + sum_by f l2.
Proof. induction l1 as [|a l1 IH]; csimpl; [done|]. rewrite IH. lia. Qed.

Lemma sum_by_nonneg {A} (f : A → Z) l : (∀ a, a ∈ l → 0 ≤ f a) → 0 ≤ sum_by f l.
Proof.
  induction l as [|a l IH]; csimpl; [lia|]. intros Hf.
  assert (0 ≤ f a) by (apply Hf; set_solver).
  assert (0 ≤ sum_by f l) by (apply IH; set_solver). lia.
Qed.

(** Concatenation of blocks of a constant length. *)
Lemma length_bind_const {A B : Type} (f : A → list B) (k : nat) (l : list A) :
  (∀ a, length (f a) = k) → length (l ≫= f) = (length l * k)%nat.
Proof. intros Hf. induction l as [|a l IH]; csimpl; [done|]. rewrite length_app, Hf, IH. lia. Qed.

(** [last n] elements of a list, oldest first. *)
Definition lastn {A : Type} (n : nat) (l : list A) : list A := drop (length l - n) l.

Lemma lastn_length {A} n (l : list A) : length (lastn n l) = Nat.min n (length l).
Proof. unfold lastn. rewrite length_drop. lia. Qed.

Lemma lastn_all {A} n (l : list A) : (length l ≤ n)%nat → lastn n l = l.
Proof. intros. unfold lastn. by replace (length l - n)%nat with 0%nat by lia. Qed.

Lemma lastn_snoc {A} n (l : list A) x :
  (0 < n)%nat → lastn n (l ++ [x]) = lastn (n - 1) l ++ [x].
Proof.
  intros. unfold lastn. rewrite length_app. simpl.
  replace (length l + 1 - n)%nat with (length l - (n - 1))%nat by lia.
  rewrite drop_app_le by lia. done.
Qed.

Lemma lastn_lastn {A} n m (l : list A) : (n ≤ m)%nat → lastn n (lastn m l) = lastn n l.
Proof. intros H. unfold lastn. rewrite length_drop, drop_drop. f_equal. lia. Qed.

Lemma filter_none {A} (P : A → Prop) `{∀ x, Decision (P x)} (l : list A) :
  (∀ x, x ∈ l → ¬ P x) → filter P l = [].
Proof.
  induction l as [|x l IH]; intros Hn; [done|]. rewrite filter_cons_False by (apply Hn; set_solver).
  apply IH. set_solver.
Qed.

Lemma filter_all {A} (P : A → Prop) `{∀ x, Decision (P x)} (l : list A) :
  (∀ x, x ∈ l → P x) → filter P l = l.
Proof.
  induction l as [|x l IH]; intros Hn; [done|]. rewrite filter_cons_True by (apply Hn; set_solver).
  f_equal. apply IH. set_solver.
Qed.

(** Sorted lists grow at the end. *)
Lemma StronglySorted_snoc {A} (R : A → A → Prop) l x :
  StronglySorted R l → Forall (λ y, R y x) l → StronglySorted R (l ++ [x]).
Proof.
  rewrite StronglySorted_app, Forall_forall. intros Hs Hx.
  split_and!; [|done|by repeat constructor].
  intros y z Hy ->%list_elem_of_singleton. by apply Hx.
Qed.

(** ** Bounded channels: tokio's [mpsc] with [try_send] *)

Record chan (A : Type) : Type := { chan_cap : nat; chan_items : list A; chan_closed : bool }.
Arguments chan_cap {A} _.
Arguments chan_items {A} _.
Arguments chan_closed {A} _.

Inductive sent : Type := Sent | Full | Closed.

Definition try_send {A : Type} (c : chan A) (x : A) : chan A * sent :=
  if chan_closed c then (c, Closed)
  else if (length (chan_items c) <? chan_cap c)%nat then
    ({| chan_cap := chan_cap c; chan_items := chan_items c ++ [x]; chan_closed := false |}, Sent)
  else (c, Full).

(** ** Traces: the reflexive-transitive closure of a step relation *)

Section Star.
Context {S : Type} (R : S → S → Prop).

Lemma rtc_invariant (I : S → Prop) s t :
(∀ a b, I a → R a b → I b) → I s → rtc R s t → I t.
Proof. intros Hstep Hs Hst. induction Hst as [|a b c Hab _ IH]; eauto. Qed.
End Star.

(** ** Tactics *)

(** Destruct the scrutinee of a [match] or an [if] of the goal, or of the
    hypothesis, remembering the equation. *)
Ltac case_scrut :=
  match goal with
  | |- context [match ?e with _ => _ end] => let E := fresh "E" in destruct e eqn:E
  end.
Ltac case_scrut_in H :=
  match type of H with
  | context [match ?e with _ => _ end] => let E := fresh "E" in destruct e eqn:E
  end.
Ltac case_all := repeat (case_scrut; simplify_eq/=; try done).
Ltac case_all_in H := repeat (case_scrut_in H; simplify_eq/=; try done).

(** Boolean comparisons on [Z] to propositions. *)
Ltac zbool :=
  rewrite ?andb_true_iff, ?andb_false_iff, ?orb_true_iff, ?orb_false_iff,
    ?negb_true_iff, ?negb_false_iff, ?Z.ltb_lt, ?Z.ltb_ge, ?Z.leb_le, ?Z.leb_gt,
    ?Z.eqb_eq, ?Z.eqb_neq in *.

(** Give the bounds of a width as literal inequalities. *)
Ltac width := unfold in_width, umax, imin, imax in *; lia.
