(* ===== verification/F64.v ===== *)
(** * IEEE-754 binary64, as Rust's [f64] computes it

    The source does its price, size and loss arithmetic in [f64].  A float is
    the Standard Library's [spec_float] (sign, mantissa, exponent, infinities,
    one NaN) and every operation is the correctly rounded binary64 operation
    of [SpecFloat] (round to nearest, ties to even), so a definition of this
    development that computes a price evaluates to the bits the program
    computes.  The file also has Rust's [as] casts, [f64::max], [min], [clamp]
    and [round], and the order lemmas the components use: the comparisons are
    total on non-NaN floats and false on NaN. *)

From Stdlib Require Import ZArith Lia SpecFloat.
From S2P Require Import Prelude.

Abbreviation f64 := spec_float (only parsing).

(** ** Arithmetic *)

Definition fadd : f64 → f64 → f64 := SFadd 53 1024.
Definition fsub : f64 → f64 → f64 := SFsub 53 1024.
Definition fmul : f64 → f64 → f64 := SFmul 53 1024.
Definition fdiv : f64 → f64 → f64 := SFdiv 53 1024.
Definition fabs : f64 → f64 := SFabs.

(** [a < b], [a <= b], [a > b], [a >= b] on [f64]. *)
Definition flt (a b : f64) : bool := SFltb a b.
Definition fle (a b : f64) : bool := SFleb a b.
Definition fgt (a b : f64) : bool := SFltb b a.
Definition fge (a b : f64) : bool := SFleb b a.
Definition feq (a b : f64) : bool := SFeqb a b.

Definition is_nan (a : f64) : bool :=
  match a with S754_nan => true | _ => false end.
Definition is_finite (a : f64) : bool :=
  match a with S754_finite _ _ _ | S754_zero _ => true | _ => false end.

(** ** Literals and casts *)

(** [z as f64] for an integer [z] (round to nearest even); also what parsing
    the decimal digits of [z] gives. *)
Definition f64_of_Z (z : Z) : f64 := binary_normalize 53 1024 z 0 false.
(** The decimal literal [n/d]: with [n] and [d] exact this is the double
    nearest to the quotient, which is what the literal denotes. *)
Definition f64_lit (n d : Z) : f64 := fdiv (f64_of_Z n) (f64_of_Z d).

Definition f0 : f64 := S754_zero false.
Definition f1 : f64 := f64_of_Z 1.
Definition f1e18 : f64 := f64_of_Z (10 ^ 18).
Definition f64_epsilon : f64 := S754_finite false (2 ^ 52) (-104).

(** Truncation towards zero of a finite float. *)
Definition f64_trunc (s : bool) (m : positive) (e : Z) : Z :=
  let a := if 0 <=? e then Zpos m * 2 ^ e else Zpos m / 2 ^ (- e) in
  if s then - a else a.

(** [f as uN]: NaN to 0, saturating at both ends, truncating inside. *)
Definition f64_to_uint (w : Z) (f : f64) : Z :=
  match f with
  | S754_nan | S754_zero _ => 0
  | S754_infinity s => if s then 0 else umax w
  | S754_finite s m e => Z.max 0 (Z.min (f64_trunc s m e) (umax w))
  end.

(** [f64::round]: half away from zero. *)
Definition f64_round (f : f64) : f64 :=
  match f with
  | S754_finite s m e =>
      if 0 <=? e then f
      else
        let q := (2 * Zpos m + 2 ^ (- e)) / 2 ^ (- e + 1) in
        binary_normalize 53 1024 (if s then - q else q) 0 s
  | _ => f
  end.

(** [f64::max] and [f64::min]: the other argument when one is NaN. *)
Definition fmax (a b : f64) : f64 :=
  if is_nan a then b else if is_nan b then a else if flt a b then b else a.
Definition fmin (a b : f64) : f64 :=
  if is_nan a then b else if is_nan b then a else if flt b a then b else a.
(** [f64::clamp] keeps NaN. *)
Definition fclamp (x lo hi : f64) : f64 :=
  if flt x lo then lo else if fgt x hi then hi else x.

(** ** Examples: the operations compute the doubles Rust computes *)

Example f64_lit_03 : f64_lit 3 10 = S754_finite false 5404319552844595 (-54).
Proof. vm_compute. reflexivity. Qed.
Example f64_add_inexact :
  fadd (f64_lit 1 10) (f64_lit 2 10) = S754_finite false 5404319552844596 (-54).
Proof. vm_compute. reflexivity. Qed.
Example f64_cast_saturates : f64_to_uint 128 (f64_of_Z (2 ^ 200)) = 2 ^ 128 - 1.
Proof. vm_compute. reflexivity. Qed.
Example f64_cast_truncates : f64_to_uint 64 (f64_lit 29 10) = 2.
Proof. vm_compute. reflexivity. Qed.
Example f64_round_half_up : f64_round (f64_lit 5 2) = f64_of_Z 3.
Proof. vm_compute. reflexivity. Qed.
Example f64_epsilon_val : f64_epsilon = fdiv f1 (f64_of_Z (2 ^ 52)).
Proof. vm_compute. reflexivity. Qed.

(** ** The order

    [fkey] places the non-NaN floats in a lexicographic order of integers;
    [SFcompare] is that order, so comparisons of floats become linear
    arithmetic. *)

Definition fkey (x : f64) : Z * Z * Z :=
  match x with
  | S754_nan => (3, 0, 0)
  | S754_infinity true => (-2, 0, 0)
  | S754_finite true m e => (-1, - e, - Zpos m)
  | S754_zero _ => (0, 0, 0)
  | S754_finite false m e => (1, e, Zpos m)
  | S754_infinity false => (2, 0, 0)
  end.

Definition key_lt (a b : Z * Z * Z) : Prop :=
  let '(a1, a2, a3) := a in
  let '(b1, b2, b3) := b in
  a1 < b1 ∨ (a1 = b1 ∧ (a2 < b2 ∨ (a2 = b2 ∧ a3 < b3))).

Lemma flt_key a b :
  flt a b = true ↔ is_nan a = false ∧ is_nan b = false ∧ key_lt (fkey a) (fkey b).
Proof.
  unfold flt, SFltb, key_lt.
  destruct a as [s|s| |s m e], b as [t|t| |t n f]; try destruct s; try destruct t;
    cbn; try (split; [intros; try discriminate; repeat split; try done; lia|
      intros (? & ? & ?); try discriminate; try lia; done]).
  all: change (Pos.compare_cont Eq m n) with (Pos.compare m n);
    destruct (Z.compare_spec e f); try destruct (Pos.compare_spec m n); cbn;
    (split; [intros; try discriminate; repeat split; try done; lia|
      intros (? & ? & ?); try discriminate; try lia; done]).
Qed.

Lemma fle_key a b :
  fle a b = true ↔ is_nan a = false ∧ is_nan b = false ∧ ¬ key_lt (fkey b) (fkey a).
Proof.
  unfold fle, SFleb, key_lt.
  destruct a as [s|s| |s m e], b as [t|t| |t n f]; try destruct s; try destruct t;
    cbn; try (split; [intros; try discriminate; repeat split; try done; lia|
      intros (? & ? & ?); try discriminate; try lia; done]).
  all: change (Pos.compare_cont Eq m n) with (Pos.compare m n);
    destruct (Z.compare_spec e f); try destruct (Pos.compare_spec m n); cbn;
    (split; [intros; try discriminate; repeat split; try done; lia|
      intros (? & ? & ?); try discriminate; try lia; done]).
Qed.

(** Decide a goal about the float order by translating to the keys. *)
Ltac forder_prep :=
  repeat match goal with
    | H : context [fgt ?a ?b] |- _ => change (fgt a b) with (flt b a) in H
    | H : context [fge ?a ?b] |- _ => change (fge a b) with (fle b a) in H
    end;
  try match goal with
    | |- context [fgt ?a ?b] => change (fgt a b) with (flt b a)
    | |- context [fge ?a ?b] => change (fge a b) with (fle b a)
    end;
  repeat match goal with
    | H : flt _ _ = true |- _ => apply flt_key in H; destruct H as (? & ? & ?)
    | H : fle _ _ = true |- _ => apply fle_key in H; destruct H as (? & ? & ?)
    | H : flt _ _ = false |- _ => rewrite <- not_true_iff_false, flt_key in H
    | H : fle _ _ = false |- _ => rewrite <- not_true_iff_false, fle_key in H
    end;
  try match goal with
    | |- flt _ _ = true => apply flt_key; split_and!
    | |- fle _ _ = true => apply fle_key; split_and!
    | |- flt _ _ = false => rewrite <- not_true_iff_false, flt_key; intros (? & ? & ?)
    | |- fle _ _ = false => rewrite <- not_true_iff_false, fle_key; intros (? & ? & ?)
    end.
Ltac forder_keys :=
  unfold key_lt in *;
  repeat match goal with
    | _ : context [fkey ?a] |- _ =>
        let k := fresh "k" in
        set (k := fkey a) in *; clearbody k; destruct k as [[? ?] ?]
    | |- context [fkey ?a] =>
        let k := fresh "k" in
        set (k := fkey a) in *; clearbody k; destruct k as [[? ?] ?]
    end; cbn in *.
Ltac forder := forder_prep; try assumption; try congruence; forder_keys; intuition (try congruence; try lia).

Lemma flt_irrefl a : flt a a = false.
Proof. forder. Qed.
Lemma fle_refl a : is_nan a = false → fle a a = true.
Proof. intros. forder. Qed.
Lemma flt_trans a b c : flt a b = true → flt b c = true → flt a c = true.
Proof. intros. forder. Qed.
Lemma fle_trans a b c : fle a b = true → fle b c = true → fle a c = true.
Proof. intros. forder. Qed.
Lemma flt_le_trans a b c : flt a b = true → fle b c = true → flt a c = true.
Proof. intros. forder. Qed.
Lemma fle_lt_trans a b c : fle a b = true → flt b c = true → flt a c = true.
Proof. intros. forder. Qed.
Lemma flt_le a b : flt a b = true → fle a b = true.
Proof. intros. forder. Qed.
Lemma fle_flip a b : is_nan a = false → is_nan b = false → flt a b = negb (fle b a).
Proof.
  intros. destruct (flt a b) eqn:H1, (fle b a) eqn:H2; cbn; try done; exfalso; forder.
Qed.
Lemma flt_nan_l b : flt S754_nan b = false.
Proof. by destruct b. Qed.
Lemma flt_nan_r a : flt a S754_nan = false.
Proof. by destruct a as [[]|[]| |[]]. Qed.
Lemma fle_nan_l b : fle S754_nan b = false.
Proof. by destruct b. Qed.
Lemma fle_nan_r a : fle a S754_nan = false.
Proof. by destruct a as [[]|[]| |[]]. Qed.
Lemma fle_not_nan a b : fle a b = true → is_nan a = false ∧ is_nan b = false.
Proof. intros (? & ? & ?)%fle_key. done. Qed.
Lemma flt_not_nan a b : flt a b = true → is_nan a = false ∧ is_nan b = false.
Proof. intros (? & ? & ?)%flt_key. done. Qed.

(** ** Casts *)

Lemma f64_to_uint_width w f : 0 ≤ w → in_width w (f64_to_uint w f).
Proof.
  intros Hw. pose proof (pow2_pos w Hw).
  destruct f as [|[]| |]; cbn; unfold in_width, umax; lia.
Qed.
#[export] Hint Resolve f64_to_uint_width : width.

(** ** [max], [min] *)

Lemma fmax_ge_l a b : is_nan a = false → fle a (fmax a b) = true.
Proof.
  intros Ha. unfold fmax. rewrite Ha. destruct (is_nan b) eqn:Hb; [by apply fle_refl|].
  destruct (flt a b) eqn:E; [by apply flt_le|by apply fle_refl].
Qed.
Lemma fmax_ge_r a b : is_nan b = false → fle b (fmax a b) = true.
Proof.
  intros Hb. unfold fmax. destruct (is_nan a) eqn:Ha; [by apply fle_refl|]. rewrite Hb.
  destruct (flt a b) eqn:E; [by apply fle_refl|].
  rewrite (fle_flip a b Ha Hb) in E. by apply negb_false_iff in E.
Qed.
Lemma fmin_le_l a b : is_nan a = false → fle (fmin a b) a = true.
Proof.
  intros Ha. unfold fmin. rewrite Ha. destruct (is_nan b) eqn:Hb; [by apply fle_refl|].
  destruct (flt b a) eqn:E; [by apply flt_le|by apply fle_refl].
Qed.
Lemma fmin_le_r a b : is_nan b = false → fle (fmin a b) b = true.
Proof.
  intros Hb. unfold fmin. destruct (is_nan a) eqn:Ha; [by apply fle_refl|]. rewrite Hb.
  destruct (flt b a) eqn:E; [by apply fle_refl|].
  rewrite (fle_flip b a Hb Ha) in E. by apply negb_false_iff in E.
Qed.
Lemma fmax_not_nan_r a b : is_nan b = false → is_nan (fmax a b) = false.
Proof. intros Hb. unfold fmax. destruct (is_nan a) eqn:?; [done|]. rewrite Hb. by destruct (flt a b). Qed.
Lemma fmax_not_nan_l a b : is_nan a = false → is_nan (fmax a b) = false.
Proof. intros Ha. unfold fmax. rewrite Ha. destruct (is_nan b) eqn:?; [done|]. by destruct (flt a b). Qed.

(** [iter().fold(0.0, f64::max)] does not depend on the order: above a zero
    of positive sign the order of floats is antisymmetric. *)
Lemma fkey_inj a b :
  is_nan a = false → is_nan b = false → flt f0 a = true → ¬ key_lt (fkey a) (fkey b) →
  ¬ key_lt (fkey b) (fkey a) → a = b.
Proof.
  intros Ha Hb (_ & _ & H0)%flt_key.
  destruct a as [[]|[]| |[] m e], b as [[]|[]| |[] n f]; cbn in *; try done; try lia.
  intros H1 H2. assert (e = f ∧ m = n) as [-> ->] by lia. done.
Qed.

Definition fmax_acc (a : f64) : Prop := a = f0 ∨ flt f0 a = true.

Lemma fmax_acc_step a b : fmax_acc a → fmax_acc (fmax a b).
Proof.
  unfold fmax. intros [->|Ha]; cbn [is_nan f0].
  - destruct (is_nan b); [by left|]. destruct (flt f0 b) eqn:E; [by right|by left].
  - destruct (is_nan a) eqn:Hn; [forder|]. destruct (is_nan b); [by right|].
    destruct (flt a b) eqn:E; right; [by eapply flt_trans|done].
Qed.

Lemma fmax_swap a x y : fmax_acc a → fmax (fmax a x) y = fmax (fmax a y) x.
Proof.
  intros Hacc. assert (is_nan a = false ∧ fle f0 a = true) as [Ha H0].
  { destruct Hacc as [->|H]; [done|]. split; forder. }
  unfold fmax. rewrite Ha. destruct (is_nan x) eqn:Hx, (is_nan y) eqn:Hy;
    rewrite ?Ha, ?Hx, ?Hy; try done.
  { destruct (flt a y); by rewrite ?Ha, ?Hy. }
  { destruct (flt a x); by rewrite ?Ha, ?Hx. }
  destruct (flt a x) eqn:E1, (flt a y) eqn:E2; rewrite ?Ha, ?Hx, ?Hy, ?E1, ?E2; try done.
  - destruct (flt x y) eqn:E3, (flt y x) eqn:E4; try done.
    + exfalso. forder.
    + apply fkey_inj; try done; [by eapply fle_lt_trans|..]; intros ?; forder.
  - assert (flt x y = false) as -> by forder. done.
  - assert (flt y x = false) as -> by forder. done.
Qed.

Lemma foldl_fmax_perm a l1 l2 : fmax_acc a → l1 ≡ₚ l2 → foldl fmax a l1 = foldl fmax a l2.
Proof.
  intros Ha Hp. revert a Ha. induction Hp as [|x l1 l2 _ IH|x y l|l1 l2 l3 _ IH1 _ IH2];
    intros a Ha; cbn; [done|by apply IH, fmax_acc_step|by rewrite fmax_swap|].
  by rewrite IH1, IH2.
Qed.
