(* ===== verification/Bytes.v ===== *)
(** * Byte strings: big-endian words, addresses, hexadecimal

    Calldata, event data and RPC results are byte strings.  A [U256] word is
    32 bytes big-endian, an address 20 bytes, right-aligned in a word when it
    is ABI-encoded.  Reads of a slice return [option]: the source checks the
    length before it slices, and an out-of-range slice in Rust panics. *)

From Stdlib Require Import ZArith Lia Strings.Byte Ascii String.
From S2P Require Import Prelude.

(** An [Address] is a 160-bit value, a [B256] and a [U256] 256-bit ones. *)
Abbreviation Address := Z (only parsing).
Abbreviation B256 := Z (only parsing).
Abbreviation U256 := Z (only parsing).
Abbreviation bytes := (list Byte.byte) (only parsing).

(** ** Bytes as integers *)

Definition byte_val (b : Byte.byte) : Z := Z.of_N (Byte.to_N b).
Definition byte_of (z : Z) : Byte.byte :=
  match Byte.of_N (Z.to_N (z mod 256)) with
  | Some b => b
  | None => Byte.x00
  end.

Lemma byte_val_bound b : 0 ≤ byte_val b < 256.
Proof. unfold byte_val. pose proof (Byte.to_N_bounded b). lia. Qed.

Lemma byte_val_of z : byte_val (byte_of z) = z mod 256.
Proof.
  unfold byte_of, byte_val.
  pose proof (Z.mod_pos_bound z 256 ltac:(lia)).
  destruct (Byte.of_N (Z.to_N (z mod 256))) as [b|] eqn:E.
  - apply Byte.to_of_N in E. rewrite E. lia.
  - apply Byte.of_N_None_iff in E. lia.
Qed.

Lemma byte_of_val b : byte_of (byte_val b) = b.
Proof.
  unfold byte_of, byte_val.
  pose proof (Byte.to_N_bounded b).
  rewrite Z.mod_small by lia. rewrite N2Z.id, Byte.of_to_N. done.
Qed.

Lemma byte_val_inj a b : byte_val a = byte_val b → a = b.
Proof. intros H. rewrite <- (byte_of_val a), <- (byte_of_val b). by rewrite H. Qed.

#[global] Instance byte_eq_dec' : EqDecision Byte.byte := Byte.byte_eq_dec.

(** ** Big-endian integers *)

(** [from_be_slice]. *)
Definition from_be (bs : bytes) : Z :=
  foldl (fun acc b => acc * 256 + byte_val b) 0 bs.

(** The [n] big-endian bytes of [z]: [to_be_bytes::<n>]. *)
Fixpoint to_be (n : nat) (z : Z) : bytes :=
  match n with
  | O => []
  | S n' => to_be n' (z / 256) ++ [byte_of z]
  end.

Lemma length_to_be n z : length (to_be n z) = n.
Proof. revert z. induction n as [|n IH]; intros z; cbn; [done|]. rewrite length_app, IH. cbn. lia. Qed.

Lemma from_be_snoc bs b : from_be (bs ++ [b]) = from_be bs * 256 + byte_val b.
Proof. unfold from_be. by rewrite foldl_app. Qed.

Lemma from_be_to_be n z : from_be (to_be n z) = z mod 256 ^ Z.of_nat n.
Proof.
  revert z. induction n as [|n IH]; intros z; cbn [to_be].
  - cbn. by rewrite Z.mod_1_r.
  - rewrite from_be_snoc, IH, byte_val_of.
    rewrite Nat2Z.inj_succ, Z.pow_succ_r by lia.
    rewrite Z.rem_mul_r by lia. lia.
Qed.

Lemma from_be_to_be_id n z : 0 ≤ z < 256 ^ Z.of_nat n → from_be (to_be n z) = z.
Proof. intros. rewrite from_be_to_be. by apply Z.mod_small. Qed.

Lemma from_be_bound bs : 0 ≤ from_be bs < 256 ^ Z.of_nat (length bs).
Proof.
  induction bs as [|b bs IH] using rev_ind; [cbn; lia|].
  rewrite from_be_snoc, length_app. cbn.
  replace (length bs + 1)%nat with (S (length bs)) by lia.
  rewrite Nat2Z.inj_succ, Z.pow_succ_r by lia.
  pose proof (byte_val_bound b). lia.
Qed.

Lemma to_be_from_be bs : to_be (length bs) (from_be bs) = bs.
Proof.
  induction bs as [|b bs IH] using rev_ind; [done|].
  rewrite from_be_snoc, length_app. cbn.
  replace (length bs + 1)%nat with (S (length bs)) by lia. cbn [to_be].
  pose proof (byte_val_bound b).
  rewrite Z.div_add_l, Z.div_small, Z.add_0_r, IH by lia.
  f_equal. f_equal. apply byte_val_inj. rewrite byte_val_of.
  rewrite Z.add_comm, Z.mod_add by lia. by apply Z.mod_small.
Qed.

(** ** Words *)


Definition word (z : Z) : bytes := to_be 32 z.
(** An address right-aligned in a 32-byte word: 12 zero bytes, 20 bytes. *)
Definition address_word (a : Address) : bytes := replicate 12 Byte.x00 ++ to_be 20 a.

#[global] Arguments word : simpl never.
#[global] Arguments address_word : simpl never.
#[global] Arguments to_be : simpl never.
#[global] Arguments from_be : simpl never.

Lemma length_word z : length (word z) = 32%nat.
Proof. apply length_to_be. Qed.
Lemma length_address_word a : length (address_word a) = 32%nat.
Proof. unfold address_word. rewrite length_app, length_replicate, length_to_be. done. Qed.

Lemma from_be_word z : in_width 256 z → from_be (word z) = z.
Proof. intros. apply from_be_to_be_id. change (256 ^ Z.of_nat 32) with (2 ^ 256). done. Qed.
Lemma from_be_word_bound bs : length bs = 32%nat → in_width 256 (from_be bs).
Proof. intros H. pose proof (from_be_bound bs). rewrite H in *. done. Qed.
Lemma from_be_address a : in_width 160 a → from_be (to_be 20 a) = a.
Proof. intros. apply from_be_to_be_id. change (256 ^ Z.of_nat 20) with (2 ^ 160). done. Qed.

Lemma from_be_app a b : from_be (a ++ b) = from_be a * 256 ^ Z.of_nat (length b) + from_be b.
Proof.
  induction b as [|x b IH] using rev_ind.
  - rewrite app_nil_r. change (from_be []) with 0. cbn. lia.
  - rewrite app_assoc, !from_be_snoc, IH, length_app, Nat2Z.inj_add, Z.pow_add_r by lia.
    cbn. lia.
Qed.

(** [bytes.iter().all(|b| b == 0)]. *)
Definition all_zero (bs : bytes) : bool := forallb (λ b, byte_val b =? 0) bs.

Lemma all_zero_spec bs : all_zero bs = true ↔ from_be bs = 0.
Proof.
  induction bs as [|b bs IH] using rev_ind; [done|].
  unfold all_zero in *. rewrite forallb_app, andb_true_iff, IH, from_be_snoc. cbn.
  pose proof (from_be_bound bs). pose proof (byte_val_bound b).
  rewrite andb_true_r, Z.eqb_eq. lia.
Qed.

(** [chunks_exact(32)]: the whole 32-byte words, a short tail dropped. *)
Fixpoint words_aux (n : nat) (bs : bytes) : list bytes :=
  match n with
  | O => []
  | S n => take 32 bs :: words_aux n (drop 32 bs)
  end.
Definition chunks_exact32 (bs : bytes) : list bytes := words_aux (length bs / 32) bs.

Lemma words_aux_length n bs w :
  (32 * n ≤ length bs)%nat → w ∈ words_aux n bs → length w = 32%nat.
Proof.
  revert bs. induction n as [|n IH]; intros bs Hn; cbn; [by intros ?%not_elem_of_nil|].
  intros [->|Hw]%elem_of_cons; [rewrite length_take; lia|].
  eapply IH; [|exact Hw]. rewrite length_drop. lia.
Qed.

Lemma chunks_exact32_length bs w : w ∈ chunks_exact32 bs → length w = 32%nat.
Proof. apply words_aux_length. apply Nat.Div0.mul_div_le. Qed.

(** [&buf[lo..hi]]: [None] where Rust panics. *)
Definition slice (lo hi : nat) (bs : bytes) : option bytes :=
  if decide (lo ≤ hi ∧ hi ≤ length bs)%nat then Some (take (hi - lo) (drop lo bs)) else None.

Lemma slice_length lo hi bs s : slice lo hi bs = Some s → length s = (hi - lo)%nat.
Proof.
  unfold slice. case_decide as H; [|done]. intros [= <-].
  rewrite length_take, length_drop. lia.
Qed.

Lemma slice_app pre mid post lo hi :
  length pre = lo → length mid = (hi - lo)%nat → (lo ≤ hi)%nat →
  slice lo hi (pre ++ mid ++ post) = Some mid.
Proof.
  intros H1 H2 H3. unfold slice. rewrite decide_True.
  - f_equal. rewrite drop_app_length' by done. rewrite take_app_length' by done. done.
  - rewrite !length_app. lia.
Qed.

(** ** Hexadecimal *)

Definition hex_digit (n : Z) : ascii :=
  ascii_of_N (Z.to_N (if n <? 10 then 48 + n else 87 + n)).

(** [char::to_digit(16)]: digits and both letter cases. *)
Definition to_digit16 (c : ascii) : option Z :=
  let n := Z.of_N (N_of_ascii c) in
  if (48 <=? n) && (n <=? 57) then Some (n - 48)
  else if (97 <=? n) && (n <=? 102) then Some (n - 87)
  else if (65 <=? n) && (n <=? 70) then Some (n - 55)
  else None.

Lemma to_digit16_hex_digit n : 0 ≤ n < 16 → to_digit16 (hex_digit n) = Some n.
Proof.
  intros H. assert (n ∈ seqZ 0 16) as Hn by (apply elem_of_seqZ; lia).
  revert n Hn H. apply (proj1 (Forall_forall (fun n => 0 ≤ n < 16 → to_digit16 (hex_digit n) = Some n) _)).
  repeat (constructor; [intros; vm_compute; reflexivity|]). constructor.
Qed.

(** ** Parsing and printing integers *)

(** [uN::from_str_radix]: a lone sign is refused, one leading plus is dropped,
    a digit out of range or an overflow of [w] bits fails. *)
Definition radix_step (radix w : Z) (digit : ascii → option Z) (acc : option Z) (c : ascii)
  : option Z :=
  match acc, digit c with
  | Some a, Some d => try_from_width w (a * radix + d)
  | _, _ => None
  end.

Definition parse_radix (radix w : Z) (digit : ascii → option Z) (s : list ascii) : option Z :=
  match s with
  | [] | ["+"%char] | ["-"%char] => None
  | "+"%char :: r => foldl (radix_step radix w digit) (Some 0) r
  | _ => foldl (radix_step radix w digit) (Some 0) s
  end.

Definition from_str_radix16 (w : Z) (s : list ascii) : option Z := parse_radix 16 w to_digit16 s.

(** [trim_start_matches("0x")]. *)
Fixpoint trim_0x (s : list ascii) : list ascii :=
  match s with
  | "0"%char :: "x"%char :: r => trim_0x r
  | _ => s
  end.

Definition to_digit10 (c : ascii) : option Z :=
  let n := Z.of_N (N_of_ascii c) in
  if (48 <=? n) && (n <=? 57) then Some (n - 48) else None.

Definition parse_u64 (s : list ascii) : option Z := parse_radix 10 64 to_digit10 s.

(** [u64::to_string]: 20 decimal digits are enough for 64 bits. *)
Fixpoint decimal (fuel : nat) (n : Z) : list ascii :=
  match fuel with
  | O => []
  | S f => if n <? 10 then [hex_digit n] else decimal f (n / 10) ++ [hex_digit (n mod 10)]
  end.
Definition u64_to_string (n : Z) : list ascii := decimal 20 n.

Definition is_whitespace (c : ascii) : bool :=
  let n := N_of_ascii c in ((9 <=? n) && (n <=? 13) || (n =? 32))%N.
Fixpoint trim_start (s : list ascii) : list ascii :=
  match s with
  | c :: r => if is_whitespace c then trim_start r else s
  | [] => []
  end.
(** [str::trim]. *)
Definition trim (s : list ascii) : list ascii := rev (trim_start (rev (trim_start s))).

#[global] Arguments u64_to_string : simpl never.
#[global] Arguments parse_u64 : simpl never.
#[global] Arguments trim : simpl never.

Lemma digit10_hex_digit n : 0 ≤ n < 10 → to_digit10 (hex_digit n) = Some n ∧
  is_whitespace (hex_digit n) = false ∧ hex_digit n ≠ "+"%char ∧ hex_digit n ≠ "-"%char.
Proof.
  intros H. assert (n ∈ seqZ 0 10) as Hn by (apply elem_of_seqZ; lia).
  revert n Hn H.
  apply (proj1 (Forall_forall (fun n => 0 ≤ n < 10 → to_digit10 (hex_digit n) = Some n ∧
    is_whitespace (hex_digit n) = false ∧ hex_digit n ≠ "+"%char ∧ hex_digit n ≠ "-"%char) _)).
  repeat (constructor; [intros; vm_compute; naive_solver|]). constructor.
Qed.

Lemma decimal_digits fuel n :
  0 ≤ n → Forall (λ c, ∃ d, 0 ≤ d < 10 ∧ c = hex_digit d) (decimal fuel n).
Proof.
  revert n. induction fuel as [|f IH]; intros n Hn; cbn; [constructor|].
  case_scrut; zbool.
  - constructor; [|constructor]. exists n. split; [lia|done].
  - apply Forall_app. split; [apply IH, Z.div_pos; lia|].
    constructor; [|constructor]. exists (n mod 10). split; [apply Z.mod_pos_bound; lia|done].
Qed.

Lemma decimal_fold w fuel n :
  0 ≤ n < 10 ^ Z.of_nat fuel → n < 2 ^ w →
  foldl (radix_step 10 w to_digit10) (Some 0) (decimal fuel n) = Some n.
Proof.
  revert n. induction fuel as [|f IH]; intros n Hn Hw; cbn [decimal].
  { cbn in *. assert (n = 0) as -> by lia. done. }
  assert (∀ z, z < 2 ^ w → 0 ≤ z → try_from_width w z = Some z) as Hfit.
  { intros z ??. unfold try_from_width. case_scrut; [done|]. zbool. lia. }
  case_scrut; zbool.
  - cbn. rewrite (proj1 (digit10_hex_digit n ltac:(lia))). apply Hfit; lia.
  - rewrite foldl_app, IH.
    + cbn. pose proof (Z.mod_pos_bound n 10).
      rewrite (proj1 (digit10_hex_digit (n mod 10) ltac:(lia))).
      replace (n / 10 * 10 + n mod 10) with n by (pose proof (Z.div_mod n 10 ltac:(lia)); lia).
      apply Hfit; lia.
    + rewrite Nat2Z.inj_succ, Z.pow_succ_r in Hn by lia.
      split; [apply Z.div_pos; lia|apply Z.div_lt_upper_bound; lia].
    + apply Z.le_lt_trans with n; [apply Z.div_le_upper_bound; lia|done].
Qed.

Lemma decimal_nonempty fuel n : decimal (S fuel) n ≠ [].
Proof. cbn. case_scrut; [done|]. by destruct (decimal fuel (n / 10)). Qed.

Lemma trim_start_digits s :
  Forall (λ c, ∃ d, 0 ≤ d < 10 ∧ c = hex_digit d) s → trim_start s = s.
Proof.
  destruct 1 as [|c s (d & Hd & ->) _]; [done|]. cbn.
  by rewrite (proj1 (proj2 (digit10_hex_digit d Hd))).
Qed.

(** Printing an integer and parsing it back at any width that holds it. *)
Lemma parse_decimal w fuel n :
  (0 < fuel)%nat → 0 ≤ n < 10 ^ Z.of_nat fuel → n < 2 ^ w →
  parse_radix 10 w to_digit10 (decimal fuel n) = Some n.
Proof.
  intros Hfuel Hn Hw. pose proof (decimal_digits fuel n ltac:(lia)) as Hd.
  pose proof (decimal_fold w fuel n Hn Hw) as Hf.
  destruct fuel as [|f]; [lia|]. pose proof (decimal_nonempty f n) as Hne.
  unfold parse_radix. destruct Hd as [|c s (d & Hdr & ->) _]; [done|].
  pose proof (digit10_hex_digit d Hdr) as (_ & _ & Hp & Hm).
  destruct (hex_digit d) as [[] [] [] [] [] [] [] []]; try done; destruct s; done.
Qed.

(** Printing a 64-bit integer and parsing it back, spaces trimmed. *)
Lemma parse_u64_to_string n : in_width 64 n → parse_u64 (trim (u64_to_string n)) = Some n.
Proof.
  intros [Hn Hw]. pose proof (decimal_digits 20 n Hn) as Hd.
  unfold trim, u64_to_string. rewrite (trim_start_digits _ Hd).
  rewrite trim_start_digits, rev_involutive by (by apply Forall_rev).
  apply parse_decimal; lia.
Qed.
