(* ===== verification/Rpc.v ===== *)
(** * JSON values and the quantities of JSON-RPC

    What the program reads of [serde_json::Value]: members of objects, strings,
    unsigned integers, arrays; and the hexadecimal quantities it formats
    ([format!("0x{n:x}")]) and parses ([from_str_radix] after
    [trim_start_matches("0x")]).  Parsing JSON text belongs to serde_json: the
    components take its result. *)

From Stdlib Require Import ZArith Lia Ascii String.
From S2P Require Import Prelude Bytes.

Local Abbreviation text := (list ascii) (only parsing).

(** ** Values *)

#[warnings="-register-all"]
Inductive json : Type :=
| JNull
| JBool (b : bool)
| JInt (n : Z)
| JFloat
| JString (s : text)
| JArray (l : list json)
| JObject (fields : list (text * json)).

(** The member of that name; an object parsed by serde_json has each name at
    most once. *)
Fixpoint field (k : text) (fs : list (text * json)) : option json :=
  match fs with
  | [] => None
  | (k', v) :: fs => if bool_decide (k' = k) then Some v else field k fs
  end.

(** [v.get(k)]. *)
Definition get (k : string) (v : json) : option json :=
  match v with JObject fs => field (list_ascii_of_string k) fs | _ => None end.

Definition as_str (v : json) : option text :=
  match v with JString s => Some s | _ => None end.
Definition as_u64 (v : json) : option Z :=
  match v with JInt n => try_from_width 64 n | _ => None end.
Definition as_array (v : json) : option (list json) :=
  match v with JArray l => Some l | _ => None end.

(** [v.get("result").and_then(|s| s.as_str())]. *)
Definition result_str (v : json) : option text := r ← get "result" v; as_str r.

(** Replies, for instances. *)
Definition result_reply (v : json) : json := JObject [(list_ascii_of_string "result", v)].
Definition error_reply (v : json) : json := JObject [(list_ascii_of_string "error", v)].

Lemma get_result v : get "result" (result_reply v) = Some v.
Proof. done. Qed.
Lemma get_result_error v : get "error" (result_reply v) = None.
Proof. done. Qed.
Lemma result_str_reply s : result_str (result_reply (JString s)) = Some s.
Proof. done. Qed.

(** ** Hexadecimal quantities *)

(** [format!("{n:x}")]: 64 digits are enough for 256 bits. *)
Fixpoint hexadecimal (fuel : nat) (n : Z) : text :=
  match fuel with
  | O => []
  | S f => if n <? 16 then [hex_digit n] else hexadecimal f (n / 16) ++ [hex_digit (n mod 16)]
  end.
Definition hex_of (n : Z) : text := hexadecimal 64 n.
Definition quantity (n : Z) : text := "0"%char :: "x"%char :: hex_of n.

#[global] Arguments hex_of : simpl never.

Definition is_hex (c : ascii) : Prop := is_Some (to_digit16 c).

Lemma hex_digit_is_hex n : 0 ≤ n < 16 → is_hex (hex_digit n).
Proof. intros H. unfold is_hex. by rewrite to_digit16_hex_digit. Qed.

Lemma hexadecimal_digits fuel n : 0 ≤ n → Forall is_hex (hexadecimal fuel n).
Proof.
  revert n. induction fuel as [|f IH]; intros n Hn; cbn [hexadecimal]; [constructor|].
  destruct (Z.ltb_spec n 16).
  - repeat constructor. by apply hex_digit_is_hex.
  - apply Forall_app. split; [apply IH, Z.div_pos; lia|].
    repeat constructor. apply hex_digit_is_hex, Z.mod_pos_bound. lia.
Qed.

Lemma trim_0x_digits s : Forall is_hex s → trim_0x s = s.
Proof.
  intros H. destruct s as [|a [|b r]]; [done|by destruct a as [[] [] [] [] [] [] [] []]|].
  inversion H as [|? ? _ H2]; subst. inversion H2 as [|? ? Hb _]; subst.
  destruct (decide (b = "x"%char)) as [->|Hx]; [by destruct Hb|].
  destruct a as [[] [] [] [] [] [] [] []]; try done.
  destruct b as [[] [] [] [] [] [] [] []]; try done.
Qed.

Lemma hexadecimal_fold w fuel n :
  0 ≤ n < 2 ^ w → n < 16 ^ Z.of_nat fuel → (0 < fuel)%nat →
  foldl (radix_step 16 w to_digit16) (Some 0) (hexadecimal fuel n) = Some n.
Proof.
  revert n. induction fuel as [|f IH]; intros n Hn Hf Hpos; [lia|]. cbn [hexadecimal].
  destruct (Z.ltb_spec n 16) as [Hlt|Hge].
  - cbn [foldl]. unfold radix_step. rewrite to_digit16_hex_digit by lia.
    unfold try_from_width. rewrite Z.mul_0_l, Z.add_0_l.
    destruct (Z.leb_spec 0 n); [|lia]. by destruct (Z.ltb_spec n (2 ^ w)); [|lia].
  - rewrite foldl_app. rewrite Nat2Z.inj_succ, Z.pow_succ_r in Hf by lia.
    assert (n / 16 < 16 ^ Z.of_nat f) by (apply Z.div_lt_upper_bound; lia).
    assert (n / 16 ≤ n) by (apply Z.div_le_upper_bound; lia).
    pose proof (Z.mod_pos_bound n 16 ltac:(lia)). pose proof (Z.div_pos n 16 ltac:(lia) ltac:(lia)).
    rewrite IH; [|lia|done|].
    2: { destruct f; [cbn in Hf; lia|lia]. }
    cbn [foldl]. unfold radix_step. rewrite to_digit16_hex_digit by done.
    replace (n / 16 * 16 + n mod 16) with n by (pose proof (Z.div_mod n 16); lia).
    unfold try_from_width. destruct (Z.leb_spec 0 n); [|lia].
    by destruct (Z.ltb_spec n (2 ^ w)); [|lia].
Qed.

Lemma parse_hex_digits w s :
  Forall is_hex s → s ≠ [] → from_str_radix16 w s = foldl (radix_step 16 w to_digit16) (Some 0) s.
Proof.
  intros H Hs. unfold from_str_radix16, parse_radix. destruct s as [|a r]; [done|].
  inversion H as [|? ? Ha _]; subst.
  destruct (decide (a = "+"%char)) as [->|Hp]; [by destruct Ha|].
  destruct (decide (a = "-"%char)) as [->|Hm]; [by destruct Ha|].
  destruct a as [[] [] [] [] [] [] [] []]; try done; by destruct r.
Qed.

Lemma hexadecimal_nonempty fuel n : (0 < fuel)%nat → hexadecimal fuel n ≠ [].
Proof.
  destruct fuel; [lia|]. cbn. intros _. destruct (n <? 16); [done|].
  by destruct (hexadecimal fuel (n / 16)).
Qed.

(** A quantity the program formats is the one it parses. *)
Lemma parse_quantity w n : 0 ≤ n < 2 ^ w → 0 ≤ w ≤ 256 →
  from_str_radix16 w (trim_0x (quantity n)) = Some n.
Proof.
  intros Hn Hw. change (trim_0x (quantity n)) with (trim_0x (hex_of n)).
  pose proof (hexadecimal_digits 64 n ltac:(lia)) as Hd. fold (hex_of n) in Hd.
  rewrite trim_0x_digits by done. rewrite parse_hex_digits; [|done|apply hexadecimal_nonempty; lia].
  apply hexadecimal_fold; [done| |lia].
  change (16 ^ Z.of_nat 64) with (2 ^ 256). assert (2 ^ w ≤ 2 ^ 256) by (apply Z.pow_le_mono_r; lia).
  lia.
Qed.
