(* ===== verification/Types.v ===== *)
(** * trader/types.rs: the trader's shared data

    Sides, portfolios, decisions, positions and close reasons, with the
    source's constructors and fields, and the decidable equality and the
    countability that let positions be keyed in a finite map. *)

From Stdlib Require Import ZArith.
From S2P Require Import Prelude F64 Bytes.

Inductive Side : Type := Buy | Sell.

Inductive PortfolioMode : Type := FastTip | NormalTip.

#[global] Instance PortfolioMode_eq_dec : EqDecision PortfolioMode.
Proof. solve_decision. Defined.
#[global] Instance PortfolioMode_countable : Countable PortfolioMode.
Proof.
  refine (inj_countable' (λ m, match m with FastTip => true | NormalTip => false end)
    (λ b : bool, if b then FastTip else NormalTip) _).
  by intros [].
Defined.

(** [PortfolioMode::ALL]. *)
Definition ALL : list PortfolioMode := [FastTip].

Definition portfolio_label (m : PortfolioMode) : string :=
  match m with FastTip => "fast_tip" | NormalTip => "normal_tip" end.

Inductive SkipReason : Type :=
| NotKolHit
| BelowBuyThreshold
| NotASwap
| AlreadyHavePosition
| NoOpenPosition
| UnknownToken
| UnsupportedSide.

Inductive Decision : Type :=
| Skip (reason : SkipReason)
| Enter (kol_name : string) (token : Address) (bnb_amount kol_bnb_input : U256)
    (kol_block : Z) (kol_tx : B256)
| Exit (kol_name : string) (token : Address) (kol_block : Z) (kol_tx : B256)
    (kol_addr : Address).

Record PositionKey : Type := {
  key_portfolio : PortfolioMode;
  key_kol_name : string;
  key_token : Address;
}.

#[global] Instance PositionKey_eq_dec : EqDecision PositionKey.
Proof. solve_decision. Defined.
#[global] Instance PositionKey_countable : Countable PositionKey.
Proof.
  refine (inj_countable' (λ k, (key_portfolio k, key_kol_name k, key_token k))
    (λ '(p, n, t), {| key_portfolio := p; key_kol_name := n; key_token := t |}) _).
  by intros [].
Defined.

Record OpenPosition : Type := {
  portfolio : PortfolioMode;
  kol_name : string;
  token_address : Address;
  token_symbol : string;
  token_decimals : Z;
  bnb_in : U256;
  tokens_held : U256;
  opened_at_block : Z;
  opened_at_unix_ns : Z;
  last_added_block : Z;
  buy_tx_hashes : list B256;
  d_mcap_usd : f64;
  our_entry_mcap_usd : f64;
}.

(** [OpenPosition::key]. *)
Definition key (p : OpenPosition) : PositionKey :=
  {| key_portfolio := portfolio p; key_kol_name := kol_name p; key_token := token_address p |}.

Inductive CloseReason : Type :=
| KolSell
| CloseTimeout
| ManualForce
| NoLiquidity
| PriceUnavailable.

Definition close_label (r : CloseReason) : string :=
  match r with
  | KolSell => "kol_sell"
  | CloseTimeout => "timeout"
  | ManualForce => "manual_force"
  | NoLiquidity => "no_liquidity"
  | PriceUnavailable => "price_unavailable"
  end.

(** [DEFAULT_HOLD_TIMEOUT], in seconds. *)
Definition DEFAULT_HOLD_TIMEOUT : Z := 24 * 3600.
