(* ===== verification/Dex.v ===== *)
(** * crates/bsc-dex: the PancakeSwap V2 and V3 quoters

    Module [Hex] is the hexadecimal codec that v2.rs, v3.rs and multicall.rs
    each define; module [V2] the [getAmountsOut] encoder, decoder and quoter;
    module [V3] the QuoterV2 encoder and the best-fee-tier search.  The node's
    JSON-RPC reply is a parameter of the quoters: a transport error, or the
    parts of the reply the code looks at.  A definition returns [None] where
    the Rust code would panic (slice or subtraction out of range). *)

From Stdlib Require Import ZArith Lia Strings.Byte Ascii String.
From S2P Require Import Prelude Bytes.

(** ** Contract addresses (addresses.rs) *)

Definition WBNB : Address := 0xbb4CdB9CBd36B01bD1cBaEBF2De08d9173bc095c.
Definition PANCAKE_V2_ROUTER : Address := 0x10ED43C718714eb63d5aA57B78B54704E256024E.
Definition PANCAKE_V3_QUOTER_V2 : Address := 0xB048Bbc1Ee6b733FFfCFb9e9CeF7375518e25997.
Definition PANCAKE_V3_FEE_TIERS : list Z := [10000; 2500; 500; 100].
Definition MULTICALL3 : Address := 0xcA11bde05977b3631167028862bE2a173976CA11.

(** ** JSON-RPC replies *)

(** What the quoters read of an HTTP reply: the status class, the ["error"]
    member, the ["result"] member when it is a string. *)
Inductive rpc_reply : Type :=
| TransportErr
| Reply (success : bool) (error : option string) (result : option (list ascii)).

(** The block argument of an [eth_call]: ["latest"] or a number in hex. *)
Inductive block_tag : Type := Latest | AtBlock (n : Z).
Definition tag_of (block : option Z) : block_tag :=
  match block with Some n => AtBlock n | None => Latest end.

(** [strip_prefix("0x").unwrap_or(s)]. *)
Definition strip_0x (s : list ascii) : list ascii :=
  match s with
  | "0"%char :: "x"%char :: r => r
  | _ => s
  end.

Module Hex.

Inductive hex_error : Type := OddHexLength | BadHex.

Definition hex_encode (bs : bytes) : list ascii :=
bs ≫= λ b, [hex_digit (byte_val b / 16); hex_digit (byte_val b mod 16)].

Fixpoint decode_pairs (s : list ascii) : result bytes hex_error :=
match s with
| a :: b :: r =>
match to_digit16 a, to_digit16 b with
| Some hi, Some lo =>
tl <-? decode_pairs r;;
Ok (byte_of (Z.lor (Z.shiftl hi 4) lo) :: tl)
| _, _ => Err BadHex
end
| _ => Ok []
end.

Definition hex_decode (s : list ascii) : result bytes hex_error :=
if Nat.odd (length s) then Err OddHexLength else decode_pairs s.

Lemma hex_encode_cons b bs :
hex_encode (b :: bs) =
hex_digit (byte_val b / 16) :: hex_digit (byte_val b mod 16) :: hex_encode bs.
Proof. done. Qed.

Lemma length_hex_encode bs : length (hex_encode bs) = (2 * length bs)%nat.
Proof. induction bs as [|b bs IH]; [done|]. rewrite hex_encode_cons. cbn. lia. Qed.

Lemma nibbles b : Z.lor (Z.shiftl (byte_val b / 16) 4) (byte_val b mod 16) = byte_val b.
Proof. destruct b; reflexivity. Qed.

Lemma decode_pairs_encode bs : decode_pairs (hex_encode bs) = Ok bs.
Proof.
induction bs as [|b bs IH]; [done|]. rewrite hex_encode_cons.
pose proof (byte_val_bound b).
assert (0 ≤ byte_val b / 16 < 16) by (split; [apply Z.div_pos|apply Z.div_lt_upper_bound]; lia).
pose proof (Z.mod_pos_bound (byte_val b) 16 ltac:(lia)).
cbn [decode_pairs]. rewrite !to_digit16_hex_digit, IH by done.
cbn [result_bind]. by rewrite nibbles, byte_of_val.
Qed.

Lemma decode_encode bs : hex_decode (hex_encode bs) = Ok bs.
Proof.
unfold hex_decode. rewrite length_hex_encode, Nat.odd_mul. cbn.
apply decode_pairs_encode.
Qed.

Lemma decode_pairs_length s bs :
Nat.even (length s) = true → decode_pairs s = Ok bs → length s = (2 * length bs)%nat.
Proof.
remember (length s) as n eqn:Hn. revert s bs Hn.
induction n as [n IH] using lt_wf_ind. intros s bs -> He H.
destruct s as [|a [|b r]]; cbn in *; [naive_solver|done|].
repeat case_match; try done.
destruct (decode_pairs r) as [t|] eqn:Er; cbn in H; [|done]. injection H as <-.
specialize (IH (length r) ltac:(lia) r t eq_refl He Er). cbn. lia.
Qed.

Lemma decode_length s bs : hex_decode s = Ok bs → length s = (2 * length bs)%nat.
Proof.
unfold hex_decode. destruct (Nat.odd (length s)) eqn:E; [done|].
apply decode_pairs_length. rewrite <- Nat.negb_odd, E. done.
Qed.
End Hex.

(** ** PancakeSwap V2 (v2.rs) *)

Module V2.
Import Hex.

Definition GET_AMOUNTS_OUT : bytes := [Byte.xd0; Byte.x6c; Byte.xa6; Byte.x1f].

(** The messages of [V2QuoteError::Rpc], by template. *)
Inductive rpc_message : Type :=
| HttpStatus
| JsonError (e : string)
| MissingResult
| HexDecodeFailed (e : hex_error)
| UnexpectedLength (got expected : Z).

Inductive V2QuoteError : Type :=
| Http
| Rpc (m : rpc_message)
| ShortResult (n : nat)
| BadPath (n : nat).

Definition encode_get_amounts_out (amount_in : U256) (path : list Address) : bytes :=
GET_AMOUNTS_OUT ++ word amount_in ++ word 0x40 ++ word (Z.of_nat (length path))
++ (path ≫= address_word).

Definition decode_amounts_last (raw : bytes) (expected_len : nat)
: option (result U256 V2QuoteError) :=
let min := (32 + 32 + expected_len * 32)%nat in
if decide (length raw < min)%nat then Some (Err (ShortResult (length raw)))
else
lenw ← slice 32 64 raw;
let returned_len := from_be lenw in
if negb (returned_len =? Z.of_nat expected_len)
then Some (Err (Rpc (UnexpectedLength returned_len (Z.of_nat expected_len))))
else
match expected_len with
| O => None
| S k =>
let last_offset := (32 + 32 + k * 32)%nat in
w ← slice last_offset (last_offset + 32) raw;
Some (Ok (from_be w))
end.

(** The reply handling of [V2Quoter::eth_call]. *)
Definition eth_call_reply (r : rpc_reply) : result bytes V2QuoteError :=
match r with
| TransportErr => Err Http
| Reply success error res =>
if negb success then Err (Rpc HttpStatus)
else
match error with
| Some e => Err (Rpc (JsonError e))
| None =>
match res with
| None => Err (Rpc MissingResult)
| Some s =>
  match hex_decode (strip_0x s) with
  | Ok b => Ok b
  | Err e => Err (Rpc (HexDecodeFailed e))
  end
end
end
end.

Section Quoter.
(** The node: [eth_call] of calldata to an address at a block. *)
Context (node : Address → list ascii → block_tag → rpc_reply).

Definition eth_call (to : Address) (data : bytes) (block : option Z)
: result bytes V2QuoteError :=
eth_call_reply (node to (("0" :: "x" :: hex_encode data)%char) (tag_of block)).

Definition quote_path (amount_in : U256) (path : list Address) (block : option Z)
: option (result U256 V2QuoteError) :=
if decide (length path < 2)%nat then Some (Err (BadPath (length path)))
else
let calldata := encode_get_amounts_out amount_in path in
match eth_call PANCAKE_V2_ROUTER calldata block with
| Err e => Some (Err e)
| Ok raw => decode_amounts_last raw (length path)
end.

Definition quote_single_hop (amount_in : U256) (src dst : Address) (block : option Z)
: option (result U256 V2QuoteError) :=
quote_path amount_in [src; dst] block.
End Quoter.

Lemma eth_call_not_bad_path node to data block e :
eth_call node to data block = Err e →
match e with BadPath _ => False | _ => True end.
Proof.
unfold eth_call, eth_call_reply. destruct (node _ _ _) as [|s err res]; [by intros [= <-]|].
destruct s; cbn; [|by intros [= <-]]. destruct err; [by intros [= <-]|].
destruct res as [h|]; [|by intros [= <-]].
destruct (hex_decode (strip_0x h)); [done|by intros [= <-]].
Qed.

(** The reply the router contract gives for amounts [am]: the ABI encoding
of a [uint256[]]. *)
Definition abi_amounts (am : list U256) : bytes :=
word 0x20 ++ word (Z.of_nat (length am)) ++ (am ≫= word).

Lemma length_words (am : list U256) : length (am ≫= word) = (length am * 32)%nat.
Proof. apply length_bind_const, length_word. Qed.

Lemma length_address_words (p : list Address) : length (p ≫= address_word) = (length p * 32)%nat.
Proof. apply length_bind_const, length_address_word. Qed.

Lemma length_encode_get_amounts_out amt p :
length (encode_get_amounts_out amt p) = (100 + length p * 32)%nat.
Proof.
unfold encode_get_amounts_out. rewrite !length_app, !length_word, length_address_words.
cbn. lia.
Qed.

Lemma decode_amounts_last_total raw n :
(1 ≤ n)%nat → is_Some (decode_amounts_last raw n).
Proof.
intros Hn. unfold decode_amounts_last. case_decide as Hl; [eauto|].
unfold slice. rewrite decide_True by lia. cbn.
destruct (negb _); [eauto|]. destruct n as [|k]; [lia|].
rewrite decide_True by lia. cbn. eauto.
Qed.

Lemma decode_amounts_abi am last :
Forall (in_width 256) (am ++ [last]) →
Z.of_nat (length am + 1) < 2 ^ 64 →
decode_amounts_last (abi_amounts (am ++ [last])) (length am + 1) = Some (Ok last).
Proof.
intros Hw Hn. unfold decode_amounts_last, abi_amounts.
rewrite decide_False.
2: { rewrite !length_app, !length_word, length_words, length_app. cbn. lia. }
rewrite (slice_app (word 0x20)) by (rewrite ?length_word; lia). cbn [mbind option_bind].
rewrite from_be_word by (unfold in_width; rewrite length_app; cbn; lia).
rewrite length_app. cbn [length]. rewrite Z.eqb_refl. cbn [negb].
replace (length am + 1)%nat with (S (length am)) by lia.
rewrite bind_app. cbn [mbind list_bind]. rewrite app_nil_r.
rewrite !(app_assoc (word 0x20)), app_assoc.
rewrite <- (app_nil_r (word last)).
rewrite slice_app; cbn; rewrite ?length_app, ?length_word, ?length_words; try lia.
f_equal. f_equal. apply from_be_word. apply Forall_app in Hw as [_ Hw].
by inversion Hw.
Qed.
End V2.

(** ** PancakeSwap V3 (v3.rs) *)

Module V3.
Import Hex.

Definition QUOTE_EXACT_INPUT_SINGLE : bytes := [Byte.xc6; Byte.xa5; Byte.x02; Byte.x6a].

Inductive V3QuoteError : Type := Http | RpcStatus | RpcHex (e : hex_error).

Record V3QuoteResult : Type := { amount_out : U256; fee_tier : Z }.

Definition address_to_word (a : Address) : bytes := address_word a.
Definition u32_to_word (v : Z) : bytes := replicate 28 Byte.x00 ++ to_be 4 v.

Definition encode_quote_exact_input_single
(token_in token_out : Address) (amount_in : U256) (fee : Z) : bytes :=
QUOTE_EXACT_INPUT_SINGLE ++ address_to_word token_in ++ address_to_word token_out
++ word amount_in ++ u32_to_word fee ++ replicate 32 Byte.x00.

(** The reply handling of [quote_one_tier]: a revert, a missing or a short
result is a zero quote, not an error. *)
Definition one_tier_reply (r : rpc_reply) : result U256 V3QuoteError :=
match r with
| TransportErr => Err Http
| Reply success error res =>
if negb success then Err RpcStatus
else
match error with
| Some _ => Ok 0
| None =>
match res with
| None => Ok 0
| Some s =>
  let h := strip_0x s in
  if decide (length h < 64)%nat then Ok 0
  else
    match hex_decode (take 64 h) with
    | Err e => Err (RpcHex e)
    | Ok bs =>
        if decide (length bs = 32)%nat then Ok (from_be bs) else Ok 0
    end
end
end
end.

Section Quoter.
Context (node : Address → list ascii → block_tag → rpc_reply).

Definition quote_one_tier (token_in token_out : Address) (amount_in : U256) (fee : Z)
(block : option Z) : result U256 V3QuoteError :=
let data := encode_quote_exact_input_single token_in token_out amount_in fee in
one_tier_reply
(node PANCAKE_V3_QUOTER_V2 (("0" :: "x" :: hex_encode data)%char) (tag_of block)).

(** One iteration of the tier loop. *)
Definition consider_tier (token_in token_out : Address) (amount_in : U256)
(block : option Z) (best : option V3QuoteResult) (fee : Z) : option V3QuoteResult :=
match quote_one_tier token_in token_out amount_in fee block with
| Ok amount_out' =>
if negb (amount_out' =? 0) then
if match best with None => true | Some b => amount_out b <? amount_out' end
then Some {| amount_out := amount_out'; fee_tier := fee |}
else best
else best
| Err _ => best
end.

Definition quote_best_tier (token_in token_out : Address) (amount_in : U256)
(block : option Z) : result (option V3QuoteResult) V3QuoteError :=
Ok (foldl (consider_tier token_in token_out amount_in block) None PANCAKE_V3_FEE_TIERS).

(** Some tier quotes [a], a non-zero amount. *)
Definition tier_quotes token_in token_out amount_in block (fee a : Z) : Prop :=
quote_one_tier token_in token_out amount_in fee block = Ok a ∧ a ≠ 0.

Section Best.
Context (ti to' : Address) (amt : U256) (blk : option Z).
Let quotes := tier_quotes ti to' amt blk.

(** [b] is the best of the tiers in [fees]. *)
Definition best_of (fees : list Z) (b : option V3QuoteResult) : Prop :=
match b with
| None => ∀ fee a, fee ∈ fees → ¬ quotes fee a
| Some r =>
fee_tier r ∈ fees ∧ quotes (fee_tier r) (amount_out r) ∧
∀ fee a, fee ∈ fees → quotes fee a → a ≤ amount_out r
end.

(** A tier of [fees ++ [fee]] is one of [fees] or [fee] itself. *)
Lemma quotes_snoc fees fee (P : Z → Prop) :
(∀ fee' a', fee' ∈ fees → quotes fee' a' → P a') →
(∀ a', quotes fee a' → P a') →
∀ fee' a', fee' ∈ fees ++ [fee] → quotes fee' a' → P a'.
Proof.
intros H1 H2 fee' a' [?|Hf]%elem_of_app Hq; [by eapply H1|].
apply list_elem_of_singleton in Hf as ->. by apply H2.
Qed.

Lemma best_of_skip fees fee b :
(∀ a, quotes fee a → match b with None => False | Some r => a ≤ amount_out r end) →
best_of fees b → best_of (fees ++ [fee]) b.
Proof.
intros Hf Hb. destruct b as [r|]; cbn in *.
- destruct Hb as (? & ? & Hm). split_and!; [set_solver|done|].
apply quotes_snoc; [exact Hm|exact Hf].
- intros fee' a' Hin Hq. by apply (quotes_snoc fees fee (λ _, False) Hb Hf fee' a').
Qed.

Lemma consider_tier_best fees b fee :
best_of fees b → best_of (fees ++ [fee]) (consider_tier ti to' amt blk b fee).
Proof.
intros Hb. unfold consider_tier.
destruct (quote_one_tier ti to' amt fee blk) as [a|e] eqn:Eq.
2: { apply best_of_skip; [|done]. intros a [Hq _]. congruence. }
destruct (Z.eqb_spec a 0) as [->|Ha]; cbn [negb].
{ apply best_of_skip; [|done]. intros a [Hq Hz]. congruence. }
assert (∀ a', quotes fee a' → a' = a) as Hfee by (intros a' [Hq _]; congruence).
case_scrut.
- cbn. split_and!; [set_solver|done|].
apply quotes_snoc; [|intros a' ->%Hfee; lia].
intros fee' a' Hin Hq. destruct b as [r|]; cbn in *; [|by edestruct Hb].
destruct Hb as (_ & _ & Hm). specialize (Hm fee' a' Hin Hq). lia.
- apply best_of_skip; [|done]. intros a' ->%Hfee. destruct b as [r|]; [lia|done].
Qed.

Lemma foldl_best todo done_ b :
best_of done_ b → best_of (done_ ++ todo) (foldl (consider_tier ti to' amt blk) b todo).
Proof.
revert done_ b. induction todo as [|fee todo IH]; intros done_ b Hb; cbn.
- by rewrite app_nil_r.
- rewrite cons_middle, app_assoc. apply IH. by apply consider_tier_best.
Qed.
End Best.
End Quoter.
End V3.

(** ** Properties *)

(** A V2 quote never panics, whatever the node answers and whatever the
    path: every slice and the [expected_len - 1] of the decoder are in range.
    A path of fewer than two hops is refused before the node is asked. *)
Theorem v2_quote_never_panics node amount_in path block :
  match V2.quote_path node amount_in path block with
  | Some (Err (V2.BadPath n)) => n = length path ∧ (length path < 2)%nat
  | Some (Ok a) => (2 ≤ length path)%nat ∧ in_width 256 a
  | Some (Err _) => (2 ≤ length path)%nat
  | None => False
  end.
Proof.
  unfold V2.quote_path. case_decide as Hp; [done|].
  assert (2 ≤ length path)%nat as Hp' by lia.
  destruct (V2.eth_call _ _ _ _) as [raw|e] eqn:Ee.
  - pose proof (V2.decode_amounts_last_total raw (length path) ltac:(lia)) as [r Hr].
    rewrite Hr. unfold V2.decode_amounts_last in Hr. case_decide; simplify_eq; [done|].
    destruct (slice 32 64 raw) as [lw|]; cbn in Hr; [|done].
    destruct (negb _); simplify_eq; [done|]. destruct (length path) as [|k]; [lia|].
    destruct (slice _ _ raw) as [w|] eqn:Ew; cbn in Hr; simplify_eq.
    split; [lia|]. apply from_be_word_bound. apply slice_length in Ew. lia.
  - apply V2.eth_call_not_bad_path in Ee. by destruct e.
Qed.

(** A V2 quote is the router's last amount.  When the router answers
    [getAmountsOut] with the ABI encoding of one amount per path entry, the
    quoter returns the last of them, through hex decoding, the length check
    and the word read, for any path length. *)
Theorem v2_quote_reads_last_amount node amount_in path block am last :
  (2 ≤ length path)%nat →
  length path = (length am + 1)%nat →
  Z.of_nat (length path) < 2 ^ 64 →
  Forall (in_width 256) (am ++ [last]) →
  node PANCAKE_V2_ROUTER
    (("0" :: "x" :: Hex.hex_encode (V2.encode_get_amounts_out amount_in path))%char)
    (tag_of block)
    = Reply true None (Some (("0" :: "x" :: Hex.hex_encode (V2.abi_amounts (am ++ [last])))%char)) →
  V2.quote_path node amount_in path block = Some (Ok last).
Proof.
  intros H2 Hlen Hn Hw Hnode. unfold V2.quote_path. rewrite decide_False by lia.
  unfold V2.eth_call. rewrite Hnode. cbn [V2.eth_call_reply negb strip_0x].
  rewrite Hex.decode_encode, Hlen. apply V2.decode_amounts_abi; [done|lia].
Qed.

Definition quote_witness_node (to : Address) (data : list ascii) (tag : block_tag) : rpc_reply :=
  Reply true None (Some (("0" :: "x" :: Hex.hex_encode (V2.abi_amounts ([5] ++ [999])))%char)).

Lemma v2_quote_reads_last_amount_witness :
  V2.quote_path quote_witness_node 5 [WBNB; 7] None = Some (Ok 999).
Proof.
  apply (v2_quote_reads_last_amount quote_witness_node 5 [WBNB; 7] None [5] 999);
    [cbn; lia|done|cbn; lia|repeat constructor; vm_compute; discriminate|done].
Defined.

(** The V3 quoter returns the best tier: never an error, [None] exactly
    when no fee tier quotes a non-zero amount, otherwise a listed tier's own
    non-zero quote that no other tier exceeds. *)
Theorem v3_best_tier_optimal node ti to amt block :
  match V3.quote_best_tier node ti to amt block with
  | Ok b => V3.best_of node ti to amt block PANCAKE_V3_FEE_TIERS b
  | Err _ => False
  end.
Proof.
  unfold V3.quote_best_tier.
  apply (V3.foldl_best node ti to amt block PANCAKE_V3_FEE_TIERS [] None).
  intros fee a H. by apply not_elem_of_nil in H.
Qed.
