(* ===== verification/Bus.v ===== *)
(** * crates/bsc-core and crates/bsc-bus: the mempool pipeline

    Sources push [RawTx] values; the decoder stage turns them into
    [DecodedTx]; the dedupe stage merges the sightings of one hash, stamps the
    block context and publishes exactly one [PendingTx] per hash; the janitor
    drops expired entries.  The stages are functions on explicit state, and
    [run] folds them over an arbitrary interleaving of deliveries, new heads
    and janitor ticks.  RLP decoding and ECDSA recovery (alloy) are parameters
    of the decoder; tokio's channels are the event sequence. *)

From Stdlib Require Import ZArith Lia.
From S2P Require Import Prelude Bytes.

(** ** types.rs, decode.rs *)

Module Core.
(** [SourceId(u8)]. *)
Definition LOCAL_IPC : Z := 10.
Definition WSS_PROVIDER : Z := 20.
Definition BLOXROUTE : Z := 30.
Definition EDEN : Z := 31.
Definition REPLAY : Z := 99.

Definition label (id : Z) : string :=
if id =? 10 then "local_ipc"
else if id =? 20 then "wss_provider"
else if id =? 30 then "bloxroute"
else if id =? 31 then "eden"
else if id =? 99 then "replay"
else "unknown".

Abbreviation SourceSeen := (list (Z * Z)) (only parsing).

Record BlockContext : Type := {
bc_block_number : Z;
bc_parent_block_hash : B256;
ms_into_block : Z;
}.

Record FirstSeen : Type := {
first_ns : Z;
sources : SourceSeen;
expires_at_ns : Z;
}.

Section Tx.
(** alloy's transaction envelope, its RLP decoder and signer recovery. *)
Context {TxEnvelope RlpError RecoveryError : Type}.
Context (alloy_decode : bytes → result TxEnvelope RlpError).
Context (alloy_recover : TxEnvelope → result Address RecoveryError).

Inductive DecodeError : Type :=
| Rlp (e : RlpError)
| Recover (e : RecoveryError).

Inductive RawPayload : Type :=
| Decoded (tx : TxEnvelope) (raw : option bytes)
| RlpBytes (rlp : bytes).

Record RawTx : Type := {
raw_source : Z;
raw_recv_ns : Z;
raw_hash : B256;
raw_payload : RawPayload;
}.

Record DecodedTx : Type := {
d_hash : B256;
d_from : Address;
d_tx : TxEnvelope;
d_source : Z;
d_recv_ns : Z;
d_raw : option bytes;
}.

Record PendingTx : Type := {
p_hash : B256;
p_from : Address;
p_tx : TxEnvelope;
first_seen_ns : Z;
source_seen : SourceSeen;
p_raw : option bytes;
block_context : option BlockContext;
}.

Definition decode_envelope (rlp : bytes) : result TxEnvelope DecodeError :=
match alloy_decode rlp with Ok tx => Ok tx | Err e => Err (Rlp e) end.

Definition recover_signer (tx : TxEnvelope) : result Address DecodeError :=
match alloy_recover tx with Ok a => Ok a | Err e => Err (Recover e) end.

(** decoder.rs. *)
Definition decode_to_decoded (raw : RawTx) : result DecodedTx DecodeError :=
txr <-? match raw_payload raw with
| Decoded tx r => Ok (tx, r)
| RlpBytes rlp => tx <-? decode_envelope rlp;; Ok (tx, Some rlp)
end;;
let '(tx, raw_bytes) := txr in
from <-? recover_signer tx;;
Ok {| d_hash := raw_hash raw; d_from := from; d_tx := tx;
d_source := raw_source raw; d_recv_ns := raw_recv_ns raw; d_raw := raw_bytes |}.
End Tx.
Arguments RawPayload : clear implicits.
Arguments RawTx : clear implicits.
Arguments DecodedTx : clear implicits.
Arguments PendingTx : clear implicits.
Arguments DecodeError : clear implicits.
End Core.
Import Core.

(** ** current_block.rs *)

Module CurrentBlock.
Record CurrentBlock : Type := {
block_number : Z;
block_hash : B256;
parent_block_hash : B256;
seen_at_unix_ns : Z;
}.

Definition default : CurrentBlock :=
{| block_number := 0; block_hash := 0; parent_block_hash := 0; seen_at_unix_ns := 0 |}.

Definition on_new_head (_ : CurrentBlock) (n : Z) (h parent : B256) (seen : Z) : CurrentBlock :=
{| block_number := n; block_hash := h; parent_block_hash := parent;
seen_at_unix_ns := seen |}.

Definition block_context_for (snap : CurrentBlock) (unix_ns : Z) : BlockContext :=
let ms := sat_sub unix_ns (seen_at_unix_ns snap) / 1000000 in
let ms_into_block := unwrap_or (try_from_width 32 ms) (umax 32) in
{| bc_block_number := block_number snap;
bc_parent_block_hash := parent_block_hash snap;
ms_into_block := ms_into_block |}.

Lemma block_context_ms cb t :
ms_into_block (block_context_for cb t) =
Z.min (Z.max (t - seen_at_unix_ns cb) 0 / 1000000) (2 ^ 32 - 1).
Proof.
unfold block_context_for, try_from_width, sat_sub, umax. cbn.
assert (0 ≤ Z.max (t - seen_at_unix_ns cb) 0 / 1000000) by (apply Z.div_pos; lia).
set (ms := Z.max (t - seen_at_unix_ns cb) 0 / 1000000) in *.
destruct (Z.leb_spec 0 ms); [|lia].
destruct (Z.ltb_spec ms (2 ^ 32)); cbn; lia.
Qed.
End CurrentBlock.
Import CurrentBlock (CurrentBlock, on_new_head, block_context_for).

(** ** dedupe.rs *)

Module Dedupe.
Record Dedupe : Type := {
map : gmap B256 FirstSeen;
ttl_ns : Z;
}.

Inductive DedupeOutcome : Type :=
| Fresh (fs : FirstSeen)
| Duplicate.

Definition new (capacity ttl_secs : Z) : Dedupe :=
{| map := ∅; ttl_ns := sat_mul 64 ttl_secs 1000000000 |}.

Definition record (d : Dedupe) (hash : B256) (source recv_ns : Z) : Dedupe * DedupeOutcome :=
match map d !! hash with
| None =>
let fs := {| first_ns := recv_ns; sources := [(source, recv_ns)];
     expires_at_ns := sat_add 64 recv_ns (ttl_ns d) |} in
({| map := <[hash := fs]> (map d); ttl_ns := ttl_ns d |}, Fresh fs)
| Some fs =>
let fs' := {| first_ns := first_ns fs; sources := sources fs ++ [(source, recv_ns)];
      expires_at_ns := expires_at_ns fs |} in
({| map := <[hash := fs']> (map d); ttl_ns := ttl_ns d |}, Duplicate)
end.

Definition first_seen_ns (d : Dedupe) (hash : B256) : option Z :=
first_ns <$> map d !! hash.

Definition snapshot (d : Dedupe) (hash : B256) : option FirstSeen := map d !! hash.

Definition len (d : Dedupe) : Z := Z.of_nat (size (map d)).

Definition sweep (d : Dedupe) (now_ns : Z) : Dedupe * Z :=
let before := len d in
let d' := {| map := filter (λ p, now_ns ≤ expires_at_ns p.2) (map d); ttl_ns := ttl_ns d |} in
(d', sat_sub before (len d')).

(** One lookup of [record], whatever the key. *)
Lemma record_lookup d h s t k :
map (record d h s t).1 !! k =
if decide (k = h) then
Some match map d !! h with
| None => {| first_ns := t; sources := [(s, t)];
          expires_at_ns := sat_add 64 t (ttl_ns d) |}
| Some fs => {| first_ns := first_ns fs; sources := sources fs ++ [(s, t)];
             expires_at_ns := expires_at_ns fs |}
end
else map d !! k.
Proof.
unfold record. case_decide; subst; destruct (map d !! h) eqn:E; cbn;
by rewrite ?lookup_insert_eq, ?lookup_insert_ne by done.
Qed.

Lemma record_ttl d h s t : ttl_ns (record d h s t).1 = ttl_ns d.
Proof. unfold record. by destruct (map d !! h). Qed.

Lemma record_outcome d h s t :
(record d h s t).2 =
match map d !! h with
| None => Fresh {| first_ns := t; sources := [(s, t)];
         expires_at_ns := sat_add 64 t (ttl_ns d) |}
| Some _ => Duplicate
end.
Proof. unfold record. by destruct (map d !! h). Qed.

Lemma sweep_lookup d now k :
map (sweep d now).1 !! k =
match map d !! k with
| Some fs => if decide (now ≤ expires_at_ns fs) then Some fs else None
| None => None
end.
Proof.
cbn [sweep fst map]. rewrite map_lookup_filter.
destruct (map d !! k) as [fs|]; [|done]. simpl. by repeat case_decide.
Qed.

Lemma sweep_ttl d now : ttl_ns (sweep d now).1 = ttl_ns d.
Proof. done. Qed.

(** The swept count is the number of entries that expired. *)
Lemma sweep_count d now :
(sweep d now).2 = Z.of_nat (size (filter (λ p, ¬ now ≤ expires_at_ns p.2) (map d))).
Proof.
unfold sweep, len. cbn.
rewrite <- (map_filter_union_complement (λ p, now ≤ expires_at_ns p.2) (map d)) at 1.
rewrite map_size_disj_union by apply map_disjoint_filter_complement.
unfold sat_sub. lia.
Qed.
End Dedupe.
Import Dedupe (DedupeOutcome(..), Fresh, Duplicate).

(** ** pipeline.rs *)

Module Pipeline.
Section Run.
Context {TxEnvelope RlpError RecoveryError : Type}.
Context (alloy_decode : bytes → result TxEnvelope RlpError).
Context (alloy_recover : TxEnvelope → result Address RecoveryError).

Record PipelineConfig : Type := {
raw_channel_capacity : Z;
decoded_channel_capacity : Z;
broadcast_capacity : Z;
dedupe_capacity : Z;
dedupe_ttl_secs : Z;
decoder_workers : Z;
janitor_interval_secs : Z;
}.

Definition default_config : PipelineConfig :=
{| raw_channel_capacity := 32768; decoded_channel_capacity := 32768;
broadcast_capacity := 65536; dedupe_capacity := 524288; dedupe_ttl_secs := 60;
decoder_workers := 4; janitor_interval_secs := 5 |}.

(** The state the pipeline tasks share, and what the bus has published. *)
Record Pipeline : Type := {
dedupe : Dedupe.Dedupe;
block_state : CurrentBlock;
bus : list (PendingTx TxEnvelope);
}.

Definition build_pipeline (cfg : PipelineConfig) : Pipeline :=
{| dedupe := Dedupe.new (dedupe_capacity cfg) (dedupe_ttl_secs cfg);
block_state := CurrentBlock.default; bus := [] |}.

(** The body of the [run_dedupe] loop for one decoded transaction. *)
Definition run_dedupe (p : Pipeline) (decoded : DecodedTx TxEnvelope) : Pipeline :=
let '(dd, outcome) :=
Dedupe.record (dedupe p) (d_hash decoded) (d_source decoded) (d_recv_ns decoded) in
match outcome with
| Duplicate => {| dedupe := dd; block_state := block_state p; bus := bus p |}
| Fresh fs =>
let block_context := Some (block_context_for (block_state p) (d_recv_ns decoded)) in
let pending := {| p_hash := d_hash decoded; p_from := d_from decoded;
p_tx := d_tx decoded; first_seen_ns := first_ns fs;
source_seen := sources fs; p_raw := d_raw decoded;
block_context := block_context |} in
{| dedupe := dd; block_state := block_state p; bus := bus p ++ [pending] |}
end.

(** A decoder worker on one [RawTx]: decode failures are dropped. *)
Definition run_decoder_worker (p : Pipeline) (raw : RawTx TxEnvelope) : Pipeline :=
match decode_to_decoded alloy_decode alloy_recover raw with
| Ok decoded => run_dedupe p decoded
| Err _ => p
end.

(** One janitor tick. *)
Definition run_janitor (p : Pipeline) (now_ns : Z) : Pipeline :=
{| dedupe := (Dedupe.sweep (dedupe p) now_ns).1; block_state := block_state p; bus := bus p |}.

Inductive event : Type :=
| Deliver (raw : RawTx TxEnvelope)
| NewHead (n : Z) (h parent : B256) (seen : Z)
| JanitorTick (now_ns : Z).

Definition step (p : Pipeline) (e : event) : Pipeline :=
match e with
| Deliver raw => run_decoder_worker p raw
| NewHead n h parent seen =>
{| dedupe := dedupe p; block_state := on_new_head (block_state p) n h parent seen;
bus := bus p |}
| JanitorTick now => run_janitor p now
end.

Definition run (p : Pipeline) (es : list event) : Pipeline := foldl step p es.

(** *** Abstract specification

A sighting is what the decoder stage lets through; the sightings of a
hash, oldest first, determine its entry. *)

Definition sighting (e : event) : option (B256 * Z * Z) :=
match e with
| Deliver raw =>
match decode_to_decoded alloy_decode alloy_recover raw with
| Ok d => Some (d_hash d, d_source d, d_recv_ns d)
| Err _ => None
end
| _ => None
end.

Definition sightings_of (h : B256) (es : list event) : list (Z * Z) :=
omap (λ e, match sighting e with
| Some (h', s, t) => if decide (h' = h) then Some (s, t) else None
| None => None
end) es.

Definition entry_of (ttl : Z) (seen : list (Z * Z)) : option FirstSeen :=
match seen with
| [] => None
| (s, t) :: _ => Some {| first_ns := t; sources := seen; expires_at_ns := sat_add 64 t ttl |}
end.

Definition is_janitor (e : event) : bool :=
match e with JanitorTick _ => true | _ => false end.

Lemma run_snoc p es e : run p (es ++ [e]) = step (run p es) e.
Proof. unfold run. by rewrite foldl_app. Qed.

Lemma sightings_snoc h es e :
sightings_of h (es ++ [e]) =
sightings_of h es ++
match sighting e with
| Some (h', s, t) => if decide (h' = h) then [(s, t)] else []
| None => []
end.
Proof.
unfold sightings_of. rewrite omap_app. f_equal. cbn.
destruct (sighting e) as [[[h' s] t]|]; [case_decide|]; done.
Qed.

(** [step] on a delivery, in terms of its sighting. *)
Lemma step_sighting p e h s t :
sighting e = Some (h, s, t) →
dedupe (step p e) = (Dedupe.record (dedupe p) h s t).1 ∧
bus (step p e) = bus p ++
match (Dedupe.record (dedupe p) h s t).2, e with
| Fresh fs, Deliver raw =>
match decode_to_decoded alloy_decode alloy_recover raw with
| Ok d => [{| p_hash := h; p_from := d_from d; p_tx := d_tx d; first_seen_ns := first_ns fs;
source_seen := sources fs; p_raw := d_raw d;
block_context := Some (block_context_for (block_state p) t) |}]
| Err _ => []
end
| _, _ => []
end.
Proof.
destruct e as [raw| |]; cbn; try done. unfold run_decoder_worker.
destruct (decode_to_decoded _ _ raw) as [d|]; [|done]. intros [= <- <- <-].
unfold run_dedupe. destruct (Dedupe.record _ _ _ _) as [dd [fs|]]; cbn; [done|].
by rewrite app_nil_r.
Qed.

Lemma step_no_sighting p e :
sighting e = None → is_janitor e = false →
dedupe (step p e) = dedupe p ∧ bus (step p e) = bus p.
Proof.
destruct e as [raw| |]; cbn; try done. unfold run_decoder_worker.
by destruct (decode_to_decoded _ _ raw).
Qed.

Lemma step_ttl p e : Dedupe.ttl_ns (dedupe (step p e)) = Dedupe.ttl_ns (dedupe p).
Proof.
destruct (sighting e) as [[[h s] t]|] eqn:E.
- destruct (step_sighting p e h s t E) as [-> _]. apply Dedupe.record_ttl.
- destruct e as [raw| |]; cbn in *; [|done|done].
unfold run_decoder_worker. by destruct (decode_to_decoded _ _ raw).
Qed.

Lemma run_ttl p es : Dedupe.ttl_ns (dedupe (run p es)) = Dedupe.ttl_ns (dedupe p).
Proof. induction es as [|e es IH] using rev_ind; [done|]. by rewrite run_snoc, step_ttl. Qed.

(** Without janitor ticks the table is the abstract one. *)
Lemma run_refines_sightings ttl es h :
Forall (λ e, is_janitor e = false) es →
let p0 := {| dedupe := {| Dedupe.map := ∅; Dedupe.ttl_ns := ttl |};
block_state := CurrentBlock.default; bus := [] |} in
Dedupe.map (dedupe (run p0 es)) !! h = entry_of ttl (sightings_of h es).
Proof.
intros Hes p0. induction es as [|e es IH] using rev_ind; [done|].
apply Forall_app in Hes as [Hes He]. apply Forall_cons in He as [He _].
specialize (IH Hes). rewrite run_snoc, sightings_snoc.
destruct (sighting e) as [[[h' s] t]|] eqn:E.
- destruct (step_sighting (run p0 es) e h' s t E) as [-> _].
rewrite Dedupe.record_lookup, run_ttl. case_decide as Hh.
+ subst h'. rewrite decide_True by done. rewrite IH.
by destruct (sightings_of h es) as [|[s0 t0] seen].
+ rewrite decide_False by congruence. by rewrite app_nil_r, IH.
- destruct (step_no_sighting (run p0 es) e E He) as [-> _]. by rewrite app_nil_r.
Qed.

(** An entry whose expiry no janitor tick has passed stays, with the same
first sighting and expiry. *)
Lemma entry_survives p es h fs :
Dedupe.map (dedupe p) !! h = Some fs →
(∀ now, JanitorTick now ∈ es → now ≤ expires_at_ns fs) →
∃ fs', Dedupe.map (dedupe (run p es)) !! h = Some fs' ∧
first_ns fs' = first_ns fs ∧ expires_at_ns fs' = expires_at_ns fs.
Proof.
intros Hfs. induction es as [|e es IH] using rev_ind; intros Hj; [eauto|].
destruct IH as (fs' & Hl & H1 & H2); [intros; apply Hj; set_solver|].
rewrite run_snoc. destruct (sighting e) as [[[h' s] t]|] eqn:E.
- destruct (step_sighting (run p es) e h' s t E) as [-> _].
rewrite Dedupe.record_lookup. case_decide; subst; [|eauto].
rewrite Hl. eexists. split; [done|]. cbn. done.
- destruct e as [raw| |now].
+ destruct (step_no_sighting (run p es) (Deliver raw) E eq_refl) as [-> _]. eauto.
+ cbn. eauto.
+ cbn [step run_janitor dedupe]. rewrite Dedupe.sweep_lookup, Hl.
rewrite decide_True; [eauto|]. rewrite H2. apply Hj. set_solver.
Qed.

(** A step only adds to the bus. *)
Lemma step_extends p e : bus p `prefix_of` bus (step p e).
Proof.
destruct (sighting e) as [[[h s] t]|] eqn:E.
- destruct (step_sighting p e h s t E) as [_ Hb]. rewrite Hb. by apply prefix_app_r.
- destruct (is_janitor e) eqn:Ej; [by destruct e|]. by destruct (step_no_sighting p e E Ej) as [_ ->].
Qed.

Definition published_hashes (p : Pipeline) : list B256 := p_hash <$> bus p.

Lemma step_published p e h s t :
sighting e = Some (h, s, t) →
published_hashes (step p e) =
published_hashes p ++ match Dedupe.map (dedupe p) !! h with None => [h] | Some _ => [] end.
Proof.
intros E. unfold published_hashes. destruct (step_sighting p e h s t E) as [_ ->].
rewrite fmap_app, Dedupe.record_outcome. f_equal.
destruct e as [raw| |]; cbn in E; try done.
destruct (decode_to_decoded _ _ raw); [|done]. by destruct (Dedupe.map (dedupe p) !! h).
Qed.

Lemma step_published_other p e :
sighting e = None → published_hashes (step p e) = published_hashes p.
Proof.
intros E. destruct e as [raw| |]; [|done|done].
unfold published_hashes. by destruct (step_no_sighting p (Deliver raw) E eq_refl) as [_ ->].
Qed.
Lemma sightings_snoc_nonempty k es e :
sightings_of k (es ++ [e]) ≠ [] ↔
sightings_of k es ≠ [] ∨ ∃ s t, sighting e = Some (k, s, t).
Proof.
rewrite sightings_snoc. destruct (sightings_of k es) as [|x l]; cbn.
- destruct (sighting e) as [[[h s] t]|]; [case_decide|]; naive_solver.
- naive_solver.
Qed.

(** The published hashes of a janitor-free run are the sighted ones, once each. *)
Lemma published_once ttl es :
Forall (λ e, is_janitor e = false) es →
let p0 := {| dedupe := {| Dedupe.map := ∅; Dedupe.ttl_ns := ttl |};
block_state := CurrentBlock.default; bus := [] |} in
NoDup (published_hashes (run p0 es)) ∧
∀ h, h ∈ published_hashes (run p0 es) ↔ sightings_of h es ≠ [].
Proof.
intros Hes p0. induction es as [|e es IH] using rev_ind.
{ split; [constructor|]. intros h. cbn. by rewrite elem_of_nil. }
apply Forall_app in Hes as [Hes He]. destruct (IH Hes) as [Hnd Hin].
rewrite run_snoc. setoid_rewrite sightings_snoc_nonempty.
destruct (sighting e) as [[[h s] t]|] eqn:E.
2: { rewrite step_published_other by done. split; [done|]. intros h. rewrite Hin. naive_solver. }
rewrite (step_published _ e h s t E).
pose proof (run_refines_sightings ttl es h Hes) as Hm. cbn zeta in Hm. fold p0 in Hm.
rewrite Hm. destruct (sightings_of h es) as [|[s0 t0] seen] eqn:Es; cbn [entry_of].
- split.
+ apply NoDup_app. split_and!; [done| |apply NoDup_singleton].
intros k Hk1 ->%list_elem_of_singleton. apply Hin in Hk1. done.
+ intros k. rewrite elem_of_app, list_elem_of_singleton, Hin. naive_solver.
- rewrite app_nil_r. split; [done|]. intros k. rewrite Hin.
split; [naive_solver|]. intros [?|(s' & t' & [= <- _ _])]; [done|]. by rewrite Es.
Qed.

(** [C17] Exactly once.  From a freshly built pipeline, over any interleaving
of deliveries (undecodable ones included) and new heads without a
janitor tick, the dedupe table is the abstract grouping of the sightings
by hash (all sources in arrival order, the first arrival time, its
expiry), the published hashes have no duplicate, and a hash is published
iff it was sighted. *)
Theorem pipeline_publishes_exactly_once cfg es :
Forall (λ e, is_janitor e = false) es →
let p := run (build_pipeline cfg) es in
(∀ h, Dedupe.map (dedupe p) !! h =
entry_of (sat_mul 64 (dedupe_ttl_secs cfg) 1000000000) (sightings_of h es)) ∧
NoDup (published_hashes p) ∧
∀ h, h ∈ published_hashes p ↔ sightings_of h es ≠ [].
Proof.
intros Hes p.
assert (∀ h, Dedupe.map (dedupe p) !! h =
entry_of (sat_mul 64 (dedupe_ttl_secs cfg) 1000000000) (sightings_of h es)) as Hmap
by (intros h; by apply run_refines_sightings).
split; [done|]. by apply published_once.
Qed.

(** No republication before expiry.  Once a hash has been published at
time [t], no sequence of events publishes it again as long as every
janitor tick in the sequence is at or before [t + ttl] (saturated at 64
bits), whatever else is delivered in between. *)
Theorem no_republish_before_expiry p raw d es :
decode_to_decoded alloy_decode alloy_recover raw = Ok d →
Dedupe.map (dedupe p) !! d_hash d = None →
(∀ now, JanitorTick now ∈ es →
now ≤ sat_add 64 (d_recv_ns d) (Dedupe.ttl_ns (dedupe p))) →
let p1 := step p (Deliver raw) in
filter (λ h, h = d_hash d) (published_hashes (run p1 es)) =
filter (λ h, h = d_hash d) (published_hashes p) ++ [d_hash d].
Proof.
intros Hdec Hnone Hj p1.
assert (sighting (Deliver raw) = Some (d_hash d, d_source d, d_recv_ns d)) as E
by (cbn; by rewrite Hdec).
assert (∃ fs, Dedupe.map (dedupe p1) !! d_hash d = Some fs ∧
expires_at_ns fs = sat_add 64 (d_recv_ns d) (Dedupe.ttl_ns (dedupe p))) as (fs & Hfs & Hexp).
{ subst p1. destruct (step_sighting p _ _ _ _ E) as [-> _].
rewrite Dedupe.record_lookup, decide_True, Hnone by done. eauto. }
assert (filter (λ h, h = d_hash d) (published_hashes p1) =
filter (λ h, h = d_hash d) (published_hashes p) ++ [d_hash d]) as <-.
{ subst p1. rewrite (step_published p _ _ _ _ E), Hnone, filter_app.
f_equal. rewrite filter_cons_True by done. done. }
induction es as [|e es IH] using rev_ind; [done|].
assert (∀ now, JanitorTick now ∈ es → now ≤ expires_at_ns fs) as Hj'
by (intros now ?; rewrite Hexp; apply Hj; set_solver).
rewrite run_snoc. rewrite <- IH by (intros; apply Hj; set_solver).
destruct (sighting e) as [[[h s] t]|] eqn:Ee.
- rewrite (step_published _ e h s t Ee), filter_app.
destruct (decide (h = d_hash d)) as [->|Hne].
+ destruct (entry_survives p1 es _ fs Hfs Hj') as (fs' & -> & _). by rewrite app_nil_r.
+ destruct (Dedupe.map _ !! h); [by rewrite app_nil_r|].
rewrite filter_cons_False by done. by rewrite app_nil_r.
- by rewrite step_published_other.
Qed.
End Run.
End Pipeline.

(** ** Witnesses *)

Module Witness.
Definition dec (_ : bytes) : result Z Z := Ok 0.
Definition rec (tx : Z) : result Address Z := if tx =? 13 then Err 1 else Ok (tx + 1).
Definition raw (h tx t : Z) : RawTx Z :=
{| raw_source := LOCAL_IPC; raw_recv_ns := t; raw_hash := h; raw_payload := Decoded tx None |}.
Definition trace : list (Pipeline.event (TxEnvelope := Z)) :=
[Pipeline.Deliver (raw 5 1 100); Pipeline.NewHead 7 70 60 90; Pipeline.Deliver (raw 6 13 105);
Pipeline.Deliver (raw 5 1 110); Pipeline.Deliver (raw 8 2 120)].
Definition p0 : Pipeline.Pipeline (TxEnvelope := Z) :=
Pipeline.build_pipeline Pipeline.default_config.
End Witness.

Lemma pipeline_publishes_exactly_once_witness :
  let p := Pipeline.run Witness.dec Witness.rec Witness.p0 Witness.trace in
  Pipeline.published_hashes p = [5; 8] ∧ NoDup (Pipeline.published_hashes p).
Proof.
  split; [vm_compute; reflexivity|].
  refine (proj1 (proj2 (Pipeline.pipeline_publishes_exactly_once Witness.dec Witness.rec
    Pipeline.default_config Witness.trace _))).
  repeat constructor.
Defined.

Lemma no_republish_before_expiry_witness :
  let es := Pipeline.JanitorTick 60000000100 :: Witness.trace in
  let p1 := Pipeline.step Witness.dec Witness.rec Witness.p0 (Pipeline.Deliver (Witness.raw 5 1 100)) in
  filter (λ h, h = 5) (Pipeline.published_hashes (Pipeline.run Witness.dec Witness.rec p1 es)) = [5].
Proof.
  intros es p1.
  refine (Pipeline.no_republish_before_expiry Witness.dec Witness.rec Witness.p0
    (Witness.raw 5 1 100)
    {| d_hash := 5; d_from := 2; d_tx := 1; d_source := LOCAL_IPC; d_recv_ns := 100; d_raw := None |}
    es _ _ _); [reflexivity|reflexivity|].
  intros now Hnow. unfold es, Witness.trace in Hnow.
  repeat (apply elem_of_cons in Hnow as [Hnow|Hnow]; [try discriminate|]).
  - injection Hnow as ->. vm_compute. discriminate.
  - by apply not_elem_of_nil in Hnow.
Defined.
