(* ===== verification/Fanout.v ===== *)
(** * crates/bsc-bus/src/fanout.rs and subscription.rs: the broadcast

    [Bus] and [Subscription] wrap tokio's broadcast channel.  The channel is
    not part of the sources: the classes [Broadcast] and [BroadcastLaws] state
    its documented behaviour, and [Ring] is a concrete channel that has it.
    [Fan] joins the pipeline's dedupe stage to the bus and to one subscriber,
    under any interleaving; [turn] is the body of the consumers' loops
    (kol_watch.rs, token_flow.rs). *)

From Stdlib Require Import ZArith Lia String.
From S2P Require Import Prelude Bytes Bus.

(** ** The channel

    [try_recv] is one completed poll of [recv]: [Empty] is a poll that would
    wait. *)

Inductive answer (A : Type) : Type := Got (x : A) | Missed (n : nat) | HungUp | Empty.
Arguments Got {A} x.
Arguments Missed {A} n.
Arguments HungUp {A}.
Arguments Empty {A}.

Class Broadcast (A : Type) : Type := {
  Chan : Type;
  Receiver : Type;
  channel : nat → Chan * Receiver;
  send : Chan → A → Chan * option nat;
  new_rx : Chan → Chan * Receiver;
  drop_rx : Chan → Receiver → Chan;
  hang_up : Chan → Chan;
  try_recv : Chan → Receiver → Receiver * answer A;
  receivers : Chan → nat;
}.

(** A channel [holds] what was sent while there were receivers; a receiver has
    [seen] a prefix of it, and only the latest [room] values are kept. *)
Class BroadcastLaws (A : Type) `{Broadcast A} : Type := {
  holds : Chan → list A → Prop;
  seen : Receiver → nat;
  room : Chan → nat;
  hung : Chan → bool;
  channel_law n : (0 < n)%nat →
    let '(c, r) := channel n in
    holds c [] ∧ (n ≤ room c)%nat ∧ hung c = false ∧ receivers c = 1%nat;
  send_law c xs x : holds c xs → receivers c ≠ 0%nat →
    let '(c', r) := send c x in
    holds c' (xs ++ [x]) ∧ room c' = room c ∧ hung c' = hung c ∧ receivers c' = receivers c ∧
    r = Some (receivers c);
  send_nobody_law c x : receivers c = 0%nat → send c x = (c, None);
  new_rx_law c xs : holds c xs →
    let '(c', r) := new_rx c in
    holds c' xs ∧ room c' = room c ∧ hung c' = hung c ∧ receivers c' = S (receivers c) ∧
    seen r = length xs;
  drop_rx_law c r xs : holds c xs →
    let c' := drop_rx c r in
    holds c' xs ∧ room c' = room c ∧ hung c' = hung c ∧ receivers c' = pred (receivers c);
  hang_up_law c xs : holds c xs →
    let c' := hang_up c in holds c' xs ∧ room c' = room c ∧ hung c' = true;
  try_recv_law c xs r : holds c xs → (seen r ≤ length xs)%nat →
    let '(r', a) := try_recv c r in
    if (length xs =? seen r)%nat then seen r' = seen r ∧ a = if hung c then HungUp else Empty
    else if (seen r + room c <? length xs)%nat
    then seen r' = (length xs - room c)%nat ∧ a = Missed (length xs - room c - seen r)
    else seen r' = S (seen r) ∧ ∃ x, xs !! seen r = Some x ∧ a = Got x;
}.

(** ** fanout.rs, subscription.rs *)

Section Wrapper.
Context {A : Type} `{!Broadcast A}.

Record Bus : Type := { tx : Chan }.

(** [Bus::new] drops the receiver that comes with the channel. *)
Definition Bus_new (capacity : nat) : Bus :=
let '(tx, rx) := channel capacity in {| tx := drop_rx tx rx |}.

Definition publish (b : Bus) (item : A) : Bus * nat :=
let '(c, r) := send (tx b) item in ({| tx := c |}, unwrap_or r 0%nat).

Record Subscription : Type := { name : string; rx : Receiver }.

Definition subscribe (b : Bus) (nm : string) : Bus * Subscription :=
let '(c, r) := new_rx (tx b) in ({| tx := c |}, {| name := nm; rx := r |}).

Definition receiver_count (b : Bus) : nat := receivers (tx b).

Inductive RecvError : Type := Lagged (nm : string) (skipped : nat) | Closed.

(** [Subscription::recv]; [None] while it waits. *)
Definition recv (b : Bus) (s : Subscription) : Subscription * option (result A RecvError) :=
let '(r, a) := try_recv (tx b) (rx s) in
({| name := name s; rx := r |},
match a with
| Got x => Some (Ok x)
| Missed n => Some (Err (Lagged (name s) n))
| HungUp => Some (Err Closed)
| Empty => None
end).

(** One turn of a consumer's loop with body [f]; [false] when it returns. *)
Definition turn {S : Type} (f : S → A → S) (b : Bus) (sub : Subscription) (s : S) :
Subscription * S * bool :=
match recv b sub with
| (sub, Some (Ok x)) => (sub, f s x, true)
| (sub, Some (Err (Lagged _ _))) => (sub, s, true)
| (sub, Some (Err Closed)) => (sub, s, false)
| (sub, None) => (sub, s, true)
end.

Fixpoint turns {S : Type} (f : S → A → S) (b : Bus) (n : nat) (sub : Subscription) (s : S) :
Subscription * S * bool :=
match n with
| O => (sub, s, true)
| Datatypes.S n =>
match turn f b sub s with
| (sub, s, true) => turns f b n sub s
| r => r
end
end.

(** What a subscriber got, and how many it was told it lost. *)
Definition items (hs : list (result A RecvError)) : list A :=
omap (λ h, match h with Ok x => Some x | Err _ => None end) hs.
Definition skipped (hs : list (result A RecvError)) : nat :=
foldr (λ h n, match h with Err (Lagged _ k) => (k + n)%nat | _ => n end) 0%nat hs.

End Wrapper.
Arguments Bus A {_}.
Arguments Subscription A {_}.

(** ** A ring with the documented behaviour *)

Module Ring.
Section Ring.
Context {A : Type}.

(** The latest [size] values of the [tail] sent. *)
Record Ring : Type := {
buf : list A; size : nat; tail : nat; rx_count : nat; gone : bool }.

Definition receive (c : Ring) (r : nat) : nat * answer A :=
let oldest := (tail c - length (buf c))%nat in
if (tail c =? r)%nat then (r, if gone c then HungUp else Empty)
else if (r <? oldest)%nat then (oldest, Missed (oldest - r))
else match buf c !! (r - oldest)%nat with Some x => (S r, Got x) | None => (r, Empty) end.

#[global] Instance ring : Broadcast A := {
Chan := Ring;
Receiver := nat;
channel n := ({| buf := []; size := n; tail := 0; rx_count := 1; gone := false |}, 0%nat);
send c x :=
if (rx_count c =? 0)%nat then (c, None)
else ({| buf := lastn (size c) (buf c ++ [x]); size := size c; tail := S (tail c);
rx_count := rx_count c; gone := gone c |}, Some (rx_count c));
new_rx c := ({| buf := buf c; size := size c; tail := tail c; rx_count := S (rx_count c);
  gone := gone c |}, tail c);
drop_rx c _ := {| buf := buf c; size := size c; tail := tail c; rx_count := pred (rx_count c);
    gone := gone c |};
hang_up c := {| buf := buf c; size := size c; tail := tail c; rx_count := rx_count c;
  gone := true |};
try_recv := receive;
receivers := rx_count;
}.

Definition keeps (c : Ring) (xs : list A) : Prop :=
(0 < size c)%nat ∧ tail c = length xs ∧ buf c = lastn (size c) xs.

#[global] Program Instance ring_laws : BroadcastLaws A := {
holds := keeps; seen := id; room := size; hung := gone }.
Next Obligation. intros n Hn. cbn. split_and!; [by split_and!|lia|done..]. Qed.
Next Obligation.
intros c xs x (Hs & Ht & Hb) Hr. cbn in *. rewrite (proj2 (Nat.eqb_neq _ _) Hr). cbn.
split_and!; [|done..]. split_and!; cbn; [done|rewrite length_app; cbn; lia|].
rewrite Hb, !lastn_snoc by done. f_equal. apply lastn_lastn. lia.
Qed.
Next Obligation. intros c x Hr. cbn in *. by rewrite Hr. Qed.
Next Obligation. intros c xs (? & Ht & ?). cbn. by split_and!. Qed.
Next Obligation. intros c r xs (? & ? & ?). cbn. by split_and!. Qed.
Next Obligation. intros c xs (? & ? & ?). cbn. by split_and!. Qed.
Next Obligation.
intros c xs r (Hs & Ht & Hb) Hle. cbn -[Nat.ltb Nat.eqb] in *. unfold id in *.
unfold receive. rewrite Ht, Hb, lastn_length.
destruct (Nat.eqb_spec (length xs) r) as [|Hne]; [done|].
destruct (Nat.ltb_spec r (length xs - size c `min` length xs)) as [H1|H1];
destruct (Nat.ltb_spec (r + size c) (length xs)) as [H2|H2]; try lia.
- split; [lia|f_equal; lia].
- unfold lastn. rewrite lookup_drop.
replace (length xs - size c + (r - (length xs - size c `min` length xs)))%nat with r by lia.
destruct (lookup_lt_is_Some_2 xs r) as [x Hx]; [lia|]. rewrite Hx. split; [done|]. by exists x.
Qed.
End Ring.
Arguments Ring A : clear implicits.
End Ring.

(** ** The pipeline, its bus and one subscriber *)

Section Fan.
Context {TxEnvelope RlpError RecoveryError : Type}.
Context (alloy_decode : bytes → result TxEnvelope RlpError).
Context (alloy_recover : TxEnvelope → result Address RecoveryError).
Abbreviation Item := (Core.PendingTx TxEnvelope).
Context `{!Broadcast Item}.

Record Fan : Type := {
source : Pipeline.Pipeline (TxEnvelope := TxEnvelope);
chan : Bus Item;
sub : Subscription Item;
heard : list (result Item RecvError);
}.

Inductive fan_event : Type :=
| Source (e : Pipeline.event (TxEnvelope := TxEnvelope))
| Subscribe (nm : string)
| Read.

(** The subscription is opened before the sources are started. *)
Definition fan_start (cfg : Pipeline.PipelineConfig) (nm : string) : Fan :=
let '(b, s) := subscribe (Bus_new (Z.to_nat (Pipeline.broadcast_capacity cfg))) nm in
{| source := Pipeline.build_pipeline cfg; chan := b; sub := s; heard := [] |}.

(** [run_dedupe] publishes what [Pipeline.step] appends. *)
Definition fan_step (f : Fan) (e : fan_event) : Fan :=
match e with
| Source e =>
let p := Pipeline.step alloy_decode alloy_recover (source f) e in
{| source := p;
chan := foldl (λ b x, (publish b x).1) (chan f)
         (drop (length (Pipeline.bus (source f))) (Pipeline.bus p));
sub := sub f; heard := heard f |}
| Subscribe nm =>
{| source := source f; chan := (subscribe (chan f) nm).1; sub := sub f; heard := heard f |}
| Read =>
let '(s, o) := recv (chan f) (sub f) in
{| source := source f; chan := chan f; sub := s; heard := heard f ++ option_list o |}
end.

Definition fan_run (f : Fan) (es : list fan_event) : Fan := foldl fan_step f es.

Definition sources (es : list fan_event) : list (Pipeline.event (TxEnvelope := TxEnvelope)) :=
omap (λ e, match e with Source e => Some e | _ => None end) es.

(** Published and neither received nor reported lost. *)
Definition unread (f : Fan) : nat :=
length (Pipeline.bus (source f)) - (length (items (heard f)) + skipped (heard f)).
(** *** Lemmas *)

(** An honest account of the first [n] items of [log]: in order, each received
or counted in a lag. *)
Inductive told (log : list Item) : list (result Item RecvError) → nat → Prop :=
| told_nil : told log [] 0
| told_item hs n x : told log hs n → log !! n = Some x → told log (hs ++ [Ok x]) (S n)
| told_lag hs n nm k :
told log hs n → (n + k ≤ length log)%nat → told log (hs ++ [Err (Lagged nm k)]) (n + k).

Lemma items_app hs hs' : items (hs ++ hs') = items hs ++ items (hs' : list (result Item RecvError)).
Proof. apply omap_app. Qed.
Lemma skipped_app hs (hs' : list (result Item RecvError)) :
skipped (hs ++ hs') = (skipped hs + skipped hs')%nat.
Proof.
induction hs as [|h hs IH]; [done|]. change (skipped ((h :: hs) ++ hs')) with
(match h with Err (Lagged _ k) => (k + skipped (hs ++ hs'))%nat | _ => skipped (hs ++ hs') end).
rewrite IH. destruct h as [|[|]]; cbn; fold (skipped hs); lia.
Qed.

Lemma told_count log hs n :
told log hs n → n = (length (items hs) + skipped hs)%nat ∧ (n ≤ length log)%nat.
Proof.
induction 1 as [|hs n x _ [IH1 IH2] Hx|hs n nm k _ [IH1 IH2] Hk]; [cbn; lia|..];
rewrite items_app, skipped_app, length_app; cbn.
- apply lookup_lt_Some in Hx. lia.
- lia.
Qed.

Lemma told_grows log log' hs n : log `prefix_of` log' → told log hs n → told log' hs n.
Proof.
intros Hp. induction 1 as [|hs n x _ IH Hx|hs n nm k _ IH Hk].
- constructor.
- constructor; [done|]. by eapply prefix_lookup_Some.
- constructor; [done|]. apply prefix_length in Hp. lia.
Qed.

Lemma told_sublist log hs n : told log hs n → items hs `sublist_of` take n log.
Proof.
induction 1 as [|hs n x _ IH Hx|hs n nm k _ IH Hk]; [constructor|..]; rewrite items_app; cbn.
- rewrite (take_S_r _ _ _ Hx). by apply sublist_app.
- rewrite app_nil_r. etrans; [exact IH|].
replace (take n log) with (take n (take (n + k) log)) by (rewrite take_take; f_equal; lia).
apply sublist_take.
Qed.

Lemma told_complete log hs n : told log hs n → skipped hs = 0%nat → items hs = take n log.
Proof.
induction 1 as [|hs n x _ IH Hx|hs n nm k Ht IH Hk]; [done|..];
rewrite items_app, skipped_app; cbn; intros Hs.
- rewrite (take_S_r _ _ _ Hx), IH by lia. done.
- replace (n + k)%nat with n by lia. rewrite app_nil_r. apply IH. lia.
Qed.

Context `{!BroadcastLaws Item}.

(** The channel of the bus, with [n] as the capacity asked for. *)
Record carries (n : nat) (b : Bus Item) (log : list Item) : Prop := {
ca_holds : holds (tx b) log;
ca_room : (n ≤ room (tx b))%nat;
ca_open : hung (tx b) = false;
ca_heard : receivers (tx b) ≠ 0%nat;
}.

Record fan_ok (n : nat) (f : Fan) : Prop := {
fo_bus : carries n (chan f) (Pipeline.bus (source f));
fo_told : told (Pipeline.bus (source f)) (heard f) (seen (rx (sub f)));
}.

Lemma publish_carries n b log xs :
carries n b log → carries n (foldl (λ b x, (publish b x).1) b xs) (log ++ xs).
Proof.
revert b log. induction xs as [|x xs IH]; intros b log Hb; [by rewrite app_nil_r|].
rewrite cons_middle, app_assoc. apply IH. destruct Hb as [H1 H2 H3 H4]. unfold publish.
pose proof (send_law _ _ x H1 H4) as Hs. destruct (send (tx b) x) as [c r].
destruct Hs as (? & Hr & Hh & Hn & _). split; cbn; congruence.
Qed.

Lemma subscribe_carries n b log nm : carries n b log → carries n (subscribe b nm).1 log.
Proof.
intros [H1 H2 H3 H4]. unfold subscribe. pose proof (new_rx_law _ _ H1) as Hs.
destruct (new_rx (tx b)) as [c r]. destruct Hs as (? & Hr & Hh & Hn & _).
split; cbn; [done|congruence..|lia].
Qed.

Lemma fan_start_ok cfg nm :
0 < Pipeline.broadcast_capacity cfg → fan_ok (Z.to_nat (Pipeline.broadcast_capacity cfg)) (fan_start cfg nm).
Proof.
intros Hc. unfold fan_start, Bus_new. set (n := Z.to_nat _).
assert (0 < n)%nat as Hn by lia. pose proof (channel_law n Hn) as Hs.
destruct (channel n) as [c r]. destruct Hs as (Hh & Hr & Ho & Hx).
destruct (drop_rx_law c r _ Hh) as (Hh' & Hr' & Ho' & Hx').
unfold subscribe. cbn [tx]. pose proof (new_rx_law _ _ Hh') as Hs.
destruct (new_rx (drop_rx c r)) as [c2 r2]. destruct Hs as (? & ? & ? & ? & Hseen).
split; cbn; [split; cbn; [done|congruence..|lia]|]. rewrite Hseen. constructor.
Qed.

(** What a read does: nothing when everything is read, a lag when the unread
items do not fit the channel, else the next item. *)
Lemma read_cases n f :
fan_ok n f →
let f' := fan_step f Read in
source f' = source f ∧ fan_ok n f' ∧
((unread f = 0%nat ∧ heard f' = heard f) ∨
(n < unread f ∧ ∃ nm k, heard f' = heard f ++ [Err (Lagged nm k)])%nat ∨
(∃ x, heard f' = heard f ++ [Ok x])).
Proof.
intros [Hb Ht]. pose proof Hb as [H1 H2 H3 _]. destruct (told_count _ _ _ Ht) as [Hn Hle].
pose proof (try_recv_law _ _ _ H1 Hle) as Hr. unfold unread. rewrite <- Hn. cbn. unfold recv.
destruct (try_recv (tx (chan f)) (rx (sub f))) as [r a].
destruct (Nat.eqb_spec (length (Pipeline.bus (source f))) (seen (rx (sub f)))) as [He|He].
{ destruct Hr as [Hs ->]. rewrite H3. cbn. rewrite app_nil_r.
split_and!; [done|split; cbn; [done|by rewrite Hs]|left]. split; [lia|done]. }
destruct (Nat.ltb_spec (seen (rx (sub f)) + room (tx (chan f))) (length (Pipeline.bus (source f)))) as [Hl|Hl].
- destruct Hr as [Hs ->]. cbn. split_and!; [done| |right; left; split; [lia|eauto]].
split; cbn; [done|]. set (k := (_ - _ - _)%nat) in *.
assert (seen r = (seen (rx (sub f)) + k)%nat) as -> by lia. constructor; [done|lia].
- destruct Hr as (Hs & x & Hx & ->). cbn. split_and!; [done| |eauto].
split; cbn; [done|]. rewrite Hs. by constructor.
Qed.

Lemma fan_step_ok n f e : fan_ok n f → fan_ok n (fan_step f e).
Proof.
intros Hf. destruct e as [e|nm|]; [| |by apply read_cases].
- destruct Hf as [Hb Ht]. pose proof (Pipeline.step_extends alloy_decode alloy_recover (source f) e) as [xs Hxs].
split; cbn; rewrite Hxs; [rewrite drop_app_length; by apply publish_carries|].
eapply told_grows; [|done]. by exists xs.
- destruct Hf as [Hb Ht]. split; cbn; [by apply subscribe_carries|done].
Qed.

Lemma fan_run_snoc f es e : fan_run f (es ++ [e]) = fan_step (fan_run f es) e.
Proof. apply foldl_snoc. Qed.

Lemma fan_run_ok n f es : fan_ok n f → fan_ok n (fan_run f es).
Proof.
intros Hf. induction es as [|e es IH] using rev_ind; [done|]. rewrite fan_run_snoc. by apply fan_step_ok.
Qed.

Lemma fan_run_source f es :
source (fan_run f es) = Pipeline.run alloy_decode alloy_recover (source f) (sources es).
Proof.
induction es as [|e es IH] using rev_ind; [done|]. rewrite fan_run_snoc. unfold sources. rewrite omap_app.
fold (sources es). destruct e as [e|nm|]; cbn.
- unfold Pipeline.run. rewrite foldl_snoc. by rewrite IH.
- by rewrite app_nil_r.
- destruct (recv _ _). by rewrite app_nil_r.
Qed.

(** *** Theorems *)

(** The subscriber is never more than the capacity behind. *)
Definition keeps_up (n : nat) (f : Fan) (es : list fan_event) : Prop :=
∀ es1, es1 `prefix_of` es → (unread (fan_run f es1) ≤ n)%nat.

Lemma keeps_up_check n f es :
forallb (λ k, unread (fan_run f (take k es)) <=? n)%nat (seq 0 (S (length es))) = true → keeps_up n f es.
Proof.
intros H es1 [k ->]. eapply forallb_forall in H; [apply Nat.leb_le in H|].
- by rewrite take_app_length in H.
- apply in_seq. rewrite length_app. lia.
Qed.

Lemma keeps_up_skips_none n f es :
fan_ok n f → skipped (heard f) = 0%nat → keeps_up n f es → skipped (heard (fan_run f es)) = 0%nat.
Proof.
intros Hf H0. induction es as [|e es IH] using rev_ind; [done|]. intros Hk.
assert (skipped (heard (fan_run f es)) = 0%nat) as Hs.
{ apply IH. intros es1 H1. apply Hk. by apply prefix_app_r. }
rewrite fan_run_snoc. destruct e as [e|nm|]; [done..|].
destruct (read_cases n (fan_run f es) (fan_run_ok _ _ es Hf)) as (_ & _ & [[_ ->]|[[Hu _]|[x ->]]]).
- done.
- specialize (Hk es). ospecialize (Hk _); [by apply prefix_app_r|]. lia.
- rewrite skipped_app, Hs. done.
Qed.

(** Reading on empties what the channel still holds. *)
Lemma reads_empty n k f :
fan_ok n f → skipped (heard f) = 0%nat → unread f = k → (k ≤ n)%nat →
items (heard (fan_run f (replicate k Read))) = Pipeline.bus (source f).
Proof.
revert f. induction k as [|k IH]; intros f Hf Hs Hu Hk.
- destruct (told_count _ _ _ (fo_told _ _ Hf)) as [Hn Hle]. unfold unread in Hu. cbn.
rewrite (told_complete _ _ _ (fo_told _ _ Hf) Hs). apply take_ge. lia.
- change (fan_run f (replicate (S k) Read)) with (fan_run (fan_step f Read) (replicate k Read)).
destruct (read_cases n f Hf) as (He & Hf' & [[? _]|[[? _]|[x Hx]]]); [lia|lia|].
rewrite IH; [by rewrite He|done|..].
+ by rewrite Hx, skipped_app, Hs.
+ unfold unread in *. rewrite He, Hx, items_app, skipped_app, length_app. cbn. lia.
+ lia.
Qed.

(** [C18] Every subscriber hears each transaction once.  With a subscription opened
before the sources start, over any interleaving of sightings from any
sources, of new heads, of other subscriptions and of reads, without a
janitor tick: what the subscriber received is a subsequence of what was
published, without a hash twice, and a hash was published exactly when it
was sighted; received, reported lost and still unread add up to the
published transactions, so nothing is lost silently.  A subscriber that is
never more than the capacity behind loses nothing, and reading on it
receives everything. *)
Theorem subscriber_hears_each_once cfg nm es :
0 < Pipeline.broadcast_capacity cfg →
Forall (λ e, Pipeline.is_janitor e = false) (sources es) →
let f0 := fan_start cfg nm in
let f := fan_run f0 es in
let log := Pipeline.bus (source f) in
items (heard f) `sublist_of` log ∧ NoDup (Core.p_hash <$> items (heard f)) ∧
(∀ h, h ∈ Core.p_hash <$> log ↔
Pipeline.sightings_of alloy_decode alloy_recover h (sources es) ≠ []) ∧
(length (items (heard f)) + skipped (heard f) + unread f = length log)%nat ∧
(keeps_up (Z.to_nat (Pipeline.broadcast_capacity cfg)) f0 es →
skipped (heard f) = 0%nat ∧ items (heard (fan_run f (replicate (unread f) Read))) = log).
Proof.
intros Hc Hes f0 f log. pose proof (fan_start_ok cfg nm Hc) as H0. fold f0 in H0.
pose proof (fan_run_ok _ _ es H0) as Hf. fold f in Hf.
destruct (told_count _ _ _ (fo_told _ _ Hf)) as [Hn Hle].
assert (source f = Pipeline.run alloy_decode alloy_recover (Pipeline.build_pipeline cfg) (sources es)) as Hsrc.
{ subst f. rewrite fan_run_source. f_equal. subst f0. unfold fan_start. by destruct (subscribe _ _). }
destruct (Pipeline.published_once alloy_decode alloy_recover
(sat_mul 64 (Pipeline.dedupe_ttl_secs cfg) 1000000000) (sources es) Hes) as [Hnd Hin].
assert (items (heard f) `sublist_of` log) as Hsub.
{ etrans; [apply (told_sublist _ _ _ (fo_told _ _ Hf))|apply sublist_take]. }
assert (Core.p_hash <$> log = Pipeline.published_hashes
(Pipeline.run alloy_decode alloy_recover (Pipeline.build_pipeline cfg) (sources es))) as Hlog
by (subst log; by rewrite Hsrc).
split_and!; [done| | | |].
- eapply sublist_NoDup; [|by apply fmap_sublist, Hsub]. rewrite Hlog. exact Hnd.
- intros h. rewrite Hlog. apply Hin.
- unfold unread. subst log. lia.
- intros Hk. assert (skipped (heard f0) = 0%nat) as Hs0.
{ subst f0. unfold fan_start. by destruct (subscribe _ _). }
pose proof (keeps_up_skips_none _ _ es H0 Hs0 Hk) as Hs. split; [done|].
eapply reads_empty; [exact Hf|done|done|]. apply Hk. done.
Qed.

(** Published before anyone subscribes: dropped. *)
Lemma publish_to_nobody n x :
(0 < n)%nat → publish (Bus_new n : Bus Item) x = (Bus_new n, 0%nat).
Proof.
intros Hn. unfold publish, Bus_new. pose proof (channel_law n Hn) as Hs.
destruct (channel n) as [c r]. destruct Hs as (Hh & _ & _ & Hx).
destruct (drop_rx_law c r _ Hh) as (_ & _ & _ & Hx'). cbn. rewrite Hx in Hx'.
by rewrite (send_nobody_law _ x Hx').
Qed.
End Fan.

(** ** The consumers' loops *)

Section Loop.
Context {A S : Type} `{!BroadcastLaws A} (f : S → A → S).

(** A turn on an open channel: the next item is processed, a lag is skipped
over, and an empty channel waits. *)
Lemma turn_cases b sub s log :
holds (tx b) log → (seen (rx sub) ≤ length log)%nat →
let '(sub', s', on) := turn f b sub s in
(seen (rx sub') ≤ length log)%nat ∧
((seen (rx sub) = length log ∧ seen (rx sub') = seen (rx sub) ∧ s' = s ∧ on = negb (hung (tx b))) ∨
(seen (rx sub) + room (tx b) < length log ∧ seen (rx sub') = length log - room (tx b) ∧
s' = s ∧ on = true)%nat ∨
(∃ x, log !! seen (rx sub) = Some x ∧ seen (rx sub') = Datatypes.S (seen (rx sub)) ∧ s' = f s x ∧
on = true)).
Proof.
intros Hh Hle. pose proof (try_recv_law _ _ _ Hh Hle) as Hr. unfold turn, recv.
destruct (try_recv (tx b) (rx sub)) as [r a].
destruct (Nat.eqb_spec (length log) (seen (rx sub))) as [He|He].
{ destruct Hr as [Hs ->]. destruct (hung (tx b)) eqn:Ho; cbn; (split; [lia|left; by split_and!]). }
destruct (Nat.ltb_spec (seen (rx sub) + room (tx b)) (length log)) as [Hl|Hl].
- destruct Hr as [Hs ->]. cbn. split; [lia|]. right; left. by split_and!.
- destruct Hr as (Hs & x & Hx & ->). cbn. split; [lia|]. right; right. by exists x.
Qed.

(** Once the bus is dropped, a consumer processes what is left, in order, and
returns. *)
Lemma drains_then_returns b log n sub s :
holds (tx b) log → hung (tx b) = true → (seen (rx sub) + n = length log)%nat →
(n ≤ room (tx b))%nat →
(turns f b (Datatypes.S n) sub s).1.2 = foldl f s (drop (seen (rx sub)) log) ∧
(turns f b (Datatypes.S n) sub s).2 = false.
Proof.
intros Hh Hg. revert sub s. induction n as [|n IH]; intros sub s Hn Hr;
cbn [turns]; pose proof (turn_cases b sub s log Hh ltac:(lia)) as Hc;
destruct (turn f b sub s) as [[sub' s'] on]; destruct Hc as [Hle Hc].
- destruct Hc as [(H1 & H2 & -> & ->)|[(H1 & _)|(x & Hx & _)]]; [|lia|apply lookup_lt_Some in Hx; lia].
rewrite Hg. cbn. rewrite H1, drop_all. done.
- destruct Hc as [(H1 & _)|[(H1 & _)|(x & Hx & Hs & -> & ->)]]; [lia|lia|].
rewrite (drop_S _ _ _ Hx). cbn [foldl]. rewrite <- Hs. apply IH; lia.
Qed.
End Loop.

(** ** Witness *)

Module Example.
Import Bus.Witness.

(** Room for two, and no more than two behind. *)
Definition cfg : Pipeline.PipelineConfig :=
{| Pipeline.raw_channel_capacity := 8; Pipeline.decoded_channel_capacity := 8;
Pipeline.broadcast_capacity := 2; Pipeline.dedupe_capacity := 8;
Pipeline.dedupe_ttl_secs := 60; Pipeline.decoder_workers := 4;
Pipeline.janitor_interval_secs := 5 |}.
Definition events : list (fan_event (TxEnvelope := Z)) :=
[Subscribe "capture"; Source (Pipeline.Deliver (raw 5 1 100)); Read; Read;
Source (Pipeline.Deliver (raw 5 1 110)); Source (Pipeline.Deliver (raw 8 2 120));
Source (Pipeline.Deliver (raw 9 3 130))].
Definition watch : Fan := fan_run dec rec (fan_start cfg "kol_watch") events.

(** The same without a read: two of the three are lost, and counted. *)
Definition slow : Fan :=
fan_run dec rec (fan_start cfg "token_flow")
((Source <$> [Pipeline.Deliver (raw 5 1 100); Pipeline.Deliver (raw 8 2 120);
        Pipeline.Deliver (raw 9 3 130); Pipeline.Deliver (raw 4 3 140)]) ++ [Read; Read]).
Example slow_lags :
(Core.p_hash <$> items (heard slow), skipped (heard slow), unread slow) = ([9], 2%nat, 1%nat).
Proof. vm_compute. reflexivity. Qed.

Lemma keeps : keeps_up dec rec 2 (fan_start cfg "kol_watch") events.
Proof. apply keeps_up_check. vm_compute. reflexivity. Qed.
End Example.

Lemma subscriber_hears_each_once_witness :
  let f := Example.watch in
  NoDup (Core.p_hash <$> items (heard f)) ∧ skipped (heard f) = 0%nat ∧ unread f = 2%nat ∧
  Core.p_hash <$> items (heard (fan_run Witness.dec Witness.rec f (replicate 2 Read))) = [5; 8; 9].
Proof.
  destruct (subscriber_hears_each_once Witness.dec Witness.rec Example.cfg "kol_watch"
    Example.events) as (_ & Hnd & _ & _ & Hk); [done|by repeat constructor|].
  destruct (Hk Example.keeps) as [Hs Hi]. split_and!; [exact Hnd|exact Hs|vm_compute; reflexivity|].
  etrans; [exact (f_equal (fmap Core.p_hash) Hi)|vm_compute; reflexivity].
Defined.
