(* ===== verification/Sim.v ===== *)
(** * trader/sim.rs: the paper-trading simulator's quotes

    V2 first; V3's best fee tier when V2 has no pair, no liquidity or fails. *)

From Stdlib Require Import ZArith Lia Ascii String.
From S2P Require Import Prelude Bytes Dex.

Inductive QuoteVenue : Type := PancakeV2 | PancakeV3 | Bonding.

#[global] Instance QuoteVenue_eq_dec : EqDecision QuoteVenue.
Proof. solve_decision. Defined.

Definition venue_label (v : QuoteVenue) : string :=
  match v with PancakeV2 => "v2" | PancakeV3 => "v3" | Bonding => "bonding" end.

Record QuoteResult : Type := {
  amount_out : U256;
  venue : QuoteVenue;
  fee_tier : option Z;
}.

Section Simulator.
Context (node : Address → list ascii → block_tag → rpc_reply).

(** [None] is a panic of the V2 decoder, which cannot happen here. *)
Definition try_quote (src dst : Address) (amount_in : U256) (block : option Z)
: option (option QuoteResult) :=
v2 ← V2.quote_single_hop node amount_in src dst block;
let v3 :=
match V3.quote_best_tier node src dst amount_in block with
| Ok (Some r) =>
Some {| amount_out := V3.amount_out r; venue := PancakeV3;
  fee_tier := Some (V3.fee_tier r) |}
| Ok None => None
| Err _ => None
end in
match v2 with
| Ok a =>
if negb (a =? 0)
then Some (Some {| amount_out := a; venue := PancakeV2; fee_tier := None |})
else Some v3
| Err _ => Some v3
end.

Definition simulate_buy (bnb_in_wei : U256) (token : Address) (block : option Z)
: option (option QuoteResult) := try_quote WBNB token bnb_in_wei block.

Definition simulate_sell (tokens_in : U256) (token : Address) (block : option Z)
: option (option QuoteResult) := try_quote token WBNB tokens_in block.

(** The simulator's quote: it never panics; a quote it returns is
non-zero; it comes from V2 whenever V2 has one, and otherwise is the
best V3 tier; no quote means that neither venue has one. *)
Theorem try_quote_prefers_v2 src dst amt block :
match try_quote src dst amt block with
| None => False
| Some (Some q) =>
amount_out q ≠ 0 ∧
((venue q = PancakeV2 ∧ fee_tier q = None ∧
V2.quote_single_hop node amt src dst block = Some (Ok (amount_out q))) ∨
(venue q = PancakeV3 ∧
(∀ a, V2.quote_single_hop node amt src dst block = Some (Ok a) → a = 0) ∧
∃ fee, fee_tier q = Some fee ∧ fee ∈ PANCAKE_V3_FEE_TIERS ∧
V3.quote_one_tier node src dst amt fee block = Ok (amount_out q)))
| Some None =>
(∀ a, V2.quote_single_hop node amt src dst block = Some (Ok a) → a = 0) ∧
∀ fee a, fee ∈ PANCAKE_V3_FEE_TIERS →
V3.quote_one_tier node src dst amt fee block = Ok a → a = 0
end.
Proof.
unfold try_quote.
assert (is_Some (V2.quote_single_hop node amt src dst block)) as [v2 Hv2].
{ unfold V2.quote_single_hop, V2.quote_path. rewrite decide_False by (cbn; lia).
destruct (V2.eth_call _ _ _ _); [|eauto]. apply V2.decode_amounts_last_total. cbn. lia. }
rewrite Hv2. cbn [mbind option_bind].
pose proof (V3.foldl_best node src dst amt block PANCAKE_V3_FEE_TIERS [] None) as H3.
cbn [app] in H3. unfold V3.quote_best_tier.
destruct (foldl _ None PANCAKE_V3_FEE_TIERS) as [r|] eqn:Er.
- destruct H3 as (Hin & [Hq Hnz] & _);
[intros ?? H; by apply not_elem_of_nil in H|].
assert (∀ z : U256, v2 = Ok z → z = 0 ∨ z ≠ 0) by (intros; lia).
destruct v2 as [a|e]; [destruct (Z.eqb_spec a 0) as [->|]|]; cbn;
split; naive_solver.
- assert (∀ fee a, fee ∈ PANCAKE_V3_FEE_TIERS →
V3.quote_one_tier node src dst amt fee block = Ok a → a = 0) as Hno.
{ intros fee a Hin Hq. destruct (decide (a = 0)); [done|].
exfalso. eapply H3; [|exact Hin|by split].
intros ?? H; by apply not_elem_of_nil in H. }
destruct v2 as [a|e]; [destruct (Z.eqb_spec a 0) as [->|]|]; cbn; naive_solver.
Qed.
End Simulator.
