(* ===== verification/Positions.v ===== *)
(** * trader/position.rs and the persistence of trader/ledger.rs

    Module [PositionBook]: the open positions keyed by portfolio, KOL and
    token, with average-in on repeated buys.  Module [Ledger]: the snapshot
    to [open_positions.json] and its reload, with serde's JSON as the identity
    on the list of positions and the HashMap's iteration order arbitrary. *)

From Stdlib Require Import ZArith Lia.
From S2P Require Import Prelude F64 Bytes Types.

Module PositionBook.
(** [by_key]. *)
Abbreviation PositionBook := (gmap PositionKey OpenPosition) (only parsing).

Definition new : PositionBook := ∅.
Definition len (b : PositionBook) : Z := Z.of_nat (size b).
Definition is_empty (b : PositionBook) : bool := bool_decide (b = ∅).

(** [now_ns] is the clock the function reads. *)
Definition open_or_add (now_ns : Z) (b : PositionBook)
(pf : PortfolioMode) (kol : string) (token : Address) (symbol : string) (decimals : Z)
(bnb tokens : U256) (block : Z) (tx : B256) : PositionBook :=
let k := {| key_portfolio := pf; key_kol_name := kol; key_token := token |} in
match b !! k with
| Some pos =>
<[k := {| portfolio := portfolio pos; kol_name := kol_name pos;
  token_address := token_address pos; token_symbol := token_symbol pos;
  token_decimals := token_decimals pos;
  bnb_in := sat_add 256 (bnb_in pos) bnb;
  tokens_held := sat_add 256 (tokens_held pos) tokens;
  opened_at_block := opened_at_block pos;
  opened_at_unix_ns := opened_at_unix_ns pos;
  last_added_block := block;
  buy_tx_hashes := buy_tx_hashes pos ++ [tx];
  d_mcap_usd := d_mcap_usd pos;
  our_entry_mcap_usd := our_entry_mcap_usd pos |}]> b
| None =>
<[k := {| portfolio := pf; kol_name := kol; token_address := token;
  token_symbol := symbol; token_decimals := decimals;
  bnb_in := bnb; tokens_held := tokens;
  opened_at_block := block; opened_at_unix_ns := now_ns;
  last_added_block := block; buy_tx_hashes := [tx];
  d_mcap_usd := f0; our_entry_mcap_usd := f0 |}]> b
end.

Definition set_entry_mcaps (b : PositionBook) (k : PositionKey) (d_mcap our_mcap : f64)
: PositionBook :=
alter (λ p,
{| portfolio := portfolio p; kol_name := kol_name p; token_address := token_address p;
token_symbol := token_symbol p; token_decimals := token_decimals p;
bnb_in := bnb_in p; tokens_held := tokens_held p;
opened_at_block := opened_at_block p; opened_at_unix_ns := opened_at_unix_ns p;
last_added_block := last_added_block p; buy_tx_hashes := buy_tx_hashes p;
d_mcap_usd := if feq (d_mcap_usd p) f0 then d_mcap else d_mcap_usd p;
our_entry_mcap_usd :=
if feq (our_entry_mcap_usd p) f0 then our_mcap else our_entry_mcap_usd p |}) k b.

Definition get (b : PositionBook) (k : PositionKey) : option OpenPosition := b !! k.

Definition remove (b : PositionBook) (k : PositionKey) : PositionBook * option OpenPosition :=
(delete k b, b !! k).

Definition shrink (b : PositionBook) (k : PositionKey) (new_tokens_held new_bnb_in : U256)
: PositionBook :=
alter (λ p,
{| portfolio := portfolio p; kol_name := kol_name p; token_address := token_address p;
token_symbol := token_symbol p; token_decimals := token_decimals p;
bnb_in := new_bnb_in; tokens_held := new_tokens_held;
opened_at_block := opened_at_block p; opened_at_unix_ns := opened_at_unix_ns p;
last_added_block := last_added_block p; buy_tx_hashes := buy_tx_hashes p;
d_mcap_usd := d_mcap_usd p; our_entry_mcap_usd := our_entry_mcap_usd p |}) k b.

Definition opened_before (b : PositionBook) (cutoff_unix_ns : Z) : list PositionKey :=
(map_to_list (filter (λ kp, opened_at_unix_ns kp.2 ≤ cutoff_unix_ns) b)).*1.

Definition keys_for_kol_token (b : PositionBook) (kol : string) (token : Address)
: list PositionKey :=
(map_to_list (filter (λ kp, key_kol_name kp.1 = kol ∧ key_token kp.1 = token) b)).*1.

Definition snapshot (b : PositionBook) : list OpenPosition := (map_to_list b).*2.

(** *** The book's invariant: every position sits under its own key. *)

Definition keyed (b : PositionBook) : Prop := ∀ k p, b !! k = Some p → key p = k.

(** The position [open_or_add] leaves under its key. *)
Definition merged (now_ns : Z) (old : option OpenPosition) pf kol token symbol decimals
bnb tokens block tx : OpenPosition :=
match old with
| Some pos =>
{| portfolio := portfolio pos; kol_name := kol_name pos;
token_address := token_address pos; token_symbol := token_symbol pos;
token_decimals := token_decimals pos;
bnb_in := sat_add 256 (bnb_in pos) bnb;
tokens_held := sat_add 256 (tokens_held pos) tokens;
opened_at_block := opened_at_block pos; opened_at_unix_ns := opened_at_unix_ns pos;
last_added_block := block; buy_tx_hashes := buy_tx_hashes pos ++ [tx];
d_mcap_usd := d_mcap_usd pos; our_entry_mcap_usd := our_entry_mcap_usd pos |}
| None =>
{| portfolio := pf; kol_name := kol; token_address := token;
token_symbol := symbol; token_decimals := decimals; bnb_in := bnb;
tokens_held := tokens; opened_at_block := block; opened_at_unix_ns := now_ns;
last_added_block := block; buy_tx_hashes := [tx]; d_mcap_usd := f0;
our_entry_mcap_usd := f0 |}
end.

Lemma open_or_add_insert now (b : PositionBook) pf kol token sym dec bnb tok blk tx :
let k := {| key_portfolio := pf; key_kol_name := kol; key_token := token |} in
open_or_add now b pf kol token sym dec bnb tok blk tx =
<[k := merged now (b !! k) pf kol token sym dec bnb tok blk tx]> b.
Proof. intros k. unfold open_or_add. fold k. by destruct (b !! k). Qed.

Lemma open_or_add_keyed now (b : PositionBook) pf kol token sym dec bnb tok blk tx :
keyed b → keyed (open_or_add now b pf kol token sym dec bnb tok blk tx).
Proof.
intros Hb k p. rewrite open_or_add_insert. intros [[<- <-]|[? Hp]]%lookup_insert_Some; [|by apply Hb].
destruct (b !! _) as [pos|] eqn:E; cbn; [|done]. by apply Hb in E.
Qed.

Lemma alter_keyed (f : OpenPosition → OpenPosition) (b : PositionBook) k :
(∀ p, key (f p) = key p) → keyed b → keyed (alter f k b).
Proof.
intros Hf Hb k' p. rewrite lookup_alter_Some. intros [(<- & q & Hq & ->)|[_ Hp]]; [|by apply Hb].
rewrite Hf. by apply Hb.
Qed.

Lemma set_entry_mcaps_keyed b k d o : keyed b → keyed (set_entry_mcaps b k d o).
Proof. by apply alter_keyed. Qed.
Lemma shrink_keyed b k t i : keyed b → keyed (shrink b k t i).
Proof. by apply alter_keyed. Qed.
Lemma remove_keyed (b : PositionBook) k : keyed b → keyed (remove b k).1.
Proof. intros Hb k' p. cbn. intros [_ Hp]%lookup_delete_Some. by apply Hb. Qed.

(** One buy of the same key. *)
Record fill : Type := {
f_now : Z; f_symbol : string; f_decimals : Z;
f_bnb : U256; f_tokens : U256; f_block : Z; f_tx : B256
}.

(** A sequence of buys of one (portfolio, KOL, token). *)
Definition buy_all (b : PositionBook) (k : PositionKey) (fills : list fill) : PositionBook :=
foldl (λ b f, open_or_add (f_now f) b (key_portfolio k) (key_kol_name k) (key_token k)
    (f_symbol f) (f_decimals f) (f_bnb f) (f_tokens f) (f_block f) (f_tx f)) b fills.

Lemma buy_all_snoc b k fs f :
buy_all b k (fs ++ [f]) =
open_or_add (f_now f) (buy_all b k fs) (key_portfolio k) (key_kol_name k) (key_token k)
(f_symbol f) (f_decimals f) (f_bnb f) (f_tokens f) (f_block f) (f_tx f).
Proof. unfold buy_all. by rewrite foldl_app. Qed.
End PositionBook.
Import PositionBook (open_or_add).

Module Ledger.
Import PositionBook.

(** [open_positions.json] as the process finds it. *)
Inductive json_file : Type :=
| Missing
| EmptyFile
| Unparsable
| Positions (ps : list OpenPosition).

(** [save_book]: any enumeration of the HashMap's values. *)
Definition save_book (b : PositionBook) (file : json_file) : Prop :=
∃ ps, file = Positions ps ∧ ps ≡ₚ snapshot b.

(** Re-insertion of one loaded position; [now] is the clock it reads. *)
Definition restore (now : Z) (b : PositionBook) (p : OpenPosition) : PositionBook :=
open_or_add now b (portfolio p) (kol_name p) (token_address p) (token_symbol p)
(token_decimals p) (bnb_in p) (tokens_held p) (opened_at_block p)
(unwrap_or (head (buy_tx_hashes p)) 0).

Definition load_book (now : Z) (file : json_file) : result PositionBook unit :=
match file with
| Missing | EmptyFile => Ok PositionBook.new
| Unparsable => Err tt
| Positions ps => Ok (foldl (restore now) PositionBook.new ps)
end.

(** What a position looks like after a restart. *)
Definition restamp (now : Z) (p : OpenPosition) : OpenPosition :=
{| portfolio := portfolio p; kol_name := kol_name p; token_address := token_address p;
token_symbol := token_symbol p; token_decimals := token_decimals p;
bnb_in := bnb_in p; tokens_held := tokens_held p;
opened_at_block := opened_at_block p; opened_at_unix_ns := now;
last_added_block := opened_at_block p;
buy_tx_hashes := [unwrap_or (head (buy_tx_hashes p)) 0];
d_mcap_usd := f0; our_entry_mcap_usd := f0 |}.

Lemma restore_fresh now (b : PositionBook) p :
b !! key p = None → restore now b p = <[key p := restamp now p]> b.
Proof.
intros Hk. unfold restore. rewrite open_or_add_insert.
change {| key_portfolio := portfolio p; key_kol_name := kol_name p;
key_token := token_address p |} with (key p).
by rewrite Hk.
Qed.

(** Restoring positions with distinct keys inserts each one. *)
Lemma restore_all now ps (b : PositionBook) k :
NoDup (key <$> ps) → (∀ p, p ∈ ps → b !! key p = None) →
foldl (restore now) b ps !! k =
match list_find (λ p, key p = k) ps with
| Some (_, p) => Some (restamp now p)
| None => b !! k
end.
Proof.
revert b. induction ps as [|p ps IH]; intros b Hnd Hb; [done|].
apply NoDup_cons in Hnd as [Hp Hnd]. cbn [foldl].
rewrite restore_fresh by (apply Hb; set_solver).
rewrite IH; [|done|].
- cbn. case_decide as Hk.
+ subst k. destruct (list_find _ ps) as [[i q]|] eqn:E; cbn.
* apply list_find_Some in E as (Hi & Hq & _). exfalso. apply Hp.
apply list_elem_of_fmap. exists q. split; [done|]. by eapply list_elem_of_lookup_2.
* by rewrite lookup_insert_eq.
+ destruct (list_find _ ps) as [[i q]|]; cbn; [done|]. by rewrite lookup_insert_ne.
- intros q Hq. rewrite lookup_insert_ne; [apply Hb; set_solver|].
intros Heq. apply Hp. apply list_elem_of_fmap. by exists q.
Qed.

Lemma snapshot_keys (b : PositionBook) :
keyed b → key <$> snapshot b = (map_to_list b).*1.
Proof.
intros Hb. unfold snapshot. rewrite <- list_fmap_compose.
apply list_fmap_ext. intros i [k p] Hi. cbn. apply Hb.
by apply elem_of_map_to_list, (list_elem_of_lookup_2 _ i).
Qed.

Lemma snapshot_elem (b : PositionBook) p : keyed b → p ∈ snapshot b ↔ b !! key p = Some p.
Proof.
intros Hb. unfold snapshot. rewrite list_elem_of_fmap. split.
- intros ([k q] & -> & Hq). cbn. apply elem_of_map_to_list in Hq.
by rewrite (Hb _ _ Hq).
- intros Hp. exists (key p, p). split; [done|]. by apply elem_of_map_to_list.
Qed.
End Ledger.

(** ** Properties *)

(** Average-in.  After any non-empty sequence of buys of a fresh
    (portfolio, KOL, token), the book has one position under that key: BNB
    spent and tokens held are the (saturated) sums over the fills, symbol,
    opening block and opening time are the first fill's, the last-added block
    is the last fill's, and the buy hashes are all fills' in order; every
    other key is untouched. *)
Theorem open_or_add_averages_in b k f0 fs :
  b !! k = None →
  Forall (λ f, in_width 256 (PositionBook.f_bnb f) ∧ in_width 256 (PositionBook.f_tokens f)) (f0 :: fs) →
  let b' := PositionBook.buy_all b k (f0 :: fs) in
  (∃ p, b' !! k = Some p ∧ key p = k ∧
    bnb_in p = Z.min (sum_by PositionBook.f_bnb (f0 :: fs)) (umax 256) ∧
    tokens_held p = Z.min (sum_by PositionBook.f_tokens (f0 :: fs)) (umax 256) ∧
    token_symbol p = PositionBook.f_symbol f0 ∧
    opened_at_block p = PositionBook.f_block f0 ∧
    opened_at_unix_ns p = PositionBook.f_now f0 ∧
    last_added_block p = PositionBook.f_block (List.last fs f0) ∧
    buy_tx_hashes p = PositionBook.f_tx <$> f0 :: fs) ∧
  ∀ k', k' ≠ k → b' !! k' = b !! k'.
Proof.
  intros Hb Hw b'. subst b'. revert Hw. induction fs as [|f fs IH] using rev_ind; intros Hw.
  - cbn [PositionBook.buy_all foldl]. rewrite PositionBook.open_or_add_insert.
    destruct k as [pf kol tok]; cbn in *. rewrite Hb. split.
    + eexists. rewrite lookup_insert_eq. split; [done|]. cbn.
      apply Forall_cons in Hw as [[? ?] _]. split_and!; try done; width.
    + intros k' ?. by rewrite lookup_insert_ne.
  - rewrite app_comm_cons in *. apply Forall_app in Hw as [Hw Hf].
    apply Forall_cons in Hf as [[Hf1 Hf2] _].
    destruct (IH Hw) as [(p & Hp & Hk & H1 & H2 & H3 & H4 & H5 & H6 & H7) Hother].
    rewrite PositionBook.buy_all_snoc, PositionBook.open_or_add_insert.
    destruct k as [pf kol tok]. cbn [key_portfolio key_kol_name key_token]. rewrite Hp. split.
    + eexists. rewrite lookup_insert_eq. split; [done|].
      assert (0 ≤ sum_by PositionBook.f_bnb (f0 :: fs) ∧ 0 ≤ sum_by PositionBook.f_tokens (f0 :: fs)).
      { split; apply sum_by_nonneg; intros g Hg; rewrite Forall_forall in Hw;
          destruct (Hw g Hg); width. }
      cbn [PositionBook.merged bnb_in tokens_held token_symbol opened_at_block
        opened_at_unix_ns last_added_block buy_tx_hashes key].
      rewrite !sum_by_app, H1, H2, H7, fmap_app, last_last. unfold sat_add.
      split_and!; try done; cbn [sum_by foldr]; width.
    + intros k' ?. rewrite lookup_insert_ne by done. by apply Hother.
Qed.

Definition witness_key : PositionKey :=
  {| key_portfolio := NormalTip; key_kol_name := "D"; key_token := 1 |}.
Definition witness_fill (now bnb tok blk tx : Z) : PositionBook.fill :=
  {| PositionBook.f_now := now; PositionBook.f_symbol := "PEPE"; PositionBook.f_decimals := 18;
     PositionBook.f_bnb := bnb; PositionBook.f_tokens := tok; PositionBook.f_block := blk;
     PositionBook.f_tx := tx |}.

Lemma open_or_add_averages_in_witness :
  ∃ p, PositionBook.buy_all ∅ witness_key
         [witness_fill 10 (10 ^ 18) 100 100 1; witness_fill 20 (2 * 10 ^ 18) 150 105 2]
         !! witness_key = Some p ∧ bnb_in p = 3 * 10 ^ 18 ∧ tokens_held p = 250.
Proof.
  destruct (open_or_add_averages_in ∅ witness_key
    (witness_fill 10 (10 ^ 18) 100 100 1) [witness_fill 20 (2 * 10 ^ 18) 150 105 2])
    as [(p & Hp & _ & H1 & H2 & _) _].
  - reflexivity.
  - repeat constructor; vm_compute; discriminate.
  - exists p. split; [exact Hp|]. rewrite H1, H2. split; vm_compute; reflexivity.
Defined.

(** Restart round trip.  Loading what [save_book] wrote, in whatever
    order the HashMap enumerated it, gives a book with the same keys; each
    position keeps its sizes, symbol and opening block, and is otherwise
    exactly [restamp]ed: opening time reset to the load time, the last-added
    block reset to the opening block, all buy hashes but the first and both
    entry market caps dropped. *)
Theorem ledger_roundtrip now b file :
  PositionBook.keyed b →
  Ledger.save_book b file →
  ∃ b', Ledger.load_book now file = Ok b' ∧ PositionBook.keyed b' ∧
    ∀ k, b' !! k = Ledger.restamp now <$> b !! k.
Proof.
  intros Hb (ps & -> & Hps). eexists. split; [reflexivity|].
  assert (NoDup (key <$> ps)) as Hnd.
  { rewrite Hps, Ledger.snapshot_keys by done. apply NoDup_fst_map_to_list. }
  assert (∀ k, foldl (Ledger.restore now) PositionBook.new ps !! k =
    Ledger.restamp now <$> b !! k) as Hl.
  { intros k. rewrite Ledger.restore_all by done.
    destruct (list_find _ ps) as [[i p]|] eqn:E.
    - apply list_find_Some in E as (Hi & <- & _).
      apply (list_elem_of_lookup_2 _ i) in Hi. rewrite Hps in Hi.
      apply Ledger.snapshot_elem in Hi; [|done]. by rewrite Hi.
    - destruct (b !! k) as [p|] eqn:Ep; [|done]. exfalso.
      apply list_find_None in E. rewrite Forall_forall in E. apply (E p); [|by apply Hb].
      rewrite Hps. apply Ledger.snapshot_elem; [done|]. by rewrite (Hb _ _ Ep). }
  split; [|done]. intros k p. rewrite Hl. intros (q & Hq & ->)%fmap_Some. by apply Hb in Hq.
Qed.

Lemma ledger_roundtrip_witness :
  ∃ b', Ledger.load_book 77
      (Ledger.Positions (PositionBook.snapshot
        (PositionBook.buy_all ∅ witness_key [witness_fill 10 5 6 100 1; witness_fill 20 5 6 105 2])))
      = Ok b' ∧
    (opened_at_unix_ns <$> b' !! witness_key) = Some 77.
Proof.
  destruct (ledger_roundtrip 77
    (PositionBook.buy_all ∅ witness_key [witness_fill 10 5 6 100 1; witness_fill 20 5 6 105 2])
    (Ledger.Positions (PositionBook.snapshot
        (PositionBook.buy_all ∅ witness_key [witness_fill 10 5 6 100 1; witness_fill 20 5 6 105 2]))))
    as (b' & H1 & _ & H2).
  - apply (PositionBook.open_or_add_keyed 20), (PositionBook.open_or_add_keyed 10).
    intros k p H. by rewrite lookup_empty in H.
  - eexists. split; [reflexivity|reflexivity].
  - exists b'. split; [exact H1|]. rewrite H2. vm_compute. reflexivity.
Defined.
