(* ===== verification/KolBudget.v ===== *)
(** * trader/kol_budget.rs: closed-loop paper budgets per KOL

    Each KOL has an independent pot: cash, the part committed to open
    positions, and the realised profit.  [try_reserve] takes a fraction of the
    current cash, [credit_close] returns the proceeds of a close.  All amounts
    are [u128] wei (profit [i128]); the saturations are the source's.  Clock
    reads are arguments; the JSON file is the map it serialises. *)

From Stdlib Require Import ZArith Lia.
From S2P Require Import Prelude.

Record KolBudget : Type := {
  initial_wei : Z;
  cash_wei : Z;
  committed_wei : Z;
  realized_pnl_wei : Z;
  trades_taken : Z;
  trades_skipped_budget : Z;
  last_updated_ns : Z;
}.

Definition KolBudget_new (initial : Z) : KolBudget :=
  {| initial_wei := initial; cash_wei := initial; committed_wei := 0; realized_pnl_wei := 0;
     trades_taken := 0; trades_skipped_budget := 0; last_updated_ns := 0 |}.

Definition equity_wei (b : KolBudget) : Z := sat_add 128 (cash_wei b) (committed_wei b).

Record KolBudgetBook : Type := {
  inner : gmap string KolBudget;
  book_initial_wei : Z;
  position_pct_bps : Z;
  dust_floor_wei : Z;
}.

(** [load_or_new]: [saved] is the parsed file, if it could be read and parsed. *)
Definition load_or_new (saved : option (gmap string KolBudget))
    (initial bps dust : Z) : KolBudgetBook :=
  {| inner := unwrap_or saved ∅; book_initial_wei := initial;
     position_pct_bps := bps; dust_floor_wei := dust |}.

Definition set_inner (bk : KolBudgetBook) (m : gmap string KolBudget) : KolBudgetBook :=
  {| inner := m; book_initial_wei := book_initial_wei bk;
     position_pct_bps := position_pct_bps bk; dust_floor_wei := dust_floor_wei bk |}.

(** [entry(kol).or_insert_with(...)]. *)
Definition entry_or_new (bk : KolBudgetBook) (kol : string) : KolBudget :=
  unwrap_or (inner bk !! kol) (KolBudget_new (book_initial_wei bk)).

Definition try_reserve (now : Z) (bk : KolBudgetBook) (kol : string)
  : KolBudgetBook * option Z :=
  let entry := entry_or_new bk kol in
  let want := sat_mul 128 (position_pct_bps bk) (cash_wei entry) / 10000 in
  if want <? dust_floor_wei bk then
    (set_inner bk (<[kol :=
       {| initial_wei := initial_wei entry; cash_wei := cash_wei entry;
          committed_wei := committed_wei entry; realized_pnl_wei := realized_pnl_wei entry;
          trades_taken := trades_taken entry;
          trades_skipped_budget := wrap 32 (trades_skipped_budget entry + 1);
          last_updated_ns := now |}]> (inner bk)), None)
  else
    (set_inner bk (<[kol :=
       {| initial_wei := initial_wei entry; cash_wei := sat_sub (cash_wei entry) want;
          committed_wei := sat_add 128 (committed_wei entry) want;
          realized_pnl_wei := realized_pnl_wei entry;
          trades_taken := wrap 32 (trades_taken entry + 1);
          trades_skipped_budget := trades_skipped_budget entry;
          last_updated_ns := now |}]> (inner bk)), Some want).

Definition credit_close (now : Z) (bk : KolBudgetBook) (kol : string) (bnb_in bnb_out : Z)
  : KolBudgetBook :=
  match inner bk !! kol with
  | None => bk
  | Some entry =>
      let inp := unwrap_or (try_from_width 128 bnb_in) (umax 128) in
      let outp := unwrap_or (try_from_width 128 bnb_out) (umax 128) in
      let as_i128 z := if z <=? imax 128 then z else imax 128 in
      let delta := sat_signed 128 (as_i128 outp - as_i128 inp) in
      set_inner bk (<[kol :=
        {| initial_wei := initial_wei entry;
           cash_wei := sat_add 128 (cash_wei entry) outp;
           committed_wei := sat_sub (committed_wei entry) inp;
           realized_pnl_wei := sat_signed 128 (realized_pnl_wei entry + delta);
           trades_taken := trades_taken entry;
           trades_skipped_budget := trades_skipped_budget entry;
           last_updated_ns := now |}]> (inner bk))
  end.

(** [save] then [load_or_new] gives the map back. *)
Definition save (bk : KolBudgetBook) : gmap string KolBudget := inner bk.

(** ** The contract with the executor

    The executor closes reservations it holds, at the amount reserved.  [sys]
    pairs the book with the outstanding reservations of each KOL. *)

Inductive op : Type :=
| Reserve (now : Z) (kol : string)
| Close (now : Z) (kol : string) (i : nat) (bnb_out : Z).

Record sys : Type := {
  book : KolBudgetBook;
  outstanding : gmap string (list Z);
}.

Definition held (s : sys) (kol : string) : list Z := unwrap_or (outstanding s !! kol) [].

Definition exec (s : sys) (o : op) : sys :=
  match o with
  | Reserve now kol =>
      let '(bk, r) := try_reserve now (book s) kol in
      match r with
      | Some want => {| book := bk; outstanding := <[kol := held s kol ++ [want]]> (outstanding s) |}
      | None => {| book := bk; outstanding := outstanding s |}
      end
  | Close now kol i bnb_out =>
      match held s kol !! i with
      | Some amt =>
          {| book := credit_close now (book s) kol amt bnb_out;
             outstanding := <[kol := delete i (held s kol)]> (outstanding s) |}
      | None => s
      end
  end.

Definition run (s : sys) (os : list op) : sys := foldl exec s os.

Definition op_out (kol : string) (o : op) : Z :=
  match o with
  | Close _ k _ out => if decide (k = kol) then out else 0
  | Reserve _ _ => 0
  end.

Definition wf_op (o : op) : Prop :=
  match o with Close _ _ _ out => 0 ≤ out | Reserve _ _ => True end.

(** The closed-loop accounting of one KOL, given the proceeds so far. *)
Record balanced (b : KolBudget) (hs : list Z) (paid : Z) : Prop := {
  bal_cash : 0 ≤ cash_wei b;
  bal_held : Forall (λ h, 0 ≤ h) hs;
  bal_committed : committed_wei b = sum_by id hs;
  bal_equity : cash_wei b + committed_wei b = initial_wei b + realized_pnl_wei b;
  bal_bound : cash_wei b + committed_wei b ≤ initial_wei b + paid;
}.

(** *** The operations when nothing saturates *)

Lemma try_from_small w z : in_width w z → try_from_width w z = Some z.
Proof. unfold in_width, try_from_width. intros. case_scrut; [done|]. zbool. lia. Qed.

(** [try_reserve] when the fraction is at most 100%: the reserved amount moves
    from cash to committed. *)
Lemma try_reserve_exact now bk kol (e := entry_or_new bk kol) :
  0 ≤ position_pct_bps bk ≤ 10000 → 0 ≤ cash_wei e → 0 ≤ committed_wei e →
  cash_wei e + committed_wei e < 2 ^ 128 →
  ∃ e', (try_reserve now bk kol).1 = set_inner bk (<[kol := e']> (inner bk)) ∧
    initial_wei e' = initial_wei e ∧ realized_pnl_wei e' = realized_pnl_wei e ∧
    match (try_reserve now bk kol).2 with
    | Some w => dust_floor_wei bk ≤ w ∧ 0 ≤ w ≤ cash_wei e ∧
        cash_wei e' = cash_wei e - w ∧ committed_wei e' = committed_wei e + w
    | None => cash_wei e' = cash_wei e ∧ committed_wei e' = committed_wei e
    end.
Proof.
  intros Hb Hc Hm Hs. unfold try_reserve. fold e.
  set (want := sat_mul 128 (position_pct_bps bk) (cash_wei e) / 10000).
  assert (0 ≤ want ≤ cash_wei e).
  { assert (0 ≤ sat_mul 128 (position_pct_bps bk) (cash_wei e) ≤ 10000 * cash_wei e)
      by (unfold sat_mul, umax; nia).
    split; [apply Z.div_pos; lia|apply Z.div_le_upper_bound; lia]. }
  destruct (Z.ltb_spec want (dust_floor_wei bk)); cbn;
    (eexists; split; [reflexivity|cbn; unfold sat_sub, sat_add, umax; split_and!; done || lia]).
Qed.

Lemma credit_close_exact now bk kol e inp out :
  inner bk !! kol = Some e →
  0 ≤ inp ≤ committed_wei e → 0 ≤ out → 0 ≤ cash_wei e →
  cash_wei e + committed_wei e + out < 2 ^ 127 →
  imin 128 ≤ realized_pnl_wei e + out - inp ≤ imax 128 →
  ∃ e', credit_close now bk kol inp out = set_inner bk (<[kol := e']> (inner bk)) ∧
    initial_wei e' = initial_wei e ∧ cash_wei e' = cash_wei e + out ∧
    committed_wei e' = committed_wei e - inp ∧
    realized_pnl_wei e' = realized_pnl_wei e + out - inp.
Proof.
  intros He Hi Ho Hc Hs Hp. unfold credit_close. rewrite He.
  rewrite !try_from_small by (unfold in_width; lia). cbn [unwrap_or].
  unfold imin, imax in *.
  destruct (Z.leb_spec out (2 ^ (128 - 1) - 1)); [|lia].
  destruct (Z.leb_spec inp (2 ^ (128 - 1) - 1)); [|lia].
  eexists. split; [reflexivity|]. cbn. unfold sat_signed, imin, imax, sat_add, sat_sub, umax.
  split_and!; try done; lia.
Qed.

Lemma sum_delete (hs : list Z) i a :
  hs !! i = Some a → sum_by id (delete i hs) = sum_by id hs - a.
Proof.
  intros Hi. pose proof (f_equal (sum_by id) (take_drop_middle hs i a Hi)) as Hs.
  rewrite sum_by_app in Hs. cbn in Hs. rewrite delete_take_drop, sum_by_app.
  unfold sum_by, id in *. cbn in *. lia.
Qed.

Lemma sum_held_le (hs : list Z) i a :
  Forall (λ h, 0 ≤ h) hs → hs !! i = Some a → 0 ≤ a ≤ sum_by id hs.
Proof.
  intros Hp Hi. pose proof (Forall_lookup_1 _ _ _ _ Hp Hi). cbn in *.
  pose proof (Forall_delete _ _ i Hp) as Hd. rewrite Forall_forall in Hd.
  pose proof (sum_by_nonneg id _ Hd). rewrite (sum_delete _ _ _ Hi) in *. lia.
Qed.

Section Conservation.
Context (bk0 : KolBudgetBook) (kol : string).
Hypothesis Hbps : 0 ≤ position_pct_bps bk0 ≤ 10000.
Hypothesis Hinit : 0 ≤ book_initial_wei bk0.

(** The state invariant: same configuration, and this KOL is balanced. *)
Record good (s : sys) (paid : Z) : Prop := {
good_bps : position_pct_bps (book s) = position_pct_bps bk0;
good_initial : book_initial_wei (book s) = book_initial_wei bk0;
good_entry_initial : initial_wei (entry_or_new (book s) kol) = book_initial_wei bk0;
good_present : held s kol ≠ [] → is_Some (inner (book s) !! kol);
good_balanced : balanced (entry_or_new (book s) kol) (held s kol) paid;
}.

Lemma committed_nonneg b hs paid : balanced b hs paid → 0 ≤ committed_wei b.
Proof. intros [_ H -> _ _]. apply sum_by_nonneg. by rewrite <- Forall_forall. Qed.

Lemma balanced_more b hs paid o : balanced b hs paid → 0 ≤ o → balanced b hs (paid + o).
Proof. intros [] ?. split; try done. lia. Qed.

(** An operation on another KOL changes nothing of this one. *)
Lemma exec_other s k o paid :
(∃ now, o = Reserve now k) ∨ (∃ now i out, o = Close now k i out) → k ≠ kol →
good s paid → good (exec s o) paid.
Proof.
intros Ho Hne [H1 H2 H3 H4 H5].
assert (∀ m m', inner (book s) !! kol = m !! kol → m' !! kol = outstanding s !! kol →
good {| book := set_inner (book s) m; outstanding := m' |} paid) as Hgood.
{ intros m m' Hm Hm'. unfold entry_or_new, held in *.
split; unfold entry_or_new, held; cbn; rewrite <- ?Hm, ?Hm'; done. }
destruct Ho as [[now ->]|(now & i & out & ->)]; cbn.
- unfold try_reserve. destruct (_ <? dust_floor_wei _); apply Hgood; by rewrite ?lookup_insert_ne.
- destruct (held s k !! i); [|by split]. unfold credit_close.
destruct (inner (book s) !! k) eqn:E.
+ apply Hgood; by rewrite lookup_insert_ne.
+ destruct s as [[m i0 p d] om]. apply (Hgood m); [done|]. by rewrite lookup_insert_ne.
Qed.

Lemma reserve_good s paid now :
good s paid → book_initial_wei bk0 + paid < 2 ^ 127 → good (exec s (Reserve now kol)) paid.
Proof.
intros [H1 H2 H3 H4 H5] Ht. pose proof (committed_nonneg _ _ _ H5) as Hcn.
destruct H5 as [B1 B2 B3 B4 B5].
destruct (try_reserve_exact now (book s) kol) as (e' & E1 & E2 & E3 & E4);
[lia|done|done|lia|].
cbn. destruct (try_reserve now (book s) kol) as [bk [w|]]; cbn in E1, E4; subst bk.
- destruct E4 as (_ & ? & Hc' & Hm').
split; unfold entry_or_new, held; cbn; rewrite ?lookup_insert_eq; cbn; try done; [congruence|].
fold (held s kol). split; cbn; rewrite ?Hc', ?Hm', ?E2, ?E3; try lia.
+ apply Forall_app. split; [done|]. apply Forall_singleton. lia.
+ rewrite sum_by_app, B3. unfold sum_by, id. cbn. lia.
- destruct E4 as (Hc' & Hm').
split; unfold entry_or_new; cbn; rewrite ?lookup_insert_eq; cbn; try done; [congruence|].
change (held _ kol) with (held s kol).
split; cbn; rewrite ?Hc', ?Hm', ?E2, ?E3; done || lia.
Qed.

Lemma close_good s paid now i out :
good s paid → 0 ≤ paid → 0 ≤ out → book_initial_wei bk0 + paid + out < 2 ^ 127 →
good (exec s (Close now kol i out)) (paid + out).
Proof.
intros Hg Hpaid Hout Ht. pose proof Hg as [H1 H2 H3 H4 H5]. cbn.
destruct (held s kol !! i) as [a|] eqn:Ea.
2: { split; try done. by apply balanced_more. }
destruct H4 as [e He]; [intros Hn; by rewrite Hn in Ea|].
pose proof (committed_nonneg _ _ _ H5).
assert (entry_or_new (book s) kol = e) as Hee by (unfold entry_or_new; by rewrite He).
rewrite Hee in *. destruct H5 as [B1 B2 B3 B4 B5].
pose proof (sum_held_le _ _ _ B2 Ea).
destruct (credit_close_exact now (book s) kol e a out He) as (e' & -> & E1 & E2 & E3 & E4);
try (unfold imin, imax; change (128 - 1) with 127; lia).
split; unfold entry_or_new, held; cbn; rewrite ?lookup_insert_eq; cbn; try done; try congruence.
fold (held s kol). split; cbn; rewrite ?E1, ?E2, ?E3, ?E4; try lia.
- by apply Forall_delete.
- rewrite (sum_delete _ _ _ Ea). lia.
Qed.

Lemma run_good s paid os :
good s paid → 0 ≤ paid → Forall wf_op os →
book_initial_wei bk0 + paid + sum_by (op_out kol) os < 2 ^ 127 →
good (run s os) (paid + sum_by (op_out kol) os).
Proof.
revert s paid. induction os as [|o os IH]; intros s paid Hg Hp Hw Ht; cbn in *.
{ by rewrite Z.add_0_r. }
apply Forall_cons in Hw as [Ho Hw].
assert (0 ≤ sum_by (op_out kol) os) as Hnn.
{ apply sum_by_nonneg. intros x Hx. rewrite Forall_forall in Hw. specialize (Hw x Hx).
destruct x; cbn in *; [lia|]. case_decide; lia. }
unfold sum_by in *. cbn in *. rewrite Z.add_assoc. apply IH; [| |done|lia].
2: { destruct o; cbn in *; [lia|]. case_decide; lia. }
destruct o as [now k|now k i out]; cbn in *.
- rewrite Z.add_0_r. destruct (decide (k = kol)) as [->|Hne].
+ apply reserve_good; [done|lia].
+ apply (exec_other s k (Reserve now k)); [left; eauto|done|done].
- case_decide as Hk; [subst k|].
+ apply close_good; [done|done|done|lia].
+ rewrite Z.add_0_r. apply (exec_other s k (Close now k i out)); [right; eauto|done|done].
Qed.
End Conservation.

(** ** Properties *)

(** Closed-loop conservation.  Start from an empty book with a fraction
    of at most 100%.  After any interleaving of reservations and closes of any
    KOLs, where a close returns one outstanding reservation and any proceeds,
    and the money stays below 2^127 wei: this KOL's committed total is exactly
    the sum of its outstanding reservations, cash plus committed is the
    starting capital plus the realised profit, and cash is never negative. *)
Theorem budget_conserved initial bps dust kol os :
  0 ≤ bps ≤ 10000 → 0 ≤ initial →
  Forall wf_op os →
  initial + sum_by (op_out kol) os < 2 ^ 127 →
  let s := run {| book := load_or_new None initial bps dust; outstanding := ∅ |} os in
  let b := entry_or_new (book s) kol in
  committed_wei b = sum_by id (held s kol) ∧
  cash_wei b + committed_wei b = initial + realized_pnl_wei b ∧
  0 ≤ cash_wei b ∧
  equity_wei b = initial + realized_pnl_wei b.
Proof.
  intros Hbps Hinit Hw Ht s b.
  destruct (run_good (load_or_new None initial bps dust) kol Hbps Hinit
    {| book := load_or_new None initial bps dust; outstanding := ∅ |} 0 os) as [_ _ H3 _ H5];
    [|done|done|cbn; lia|].
  { split; try done; split; cbn; try done; lia. }
  fold s b in H3, H5. cbn in H3. pose proof (committed_nonneg _ _ _ H5).
  destruct H5 as [B1 B2 B3 B4 B5]. rewrite H3 in *.
  split_and!; try done. unfold equity_wei. rewrite sat_add_exact; lia.
Qed.

Lemma budget_conserved_witness :
  let os := [Reserve 1 "D"; Reserve 2 "A"; Reserve 3 "D"; Close 4 "D" 0 150000; Close 5 "A" 0 0] in
  let s := run {| book := load_or_new None 1000000 1000 1000; outstanding := ∅ |} os in
  held s "D" = [90000] ∧
  cash_wei (entry_or_new (book s) "D") + committed_wei (entry_or_new (book s) "D") = 1050000.
Proof.
  intros os s. split; [vm_compute; reflexivity|].
  destruct (budget_conserved 1000000 1000 1000 "D" os) as (_ & H & _).
  - lia.
  - lia.
  - repeat constructor; vm_compute; discriminate.
  - vm_compute. reflexivity.
  - etransitivity; [exact H|]. vm_compute. reflexivity.
Defined.

(** Reservation sizing.  For a KOL whose cash and product stay in 128
    bits, [try_reserve] returns [bps * cash / 10000] exactly when that reaches
    the dust floor, moving it from cash to committed and counting the trade;
    otherwise it returns [None] and only counts the skip.  Other KOLs are
    untouched in both cases. *)
Theorem try_reserve_sizes now bk kol (e := entry_or_new bk kol) :
  0 ≤ position_pct_bps bk ≤ 10000 → 0 ≤ cash_wei e → 0 ≤ committed_wei e →
  cash_wei e + committed_wei e < 2 ^ 128 →
  position_pct_bps bk * cash_wei e < 2 ^ 128 →
  let want := position_pct_bps bk * cash_wei e / 10000 in
  (try_reserve now bk kol).2 = (if decide (dust_floor_wei bk ≤ want) then Some want else None) ∧
  (∃ e', inner (try_reserve now bk kol).1 !! kol = Some e' ∧
    if decide (dust_floor_wei bk ≤ want) then
      cash_wei e' = cash_wei e - want ∧ committed_wei e' = committed_wei e + want ∧
      trades_taken e' = wrap 32 (trades_taken e + 1) ∧
      trades_skipped_budget e' = trades_skipped_budget e
    else
      cash_wei e' = cash_wei e ∧ committed_wei e' = committed_wei e ∧
      trades_taken e' = trades_taken e ∧
      trades_skipped_budget e' = wrap 32 (trades_skipped_budget e + 1)) ∧
  ∀ k, k ≠ kol → inner (try_reserve now bk kol).1 !! k = inner bk !! k.
Proof.
  intros Hb Hc Hm Hs Hp want.
  assert (sat_mul 128 (position_pct_bps bk) (cash_wei e) = position_pct_bps bk * cash_wei e) as Hsm
    by (unfold sat_mul, umax; lia).
  destruct (try_reserve_exact now bk kol Hb Hc Hm Hs) as (e' & E1 & _ & _ & E4).
  unfold try_reserve in *. fold e in E1, E4 |- *. rewrite Hsm in *. fold want in E1, E4 |- *.
  destruct (Z.ltb_spec want (dust_floor_wei bk)); cbn in *.
  - rewrite !decide_False by lia. rewrite lookup_insert_eq. split_and!; [done| |].
    { eexists. split; [done|]. by rewrite decide_False by lia. }
    intros k ?. by rewrite lookup_insert_ne.
  - rewrite !decide_True by lia. rewrite lookup_insert_eq. split_and!; [done| |].
    + eexists. split; [done|]. rewrite decide_True by lia. cbn. unfold sat_sub, sat_add, umax.
      assert (0 ≤ want) by (apply Z.div_pos; nia).
      destruct E4 as (_ & ? & _). split_and!; done || lia.
    + intros k ?. by rewrite lookup_insert_ne.
Qed.

Lemma try_reserve_sizes_witness :
  (try_reserve 9 (load_or_new None 1000000 1000 1000) "D").2 = Some 100000.
Proof.
  destruct (try_reserve_sizes 9 (load_or_new None 1000000 1000 1000) "D") as [H _];
    [cbn; lia|by vm_compute|by vm_compute|by vm_compute|by vm_compute|].
  exact H.
Defined.
