(* ===== verification/Limits.v ===== *)
(** * trader/limits.rs: the kill criteria of the live trader

    The configuration, the per-day counters and the gates every buy passes,
    with the kill-switch poller of [trader/mod.rs] that feeds the realised
    loss.  Clock reads are arguments (milliseconds since the epoch); the TOML
    parser and the wallet and price reads are arguments as well. *)

From Stdlib Require Import ZArith Lia Floats.SpecFloat.
From S2P Require Import Prelude F64.

(** ** Configuration *)

Record PhaseConfig : Type := { shadow : bool; tiny : bool; full : bool }.

Definition phase_broadcast_enabled (p : PhaseConfig) : bool := tiny p || full p.

Definition effective_per_trade_max_bnb (p : PhaseConfig) (full_cap : f64) : f64 :=
  if tiny p && negb (full p) then fmin full_cap (f64_lit 1 1000) else full_cap.

Record HardLimits : Type := {
  daily_loss_usd : f64;
  per_trade_max_bnb : f64;
  min_wallet_bnb : f64;
  max_open_positions : Z;
  max_trades_per_day : Z;
  max_gas_price_gwei : Z;
  slippage_bps : Z;
  cooldown_after_loss_ms : Z;
}.

Record LiveStrategyConfig : Type := {
  mode : string;
  public_only : bool;
  live_size_fraction : f64;
  kol_whitelist : list string;
  live_min_buy_bnb : f64;
  live_min_buy_usd : f64;
  trade_size_usd : f64;
  trade_size_private_usd : f64;
  dev_bonus_size_usd : f64;
  dev_whitelist_file : string;
}.

Record SubmissionConfig : Type := {
  primary_url : string;
  primary_auth_env : string;
  fallback_url : string;
  timeout_ms : Z;
}.

Record TokenPolicy : Type := {
  min_age_seconds : Z;
  max_sell_tax_bps : Z;
  blacklist_file : string;
}.

Record AuditConfig : Type := { log_dir : string; telegram_alerts : bool }.

Record LimitsConfig : Type := {
  phase : PhaseConfig;
  limits : HardLimits;
  strategy : LiveStrategyConfig;
  wallet_keyfile : string;
  submission : SubmissionConfig;
  tokens : TokenPolicy;
  audit : AuditConfig;
}.

Inductive ConfigError : Type :=
| ReadFailed
| ParseFailed
| NotOnePhase (active : nat).

(** [load_config]: [file] is the text if it could be read; [toml] the parser. *)
Definition load_config (toml : string → option LimitsConfig) (file : option string)
  : result LimitsConfig ConfigError :=
  match file with
  | None => Err ReadFailed
  | Some s =>
      match toml s with
      | None => Err ParseFailed
      | Some c =>
          let active := length (filter (λ b : bool, b = true)
            [shadow (phase c); tiny (phase c); full (phase c)]) in
          if Nat.eqb active 1 then Ok c else Err (NotOnePhase active)
      end
  end.

(** ** Runtime state *)

Record DailyState : Type := {
  day : Z;
  realized_loss_usd : f64;
  trades_today : Z;
  last_loss_unix_ms : Z;
  halted : bool;
}.

(** [DailyState { day, ..DailyState::default() }]. *)
Definition fresh_day (d : Z) : DailyState :=
  {| day := d; realized_loss_usd := f0; trades_today := 0; last_loss_unix_ms := 0;
     halted := false |}.

Record LimitsRuntime : Type := {
  cfg : LimitsConfig;
  whitelist : gset string;
  state : DailyState;
}.

Inductive LimitFail : Type :=
| NotWhitelisted (kol : string)
| PrivateVisibilityWhilePublicOnly
| PerTradeCapExceeded (wanted_bnb cap_bnb : f64)
| MaxOpenPositions (n : Z)
| MaxTradesPerDay (n : Z)
| DailyLossHalt (loss_usd cap_usd : f64)
| WalletBelowMin (balance_bnb min_bnb : f64)
| GasTooHigh (gwei cap : Z)
| InCooldown (remaining_ms : Z)
| PhaseSaysShadow.

Record TradeCheck : Type := {
  t_kol_name : string;
  t_visibility : string;
  t_bnb_amount : f64;
  t_current_open_positions : Z;
  t_current_wallet_bnb : f64;
  t_current_gas_gwei : Z;
}.

Definition set_state (r : LimitsRuntime) (s : DailyState) : LimitsRuntime :=
  {| cfg := cfg r; whitelist := whitelist r; state := s |}.

(** [LimitsRuntime::new], at [now_s] seconds since the epoch. *)
Definition LimitsRuntime_new (c : LimitsConfig) (now_s : Z) : LimitsRuntime :=
  {| cfg := c; whitelist := list_to_set (kol_whitelist (strategy c));
     state := fresh_day (now_s / 86400) |}.

Definition broadcast_enabled (r : LimitsRuntime) : bool := phase_broadcast_enabled (phase (cfg r)).

Definition maybe_reset_day (now_ms : Z) (r : LimitsRuntime) : LimitsRuntime :=
  let d := now_ms / (86400 * 1000) in
  if negb (day (state r) =? d) then set_state r (fresh_day d) else r.

Definition cooldown_remaining (last_loss_ms cooldown_ms now_ms : Z) : option Z :=
  if last_loss_ms =? 0 then None
  else
    let elapsed := sat_sub now_ms last_loss_ms in
    if elapsed <? cooldown_ms then Some (cooldown_ms - elapsed) else None.

(** The gates of [check] that follow the day rollover. *)
Definition gate (now_ms : Z) (r : LimitsRuntime) (t : TradeCheck) : result unit LimitFail :=
  let s := state r in
  let l := limits (cfg r) in
  if halted s then Err (DailyLossHalt (realized_loss_usd s) (daily_loss_usd l))
  else
  match cooldown_remaining (last_loss_unix_ms s) (cooldown_after_loss_ms l) now_ms with
  | Some remaining => Err (InCooldown remaining)
  | None =>
  if negb (bool_decide (t_kol_name t ∈ whitelist r)) then Err (NotWhitelisted (t_kol_name t))
  else if public_only (strategy (cfg r)) && negb (String.eqb (t_visibility t) "public") then
    Err PrivateVisibilityWhilePublicOnly
  else
  let cap := effective_per_trade_max_bnb (phase (cfg r)) (per_trade_max_bnb l) in
  if fgt (t_bnb_amount t) cap then Err (PerTradeCapExceeded (t_bnb_amount t) cap)
  else if max_open_positions l <=? t_current_open_positions t then
    Err (MaxOpenPositions (max_open_positions l))
  else if max_trades_per_day l <=? trades_today s then
    Err (MaxTradesPerDay (max_trades_per_day l))
  else if flt (t_current_wallet_bnb t) (min_wallet_bnb l) then
    Err (WalletBelowMin (t_current_wallet_bnb t) (min_wallet_bnb l))
  else if max_gas_price_gwei l <? t_current_gas_gwei t then
    Err (GasTooHigh (t_current_gas_gwei t) (max_gas_price_gwei l))
  else Ok tt
  end.

Definition check (now_ms : Z) (r : LimitsRuntime) (t : TradeCheck)
  : LimitsRuntime * result unit LimitFail :=
  let r := maybe_reset_day now_ms r in (r, gate now_ms r t).

Definition record_trade_fired (r : LimitsRuntime) : LimitsRuntime :=
  let s := state r in
  set_state r {| day := day s; realized_loss_usd := realized_loss_usd s;
    trades_today := sat_add 32 (trades_today s) 1;
    last_loss_unix_ms := last_loss_unix_ms s; halted := halted s |}.

Definition sync_realized_loss (loss_usd : f64) (r : LimitsRuntime) : LimitsRuntime :=
  let loss := fmax loss_usd f0 in
  let s := state r in
  if flt (fabs (fsub loss (realized_loss_usd s))) f64_epsilon then r
  else
    let trip := negb (halted s) && fge loss (daily_loss_usd (limits (cfg r))) in
    set_state r {| day := day s; realized_loss_usd := loss; trades_today := trades_today s;
      last_loss_unix_ms := last_loss_unix_ms s; halted := if trip then true else halted s |}.

Definition is_halted (r : LimitsRuntime) : bool := halted (state r).

(** ** The kill-switch poller (trader/mod.rs)

    Every 30 s it turns the wallet's drop since the day's baseline into a loss
    in USD and pushes it into the limits. *)

Record KillSwitch : Type := { baseline : f64; baseline_day : Z }.

(** One tick.  [balance] is the wallet read, [price] the BNB/USD read; an
    unreadable balance counts as the baseline, an unreadable price skips. *)
Definition kill_switch_tick (today : Z) (balance price : option f64)
    (k : KillSwitch) (r : LimitsRuntime) : KillSwitch * LimitsRuntime :=
  let now_bnb := unwrap_or balance (baseline k) in
  let bnb_usd := unwrap_or price f0 in
  if fle bnb_usd f0 then (k, r)
  else if negb (today =? baseline_day k) then
    ({| baseline := now_bnb; baseline_day := today |}, sync_realized_loss f0 r)
  else
    let loss := fmul (fmax (fsub (baseline k) now_bnb) f0) bnb_usd in
    (k, sync_realized_loss loss r).

(** ** Traces of the limits *)

(** [Buy now t]: the live consumer handles buys one at a time, so a check that
    passes is followed by its [record_trade_fired] before the next check. *)
Inductive op : Type :=
| Buy (now_ms : Z) (t : TradeCheck)
| Tick (now_ms : Z) (balance price : option f64).

Definition op_time (o : op) : Z :=
  match o with Buy n _ => n | Tick n _ _ => n end.
Definition op_day (o : op) : Z := op_time o / (86400 * 1000).

Record sys : Type := {
  rt : LimitsRuntime;
  ks : KillSwitch;
  fired : list Z;           (* the day of every trade that passed *)
}.

Definition exec (s : sys) (o : op) : sys :=
  match o with
  | Buy now t =>
      let '(r, res) := check now (rt s) t in
      if is_ok res then
        {| rt := record_trade_fired r; ks := ks s; fired := fired s ++ [op_day o] |}
      else {| rt := r; ks := ks s; fired := fired s |}
  | Tick now b p =>
      let '(k, r) := kill_switch_tick (op_day o) b p (ks s) (rt s) in
      {| rt := r; ks := k; fired := fired s |}
  end.

Definition run (s : sys) (os : list op) : sys := foldl exec s os.

Definition init (c : LimitsConfig) (now_s : Z) (balance : f64) : sys :=
  {| rt := LimitsRuntime_new c now_s;
     ks := {| baseline := balance; baseline_day := now_s / 86400 |}; fired := [] |}.

(** The number of trades fired on day [d]. *)
Definition fired_on (d : Z) (s : sys) : Z :=
  Z.of_nat (length (filter (λ x, x = d) (fired s))).

(** ** Lemmas: the operations field by field *)

Lemma maybe_reset_cfg now r : cfg (maybe_reset_day now r) = cfg r.
Proof. unfold maybe_reset_day. by case_scrut. Qed.

Lemma maybe_reset_day_day now r : day (state (maybe_reset_day now r)) = now / (86400 * 1000).
Proof. unfold maybe_reset_day. case_scrut; [done|]. zbool. done. Qed.

Lemma maybe_reset_same now r :
  day (state r) = now / (86400 * 1000) → maybe_reset_day now r = r.
Proof. intros H. unfold maybe_reset_day. by rewrite H, Z.eqb_refl. Qed.

Lemma maybe_reset_new now r :
  day (state r) ≠ now / (86400 * 1000) →
  maybe_reset_day now r = set_state r (fresh_day (now / (86400 * 1000))).
Proof. intros H. unfold maybe_reset_day. case_scrut; [done|]. zbool. done. Qed.

Lemma sync_fields l r :
  let r' := sync_realized_loss l r in
  cfg r' = cfg r ∧ whitelist r' = whitelist r ∧ day (state r') = day (state r) ∧
  trades_today (state r') = trades_today (state r) ∧
  last_loss_unix_ms (state r') = last_loss_unix_ms (state r) ∧
  (halted (state r) = true → halted (state r') = true).
Proof.
  cbn. unfold sync_realized_loss. case_scrut; [done|]. cbn.
  split_and!; try done. intros ->. by case_scrut.
Qed.

(** A tick either leaves the limits alone or pushes one loss into them. *)
Lemma tick_syncs today b p k r :
  (kill_switch_tick today b p k r).2 = r ∨
  ∃ l, (kill_switch_tick today b p k r).2 = sync_realized_loss l r.
Proof. unfold kill_switch_tick. do 2 (case_scrut; cbn; eauto). Qed.

Lemma tick_fields today b p k r :
  let r' := (kill_switch_tick today b p k r).2 in
  cfg r' = cfg r ∧ whitelist r' = whitelist r ∧ day (state r') = day (state r) ∧
  trades_today (state r') = trades_today (state r) ∧
  last_loss_unix_ms (state r') = last_loss_unix_ms (state r) ∧
  (halted (state r) = true → halted (state r') = true).
Proof.
  cbn. destruct (tick_syncs today b p k r) as [->|[l ->]]; [done|]. apply sync_fields.
Qed.

Lemma gate_ok now r t :
  gate now r t = Ok tt ↔
  halted (state r) = false ∧
  cooldown_remaining (last_loss_unix_ms (state r)) (cooldown_after_loss_ms (limits (cfg r))) now
    = None ∧
  t_kol_name t ∈ whitelist r ∧
  (public_only (strategy (cfg r)) = true → t_visibility t = "public"%string) ∧
  fgt (t_bnb_amount t)
    (effective_per_trade_max_bnb (phase (cfg r)) (per_trade_max_bnb (limits (cfg r)))) = false ∧
  t_current_open_positions t < max_open_positions (limits (cfg r)) ∧
  trades_today (state r) < max_trades_per_day (limits (cfg r)) ∧
  flt (t_current_wallet_bnb t) (min_wallet_bnb (limits (cfg r))) = false ∧
  t_current_gas_gwei t ≤ max_gas_price_gwei (limits (cfg r)).
Proof.
  unfold gate. destruct (halted (state r)); [naive_solver|].
  destruct (cooldown_remaining _ _ _); [naive_solver|].
  case_bool_decide; cbn [negb]; [|naive_solver].
  destruct (public_only _) eqn:Ep; cbn [andb].
  - destruct (String.eqb_spec (t_visibility t) "public"); cbn [negb]; [|naive_solver].
    repeat case_scrut; zbool; naive_solver lia.
  - repeat case_scrut; zbool; naive_solver lia.
Qed.

Lemma is_ok_gate now r t : is_ok (gate now r t) = true ↔ gate now r t = Ok tt.
Proof. destruct (gate now r t) as [[]|]; naive_solver. Qed.

(** [exec], case by case. *)
Lemma exec_buy s now t :
  exec s (Buy now t) =
    let r := maybe_reset_day now (rt s) in
    if is_ok (gate now r t) then
      {| rt := record_trade_fired r; ks := ks s; fired := fired s ++ [now / (86400 * 1000)] |}
    else {| rt := r; ks := ks s; fired := fired s |}.
Proof. reflexivity. Qed.

Lemma exec_tick s now b p :
  let s' := exec s (Tick now b p) in
  fired s' = fired s ∧
  rt s' = (kill_switch_tick (now / (86400 * 1000)) b p (ks s) (rt s)).2.
Proof.
  cbn. unfold op_day, op_time. by destruct (kill_switch_tick _ _ _ _ _).
Qed.

Lemma limits_run_snoc s os o : run s (os ++ [o]) = exec (run s os) o.
Proof. unfold run. by rewrite foldl_app. Qed.

(** ** The invariants *)

(** Never engaged: nothing writes [last_loss_unix_ms]. *)
Lemma last_loss_zero s os :
  last_loss_unix_ms (state (rt s)) = 0 → last_loss_unix_ms (state (rt (run s os))) = 0.
Proof.
  intros H. induction os as [|o os IH] using rev_ind; [done|]. rewrite limits_run_snoc.
  set (u := run s os) in *. destruct o as [now t|now b p].
  - rewrite exec_buy. cbv zeta. assert (last_loss_unix_ms (state (maybe_reset_day now (rt u))) = 0).
    { unfold maybe_reset_day. by case_scrut. }
    by case_scrut.
  - destruct (exec_tick u now b p) as [_ ->].
    destruct (tick_fields (now / (86400 * 1000)) b p (ks u) (rt u)) as (_&_&_&_&->&_). done.
Qed.

(** The configured cap is never reached without the halt. *)
Definition loss_guarded (cap : f64) (d : DailyState) : Prop :=
  fge (realized_loss_usd d) cap = true → halted d = true.

Lemma sync_guarded l r :
  loss_guarded (daily_loss_usd (limits (cfg r))) (state r) →
  loss_guarded (daily_loss_usd (limits (cfg r))) (state (sync_realized_loss l r)).
Proof.
  unfold sync_realized_loss, loss_guarded. intros H. case_scrut; [done|].
  cbn. intros ->. by destruct (halted (state r)).
Qed.

Lemma run_guarded s os :
  let cap := daily_loss_usd (limits (cfg (rt s))) in
  fge f0 cap = false → loss_guarded cap (state (rt s)) →
  cfg (rt (run s os)) = cfg (rt s) ∧ loss_guarded cap (state (rt (run s os))).
Proof.
  cbn. intros Hc H0. induction os as [|o os IH] using rev_ind; [done|]. rewrite limits_run_snoc.
  set (u := run s os) in *. destruct IH as [Hcfg IH]. destruct o as [now t|now b p].
  - rewrite exec_buy. cbv zeta.
    assert (cfg (maybe_reset_day now (rt u)) = cfg (rt s) ∧
      loss_guarded (daily_loss_usd (limits (cfg (rt s)))) (state (maybe_reset_day now (rt u))))
      as [? ?].
    { unfold maybe_reset_day. case_scrut; [|done]. split; [done|].
      unfold loss_guarded. cbn. by rewrite Hc. }
    by case_scrut.
  - destruct (exec_tick u now b p) as [_ ->].
    destruct (tick_fields (now / (86400 * 1000)) b p (ks u) (rt u)) as (->&_).
    split; [done|].
    destruct (tick_syncs (now / (86400 * 1000)) b p (ks u) (rt u)) as [->|[l ->]]; [done|].
    rewrite <- Hcfg. apply sync_guarded. by rewrite Hcfg.
Qed.

(** The clock does not go back: each operation is no earlier than the last. *)
Fixpoint clock_from (n : Z) (os : list op) : Prop :=
  match os with
  | [] => True
  | o :: os => n ≤ op_time o ∧ clock_from (op_time o) os
  end.

Record counted (max n : Z) (s : sys) : Prop := {
  ct_max : max_trades_per_day (limits (cfg (rt s))) = max;
  ct_day : day (state (rt s)) ≤ n / (86400 * 1000);
  ct_past : ∀ x, x ∈ fired s → x ≤ day (state (rt s));
  ct_today : fired_on (day (state (rt s))) s = trades_today (state (rt s));
  ct_all : ∀ d, fired_on d s ≤ max;
}.

Lemma fired_on_future d s : (∀ x, x ∈ fired s → x < d) → fired_on d s = 0.
Proof.
  intros H. unfold fired_on. induction (fired s) as [|x l IH]; [done|].
  assert (x < d) by (apply H; set_solver).
  rewrite filter_cons_False by lia. apply IH. set_solver.
Qed.

Lemma reset_counted max n now s :
  0 ≤ max → counted max n s → n ≤ now →
  counted max now {| rt := maybe_reset_day now (rt s); ks := ks s; fired := fired s |} ∧
  day (state (maybe_reset_day now (rt s))) = now / (86400 * 1000).
Proof.
  intros Hm [H1 H2 H3 H4 H5] Hn. split; [|apply maybe_reset_day_day].
  assert (n / (86400 * 1000) ≤ now / (86400 * 1000)) by (apply Z.div_le_mono; lia).
  destruct (decide (day (state (rt s)) = now / (86400 * 1000))) as [E|E].
  - rewrite (maybe_reset_same _ _ E). split; cbn; try done. lia.
  - rewrite (maybe_reset_new _ _ E). split; cbn; try done.
    + intros x Hx. specialize (H3 x Hx). lia.
    + change (fired_on (now / (86400 * 1000)) s = 0). apply fired_on_future.
      intros x Hx. specialize (H3 x Hx). lia.
Qed.

Lemma exec_counted max n s o :
  0 ≤ max < 2 ^ 32 → counted max n s → n ≤ op_time o → counted max (op_time o) (exec s o).
Proof.
  intros Hm Hc Hn. destruct o as [now t|now b p]; cbn [op_time] in Hn |- *.
  - destruct (reset_counted max n now s (proj1 Hm) Hc Hn) as [Hr Hd].
    rewrite exec_buy. cbv zeta. case_scrut; [|done].
    apply is_ok_gate, gate_ok in E as (_&_&_&_&_&_&Ht&_&_).
    destruct Hr as [H1 H2 H3 H4 H5]. cbn [rt ks fired] in *. rewrite H1 in Ht.
    unfold fired_on in *. split; unfold fired_on; cbn [rt ks fired] in *; try done.
    + intros x [Hx| ->%list_elem_of_singleton]%elem_of_app; [by apply H3|cbn; lia].
    + cbn [record_trade_fired set_state state day trades_today].
      rewrite filter_app, length_app, Nat2Z.inj_add, H4, Hd.
      rewrite filter_cons_True by done. cbn. rewrite sat_add_exact; lia.
    + intros d. rewrite filter_app, length_app, Nat2Z.inj_add.
      destruct (decide (now / (86400 * 1000) = d)) as [<-|Hne].
      * rewrite filter_cons_True by done. rewrite <- Hd, H4. cbn. lia.
      * rewrite filter_cons_False by done. cbn. specialize (H5 d). lia.
  - destruct (exec_tick s now b p) as [Hf Hr].
    destruct Hc as [H1 H2 H3 H4 H5].
    pose proof (tick_fields (now / (86400 * 1000)) b p (ks s) (rt s)) as (Tc&_&Td&Tt&_).
    rewrite <- Hr in Tc, Td, Tt. unfold fired_on in *.
    split; unfold fired_on; rewrite ?Tc, ?Td, ?Tt, ?Hf; try done.
    transitivity (n / (86400 * 1000)); [done|]. apply Z.div_le_mono; lia.
Qed.

Lemma run_counted max n s os :
  0 ≤ max < 2 ^ 32 → counted max n s → clock_from n os → ∃ m, counted max m (run s os).
Proof.
  intros Hm. revert n s. induction os as [|o os IH]; intros n s Hc Ht; cbn in *; [eauto|].
  destruct Ht as [? Ht]. eapply IH; [|done]. by eapply exec_counted.
Qed.

(** ** Properties *)

(** What a passing check means.  [check] returns [Ok] exactly when, for
    the current UTC day, the trader is not halted, no cooldown runs, the KOL is
    whitelisted, a private signal is not barred, the size is within the phase's
    cap, the open positions and the day's trades are below their maxima, the
    wallet is not below its minimum and the gas price is within its bound. *)
Theorem check_ok_iff now r t :
  let today := now / (86400 * 1000) in
  let same := day (state r) =? today in
  let l := limits (cfg r) in
  (check now r t).2 = Ok tt ↔
  (same = true → halted (state r) = false) ∧
  (same = true → last_loss_unix_ms (state r) ≠ 0 →
     cooldown_after_loss_ms l ≤ sat_sub now (last_loss_unix_ms (state r))) ∧
  t_kol_name t ∈ whitelist r ∧
  (public_only (strategy (cfg r)) = true → t_visibility t = "public"%string) ∧
  fgt (t_bnb_amount t) (effective_per_trade_max_bnb (phase (cfg r)) (per_trade_max_bnb l)) = false ∧
  t_current_open_positions t < max_open_positions l ∧
  (if same then trades_today (state r) else 0) < max_trades_per_day l ∧
  flt (t_current_wallet_bnb t) (min_wallet_bnb l) = false ∧
  t_current_gas_gwei t ≤ max_gas_price_gwei l.
Proof.
  cbn. rewrite gate_ok.
  destruct (Z.eqb_spec (day (state r)) (now / (86400 * 1000))) as [E|E].
  - rewrite (maybe_reset_same _ _ E). unfold cooldown_remaining.
    destruct (Z.eqb_spec (last_loss_unix_ms (state r)) 0); [naive_solver|].
    destruct (Z.ltb_spec (sat_sub now (last_loss_unix_ms (state r)))
      (cooldown_after_loss_ms (limits (cfg r)))); naive_solver lia.
  - rewrite (maybe_reset_new _ _ E). cbn. naive_solver.
Qed.

(** [C14] The daily trade budget.  From start-up, whatever buys are attempted
    and whatever the poller reads, as long as the clock does not go back, the
    trades fired on any UTC day never exceed [max_trades_per_day]. *)
Theorem trades_per_day_bounded c now_s bal os d :
  0 ≤ max_trades_per_day (limits c) < 2 ^ 32 →
  clock_from (now_s * 1000) os →
  fired_on d (run (init c now_s bal) os) ≤ max_trades_per_day (limits c).
Proof.
  intros Hm Ht.
  destruct (run_counted _ (now_s * 1000) (init c now_s bal) os Hm) as [m [_ _ _ _ H]];
    [|done|apply H].
  split; cbn; try done; [|by intros x ?%not_elem_of_nil|intros ?; unfold fired_on; cbn; lia].
  rewrite Z.div_mul_cancel_r by done. lia.
Qed.

(** The halt is absorbing within the day.  Once halted, every later buy of
    the same UTC day is refused with the daily-loss failure and nothing fires,
    whatever the poller reads in between. *)
Theorem halted_blocks_the_day s os now t :
  halted (state (rt s)) = true →
  (∀ o, o ∈ os → op_day o = day (state (rt s))) →
  now / (86400 * 1000) = day (state (rt s)) →
  fired (run s os) = fired s ∧
  ∃ loss, (check now (rt (run s os)) t).2 =
    Err (DailyLossHalt loss (daily_loss_usd (limits (cfg (rt s))))).
Proof.
  intros Hh Hd Hnow.
  assert (fired (run s os) = fired s ∧ halted (state (rt (run s os))) = true ∧
    day (state (rt (run s os))) = day (state (rt s)) ∧ cfg (rt (run s os)) = cfg (rt s))
    as (Hf & Hh' & Hd' & Hc').
  { clear Hnow t now. induction os as [|o os IH] using rev_ind; [done|].
    destruct IH as (I1 & I2 & I3 & I4); [set_solver|]. rewrite limits_run_snoc.
    assert (op_day o = day (state (rt s))) as Ho by (apply Hd; set_solver).
    destruct o as [now t|now b p]; unfold op_day, op_time in Ho.
    - rewrite exec_buy. cbv zeta. rewrite maybe_reset_same by congruence.
      unfold gate. rewrite I2. done.
    - destruct (exec_tick (run s os) now b p) as [-> ->].
      destruct (tick_fields (now / (86400 * 1000)) b p (ks (run s os)) (rt (run s os)))
        as (->&_&->&_&_&H). auto. }
  split; [done|]. eexists. unfold check. cbn. rewrite maybe_reset_same by congruence.
  unfold gate. rewrite Hh', Hc'. done.
Qed.


(** The cooldown gate never engages: over any history from start-up, no
    check fails with [InCooldown], because no operation records the time of a
    loss, whatever [cooldown_after_loss_ms] is configured. *)
Theorem cooldown_never_engages c now_s bal os now t rem :
  (check now (rt (run (init c now_s bal) os)) t).2 ≠ Err (InCooldown rem).
Proof.
  pose proof (last_loss_zero (init c now_s bal) os eq_refl) as H.
  set (r := rt (run _ os)) in *. cbn.
  assert (last_loss_unix_ms (state (maybe_reset_day now r)) = 0) as H0.
  { unfold maybe_reset_day. by case_scrut. }
  unfold gate. rewrite H0. cbn. repeat (case_scrut; try done).
Qed.

(** A halt is lost at the first check of a new day.  The poller's update
    does not roll the day over, so when a loss of the new day trips the halt
    before the first check of that day, that check wipes the halt and the loss
    with the old day's counters, and the buy passes. *)
Theorem halt_lost_at_rollover r loss now t :
  is_halted (sync_realized_loss loss r) = true →
  day (state r) ≠ now / (86400 * 1000) →
  gate now (set_state r (fresh_day (now / (86400 * 1000)))) t = Ok tt →
  let '(r', res) := check now (sync_realized_loss loss r) t in
  res = Ok tt ∧ is_halted r' = false.
Proof.
  intros Hh Hd Hg. cbn.
  destruct (sync_fields loss r) as (Hc & Hw & Hd' & _).
  rewrite maybe_reset_new by (rewrite Hd'; done).
  unfold set_state in *. rewrite Hc, Hw. done.
Qed.

(** ** Witnesses *)

(** The values of config/limits.toml. *)
Definition example_config : LimitsConfig := {|
  phase := {| shadow := false; tiny := false; full := true |};
  limits := {| daily_loss_usd := f64_of_Z 25; per_trade_max_bnb := f64_lit 25 1000;
    min_wallet_bnb := f64_lit 1 100; max_open_positions := 10; max_trades_per_day := 60;
    max_gas_price_gwei := 10; slippage_bps := 500; cooldown_after_loss_ms := 5000 |};
  strategy := {| mode := "copy_at_n_plus_1"; public_only := true;
    live_size_fraction := f64_lit 1 100; kol_whitelist := ["D"];
    live_min_buy_bnb := f64_lit 1 10; live_min_buy_usd := f0;
    trade_size_usd := f64_of_Z 10; trade_size_private_usd := f0;
    dev_bonus_size_usd := f0; dev_whitelist_file := "" |};
  wallet_keyfile := "/data/bsc-meme-mev/.trader_wallet";
  submission := {| primary_url := "https://bsc.blockrazor.xyz";
    primary_auth_env := "BLOCKRAZOR_AUTH_KEY"; fallback_url := "http://127.0.0.1:8545";
    timeout_ms := 5000 |};
  tokens := {| min_age_seconds := 60; max_sell_tax_bps := 500;
    blacklist_file := "/data/bsc-meme-mev/config/token_blacklist.toml" |};
  audit := {| log_dir := "/data/bsc-meme-mev/trader_live"; telegram_alerts := true |} |}.

Definition example_check : TradeCheck :=
  {| t_kol_name := "D"; t_visibility := "public"; t_bnb_amount := f64_lit 2 100;
     t_current_open_positions := 1; t_current_wallet_bnb := f1; t_current_gas_gwei := 10 |}.

Lemma trades_per_day_bounded_witness :
  fired_on 1 (run (init example_config 86400 f1)
    [Buy 86400001 example_check; Buy 86400002 example_check; Buy 86400003 example_check]) ≤ 60.
Proof.
  apply (trades_per_day_bounded example_config 86400 f1); [by vm_compute|cbn; lia].
Defined.

Lemma halted_blocks_the_day_witness :
  let s := exec (init example_config 86400 f1) (Tick 86430000 (Some f0) (Some (f64_of_Z 600))) in
  fired (run s [Buy 86400001 example_check]) = [].
Proof.
  intros s.
  destruct (halted_blocks_the_day s [Buy 86400001 example_check] 86400002 example_check) as [H _].
  - by vm_compute.
  - intros o ->%list_elem_of_singleton. by vm_compute.
  - by vm_compute.
  - exact H.
Defined.


Lemma halt_lost_at_rollover_witness :
  let r := LimitsRuntime_new example_config 86400 in
  let '(r', res) := check 172800000 (sync_realized_loss (f64_of_Z 60) r) example_check in
  res = Ok tt ∧ is_halted r' = false.
Proof.
  apply (halt_lost_at_rollover (LimitsRuntime_new example_config 86400)); by vm_compute.
Defined.
