(* ===== verification/Nonce.v ===== *)
(** * trader/nonce.rs: the wallet's nonce tracker

    An atomic counter, a best-effort copy on disk written by spawned tasks, and
    a resync that is a load followed by a store.  Each atomic access and each
    disk write is a step, so that interleavings are traces.  The node's
    pending-nonce reply and the file's text are arguments.

    [NonceSource] is the interface the executor needs: reserved nonces come
    out strictly increasing.  The counter with an undivided resync is an
    instance; the divided resync is not, as the last theorems show. *)

From Stdlib Require Import ZArith Lia Ascii.
From S2P Require Import Prelude Bytes Dex.

(** ** The node's reply: [fetch_pending_nonce] *)

Inductive NonceError : Type :=
| RpcPost
| NoResult
| NonceBadHex.

Definition fetch_pending_nonce (reply : rpc_reply) : result Z NonceError :=
  match reply with
  | TransportErr => Err RpcPost
  | Reply _ _ None => Err NoResult
  | Reply _ _ (Some hex) =>
      match from_str_radix16 64 (strip_0x hex) with
      | Some n => Ok n
      | None => Err NonceBadHex
      end
  end.

(** ** The manager *)

(** [current] is the atomic; [disk] the text of the persisted file. *)
Record NonceManager : Type := {
  current : Z;
  persist : bool;
  disk : option (list ascii);
}.

Definition disk_n (file : option (list ascii)) : Z :=
  unwrap_or (file ≫= λ s, parse_u64 (trim s)) 0.

Definition NonceManager_new (persist_path : bool) (file : option (list ascii)) (reply : rpc_reply)
  : result NonceManager NonceError :=
  chain_n <-? fetch_pending_nonce reply;;
  Ok {| current := Z.max chain_n (if persist_path then disk_n file else 0);
        persist := persist_path; disk := file |}.

(** [reserve]: the nonce, and the value a spawned task will write to disk. *)
Definition reserve (m : NonceManager) : NonceManager * Z * option Z :=
  let n := current m in
  ({| current := wrap 64 (n + 1); persist := persist m; disk := disk m |}, n,
   if persist m then Some (wrap 64 (n + 1)) else None).

(** The spawned task: [tokio::fs::write(path, next.to_string())]. *)
Definition disk_write (m : NonceManager) (next : Z) : NonceManager :=
  {| current := current m; persist := persist m; disk := Some (u64_to_string next) |}.

(** [resync] after the fetch: a load, then a store of the maximum. *)
Definition resync_load (m : NonceManager) : Z := current m.
Definition resync_store (m : NonceManager) (chain_n local : Z) : NonceManager :=
  {| current := Z.max chain_n local; persist := persist m; disk := disk m |}.
(** The same with nothing in between. *)
Definition resync (m : NonceManager) (chain_n : Z) : NonceManager :=
  resync_store m chain_n (resync_load m).

(** ** The interface *)

(** What the executor needs of a source of nonces: [ns_floor] is above every
    nonce handed out so far; a reservation returns a nonce at or above it and
    moves it past that nonce; a resync does not lower it. *)
Class NonceSource (St : Type) : Type := {
  ns_reserve : St → St * Z;
  ns_resync : St → Z → St;
  ns_floor : St → Z;
  ns_resync_mono : ∀ s c, ns_floor s ≤ ns_floor (ns_resync s c);
  ns_reserve_fresh : ∀ s, 0 ≤ ns_floor s < umax 64 →
    ns_floor s ≤ (ns_reserve s).2 < ns_floor (ns_reserve s).1;
}.

#[export] Program Instance NonceManager_source : NonceSource NonceManager := {|
  ns_reserve m := let '(m', n, _) := reserve m in (m', n);
  ns_resync := resync;
  ns_floor := current;
|}.
Next Obligation. intros m c. cbn. unfold resync_load. lia. Qed.
Next Obligation.
  intros m H. cbn in *. unfold umax in H. rewrite wrap_small by (unfold in_width; lia). lia.
Qed.

Section Client.
Context {St : Type} {NS : NonceSource St}.

(** A use of the source: a reservation, or a resync with the chain's value. *)
Inductive use : Type := UReserve | UResync (chain_n : Z).

Fixpoint serve (s : St) (us : list use) : St * list Z :=
match us with
| [] => (s, [])
| UReserve :: us =>
let '(s1, n) := ns_reserve s in
let '(s2, ns) := serve s1 us in (s2, n :: ns)
| UResync c :: us => serve (ns_resync s c) us
end.

(** The counter stays in range before each reservation. *)
Fixpoint in_range (s : St) (us : list use) : Prop :=
match us with
| [] => True
| UReserve :: us => 0 ≤ ns_floor s < umax 64 ∧ in_range (ns_reserve s).1 us
| UResync c :: us => in_range (ns_resync s c) us
end.

(** Any client of the interface gets strictly increasing nonces. *)
Lemma serve_increasing us s :
in_range s us →
StronglySorted Z.lt (serve s us).2 ∧ Forall (λ n, ns_floor s ≤ n) (serve s us).2.
Proof.
revert s. induction us as [|[|c] us IH]; intros s Hr; cbn in *.
- split; constructor.
- destruct Hr as [Hs Hr]. pose proof (ns_reserve_fresh s Hs) as Hf.
destruct (ns_reserve s) as [s1 n]. cbn in *. destruct (IH s1 Hr) as [H1 H2].
destruct (serve s1 us) as [s2 ns]. cbn in *.
split; constructor; try done; try lia; eapply Forall_impl; try done; cbn; lia.
- destruct (IH _ Hr) as [H1 H2]. split; [done|]. eapply Forall_impl; [done|].
cbn. pose proof (ns_resync_mono s c). lia.
Qed.
End Client.

(** ** Interleavings

    [pending] are the disk writes spawned and not run, oldest first;
    [inflight] the resyncs that loaded and have not stored. *)

Record sys : Type := {
  nm : NonceManager;
  pending : list Z;
  inflight : list (Z * Z);
  issued : list Z;
}.

Inductive event : Type :=
| EReserve
| EWrite (i : nat)
| EResyncLoad (chain_n : Z)
| EResyncStore (i : nat)
| EResync (chain_n : Z)
| ERestart (chain_n : Z).

(** [new] once the chain's nonce is known. *)
Definition boot (file : option (list ascii)) (chain_n : Z) : NonceManager :=
  {| current := Z.max chain_n (disk_n file); persist := true; disk := file |}.

Definition step (s : sys) (e : event) : sys :=
  match e with
  | EReserve =>
      let '(m, n, w) := reserve (nm s) in
      {| nm := m; pending := pending s ++ option_list w; inflight := inflight s;
         issued := issued s ++ [n] |}
  | EWrite i =>
      match pending s !! i with
      | Some next => {| nm := disk_write (nm s) next; pending := delete i (pending s);
                        inflight := inflight s; issued := issued s |}
      | None => s
      end
  | EResyncLoad c =>
      {| nm := nm s; pending := pending s;
         inflight := inflight s ++ [(c, resync_load (nm s))]; issued := issued s |}
  | EResyncStore i =>
      match inflight s !! i with
      | Some (c, l) => {| nm := resync_store (nm s) c l; pending := pending s;
                          inflight := delete i (inflight s); issued := issued s |}
      | None => s
      end
  | EResync c =>
      {| nm := resync (nm s) c; pending := pending s; inflight := inflight s; issued := issued s |}
  | ERestart c =>
      {| nm := boot (disk (nm s)) c; pending := []; inflight := []; issued := issued s |}
  end.

Definition run (s : sys) (es : list event) : sys := foldl step s es.

(** The discipline under which the header's promise holds: the spawned writes
    run in order, a resync is not interleaved, and a restart comes after the
    writes; all values fit 64 bits. *)
Definition disciplined_event (s : sys) (e : event) : Prop :=
  match e with
  | EReserve => current (nm s) < umax 64
  | EWrite i => i = 0%nat
  | EResync c => 0 ≤ c ≤ umax 64
  | ERestart c => pending s = [] ∧ 0 ≤ c ≤ umax 64
  | EResyncLoad _ | EResyncStore _ => False
  end.

Fixpoint disciplined (s : sys) (es : list event) : Prop :=
  match es with
  | [] => True
  | e :: es => disciplined_event s e ∧ disciplined (step s e) es
  end.

(** The state after a first start. *)
Definition start (file : option (list ascii)) (chain_n : Z) : sys :=
  {| nm := boot file chain_n; pending := []; inflight := []; issued := [] |}.

Lemma NonceManager_new_boot file reply n :
  fetch_pending_nonce reply = Ok n → NonceManager_new true file reply = Ok (boot file n).
Proof. unfold NonceManager_new. by intros ->. Qed.

Lemma disk_n_write m next : in_width 64 next → disk_n (disk (disk_write m next)) = next.
Proof. intros H. unfold disk_n. cbn. by rewrite parse_u64_to_string. Qed.

Lemma parse_radix_width radix w digit s n :
  0 ≤ w → parse_radix radix w digit s = Some n → in_width w n.
Proof.
  intros Hw. assert (∀ l acc, match acc with Some a => in_width w a | None => True end →
    foldl (radix_step radix w digit) acc l = Some n → in_width w n) as Hf.
  { induction l as [|c l IH]; cbn; intros acc Ha; [by intros ->|]. apply IH.
    unfold radix_step. destruct acc, (digit c); try done. unfold try_from_width.
    destruct (_ && _) eqn:Eb; [|done]. zbool. done. }
  assert (in_width w 0) by (unfold in_width; pose proof (pow2_pos w Hw); lia).
  unfold parse_radix. repeat case_scrut; try done; by apply Hf.
Qed.

Lemma disk_n_width file : in_width 64 (disk_n file).
Proof.
  unfold disk_n. destruct (file ≫= _) eqn:E; cbn; [|done].
  destruct file; cbn in E; [|done]. by eapply (parse_radix_width 10 64).
Qed.

(** *** The invariant of a disciplined run *)

Record safe (s : sys) : Prop := {
  sf_range : in_width 64 (current (nm s));
  sf_persist : persist (nm s) = true;
  sf_sorted : StronglySorted Z.lt (issued s);
  sf_issued : Forall (λ n, n < current (nm s)) (issued s);
  sf_disk : Forall (λ n, n < disk_n (disk (nm s)) ∨ n + 1 ∈ pending s) (issued s);
  sf_pending : StronglySorted Z.lt (pending s);
  sf_pending_bound : Forall (λ p, disk_n (disk (nm s)) ≤ p ≤ current (nm s)) (pending s);
  sf_disk_bound : disk_n (disk (nm s)) ≤ current (nm s);
}.

Lemma start_safe file c : 0 ≤ c ≤ umax 64 → safe (start file c).
Proof.
  intros Hc. pose proof (disk_n_width file) as Hd. unfold in_width, umax in *.
  split; cbn; try done; try constructor; unfold in_width; lia.
Qed.

Lemma reserve_safe s : safe s → current (nm s) < umax 64 → safe (step s EReserve).
Proof.
  intros [H1 H2 H3 H4 H5 H6 H7 H8] Hu. cbn. unfold reserve. rewrite H2. cbn.
  assert (wrap 64 (current (nm s) + 1) = current (nm s) + 1) as Hw
    by (apply wrap_small; unfold in_width, umax in *; lia).
  split; cbn; rewrite ?Hw; try done; unfold in_width, umax in *; try lia.
  - by apply StronglySorted_snoc.
  - apply Forall_app. split; [|by apply Forall_singleton; lia].
    eapply Forall_impl; [exact H4|]. cbn. lia.
  - apply Forall_app. split; [|apply Forall_singleton; set_solver].
    eapply Forall_impl; [exact H5|]. cbn. set_solver.
  - apply StronglySorted_snoc; [done|]. eapply Forall_impl; [exact H7|]. cbn. lia.
  - apply Forall_app. split; [|apply Forall_singleton; lia].
    eapply Forall_impl; [exact H7|]. cbn. lia.
Qed.

Lemma write_safe s : safe s → safe (step s (EWrite 0)).
Proof.
  intros [H1 H2 H3 H4 H5 H6 H7 H8]. cbn. destruct (pending s) as [|p ps] eqn:Ep; cbn.
  { split; rewrite ?Ep; done. }
  apply Forall_cons in H7 as [Hp H7]. inversion H6 as [|?? H6' Hall]; subst.
  pose proof (disk_n_width (disk (nm s))) as Hd.
  assert (in_width 64 p) by (unfold in_width in *; lia).
  split; cbn [disk_write nm pending issued current persist disk]; try done;
    change (Some (u64_to_string p)) with (disk (disk_write (nm s) p));
    rewrite ?disk_n_write by done.
  - eapply Forall_impl; [exact H5|]. cbn. intros n [?|Hn]; [left; lia|].
    apply elem_of_cons in Hn as [?|?]; [left; lia|by right].
  - rewrite Forall_forall in *. intros q Hq. specialize (H7 q Hq). specialize (Hall q Hq).
    cbn in *. lia.
  - lia.
Qed.

Lemma step_safe s e : safe s → disciplined_event s e → safe (step s e).
Proof.
  intros Hs. pose proof Hs as [H1 H2 H3 H4 H5 H6 H7 H8].
  destruct e as [|i|c|i|c|c]; cbn [disciplined_event]; try done.
  - by apply reserve_safe.
  - intros ->. by apply write_safe.
  - intros Hc. split; cbn; try done; unfold resync_load, in_width, umax in *; try lia;
      first [eapply Forall_impl; [exact H4|]; cbn; lia | eapply Forall_impl; [exact H7|]; cbn; lia].
  - intros [Hp Hc]. rewrite Hp in *. pose proof (disk_n_width (disk (nm s))) as Hd.
    split; cbn; try done; try constructor; unfold in_width, umax in *; try lia.
    + eapply Forall_impl; [exact H5|]. cbn. intros n [?|?%not_elem_of_nil]; [lia|done].
Qed.

(** ** Properties *)

(** [C13] A reserved nonce is never handed out again.  From any first start
    (whatever the file holds), over any disciplined history of reservations,
    disk writes, resyncs and restarts, with any nonces reported by the node,
    the reserved nonces are strictly increasing, restarts included. *)
Theorem nonces_never_reused file c es :
  0 ≤ c ≤ umax 64 → disciplined (start file c) es →
  StronglySorted Z.lt (issued (run (start file c) es)).
Proof.
  intros Hc Hd. assert (safe (run (start file c) es)) as Hs; [|apply Hs].
  pose proof (start_safe file c Hc) as Hs. revert Hs Hd. generalize (start file c).
  induction es as [|e es IH]; intros s Hs Hd; cbn in *; [done|].
  destruct Hd as [He Hd]. apply IH; [by apply step_safe|done].
Qed.

Lemma nonces_never_reused_witness :
  issued (run (start None 494) [EReserve; EReserve; EWrite 0; EResync 490; EWrite 0;
    ERestart 494; EReserve]) = [494; 495; 496] ∧
  StronglySorted Z.lt (issued (run (start None 494) [EReserve; EReserve; EWrite 0; EResync 490;
    EWrite 0; ERestart 494; EReserve])).
Proof.
  split; [by vm_compute|]. apply nonces_never_reused; [by vm_compute|].
  repeat split; vm_compute; done.
Defined.

(** The resync race.  [resync] loads and stores in two steps, so a
    reservation between them is undone: when the node is not ahead, the nonce
    reserved meanwhile is handed out a second time. *)
Theorem resync_race_reuses_nonce s c :
  in_width 64 (current (nm s)) → c ≤ current (nm s) → current (nm s) < umax 64 →
  let s' := run s [EResyncLoad c; EReserve; EResyncStore (length (inflight s)); EReserve] in
  issued s' = issued s ++ [current (nm s); current (nm s)].
Proof.
  intros Hw Hc Hu. unfold run. cbn. unfold reserve. cbn.
  rewrite lookup_app_r, Nat.sub_diag by done. cbn.
  rewrite <- app_assoc. cbn. do 2 f_equal. unfold resync_load. f_equal. lia.
Qed.

Lemma resync_race_reuses_nonce_witness :
  issued (run (start None 7) [EResyncLoad 7; EReserve; EResyncStore 0; EReserve]) = [7; 7].
Proof.
  apply (resync_race_reuses_nonce (start None 7) 7); vm_compute; done.
Defined.

(** Unordered disk writes.  The spawned writes are not ordered, so the
    older of two may land last; a restart on a node that has not seen the
    later transaction then hands out its nonce again. *)
Theorem unordered_writes_reuse_nonce s c :
  persist (nm s) = true → pending s = [] → 0 ≤ current (nm s) → current (nm s) + 2 ≤ umax 64 →
  c ≤ current (nm s) + 1 →
  issued (run s [EReserve; EReserve; EWrite 1; EWrite 0; ERestart c; EReserve]) =
    issued s ++ [current (nm s); current (nm s) + 1; current (nm s) + 1].
Proof.
  intros Hp Hn H0 Hu Hc. unfold umax in Hu.
  unfold run. cbn. rewrite Hp, Hn. cbn.
  unfold wrap. rewrite !(Z.mod_small (current (nm s) + 1)) by lia.
  unfold disk_n. cbn. rewrite parse_u64_to_string by (unfold in_width; lia). cbn.
  rewrite <- !app_assoc. cbn. do 4 f_equal. f_equal. lia.
Qed.

Lemma unordered_writes_reuse_nonce_witness :
  issued (run (start None 494) [EReserve; EReserve; EWrite 1; EWrite 0; ERestart 494; EReserve]) =
    [494; 495; 495].
Proof.
  apply (unordered_writes_reuse_nonce (start None 494) 494); vm_compute; done.
Defined.
