(* ===== verification/Kol.v ===== *)
(** * bsc-runner: watching KOL wallets

    Module [Gmgn] is gmgn.rs, the decoder of the GMGN router's calls.  Module
    [Watch] is the consumer of kol_watch.rs: the index of watched wallets, the
    hit built from a pending transaction and its dispatch to the sinks.
    Module [Confirm] is kol_confirm.rs: the registry of pending hits, and the
    scan of a block that confirms them, finds private trades and routes both.

    alloy's transaction accessors are a parameter ([TxView]); the clock, the
    fetched block and the TOML parser's result are arguments. *)

From Stdlib Require Import ZArith Lia Strings.Byte Ascii String.
From S2P Require Import Prelude F64 Bytes Dex Bus.
Import Bus.Core.

(** [format!("{:#x}")] of an address or a hash of [n] bytes. *)
Definition format_hex (n : nat) (z : Z) : string :=
  String.append "0x" (string_of_list_ascii (Hex.hex_encode (to_be n z))).

Module Gmgn.

Definition GMGN_SELECTOR : bytes := [Byte.x4d; Byte.x81; Byte.x9a; Byte.x2a].
Definition GMGN_ROUTER : Address := 0x1de460f363af910f51726def188f9004276bf4bc.

Inductive Side : Type := Buy | Sell.
Definition as_str (s : Side) : string := match s with Buy => "BUY" | Sell => "SELL" end.

Record GmgnSwap : Type := { token : Address; side : Side }.

Definition is_gmgn (input : bytes) : bool :=
(4 <=? length input)%nat && bool_decide (take 4 input = GMGN_SELECTOR).

(** The loop's body on one word: [None] is [continue]. *)
Definition word_token (w : bytes) : option Address :=
if negb (all_zero (take 12 w)) then None
else if all_zero (take 4 (drop 12 w)) then None
else
let addr := from_be (drop 12 w) in
if (addr =? WBNB) || (addr =? GMGN_ROUTER) then None else Some addr.

Fixpoint first_token (ws : list bytes) : option Address :=
match ws with
| [] => None
| w :: ws => match word_token w with Some a => Some a | None => first_token ws end
end.

Definition decode (input : bytes) (value : U256) : option GmgnSwap :=
if negb (is_gmgn input) then None
else
match first_token (chunks_exact32 (drop 4 input)) with
| Some t => Some {| token := t; side := if 0 <? value then Buy else Sell |}
| None => None
end.

(** The numbers a word must hold to be taken for the token. *)
Definition token_like (w : bytes) : Prop :=
2 ^ 128 ≤ from_be w < 2 ^ 160 ∧ from_be w ≠ WBNB ∧ from_be w ≠ GMGN_ROUTER.

Lemma word_token_spec w a :
length w = 32%nat → word_token w = Some a ↔ token_like w ∧ a = from_be w.
Proof.
intros Hw. unfold word_token, token_like.
assert (from_be w = from_be (take 12 w) * 2 ^ 160 + from_be (drop 12 w)) as H1.
{ rewrite <- (take_drop 12 w) at 1. rewrite from_be_app, length_drop, Hw. done. }
assert (from_be (drop 12 w) =
from_be (take 4 (drop 12 w)) * 2 ^ 128 + from_be (drop 4 (drop 12 w))) as H2.
{ rewrite <- (take_drop 4 (drop 12 w)) at 1. rewrite from_be_app, !length_drop, Hw. done. }
pose proof (from_be_bound (take 12 w)). pose proof (from_be_bound (drop 12 w)) as Hb.
pose proof (from_be_bound (take 4 (drop 12 w))).
pose proof (from_be_bound (drop 4 (drop 12 w))) as Hb'.
rewrite length_drop, Hw in Hb. rewrite length_drop, length_drop, Hw in Hb'. change (256 ^ Z.of_nat (32 - 12)) with (2 ^ 160) in Hb.
change (256 ^ Z.of_nat (32 - 12 - 4)) with (2 ^ 128) in Hb'.
destruct (all_zero (take 12 w)) eqn:E1; cbn [negb].
- apply all_zero_spec in E1. rewrite E1 in H1.
destruct (all_zero (take 4 (drop 12 w))) eqn:E2.
+ apply all_zero_spec in E2. split; [done|]. lia.
+ assert (from_be (take 4 (drop 12 w)) ≠ 0) by (rewrite <- all_zero_spec; congruence).
replace (from_be w) with (from_be (drop 12 w)) by lia.
case_scrut; zbool.
* split; [done|]. naive_solver.
* split; [intros [= <-]; split_and!; try done; lia|]. by intros [_ ->].
- assert (from_be (take 12 w) ≠ 0) by (rewrite <- all_zero_spec; congruence).
split; [done|]. lia.
Qed.

Lemma first_token_spec ws a :
Forall (λ w, length w = 32%nat) ws →
first_token ws = Some a ↔
∃ pre w post, ws = pre ++ w :: post ∧ Forall (λ v, ¬ token_like v) pre ∧
token_like w ∧ a = from_be w.
Proof.
induction 1 as [|w ws Hw Hws IH]; cbn.
- split; [done|]. intros (pre & w & post & H & _). by destruct pre.
- destruct (word_token w) as [b|] eqn:Eb.
+ apply (word_token_spec w b Hw) in Eb as [Ht ->]. split.
* intros [= <-]. exists [], w, ws. by split_and!.
* intros (pre & v & post & H & Hp & Hv & ->). destruct pre as [|p pre]; simplify_eq/=; [done|].
by apply Forall_cons in Hp as [? _].
+ assert (¬ token_like w) as Hn.
{ intros Ht. assert (word_token w = Some (from_be w)) by (by apply word_token_spec).
congruence. }
rewrite IH. split.
* intros (pre & v & post & -> & Hp & Hv). exists (w :: pre), v, post.
split; [done|]. split; [|done]. by constructor.
* intros (pre & v & post & H & Hp & Hv & ->). destruct pre as [|p pre]; simplify_eq/=; [done|].
apply Forall_cons in Hp as [_ Hp]. eauto 10.
Qed.

Lemma first_token_none ws :
Forall (λ w, length w = 32%nat) ws →
first_token ws = None ↔ Forall (λ v, ¬ token_like v) ws.
Proof.
induction 1 as [|w ws Hw Hws IH]; cbn; [done|].
rewrite Forall_cons, <- IH. destruct (word_token w) as [b|] eqn:Eb.
- apply (word_token_spec w b Hw) in Eb as [Ht ->]. naive_solver.
- split; [|naive_solver]. intros ?. split; [|done]. intros Ht.
assert (word_token w = Some (from_be w)) by (by apply word_token_spec). congruence.
Qed.
End Gmgn.

(** ** kol_watch.rs *)

Module Watch.

Record Kol : Type := {
address : Address;
name : string;
emoji : option string;
groups : list string;
}.

Abbreviation KolIndex := (gmap Address Kol) (only parsing).

(** [KolIndex::load]: [parsed] is the list of the parsed file, if it could
be read; a later entry with the same address replaces an earlier one. *)
Definition load (parsed : option (list Kol)) (group_filter : list string) : option KolIndex :=
kols ← parsed;
Some (foldl (λ m k, <[address k := k]> m) ∅
(filter (λ k, group_filter = [] ∨ Exists (λ g, g ∈ group_filter) (groups k)) kols)).

Definition lookup (index : KolIndex) (a : Address) : option Kol := index !! a.

(** The selectors of [known_method], in the order of its arms. *)
Definition method_table : list (Z * string) := [
(0xeffbec13, "GMGN swap");
(0x4d819a2a, "GMGN router (flap/Four.Meme)");
(0x7ff36ab5, "PancakeV2 swapExactBNBForTokens");
(0x18cbafe5, "PancakeV2 swapExactTokensForBNB");
(0x38ed1739, "PancakeV2 swapExactTokensForTokens");
(0xfb3bdb41, "PancakeV2 swapBNBForExactTokens");
(0xb6f9de95, "PancakeV2 swapExactBNBForTokensFOT");
(0x5c11d795, "PancakeV2 swapExactTokensForTokensFOT");
(0x04e45aaf, "PancakeV3 exactInputSingle");
(0xb858183f, "PancakeV3 exactInput");
(0xac9650d8, "PancakeSmart multicall");
(0xa9059cbb, "BEP20 transfer");
(0x095ea7b3, "BEP20 approve");
(0x23b872dd, "BEP20 transferFrom") ]%string.

Definition assoc {A : Type} (t : list (Z * A)) (k : Z) : option A :=
snd <$> find (λ e, fst e =? k) t.

Definition known_method (input : bytes) : option string :=
match input with
| [] => Some "BNB transfer"%string
| _ => if (length input <? 4)%nat then None else assoc method_table (from_be (take 4 input))
end.

(** [known_address] compares the 40 lower-case hex digits of the address. *)
Definition address_table : list (Z * string) := [
(0x1de460f363af910f51726def188f9004276bf4bc, "GMGN proxy");
(0x10ed43c718714eb63d5aa57b78b54704e256024e, "PancakeV2 Router");
(0x13f4ea83d0bd40e75c8222255bc855a974568dd4, "PancakeV3 SmartRouter");
(0x1a0a18ac4becddbd6389559687d1a73d8927e416, "PancakeV3 SwapRouter");
(0x5c952063c7fc8610ffdb798152d69f0b9550762b, "Four.Meme");
(0xbb4cdb9cbd36b01bd1cbaebf2de08d9173bc095c, "WBNB");
(0x1111111254eeb25477b68fb85ed929f73a960582, "1inch v5");
(0x111111125421ca6dc452d289314280a0f8842a65, "1inch v6");
(0xdef1c0ded9bec7f1a1670819833240f027b25eff, "0x ExchangeProxy");
(0x6131b5fae19ea4f9d964eac0408e4408b66337b5, "KyberSwap");
(0x92b7807bf19b7dddf89b706143896d05228f3121, "OpenOcean") ]%string.

Definition known_address (addr : Address) : option string := assoc address_table addr.

Record KolHit : Type := {
kol_name : string;
kol_emoji : option string;
kol_groups : list string;
tx_hash : string;
from_addr : string;
to_addr : option string;
to_label : option string;
method_id : string;
method_label : option string;
value_bnb : f64;
gas_price_gwei : f64;
gas_limit : Z;
nonce : Z;
source_seen : string;
calldata : bytes;
decoded : option string;
token : option Address;
side : option string;
confirmed_block : option Z;
visibility : string;
}.

Definition format_method_id (input : bytes) : string :=
if (4 <=? length input)%nat then
String.append "0x" (string_of_list_ascii (Hex.hex_encode (take 4 input)))
else "0x".

(** Printing the integer and parsing it as [f64] rounds it to nearest. *)
Definition wei_to_bnb (wei : U256) : f64 := fdiv (f64_of_Z wei) f1e18.
Definition wei_to_gwei (wei : Z) : f64 := fdiv (f64_of_Z wei) (f64_of_Z (10 ^ 9)).

(** [format!("{:?}")] of the sightings: [[(SourceId(10), 7), ...]]. *)
Definition debug_sighting (s : Z * Z) : string :=
String.append "(SourceId(" (String.append (string_of_list_ascii (u64_to_string s.1))
(String.append "), " (String.append (string_of_list_ascii (u64_to_string s.2)) ")"))).
Fixpoint join (l : list string) : string :=
match l with
| [] => ""
| [s] => s
| s :: l => String.append s (String.append ", " (join l))
end.
Definition debug_source_seen (l : list (Z * Z)) : string :=
String.append "[" (String.append (join (debug_sighting <$> l)) "]").

(** alloy's accessors of a transaction. *)
Record TxView : Type := {
v_input : bytes;
v_to : option Address;
v_value : U256;
v_gas_price : option Z;
v_max_fee_per_gas : Z;
v_gas_limit : Z;
v_nonce : Z;
}.

Section Tx.
Context {TxEnvelope : Type} (view : TxEnvelope → TxView).

Definition from_pending (k : Kol) (p : PendingTx TxEnvelope) : KolHit :=
let tx := view (p_tx p) in
let input := v_input tx in
let swap := Gmgn.decode input (v_value tx) in
{| kol_name := name k; kol_emoji := emoji k; kol_groups := groups k;
tx_hash := format_hex 32 (p_hash p);
from_addr := format_hex 20 (p_from p);
to_addr := format_hex 20 <$> v_to tx;
to_label := v_to tx ≫= known_address;
method_id := format_method_id input;
method_label := known_method input;
value_bnb := wei_to_bnb (v_value tx);
gas_price_gwei := match v_gas_price tx with
| Some g => wei_to_gwei g
| None => wei_to_gwei (v_max_fee_per_gas tx)
end;
gas_limit := v_gas_limit tx; nonce := v_nonce tx;
source_seen := debug_source_seen (Core.source_seen p);
calldata := input; decoded := None;
token := Gmgn.token <$> swap;
side := (λ s, Gmgn.as_str (Gmgn.side s)) <$> swap;
confirmed_block := None; visibility := "public" |}.
End Tx.

(** A sink: a channel, when the feature is on.  A full or closed channel
drops the hit. *)
Definition sink : Type := option (chan KolHit).
Definition offer (s : sink) (h : KolHit) : sink :=
(λ c, fst (try_send c h)) <$> s.
Definition received (s : sink) : list KolHit :=
match s with Some c => chan_items c | None => [] end.
(** The channel exists, is open, and has room for [n] more. *)
Definition has_room (n : nat) (s : sink) : Prop :=
match s with
| Some c => chan_closed c = false ∧ (length (chan_items c) + n ≤ chan_cap c)%nat
| None => False
end.

Lemma offer_room n s h :
has_room (S n) s → received (offer s h) = received s ++ [h] ∧ has_room n (offer s h).
Proof.
destruct s as [c|]; cbn; [|done]. intros [Hc Hl]. unfold try_send. rewrite Hc.
destruct (Nat.ltb_spec (length (chan_items c)) (chan_cap c)); [|lia]. cbn.
split; [done|]. rewrite length_app. cbn. split; [done|lia].
Qed.

(** What a sink holds is what it was offered: nothing is lost or added. *)
Lemma received_offer s h x :
x ∈ received (offer s h) → x ∈ received s ∨ x = h.
Proof.
destruct s as [c|]; cbn; [|set_solver]. unfold try_send.
repeat case_scrut; cbn; set_solver.
Qed.

#[global] Arguments offer : simpl never.
#[global] Arguments received : simpl never.
#[global] Arguments has_room : simpl never.
End Watch.

(** ** kol_confirm.rs *)

Module Confirm.
Import Watch.

Definition TTL_ns : Z := 300 * 10 ^ 9.

Record PendingMeta : Type := {
m_kol_name : string;
m_side : option string;
m_token : option Address;
m_first_seen_ns : Z;
m_registered_ns : Z;
m_seen_block : option Z;
m_ms_into_block : Z;
}.

Abbreviation ConfirmRegistry := (gmap B256 PendingMeta) (only parsing).

Definition register (reg : ConfirmRegistry) (hash : B256) (meta : PendingMeta)
: ConfirmRegistry := <[hash := meta]> reg.

Definition fresh (now : Z) (m : PendingMeta) : bool := sat_sub now (m_registered_ns m) <? TTL_ns.

(** [sweep_expired]: the kept entries, and how many were dropped. *)
Definition sweep_expired (now : Z) (reg : ConfirmRegistry) : ConfirmRegistry * Z :=
let kept := filter (λ '(_, m), fresh now m = true) reg in
(kept, Z.of_nat (size reg - size kept)).

(** A transaction of a fetched block, as alloy gives it. *)
Record BlockTx : Type := {
bt_hash : B256;
bt_signer : Address;
bt_value : U256;
bt_input : bytes;
}.

Definition confirmed_hit (kol : string) (txn : BlockTx) (sd : string) (tok : Address)
(block_number : Z) (vis : string) : KolHit :=
{| kol_name := kol; kol_emoji := None; kol_groups := [];
tx_hash := format_hex 32 (bt_hash txn); from_addr := format_hex 20 (bt_signer txn);
to_addr := None; to_label := None; method_id := ""; method_label := None;
value_bnb := fdiv (f64_of_Z (bt_value txn)) f1e18;
gas_price_gwei := f0; gas_limit := 0; nonce := 0; source_seen := "confirmed";
calldata := bt_input txn; decoded := None; token := Some tok; side := Some sd;
confirmed_block := Some block_number; visibility := vis |}.

Record Sinks : Type := { trader_tx : sink; private_tx : sink; live_tx : sink }.

(** The ["KOL tx CONFIRMED"] record of a transaction. *)
Record Confirmation : Type := {
c_kol_name : string;
c_hash : B256;
c_side : string;
c_visibility : string;
c_block_delta : option Z;
c_slot_remaining_ms : Z;
}.

Record state : Type := {
pending : ConfirmRegistry;
sinks : Sinks;
log : list Confirmation;
}.

(** The body of [process_block]'s loop. *)
Definition process_tx (index : KolIndex) (block_number : Z) (s : state) (txn : BlockTx) : state :=
let hash := bt_hash txn in
let k := sinks s in
match pending s !! hash with
| Some m =>
let entry := {|
c_kol_name := m_kol_name m; c_hash := hash; c_side := unwrap_or (m_side m) "?";
c_visibility := "public";
c_block_delta := (λ sb,
as_signed 64 (as_signed 64 block_number - as_signed 64 sb)) <$> m_seen_block m;
c_slot_remaining_ms := sat_signed 64 (450 - m_ms_into_block m) |} in
{| pending := delete hash (pending s);
sinks :=
match m_side m, m_token m with
| Some sd, Some tok =>
 if String.eqb sd "SELL" then
   let hit := confirmed_hit (m_kol_name m) txn "SELL" tok block_number "public" in
   {| trader_tx := offer (trader_tx k) hit;
      private_tx := offer (private_tx k) hit;
      live_tx := offer (live_tx k) hit |}
 else k
| _, _ => k
end;
log := log s ++ [entry] |}
| None =>
match lookup index (bt_signer txn) with
| None => s
| Some kol =>
let g := Gmgn.decode (bt_input txn) (bt_value txn) in
let entry := {|
c_kol_name := name kol; c_hash := hash;
c_side := match g with Some g => Gmgn.as_str (Gmgn.side g) | None => "?" end;
c_visibility := "private"; c_block_delta := None; c_slot_remaining_ms := 0 |} in
{| pending := pending s;
sinks :=
 match g with
 | None => k
 | Some g =>
     let hit := confirmed_hit (name kol) txn (Gmgn.as_str (Gmgn.side g))
                  (Gmgn.token g) block_number "private" in
     match Gmgn.side g with
     | Gmgn.Sell =>
         {| trader_tx := offer (trader_tx k) hit;
            private_tx := offer (private_tx k) hit;
            live_tx := offer (live_tx k) hit |}
     | Gmgn.Buy =>
         {| trader_tx := trader_tx k;
            private_tx := offer (private_tx k) hit;
            live_tx := offer (live_tx k) hit |}
     end
 end;
log := log s ++ [entry] |}
end
end.

(** [process_block]: [block] is the fetched block, if the fetch gave one. *)
Definition process_block (index : KolIndex) (block_number : Z) (block : option (list BlockTx))
(s : state) : state :=
match block with
| Some txns => foldl (process_tx index block_number) s txns
| None => s
end.
End Confirm.

(** ** The consumer of kol_watch.rs: register, then dispatch *)

Module Dispatch.
Import Watch Confirm.

Record WatchSinks : Type := {
w_telegram : sink;
w_trader : sink;
w_live : sink;
w_confirm : option ConfirmRegistry;
}.

Definition fire_hit (hit : KolHit) (s : WatchSinks) : WatchSinks :=
{| w_telegram := offer (w_telegram s) hit; w_trader := offer (w_trader s) hit;
w_live := offer (w_live s) hit; w_confirm := w_confirm s |}.

Section Tx.
Context {TxEnvelope : Type} (view : TxEnvelope → TxView).

Definition process_one (index : KolIndex) (now : Z) (p : PendingTx TxEnvelope)
(s : WatchSinks) : WatchSinks :=
match lookup index (p_from p) with
| None => s
| Some k =>
let hit := from_pending view k p in
let confirm :=
match w_confirm s, side hit with
| Some reg, Some sd =>
Some (register reg (p_hash p) {|
m_kol_name := kol_name hit; m_side := Some sd; m_token := token hit;
m_first_seen_ns := first_seen_ns p; m_registered_ns := now;
m_seen_block := bc_block_number <$> block_context p;
m_ms_into_block := unwrap_or (ms_into_block <$> block_context p) 0 |})
| c, _ => c
end in
fire_hit hit {| w_telegram := w_telegram s; w_trader := w_trader s;
w_live := w_live s; w_confirm := confirm |}
end.
End Tx.
End Dispatch.

(** ** Lemmas: one transaction, then a block *)

Section Block.
Import Watch Confirm.
Context (index : KolIndex) (bn : Z).

(** The transaction sells [tok] for a watched wallet: it is registered as a
pending SELL, or it is unregistered and the calldata says so. *)
Definition kol_sell (s : state) (txn : BlockTx) (hit : KolHit) : Prop :=
(∃ m tok, pending s !! bt_hash txn = Some m ∧ m_side m = Some "SELL"%string ∧
m_token m = Some tok ∧ hit = confirmed_hit (m_kol_name m) txn "SELL" tok bn "public") ∨
(∃ k g, pending s !! bt_hash txn = None ∧ lookup index (bt_signer txn) = Some k ∧
Gmgn.decode (bt_input txn) (bt_value txn) = Some g ∧ Gmgn.side g = Gmgn.Sell ∧
hit = confirmed_hit (name k) txn "SELL" (Gmgn.token g) bn "private").

Definition all_sinks (P : sink → Prop) (k : Sinks) : Prop :=
P (trader_tx k) ∧ P (private_tx k) ∧ P (live_tx k).

Lemma has_room_weaken n s : has_room (S n) s → has_room n s.
Proof. destruct s; cbn; [|done]. intros [? ?]. split; [done|lia]. Qed.

Lemma process_tx_pending s txn h :
h ≠ bt_hash txn → pending (process_tx index bn s txn) !! h = pending s !! h.
Proof.
intros Hne. unfold process_tx. case_scrut; cbn; [by apply lookup_delete_ne|].
case_scrut; done.
Qed.

(** Each sink gets at most one hit from a transaction, at the end. *)
Lemma process_tx_grows s txn n :
all_sinks (has_room (S n)) (sinks s) →
all_sinks (has_room n) (sinks (process_tx index bn s txn)) ∧
(∀ h, all_sinks (λ k, h ∈ received k) (sinks s) →
all_sinks (λ k, h ∈ received k) (sinks (process_tx index bn s txn))).
Proof.
intros (H1 & H2 & H3).
assert (∀ k h, has_room (S n) k → has_room n (offer k h) ∧
∀ x, x ∈ received k → x ∈ received (offer k h)) as Ho.
{ intros k h Hk. destruct (offer_room n k h Hk) as [-> ?]. set_solver. }
pose proof (has_room_weaken n) as Hw. unfold all_sinks, process_tx.
repeat (case_scrut; cbn); split_and!; try (intros ? (?&?&?); split_and!); auto;
eapply Ho; eauto.
Qed.

Lemma process_tx_sell s txn hit n :
all_sinks (has_room (S n)) (sinks s) → kol_sell s txn hit →
all_sinks (λ k, hit ∈ received k) (sinks (process_tx index bn s txn)).
Proof.
intros (H1 & H2 & H3) Hs.
assert (∀ k, has_room (S n) k → hit ∈ received (offer k hit)) as Ho.
{ intros k Hk. destruct (offer_room n k hit Hk) as [-> ?]. set_solver. }
unfold all_sinks, process_tx.
destruct Hs as [(m & tok & -> & -> & -> & ->)|(k & g & -> & -> & -> & Hg & ->)]; cbn.
- split_and!; by apply Ho.
- rewrite Hg. cbn. split_and!; by apply Ho.
Qed.

Lemma process_block_keeps txns s hit :
all_sinks (has_room (length txns)) (sinks s) →
all_sinks (λ k, hit ∈ received k) (sinks s) →
all_sinks (λ k, hit ∈ received k) (sinks (process_block index bn (Some txns) s)).
Proof.
revert s. induction txns as [|t txns IH]; intros s Hr Hh; [done|].
destruct (process_tx_grows s t (length txns) Hr) as [Hr' Hg].
apply (IH (process_tx index bn s t)); auto.
Qed.

Lemma process_block_sell txns s txn hit :
NoDup (bt_hash <$> txns) → txn ∈ txns → kol_sell s txn hit →
all_sinks (has_room (length txns)) (sinks s) →
all_sinks (λ k, hit ∈ received k) (sinks (process_block index bn (Some txns) s)).
Proof.
revert s. induction txns as [|t txns IH]; intros s Hnd Hin Hs Hr;
[by apply not_elem_of_nil in Hin|].
apply NoDup_cons in Hnd as [Hni Hnd].
destruct (process_tx_grows s t (length txns) Hr) as [Hr' _].
apply elem_of_cons in Hin as [<-|Hin].
- apply (process_block_keeps txns (process_tx index bn s txn)); [done|].
by eapply process_tx_sell.
- apply (IH (process_tx index bn s t)); try done.
assert (bt_hash txn ≠ bt_hash t).
{ intros Heq. apply Hni. rewrite <- Heq. by apply list_elem_of_fmap_2. }
unfold kol_sell in *. by rewrite process_tx_pending.
Qed.

(** Which hits can reach which sink. *)
Lemma process_tx_routes s txn h :
(h ∈ received (trader_tx (sinks (process_tx index bn s txn))) →
h ∈ received (trader_tx (sinks s)) ∨ side h = Some "SELL"%string) ∧
(h ∈ received (live_tx (sinks (process_tx index bn s txn))) →
h ∈ received (live_tx (sinks s)) ∨ side h = Some "SELL"%string ∨
visibility h = "private"%string).
Proof.
unfold process_tx. repeat (case_scrut; cbn); split; auto;
intros [?| ->]%received_offer; cbn; auto.
Qed.
End Block.

(** *** The registry over a history *)

Section History.
Import Watch Confirm.

(** Registrations, transactions of blocks, in any interleaving of the block
tasks, and sweeps. *)
Inductive event : Type :=
| Register (h : B256) (m : PendingMeta)
| BlockTxn (block_number : Z) (txn : BlockTx)
| Sweep (now : Z).

Definition step (index : KolIndex) (s : state) (e : event) : state :=
match e with
| Register h m => {| pending := register (pending s) h m; sinks := sinks s; log := log s |}
| BlockTxn bn txn => process_tx index bn s txn
| Sweep now =>
{| pending := fst (sweep_expired now (pending s)); sinks := sinks s; log := log s |}
end.

Definition run (index : KolIndex) (s : state) (es : list event) : state :=
foldl (step index) s es.

Definition public_of (h : B256) (c : Confirmation) : bool :=
String.eqb (c_visibility c) "public" && (c_hash c =? h).
Definition registers (h : B256) (e : event) : bool :=
match e with Register h' _ => h' =? h | _ => false end.

Definition count {A : Type} (f : A → bool) (l : list A) : nat := length (List.filter f l).

Lemma count_app {A} (f : A → bool) l1 l2 : count f (l1 ++ l2) = (count f l1 + count f l2)%nat.
Proof. unfold count. by rewrite List.filter_app, length_app. Qed.

Lemma count_one {A} (f : A → bool) x : count f [x] = if f x then 1%nat else 0%nat.
Proof. unfold count. cbn. by destruct (f x). Qed.

#[local] Arguments count : simpl never.

(** 1 when the hash is waiting. *)
Definition waiting (h : B256) (s : state) : nat :=
match pending s !! h with Some _ => 1 | None => 0 end.

Lemma step_budget index s e h :
(count (public_of h) (log (step index s e)) + waiting h (step index s e) ≤
count (public_of h) (log s) + waiting h s + count (registers h) [e])%nat.
Proof.
rewrite count_one. destruct e as [h' m|bn txn|now]; unfold waiting; cbn.
- unfold register. destruct (Z.eqb_spec h' h) as [->|Hne]; cbn.
+ rewrite lookup_insert_eq. destruct (pending s !! h); lia.
+ rewrite lookup_insert_ne by done. lia.
- unfold process_tx. destruct (pending s !! bt_hash txn) eqn:E; cbn.
+ rewrite count_app, count_one. unfold public_of at 2. cbn.
destruct (Z.eqb_spec (bt_hash txn) h) as [<-|Hne].
* rewrite lookup_delete_eq, E. lia.
* rewrite lookup_delete_ne by done. lia.
+ destruct (lookup index (bt_signer txn)); cbn; [|lia].
rewrite count_app, count_one. cbn. lia.
- destruct (filter _ (pending s) !! h) eqn:E; [|lia].
apply map_lookup_filter_Some in E as [-> _]. lia.
Qed.

Lemma run_budget index es s h :
(count (public_of h) (log (run index s es)) + waiting h (run index s es) ≤
count (public_of h) (log s) + waiting h s + count (registers h) es)%nat.
Proof.
revert s. induction es as [|e es IH]; intros s;
[change (run index s []) with s; change (count (registers h) []) with 0%nat; lia|].
change (run index s (e :: es)) with (run index (step index s e) es).
specialize (IH (step index s e)). pose proof (step_budget index s e h).
change (e :: es) with ([e] ++ es). rewrite count_app. lia.
Qed.
End History.

(** ** Properties *)

(** What the GMGN decoder extracts.  A call decodes exactly when it has
    the router's selector and some whole 32-byte word of the body holds a
    number in [2^128, 2^160) other than WBNB and the router; the token is the
    first such word, and the side is BUY exactly when value is attached. *)
Theorem gmgn_decode_first_token input value t sd :
  Gmgn.decode input value = Some {| Gmgn.token := t; Gmgn.side := sd |} ↔
  take 4 input = Gmgn.GMGN_SELECTOR ∧
  sd = (if 0 <? value then Gmgn.Buy else Gmgn.Sell) ∧
  ∃ pre w post, chunks_exact32 (drop 4 input) = pre ++ w :: post ∧
    Forall (λ v, ¬ Gmgn.token_like v) pre ∧ Gmgn.token_like w ∧ t = from_be w.
Proof.
  assert (Forall (λ w, length w = 32%nat) (chunks_exact32 (drop 4 input))) as Hl.
  { apply Forall_forall. apply chunks_exact32_length. }
  unfold Gmgn.decode, Gmgn.is_gmgn.
  destruct (Nat.leb_spec 4 (length input)) as [H4|H4]; cbn [andb negb].
  - case_bool_decide as Hsel; cbn [negb]; [|naive_solver].
    rewrite <- (Gmgn.first_token_spec _ t Hl).
    destruct (Gmgn.first_token _) as [a|]; naive_solver.
  - split; [done|]. intros [Hsel _]. apply (f_equal length) in Hsel.
    rewrite length_take in Hsel. change (length Gmgn.GMGN_SELECTOR) with 4%nat in Hsel. lia.
Qed.

(** [C38] Every KOL sell reaches every book.  In a block of transactions with
    distinct hashes, each transaction that sells a token for a watched wallet
    -- registered while pending, or private -- is delivered, with its mined
    block, to the public paper, the private paper and the live trader, when
    the channels have room for the block. *)
Theorem kol_sell_reaches_every_sink index bn s txns txn hit :
  NoDup (Confirm.bt_hash <$> txns) → txn ∈ txns → kol_sell index bn s txn hit →
  all_sinks (Watch.has_room (length txns)) (Confirm.sinks s) →
  all_sinks (λ k, hit ∈ Watch.received k)
    (Confirm.sinks (Confirm.process_block index bn (Some txns) s)) ∧
  Watch.side hit = Some "SELL"%string ∧ Watch.confirmed_block hit = Some bn.
Proof.
  intros Hnd Hin Hs Hr. split; [by eapply process_block_sell|].
  by destruct Hs as [(m & tok & _ & _ & _ & ->)|(k & g & _ & _ & _ & _ & ->)].
Qed.

(** A confirmed buy never enters by the wrong channel.  Whatever the
    block, the public paper trader gets only SELLs from the confirm watcher,
    and the live trader only SELLs and private trades. *)
Theorem confirmed_buys_stay_out index bn block s h :
  (h ∈ Watch.received (Confirm.trader_tx (Confirm.sinks (Confirm.process_block index bn block s))) →
     h ∈ Watch.received (Confirm.trader_tx (Confirm.sinks s)) ∨ Watch.side h = Some "SELL"%string) ∧
  (h ∈ Watch.received (Confirm.live_tx (Confirm.sinks (Confirm.process_block index bn block s))) →
     h ∈ Watch.received (Confirm.live_tx (Confirm.sinks s)) ∨ Watch.side h = Some "SELL"%string ∨
     Watch.visibility h = "private"%string).
Proof.
  destruct block as [txns|]; cbn; [|auto]. revert s.
  induction txns as [|t txns IH]; intros s; cbn; [auto|].
  destruct (IH (Confirm.process_tx index bn s t)) as [I1 I2].
  destruct (process_tx_routes index bn s t h) as [R1 R2].
  split; intros Hh; [destruct (I1 Hh)|destruct (I2 Hh)]; auto.
Qed.

(** A registration confirms at most once.  Over any interleaving of
    registrations, block scans and sweeps from an empty registry, a hash is
    reported as publicly confirmed no more often than it was registered. *)
Theorem public_confirmations_bounded index k es h :
  (count (public_of h)
     (Confirm.log (run index {| Confirm.pending := ∅; Confirm.sinks := k; Confirm.log := [] |} es))
   ≤ count (registers h) es)%nat.
Proof.
  set (s0 := {| Confirm.pending := ∅; Confirm.sinks := k; Confirm.log := [] |}).
  pose proof (run_budget index es s0 h).
  assert (waiting h s0 = 0%nat) by reflexivity.
  assert (count (public_of h) (Confirm.log s0) = 0%nat) by reflexivity. lia.
Qed.

(** Non-trades are reported as private.  A watched wallet's transaction
    that was seen pending but does not decode as a trade is not registered, so
    when its block arrives it is logged as private, as if never seen. *)
Theorem pending_non_trade_logged_private {TxEnvelope} (view : TxEnvelope → Watch.TxView)
    index now p ws reg k bn kk :
  Watch.lookup index (p_from p) = Some k →
  Gmgn.decode (Watch.v_input (view (p_tx p))) (Watch.v_value (view (p_tx p))) = None →
  Dispatch.w_confirm ws = Some reg → reg !! p_hash p = None →
  let ws' := Dispatch.process_one view index now p ws in
  let txn := {| Confirm.bt_hash := p_hash p; Confirm.bt_signer := p_from p;
                Confirm.bt_value := Watch.v_value (view (p_tx p));
                Confirm.bt_input := Watch.v_input (view (p_tx p)) |} in
  Dispatch.w_confirm ws' = Some reg ∧
  Confirm.c_visibility <$> Confirm.log (Confirm.process_tx index bn
    {| Confirm.pending := reg; Confirm.sinks := kk; Confirm.log := [] |} txn) = ["private"%string].
Proof.
  unfold Watch.lookup. intros Hk Hd Hc Hn.
  unfold Dispatch.process_one, Watch.from_pending, Watch.lookup. rewrite Hk, Hd, Hc. cbn.
  split; [done|]. unfold Confirm.process_tx, Watch.lookup. cbn. by rewrite Hn, Hk, Hd.
Qed.

(** A public sell is delivered twice to the live trader: once from the
    pending transaction, without a block, and once more when it confirms. *)
Theorem public_sell_delivered_twice {TxEnvelope} (view : TxEnvelope → Watch.TxView)
    index now p ws reg k bn pt g :
  Watch.lookup index (p_from p) = Some k →
  Gmgn.decode (Watch.v_input (view (p_tx p))) (Watch.v_value (view (p_tx p))) = Some g →
  Gmgn.side g = Gmgn.Sell →
  Dispatch.w_confirm ws = Some reg → Watch.has_room 2 (Dispatch.w_live ws) →
  let ws' := Dispatch.process_one view index now p ws in
  let txn := {| Confirm.bt_hash := p_hash p; Confirm.bt_signer := p_from p;
                Confirm.bt_value := Watch.v_value (view (p_tx p));
                Confirm.bt_input := Watch.v_input (view (p_tx p)) |} in
  let s := {| Confirm.pending := unwrap_or (Dispatch.w_confirm ws') ∅;
              Confirm.sinks := {| Confirm.trader_tx := Dispatch.w_trader ws'; Confirm.private_tx := pt;
                                  Confirm.live_tx := Dispatch.w_live ws' |};
              Confirm.log := [] |} in
  ∃ h1 h2,
    Watch.received (Confirm.live_tx (Confirm.sinks (Confirm.process_tx index bn s txn))) =
      Watch.received (Dispatch.w_live ws) ++ [h1; h2] ∧
    Watch.tx_hash h1 = Watch.tx_hash h2 ∧ Watch.token h1 = Watch.token h2 ∧
    Watch.side h1 = Some "SELL"%string ∧ Watch.side h2 = Some "SELL"%string ∧
    Watch.confirmed_block h1 = None ∧ Watch.confirmed_block h2 = Some bn.
Proof.
  intros Hk Hd Hg Hc Hroom.
  assert (∃ h1, h1 = Watch.from_pending view k p ∧ Watch.side h1 = Some "SELL"%string ∧
    Watch.token h1 = Some (Gmgn.token g) ∧ Watch.confirmed_block h1 = None ∧
    Watch.tx_hash h1 = format_hex 32 (p_hash p)) as (h1 & Eh & Hs1 & Ht1 & Hb1 & Hx1).
  { eexists. split; [reflexivity|]. unfold Watch.from_pending. cbn. rewrite Hd. cbn. by rewrite Hg. }
  destruct (Watch.offer_room 1 (Dispatch.w_live ws) h1 Hroom) as [Hr1 Hroom1].
  unfold Dispatch.process_one. rewrite Hk, <- Eh, Hc, Hs1. cbn [unwrap_or Dispatch.fire_hit
    Dispatch.w_confirm Dispatch.w_live Dispatch.w_trader Dispatch.w_telegram].
  unfold Confirm.process_tx, Confirm.register. cbn. rewrite lookup_insert_eq. cbn. rewrite Ht1. cbn.
  set (h2 := Confirm.confirmed_hit _ _ _ _ _ _).
  destruct (Watch.offer_room 0 _ h2 Hroom1) as [Hr2 _].
  exists h1, h2. rewrite Hr2, Hr1, <- app_assoc. done.
Qed.

(** ** Witnesses *)

Module Example.
Definition meme : Address := 0xa0431c1800000000000000000000000000000001.
Definition wallet : Address := 0x77.
Definition index : gmap Address Watch.Kol :=
{[ wallet := {| Watch.address := wallet; Watch.name := "D"; Watch.emoji := None;
    Watch.groups := [] |} ]}.
Definition sell_input : bytes := Gmgn.GMGN_SELECTOR ++ word 64 ++ address_word meme.
Definition open_sink : Watch.sink :=
Some {| chan_cap := 8; chan_items := []; chan_closed := false |}.
Definition sinks : Confirm.Sinks :=
{| Confirm.trader_tx := open_sink; Confirm.private_tx := open_sink;
Confirm.live_tx := open_sink |}.
Definition state0 : Confirm.state :=
{| Confirm.pending := ∅; Confirm.sinks := sinks; Confirm.log := [] |}.
Definition sell_tx : Confirm.BlockTx :=
{| Confirm.bt_hash := 5; Confirm.bt_signer := wallet; Confirm.bt_value := 0;
Confirm.bt_input := sell_input |}.
Definition pending_tx (input : bytes) : PendingTx Watch.TxView :=
{| p_hash := 5; p_from := wallet;
p_tx := {| Watch.v_input := input; Watch.v_to := Some Gmgn.GMGN_ROUTER; Watch.v_value := 0;
  Watch.v_gas_price := Some (10 ^ 9); Watch.v_max_fee_per_gas := 0;
  Watch.v_gas_limit := 21000; Watch.v_nonce := 1 |};
first_seen_ns := 7; source_seen := [(10, 7)]; p_raw := None; block_context := None |}.
Definition watch_sinks : Dispatch.WatchSinks :=
{| Dispatch.w_telegram := None; Dispatch.w_trader := open_sink;
Dispatch.w_live := open_sink; Dispatch.w_confirm := Some ∅ |}.
End Example.

Lemma kol_sell_reaches_every_sink_witness :
  let hit := Confirm.confirmed_hit "D" Example.sell_tx "SELL" Example.meme 100 "private" in
  all_sinks (λ k, hit ∈ Watch.received k)
    (Confirm.sinks (Confirm.process_block Example.index 100 (Some [Example.sell_tx]) Example.state0)).
Proof.
  intros hit.
  apply (kol_sell_reaches_every_sink Example.index 100 Example.state0 [Example.sell_tx]
    Example.sell_tx hit).
  - apply NoDup_singleton.
  - apply list_elem_of_here.
  - right. eexists _, _. split_and!; vm_compute; reflexivity.
  - split_and!; (split; [reflexivity|cbn; lia]).
Defined.

Lemma confirmed_buys_stay_out_witness :
  let hit := Confirm.confirmed_hit "D" Example.sell_tx "SELL" Example.meme 100 "private" in
  hit ∈ Watch.received (Confirm.trader_tx Example.sinks) ∨ Watch.side hit = Some "SELL"%string.
Proof.
  intros hit.
  apply (confirmed_buys_stay_out Example.index 100 (Some [Example.sell_tx]) Example.state0 hit).
  vm_compute. apply list_elem_of_here.
Defined.

Lemma pending_non_trade_logged_private_witness :
  Dispatch.w_confirm (Dispatch.process_one id Example.index 9 (Example.pending_tx [])
    Example.watch_sinks) = Some ∅.
Proof.
  apply (pending_non_trade_logged_private id Example.index 9 (Example.pending_tx [])
    Example.watch_sinks ∅
    {| Watch.address := Example.wallet; Watch.name := "D"; Watch.emoji := None; Watch.groups := [] |}
    100 Example.sinks); reflexivity.
Defined.

Lemma public_sell_delivered_twice_witness :
  let ws' := Dispatch.process_one id Example.index 9 (Example.pending_tx Example.sell_input)
    Example.watch_sinks in
  length (Watch.received (Dispatch.w_live ws')) = 1%nat ∧
  ∃ h1 h2 : Watch.KolHit, Watch.confirmed_block h1 = None ∧ Watch.confirmed_block h2 = Some 100.
Proof.
  intros ws'. split; [vm_compute; reflexivity|].
  destruct (public_sell_delivered_twice id Example.index 9 (Example.pending_tx Example.sell_input)
    Example.watch_sinks ∅
    {| Watch.address := Example.wallet; Watch.name := "D"; Watch.emoji := None; Watch.groups := [] |}
    100 None {| Gmgn.token := Example.meme; Gmgn.side := Gmgn.Sell |})
    as (h1 & h2 & _ & _ & _ & _ & _ & H1 & H2).
  - reflexivity.
  - vm_compute. reflexivity.
  - reflexivity.
  - reflexivity.
  - split; [reflexivity|cbn; lia].
  - eauto.
Defined.
