(* ===== verification/Strategy.v ===== *)
(** * trader/strategy.rs: what to do about a KOL hit

    [evaluate] maps a hit to a decision, [scale_size] sizes our trade from the
    KOL's, [extract_target_token] reads the last hop of a PancakeSwap V2 buy.
    alloy's text parsers of hashes and addresses are parameters. *)

From Stdlib Require Import ZArith Lia Floats.SpecFloat Strings.Byte Ascii String.
From S2P Require Import Prelude F64 Bytes Types Dex Bus Kol.
Import Kol.Watch.

Record StrategyConfig : Type := {
  kol_filter : list string;
  min_buy_usd : f64;
  min_buy_bnb : f64;
  size_fraction : f64;
}.

(** [StrategyConfig::default]. *)
Definition default_strategy : StrategyConfig :=
  {| kol_filter := ["D"%string]; min_buy_usd := f64_of_Z 400; min_buy_bnb := f0;
     size_fraction := f64_lit 5 100 |}.

Definition scale_size (kol_input : U256) (fraction : f64) : U256 :=
  if fle fraction f0 then 0
  else
    let permille := Z.min (f64_to_uint 128 (f64_round (fmul fraction (f64_of_Z 1000)))) 1000 in
    sat_mul 256 kol_input permille / 1000.

Section Evaluate.
(** [B256::from_str] and [Address::from_str]. *)
Context (parse_b256 : string → option B256) (parse_address : string → option Address).

Definition evaluate (cfg : StrategyConfig) (hit : KolHit) (bnb_usd : f64) : Decision :=
if negb (bool_decide (kol_filter cfg = [])) &&
negb (existsb (λ k, String.eqb k (Watch.kol_name hit)) (kol_filter cfg))
then Skip NotKolHit
else
match parse_b256 (tx_hash hit) with
| None => Skip UnknownToken
| Some hash =>
match token hit with
| None => Skip NotASwap
| Some tok =>
match side hit with
| None => Skip UnsupportedSide
| Some sd =>
if String.eqb sd "SELL" then
Exit (Watch.kol_name hit) tok (unwrap_or (confirmed_block hit) 0) hash
(unwrap_or (parse_address (from_addr hit)) 0)
else if String.eqb sd "BUY" then
if fle (value_bnb hit) f0 then Skip UnsupportedSide
else if fgt (min_buy_bnb cfg) f0 && flt (value_bnb hit) (min_buy_bnb cfg) then
Skip BelowBuyThreshold
else if fgt (min_buy_usd cfg) f0 &&
flt (fmul (value_bnb hit) bnb_usd) (min_buy_usd cfg) then
Skip BelowBuyThreshold
else
let kol_bnb := f64_to_uint 128 (fmul (value_bnb hit) f1e18) in
Enter (Watch.kol_name hit) tok (scale_size kol_bnb (size_fraction cfg)) kol_bnb 0 hash
else Skip UnsupportedSide
end end end.

(** The KOL scope. *)
Definition in_scope (cfg : StrategyConfig) (hit : KolHit) : Prop :=
kol_filter cfg = [] ∨ Watch.kol_name hit ∈ kol_filter cfg.

Lemma scope_spec cfg hit :
negb (bool_decide (kol_filter cfg = [])) &&
negb (existsb (λ k, String.eqb k (Watch.kol_name hit)) (kol_filter cfg)) = false ↔
in_scope cfg hit.
Proof.
unfold in_scope. rewrite andb_false_iff, !negb_false_iff, bool_decide_eq_true, existsb_exists.
split; (intros [?|H]; [by left|right]).
- destruct H as (x & Hx & ->%String.eqb_eq). by apply list_elem_of_In.
- exists (Watch.kol_name hit). by rewrite String.eqb_eq, <- list_elem_of_In.
Qed.
End Evaluate.

Lemma scale_size_bounds a f : in_width 256 a → 0 ≤ scale_size a f ≤ a.
Proof.
  intros Ha. unfold scale_size. case_scrut; [width|]. cbv zeta.
  pose proof (f64_to_uint_width 128 (f64_round (fmul f (f64_of_Z 1000))) ltac:(lia)) as Hw.
  set (p := Z.min _ 1000). assert (0 ≤ p ≤ 1000) by (unfold in_width in *; lia).
  assert (0 ≤ sat_mul 256 a p ≤ 1000 * a) by (unfold sat_mul, umax, in_width in *; nia).
  split; [apply Z.div_pos; lia|apply Z.div_le_upper_bound; lia].
Qed.

(** ** Calldata path extraction *)

Definition buy_selectors : list bytes := [
  [Byte.x7f; Byte.xf3; Byte.x6a; Byte.xb5];
  [Byte.xfb; Byte.x3b; Byte.xdb; Byte.x41];
  [Byte.xb6; Byte.xf9; Byte.xde; Byte.x95] ].

(** The outer [option] is [None] where a slice is out of range. *)
Definition extract_target_token (calldata : bytes) : option (option Address) :=
  if (length calldata <? 4 + 32 * 5 + 32)%nat then Some None
  else
  selector ← slice 0 4 calldata;
  if negb (bool_decide (selector ∈ buy_selectors)) then Some None
  else
  len_word ← slice 132 164 calldata;
  let path_len := from_be len_word in
  if (path_len <? 2) || (8 <? path_len) then Some None
  else
  let n := Z.to_nat path_len in
  let start := (164 + 32 * (n - 1))%nat in
  if (length calldata <? start + 32)%nat then Some None
  else
  w ← slice start (start + 32) calldata;
  buf ← slice 12 32 w;
  let addr := from_be buf in
  if addr =? WBNB then Some None else Some (Some addr).

(** The ABI encoding of such a call: four head words, then the path. *)
Definition encode_buy (selector : bytes) (amount_out_min offset deadline : U256)
    (to : Address) (path : list Address) (rest : bytes) : bytes :=
  selector ++ (word amount_out_min ++ word offset ++ address_word to ++ word deadline) ++
  word (Z.of_nat (length path)) ++ (path ≫= address_word) ++ rest.

Lemma slice_total lo hi bs :
  (lo ≤ hi)%nat → (hi ≤ length bs)%nat → ∃ s, slice lo hi bs = Some s ∧ length s = (hi - lo)%nat.
Proof.
  intros H1 H2. assert (is_Some (slice lo hi bs)) as [s Hs].
  { unfold slice. rewrite decide_True by lia. eauto. }
  exists s. split; [done|]. by apply slice_length in Hs.
Qed.

Lemma encode_buy_split selector a o d to path rest pre last post :
  path = pre ++ last :: post →
  encode_buy selector a o d to path rest =
    (selector ++ (word a ++ word o ++ address_word to ++ word d) ++
     word (Z.of_nat (length path)) ++ (pre ≫= address_word)) ++
    address_word last ++ (post ≫= address_word) ++ rest.
Proof.
  intros ->. unfold encode_buy. rewrite bind_app. cbn [mbind list_bind].
  by rewrite <- !app_assoc.
Qed.

Lemma path_bytes path : length (path ≫= address_word) = (length path * 32)%nat.
Proof. apply length_bind_const. intros. apply length_address_word. Qed.

Lemma word_address_slice w a :
  w = address_word a → in_width 160 a → slice 12 32 w = Some (to_be 20 a).
Proof.
  intros -> _. unfold address_word.
  pose proof (slice_app (replicate 12 Byte.x00) (to_be 20 a) [] 12 32) as H.
  rewrite app_nil_r in H. apply H; [done|apply length_to_be|lia].
Qed.

(** The entry case, spelled out. *)
Lemma evaluate_enter_spec parse_b256 parse_address cfg hit bnb_usd n tok ours kols blk h :
  evaluate parse_b256 parse_address cfg hit bnb_usd = Enter n tok ours kols blk h ↔
  (in_scope cfg hit ∧ parse_b256 (tx_hash hit) = Some h ∧ token hit = Some tok ∧
   side hit = Some "BUY"%string ∧ fle (value_bnb hit) f0 = false ∧
   (fgt (min_buy_bnb cfg) f0 = true → flt (value_bnb hit) (min_buy_bnb cfg) = false) ∧
   (fgt (min_buy_usd cfg) f0 = true →
      flt (fmul (value_bnb hit) bnb_usd) (min_buy_usd cfg) = false)) ∧
  n = Watch.kol_name hit ∧ kols = f64_to_uint 128 (fmul (value_bnb hit) f1e18) ∧
  ours = scale_size kols (size_fraction cfg) ∧ 0 ≤ ours ≤ kols ∧ blk = 0.
Proof.
  assert (0 ≤ scale_size (f64_to_uint 128 (fmul (value_bnb hit) f1e18)) (size_fraction cfg) ≤
    f64_to_uint 128 (fmul (value_bnb hit) f1e18)) as Hs.
  { apply scale_size_bounds.
    pose proof (f64_to_uint_width 128 (fmul (value_bnb hit) f1e18)). width. }
  unfold evaluate. rewrite <- scope_spec.
  destruct (negb _ && negb _); [intuition discriminate|].
  destruct (parse_b256 (tx_hash hit)) as [h'|]; [|intuition discriminate].
  destruct (token hit) as [t|]; [|intuition discriminate].
  destruct (side hit) as [sd|]; [|intuition discriminate].
  destruct (String.eqb_spec sd "SELL") as [->|Hs1]; [intuition discriminate|].
  destruct (String.eqb_spec sd "BUY") as [->|Hs2]; [|solve [intuition congruence]].
  destruct (fle (value_bnb hit) f0); [intuition discriminate|].
  destruct (fgt (min_buy_bnb cfg) f0), (flt (value_bnb hit) (min_buy_bnb cfg)); cbn [andb];
    try solve [intuition discriminate];
  destruct (fgt (min_buy_usd cfg) f0), (flt (fmul (value_bnb hit) bnb_usd) (min_buy_usd cfg));
    cbn [andb]; try solve [intuition discriminate];
  (split; [intros [= <- <- <- <- <- <-]|]; intuition (subst; try done; congruence)).
Qed.

(** ** Properties *)

(** When the strategy enters.  [evaluate] decides to buy exactly when the
    KOL is in scope, the hash parses, the hit carries a token and the side BUY,
    value is attached, and the BNB and USD gates that are configured pass; the
    decision then carries the hit's token and the sizes in wei, and our size
    never exceeds the KOL's. *)
Theorem evaluate_enters_iff parse_b256 parse_address cfg hit bnb_usd n tok ours kols blk h :
  evaluate parse_b256 parse_address cfg hit bnb_usd = Enter n tok ours kols blk h ↔
  (in_scope cfg hit ∧ parse_b256 (tx_hash hit) = Some h ∧ token hit = Some tok ∧
   side hit = Some "BUY"%string ∧ fle (value_bnb hit) f0 = false ∧
   (fgt (min_buy_bnb cfg) f0 = true → flt (value_bnb hit) (min_buy_bnb cfg) = false) ∧
   (fgt (min_buy_usd cfg) f0 = true →
      flt (fmul (value_bnb hit) bnb_usd) (min_buy_usd cfg) = false)) ∧
  n = Watch.kol_name hit ∧ kols = f64_to_uint 128 (fmul (value_bnb hit) f1e18) ∧
  ours = scale_size kols (size_fraction cfg) ∧ 0 ≤ ours ≤ kols ∧ blk = 0.
Proof. apply evaluate_enter_spec. Qed.

(** The USD gate fails closed.  With a USD minimum configured and no
    price (the consumer then passes 0), no hit of a finite value is entered. *)
Theorem evaluate_fails_closed parse_b256 parse_address cfg hit :
  is_finite (value_bnb hit) = true → fgt (min_buy_usd cfg) f0 = true →
  ∀ n tok ours kols blk h,
    evaluate parse_b256 parse_address cfg hit f0 ≠ Enter n tok ours kols blk h.
Proof.
  intros Hf Hm n tok ours kols blk h He.
  apply evaluate_enter_spec in He as [(_&_&_&_&_&_&Hg) _]. specialize (Hg Hm).
  assert (∃ z, fmul (value_bnb hit) f0 = S754_zero z) as [z Hz].
  { destruct (value_bnb hit); try done; cbn; eauto. }
  rewrite Hz in Hg. unfold fgt, flt in *. destruct (min_buy_usd cfg) as [|[]| |[]]; done.
Qed.

Definition example_hit (v : f64) : KolHit :=
  {| Watch.kol_name := "D"; kol_emoji := None; kol_groups := []; tx_hash := "0x05"; from_addr := "0x77";
     to_addr := None; to_label := None; method_id := ""; method_label := None; value_bnb := v;
     gas_price_gwei := f0; gas_limit := 0; nonce := 0; source_seen := ""; calldata := [];
     decoded := None; token := Some 9; side := Some "BUY"%string; confirmed_block := None;
     visibility := "public" |}.

Lemma evaluate_fails_closed_witness :
  (∃ ours kols, evaluate (λ _, Some 5) (λ _, None) default_strategy (example_hit (f64_of_Z 2))
    (f64_of_Z 600) = Enter "D" 9 ours kols 0 5) ∧
  evaluate (λ _, Some 5) (λ _, None) default_strategy (example_hit (f64_of_Z 2)) f0 ≠
    Enter "D" 9 1 1 0 5.
Proof.
  split; [eexists _, _; vm_compute; reflexivity|].
  apply evaluate_fails_closed; reflexivity.
Defined.

(** Path extraction.  On the ABI encoding of one of the three buys, with a
    path of 2 to 8 hops, any head words and any trailing bytes, the last hop
    is returned, or nothing when it is WBNB.  The decoder never reads out of
    range. *)
Theorem extract_target_token_last selector a o d to path rest last :
  selector ∈ buy_selectors → (2 ≤ length path ≤ 8)%nat →
  list.last path = Some last → in_width 160 last →
  extract_target_token (encode_buy selector a o d to path rest) =
    Some (if last =? WBNB then None else Some last).
Proof.
  intros Hsel Hlen Hlast Hw.
  apply last_Some in Hlast as [pre Hpath].
  assert (length selector = 4%nat) as Hs4.
  { repeat (apply elem_of_cons in Hsel as [->|Hsel]; [done|]). by apply not_elem_of_nil in Hsel. }
  assert (length pre = length path - 1)%nat as Hpre
    by (rewrite Hpath, length_app; cbn; lia).
  set (cd := encode_buy selector a o d to path rest).
  assert (length cd = (164 + length path * 32 + length rest)%nat) as Hcd.
  { unfold cd, encode_buy. rewrite !length_app, !length_word, length_address_word, path_bytes. lia. }
  assert (slice 0 4 cd = Some selector) as S1.
  { apply (slice_app [] selector _ 0 4); [done|lia|lia]. }
  assert (slice 132 164 cd = Some (word (Z.of_nat (length path)))) as S2.
  { unfold cd, encode_buy. rewrite app_assoc. apply slice_app; [|by rewrite length_word|lia].
    rewrite !length_app, !length_word, length_address_word. lia. }
  assert (slice (164 + 32 * (length path - 1)) (164 + 32 * (length path - 1) + 32) cd =
    Some (address_word last)) as S3.
  { unfold cd. rewrite (encode_buy_split _ _ _ _ _ path rest pre last [] Hpath).
    apply slice_app; [|rewrite length_address_word; lia|lia].
    rewrite !length_app, !length_word, length_address_word, path_bytes. lia. }
  unfold extract_target_token.
  destruct (Nat.ltb_spec (length cd) (4 + 32 * 5 + 32)); [lia|].
  rewrite S1. cbn [mbind option_bind]. rewrite bool_decide_eq_true_2 by done. cbn [negb].
  rewrite S2. cbn [mbind option_bind]. rewrite from_be_word by width.
  destruct (Z.ltb_spec (Z.of_nat (length path)) 2); [lia|].
  destruct (Z.ltb_spec 8 (Z.of_nat (length path))); [lia|]. cbn [orb].
  rewrite Nat2Z.id. destruct (Nat.ltb_spec (length cd) (164 + 32 * (length path - 1) + 32)); [lia|].
  rewrite S3. cbn [mbind option_bind].
  rewrite (word_address_slice _ last) by done. cbn [mbind option_bind].
  rewrite from_be_address by done. by case_scrut.
Qed.

Lemma extract_target_token_last_witness :
  extract_target_token (encode_buy [Byte.x7f; Byte.xf3; Byte.x6a; Byte.xb5] 1 128 99 7
    [WBNB; 0x1234] [Byte.x01]) = Some (Some 0x1234).
Proof.
  apply (extract_target_token_last _ 1 128 99 7 [WBNB; 0x1234] [Byte.x01] 0x1234).
  - apply list_elem_of_here.
  - cbn. lia.
  - reflexivity.
  - by vm_compute.
Defined.

(** The path decoder is total: on any calldata, however malformed, no
    slice is out of range. *)
Theorem extract_target_token_total calldata : is_Some (extract_target_token calldata).
Proof.
  unfold extract_target_token.
  destruct (Nat.ltb_spec (length calldata) (4 + 32 * 5 + 32)) as [|H1]; [eauto|].
  destruct (slice_total 0 4 calldata) as (sel & -> & _); [lia|lia|]. cbn [mbind option_bind].
  case_bool_decide; cbn [negb]; [|eauto].
  destruct (slice_total 132 164 calldata) as (w & -> & _); [lia|lia|]. cbn [mbind option_bind].
  case_scrut; [eauto|].
  destruct (Nat.ltb_spec (length calldata) (164 + 32 * (Z.to_nat (from_be w) - 1) + 32)); [eauto|].
  destruct (slice_total (164 + 32 * (Z.to_nat (from_be w) - 1))
    (164 + 32 * (Z.to_nat (from_be w) - 1) + 32) calldata) as (v & -> & Hv); [lia|lia|].
  cbn [mbind option_bind]. destruct (slice_total 12 32 v) as (b & -> & _); [lia|lia|].
  cbn [mbind option_bind]. case_scrut; eauto.
Qed.
