(* ===== verification/FourMeme.v ===== *)
(** * four_meme_price.rs: the bonding-curve price feed

    The decoder of the launchpad's trade events, the per-token rolling window
    of block statistics, and the subscriber's loop body that feeds the shared
    price and statistics caches.  The websocket streams are the sequence of
    events they deliver. *)

From Stdlib Require Import ZArith Lia Floats.SpecFloat Strings.Byte Ascii String.
From S2P Require Import Prelude F64 Bytes.

Definition FOURMEME_LAUNCHPAD : Address := 0x5c952063c7fc8610FFDB798152D69F0B9550762b.
Definition STATS_WINDOW : nat := 10.

Record PricePoint : Type := { pp_block : Z; price : f64 }.

Record BlockStats : Type := {
  bs_block : Z;
  buy_count : Z;
  sell_count : Z;
  buy_bnb_wei : Z;
  sell_bnb_wei : Z;
}.

Definition new_block (b : Z) : BlockStats :=
  {| bs_block := b; buy_count := 0; sell_count := 0; buy_bnb_wei := 0; sell_bnb_wei := 0 |}.

(** The window, oldest first. *)
Record TokenStats : Type := { blocks : list BlockStats }.
Definition empty_stats : TokenStats := {| blocks := [] |}.

(** One trade added to a block's entry; [+= 1] wraps in the release build. *)
Definition add_trade (is_buy : bool) (bnb_wei : Z) (s : BlockStats) : BlockStats :=
  if is_buy then
    {| bs_block := bs_block s; buy_count := wrap 32 (buy_count s + 1);
       sell_count := sell_count s; buy_bnb_wei := sat_add 128 (buy_bnb_wei s) bnb_wei;
       sell_bnb_wei := sell_bnb_wei s |}
  else
    {| bs_block := bs_block s; buy_count := buy_count s;
       sell_count := wrap 32 (sell_count s + 1); buy_bnb_wei := buy_bnb_wei s;
       sell_bnb_wei := sat_add 128 (sell_bnb_wei s) bnb_wei |}.

(** [while len > STATS_WINDOW { pop_front }]. *)
Fixpoint pop_to_window (l : list BlockStats) : list BlockStats :=
  match l with
  | [] => []
  | _ :: r => if (STATS_WINDOW <? length l)%nat then pop_to_window r else l
  end.

(** [back_mut] and the update in place. *)
Definition map_last {A : Type} (f : A → A) (l : list A) : list A :=
  match rev l with
  | [] => []
  | x :: r => rev r ++ [f x]
  end.

Definition ingest (t : TokenStats) (block : Z) (is_buy : bool) (bnb_wei : Z) : TokenStats :=
  let need_new :=
    match list.last (blocks t) with
    | Some b => negb (bs_block b =? block)
    | None => true
    end in
  let bs := if need_new then pop_to_window (blocks t ++ [new_block block]) else blocks t in
  {| blocks := map_last (add_trade is_buy bnb_wei) bs |}.

(** [iter().rev().take(n).map(f).sum()], the sum wrapping to 32 bits. *)
Definition buy_count_last (t : TokenStats) (n : nat) : Z :=
  wrap 32 (sum_by buy_count (take n (rev (blocks t)))).
Definition sell_count_last (t : TokenStats) (n : nat) : Z :=
  wrap 32 (sum_by sell_count (take n (rev (blocks t)))).
Definition net_flow_bnb_wei_last (t : TokenStats) (n : nat) : Z :=
  as_signed 128 (sum_by (λ b, as_signed 128 (buy_bnb_wei b) - as_signed 128 (sell_bnb_wei b))
    (take n (rev (blocks t)))).

(** ** The event decoder *)

Definition u256_from_be_bytes_f64 (b : bytes) : f64 :=
  foldl (λ acc byte, fadd (fmul acc (f64_of_Z 256)) (f64_of_Z (byte_val byte))) f0 b.

(** The [i]-th 32-byte word; [None] is an out-of-range slice. *)
Definition chunk (data : bytes) (i : nat) : option bytes := slice (i * 32) ((i + 1) * 32) data.

(** The outer [option] is [None] where a slice is out of range. *)
Definition decode_trade_buy (data : bytes) (block_number : option Z)
  : option (option (Address * Z * f64 * Z)) :=
  if (length data <? 32 * 6)%nat then Some None
  else
  w0 ← chunk data 0; t ← slice 12 32 w0;
  w3 ← chunk data 3; w4 ← chunk data 4; w5 ← chunk data 5;
  let tokens := u256_from_be_bytes_f64 w3 in
  let bnb_net := u256_from_be_bytes_f64 w4 in
  let fee := u256_from_be_bytes_f64 w5 in
  if fle tokens f0 then Some None
  else
  let bnb_gross := fadd bnb_net fee in
  if fle bnb_gross f0 then Some None
  else
  Some (Some (from_be t, unwrap_or block_number 0, fdiv bnb_gross tokens,
              f64_to_uint 128 bnb_gross)).

(** ** The subscriber *)

Record Caches : Type := {
  prices : gmap Address PricePoint;
  stats : gmap Address TokenStats;
}.

(** The loop body on one log of the buy or the sell stream. *)
Definition on_log (c : Caches) (is_buy : bool) (data : bytes) (block_number : option Z) : Caches :=
  match decode_trade_buy data block_number with
  | Some (Some (token, block, p, bnb_wei)) =>
      {| prices := <[token := {| pp_block := block; price := p |}]> (prices c);
         stats := <[token := ingest (unwrap_or (stats c !! token) empty_stats)
                               block is_buy bnb_wei]> (stats c) |}
  | _ => c
  end.

(** ** The window against its specification *)

(** A trade: its block, its side, its BNB in wei. *)
Abbreviation trade := (Z * bool * Z)%type (only parsing).

Definition ingest_all (t : TokenStats) (ts : list trade) : TokenStats :=
  foldl (λ t '(b, s, w), ingest t b s w) t ts.

(** The specification: maximal runs of trades of one block, oldest first,
    never dropped. *)
Definition extend_runs (rs : list BlockStats) (b : Z) (s : bool) (w : Z) : list BlockStats :=
  match list.last rs with
  | Some r => if bs_block r =? b then map_last (add_trade s w) rs
              else rs ++ [add_trade s w (new_block b)]
  | None => [add_trade s w (new_block b)]
  end.
Definition runs (ts : list trade) : list BlockStats :=
  foldl (λ rs '(b, s, w), extend_runs rs b s w) [] ts.

Lemma map_last_snoc {A} (f : A → A) l x : map_last f (l ++ [x]) = l ++ [f x].
Proof. unfold map_last. rewrite rev_app_distr. cbn. by rewrite rev_involutive. Qed.

Lemma map_last_length {A} (f : A → A) l : length (map_last f l) = length l.
Proof.
  destruct l as [|x l] using rev_ind; [done|]. rewrite map_last_snoc, !length_app. done.
Qed.

Lemma lastn_map_last {A} (f : A → A) n l :
  (0 < n)%nat → lastn n (map_last f l) = map_last f (lastn n l).
Proof.
  intros Hn. destruct l as [|x l] using rev_ind; [done|].
  by rewrite map_last_snoc, !lastn_snoc, map_last_snoc by done.
Qed.

Lemma lastn_last {A} n (l : list A) : (0 < n)%nat → list.last (lastn n l) = list.last l.
Proof.
  intros Hn. destruct l as [|x l] using rev_ind; [done|].
  by rewrite lastn_snoc, !last_snoc by done.
Qed.

Lemma pop_to_window_lastn l : pop_to_window l = lastn STATS_WINDOW l.
Proof.
  induction l as [|x l IH]; [done|]. cbn [pop_to_window].
  destruct (Nat.ltb_spec STATS_WINDOW (length (x :: l))) as [H|H].
  - rewrite IH. cbn in H. unfold lastn. cbn [length].
    replace (S (length l) - STATS_WINDOW)%nat with (S (length l - STATS_WINDOW)) by lia. done.
  - by rewrite lastn_all.
Qed.

Lemma lastn_lastn_snoc {A} n (l : list A) x :
  (0 < n)%nat → lastn n (lastn n l ++ [x]) = lastn n (l ++ [x]).
Proof.
  intros Hn. rewrite !lastn_snoc by done. f_equal. unfold lastn.
  rewrite length_drop, drop_drop. f_equal. lia.
Qed.

(** One step of the window is one step of the specification, cut. *)
Lemma ingest_runs t rs b s w :
  blocks t = lastn STATS_WINDOW rs →
  blocks (ingest t b s w) = lastn STATS_WINDOW (extend_runs rs b s w).
Proof.
  assert (0 < STATS_WINDOW)%nat as Hw by (unfold STATS_WINDOW; lia).
  intros Ht. unfold ingest, extend_runs. cbn [blocks]. rewrite Ht, lastn_last by done.
  destruct (list.last rs) as [r|] eqn:El.
  - destruct (bs_block r =? b); cbn [negb].
    + by rewrite lastn_map_last.
    + rewrite pop_to_window_lastn, lastn_lastn_snoc, !lastn_snoc, map_last_snoc by done. done.
  - apply last_None in El as ->. done.
Qed.

Lemma ingest_all_snoc t ts b s w :
  ingest_all t (ts ++ [(b, s, w)]) = ingest (ingest_all t ts) b s w.
Proof. unfold ingest_all. by rewrite foldl_app. Qed.
Lemma runs_snoc ts b s w : runs (ts ++ [(b, s, w)]) = extend_runs (runs ts) b s w.
Proof. unfold runs. by rewrite foldl_app. Qed.

Lemma window_refines_runs ts :
  blocks (ingest_all empty_stats ts) = lastn STATS_WINDOW (runs ts).
Proof.
  induction ts as [|[[b s] w] ts IH] using rev_ind; [done|].
  rewrite ingest_all_snoc, runs_snoc. by apply ingest_runs.
Qed.

(** *** Trades in block order *)

Definition t_block (t : trade) : Z := t.1.1.
Definition t_buy (t : trade) : bool := t.1.2.

(** The blocks with a trade, in the order they first appear. *)
Definition distinct_blocks (ts : list trade) : list Z :=
  foldl (λ acc t, if bool_decide (t_block t ∈ acc) then acc else acc ++ [t_block t]) [] ts.

(** All the trades of one block, summed up. *)
Definition block_summary (ts : list trade) (b : Z) : BlockStats :=
  foldl (λ s '(_, side, w), add_trade side w s) (new_block b) (filter (λ t, t_block t = b) ts).

(** The number of buys of a block. *)
Definition buys_of (ts : list trade) (b : Z) : Z :=
  Z.of_nat (length (filter (λ t, t_block t = b ∧ t_buy t = true) ts)).

Definition in_order (ts : list trade) : Prop := StronglySorted Z.le (t_block <$> ts).

Lemma StronglySorted_snoc_inv {A} (R : A → A → Prop) l x :
  StronglySorted R (l ++ [x]) → StronglySorted R l ∧ Forall (λ y, R y x) l.
Proof.
  rewrite StronglySorted_app. intros (H & Hs & _). split; [done|].
  apply Forall_forall. intros y Hy. apply H; set_solver.
Qed.

Lemma in_order_snoc ts t :
  in_order (ts ++ [t]) → in_order ts ∧ ∀ u, u ∈ ts → t_block u ≤ t_block t.
Proof.
  unfold in_order. rewrite fmap_app. cbn. intros [Hs Hf]%StronglySorted_snoc_inv.
  split; [exact Hs|]. intros u Hu. rewrite Forall_fmap, Forall_forall in Hf. exact (Hf u Hu).
Qed.

Lemma distinct_snoc ts t :
  distinct_blocks (ts ++ [t]) =
    if bool_decide (t_block t ∈ distinct_blocks ts) then distinct_blocks ts
    else distinct_blocks ts ++ [t_block t].
Proof. unfold distinct_blocks. by rewrite foldl_app. Qed.

Lemma elem_of_distinct ts b : b ∈ distinct_blocks ts ↔ ∃ t, t ∈ ts ∧ t_block t = b.
Proof.
  induction ts as [|t ts IH] using rev_ind; [set_solver|].
  rewrite distinct_snoc. case_bool_decide; set_solver.
Qed.

Lemma distinct_sorted ts : in_order ts → StronglySorted Z.lt (distinct_blocks ts).
Proof.
  induction ts as [|t ts IH] using rev_ind; [constructor|].
  intros [Ho Hle]%in_order_snoc. rewrite distinct_snoc. case_bool_decide as Hb; [by apply IH|].
  apply StronglySorted_snoc; [by apply IH|]. rewrite Forall_forall. intros b Hin.
  assert (b ≠ t_block t) by congruence.
  apply elem_of_distinct in Hin as (u & Hu & <-). specialize (Hle u Hu). lia.
Qed.

Lemma sorted_last l x r :
  StronglySorted Z.lt l → list.last l = Some r → x ∈ l → x ≤ r.
Proof.
  intros Hs [l' ->]%last_Some Hx. apply StronglySorted_snoc_inv in Hs as [_ Hf].
  apply elem_of_app in Hx as [Hx| ->%list_elem_of_singleton]; [|lia].
  rewrite Forall_forall in Hf. specialize (Hf x Hx). lia.
Qed.

Lemma summary_snoc ts b s w c :
  block_summary (ts ++ [(b, s, w)]) c =
    if decide (c = b) then add_trade s w (block_summary ts c) else block_summary ts c.
Proof.
  unfold block_summary. rewrite filter_app, foldl_app.
  case_decide as Hc; [rewrite filter_cons_True by done|rewrite filter_cons_False]; cbn; done.
Qed.

Lemma summary_block ts b : bs_block (block_summary ts b) = b.
Proof.
  induction ts as [|[[c s] w] ts IH] using rev_ind; [done|].
  rewrite summary_snoc. case_decide; [|done]. unfold add_trade. by destruct s.
Qed.

Lemma summary_absent ts b : b ∉ distinct_blocks ts → block_summary ts b = new_block b.
Proof.
  rewrite elem_of_distinct. intros H. unfold block_summary.
  rewrite filter_none; [done|]. intros t Ht Hb. eauto.
Qed.

(** Trades in order: the runs are the distinct blocks, summed up. *)
Lemma runs_in_order ts : in_order ts → runs ts = block_summary ts <$> distinct_blocks ts.
Proof.
  induction ts as [|[[b s] w] ts IH] using rev_ind; [done|].
  intros [Ho Hle]%in_order_snoc. pose proof (distinct_sorted ts Ho) as Hs.
  rewrite runs_snoc, (IH Ho), distinct_snoc. unfold extend_runs.
  change (t_block (b, s, w)) with b in *.
  rewrite fmap_last.
  assert (∀ l : list Z, b ∉ l → block_summary (ts ++ [(b, s, w)]) <$> l = block_summary ts <$> l) as Hkeep.
  { intros l Hl. apply list_fmap_ext. intros i c Hi%list_elem_of_lookup_2.
    rewrite summary_snoc. rewrite decide_False; [done|]. by intros ->. }
  case_bool_decide as Hb.
  - destruct (list.last (distinct_blocks ts)) as [r|] eqn:El.
    2: { apply last_None in El. rewrite El in Hb. by apply not_elem_of_nil in Hb. }
    cbn. rewrite summary_block.
    assert (r = b) as ->.
    { pose proof (sorted_last _ _ _ Hs El Hb). apply last_Some_elem_of in El.
      apply elem_of_distinct in El as (u & Hu & <-). specialize (Hle u Hu). cbn in Hle. lia. }
    rewrite Z.eqb_refl. apply last_Some in El as [l Hl]. rewrite Hl in *.
    apply StronglySorted_snoc_inv in Hs as [_ Hf].
    rewrite !fmap_app, Hkeep. 2: { intros Hin. rewrite Forall_forall in Hf. specialize (Hf b Hin). lia. }
    cbn. rewrite map_last_snoc, summary_snoc, decide_True by done. done.
  - rewrite fmap_app, (Hkeep _ Hb). cbn. rewrite summary_snoc, decide_True by done.
    rewrite (summary_absent ts b Hb).
    destruct (list.last (distinct_blocks ts)) as [r|] eqn:El; cbn.
    + rewrite summary_block. destruct (Z.eqb_spec r b) as [->|]; [|done].
      by apply last_Some_elem_of in El.
    + by apply last_None in El as ->.
Qed.

Lemma take_rev_lastn {A} n (l : list A) : take n (rev l) = rev (lastn n l).
Proof.
  unfold lastn. pose proof (f_equal (take n ∘ rev (A:=A)) (take_drop (length l - n) l)) as H.
  cbn in H. rewrite <- H, rev_app_distr.
  destruct (Nat.le_gt_cases (length l) n) as [Hl|Hl].
  - replace (length l - n)%nat with 0%nat by lia. cbn. rewrite drop_0, app_nil_r.
    apply take_ge. rewrite length_rev. lia.
  - apply take_app_length'. rewrite length_rev, length_drop. lia.
Qed.

Lemma lastn_fmap {A B} (f : A → B) n l : lastn n (f <$> l) = f <$> lastn n l.
Proof. unfold lastn. by rewrite length_fmap, fmap_drop. Qed.

Lemma sum_by_rev {A} (f : A → Z) l : sum_by f (rev l) = sum_by f l.
Proof.
  induction l as [|x l IH]; [done|]. cbn [rev]. rewrite sum_by_app, IH.
  unfold sum_by. cbn. lia.
Qed.

Lemma wrap_sum {A} (f : A → Z) w l :
  0 ≤ w → wrap w (sum_by (λ x, wrap w (f x)) l) = wrap w (sum_by f l).
Proof.
  intros Hw. unfold wrap. pose proof (pow2_pos w Hw). induction l as [|x l IH]; [done|].
  rewrite !sum_by_cons, Z.add_mod_idemp_l by lia.
  rewrite <- Z.add_mod_idemp_r, IH, Z.add_mod_idemp_r by lia. done.
Qed.

Lemma summary_buy_count ts b : buy_count (block_summary ts b) = wrap 32 (buys_of ts b).
Proof.
  unfold buys_of. induction ts as [|[[c s] w] ts IH] using rev_ind; [done|].
  rewrite summary_snoc, filter_app, length_app, Nat2Z.inj_add.
  case_decide as Hc.
  - subst c. destruct s; cbn [add_trade buy_count].
    + rewrite filter_cons_True by done. cbn. rewrite IH. unfold wrap.
      by rewrite Z.add_mod_idemp_l by done.
    + rewrite filter_cons_False by (by intros [_ ?]). cbn. by rewrite Z.add_0_r.
  - rewrite filter_cons_False by (intros [? _]; by apply Hc). cbn. by rewrite Z.add_0_r.
Qed.

(** ** Properties *)

(** The rolling window is exact on trades in block order: after any number
    of trades it holds the last ten blocks that had a trade, oldest first, and
    each entry sums up every trade of its block. *)
Theorem window_in_order ts :
  in_order ts →
  blocks (ingest_all empty_stats ts) =
    block_summary ts <$> lastn STATS_WINDOW (distinct_blocks ts) ∧
  (length (blocks (ingest_all empty_stats ts)) ≤ 10)%nat.
Proof.
  intros Ho. rewrite window_refines_runs, (runs_in_order ts Ho), lastn_fmap. split; [done|].
  rewrite length_fmap, lastn_length. unfold STATS_WINDOW. lia.
Qed.

(** What a velocity signal reads: for [n] up to the window, the buy count
    over the last [n] is the number of buys in the last [n] blocks that had a
    trade (to 32 bits), however long ago those blocks were. *)
Theorem buy_count_last_exact ts n :
  in_order ts → (n ≤ STATS_WINDOW)%nat →
  buy_count_last (ingest_all empty_stats ts) n =
    wrap 32 (sum_by (buys_of ts) (lastn n (distinct_blocks ts))).
Proof.
  intros Ho Hn. unfold buy_count_last.
  rewrite window_refines_runs, (runs_in_order ts Ho), take_rev_lastn, sum_by_rev.
  rewrite lastn_lastn, lastn_fmap by done.
  rewrite <- (wrap_sum (buys_of ts) 32) by lia. f_equal.
  induction (lastn n (distinct_blocks ts)) as [|b l IH]; [done|].
  cbn [fmap list_fmap]. rewrite !sum_by_cons, IH. by rewrite summary_buy_count.
Qed.

(** Two sockets can split a block.  The buy and the sell stream are not
    ordered against each other: when a trade of a block arrives after one of
    another block, the window holds two entries for the block. *)
Theorem unordered_trade_splits_block t b b' s w w' :
  b ≠ b' → bs_block <$> list.last (blocks t) = Some b →
  (length (blocks t) ≤ 8)%nat →
  bs_block <$> blocks (ingest (ingest t b' true w) b s w') = (bs_block <$> blocks t) ++ [b'; b].
Proof.
  intros Hne Hl Hlen. destruct t as [bs]. cbn [blocks] in *.
  destruct (list.last bs) as [r|] eqn:El; [|done]. cbn in Hl. simplify_eq.
  unfold ingest. cbn [blocks]. rewrite El.
  rewrite (proj2 (Z.eqb_neq (bs_block r) b')) by done. cbn [negb].
  rewrite !pop_to_window_lastn, lastn_all by (rewrite length_app; unfold STATS_WINDOW; cbn; lia).
  rewrite map_last_snoc, last_snoc. cbn [add_trade bs_block new_block].
  rewrite (proj2 (Z.eqb_neq b' (bs_block r))) by done. cbn [negb].
  rewrite lastn_all by (rewrite !length_app; unfold STATS_WINDOW; cbn; lia).
  rewrite map_last_snoc, !fmap_app, <- app_assoc. cbn. by destruct s.
Qed.

(** The event decoder.  On any data and block number no slice is out of
    range; a decoded trade comes from at least six words, its token is the low
    20 bytes of the first, its price is (net + fee) / tokens with both parts
    positive, and its BNB amount fits 128 bits. *)
Theorem decode_trade_sound data bn :
  match decode_trade_buy data bn with
  | None => False
  | Some None => True
  | Some (Some (token, block, p, bnb_wei)) =>
      (192 ≤ length data)%nat ∧ block = unwrap_or bn 0 ∧
      token = from_be (take 20 (drop 12 data)) ∧ in_width 160 token ∧
      let tokens := u256_from_be_bytes_f64 (take 32 (drop 96 data)) in
      let gross := fadd (u256_from_be_bytes_f64 (take 32 (drop 128 data)))
                        (u256_from_be_bytes_f64 (take 32 (drop 160 data))) in
      p = fdiv gross tokens ∧ fle tokens f0 = false ∧ fle gross f0 = false ∧
      bnb_wei = f64_to_uint 128 gross ∧ in_width 128 bnb_wei
  end.
Proof.
  unfold decode_trade_buy. destruct (Nat.ltb_spec (length data) (32 * 6)) as [|H]; [done|].
  unfold chunk, slice. cbn [Nat.mul Nat.add Nat.sub].
  rewrite (decide_True (P := (0 ≤ 32 ∧ 32 ≤ length data)%nat)) by lia. cbn [mbind option_bind].
  rewrite drop_0.
  rewrite (decide_True (P := (12 ≤ 32 ∧ 32 ≤ length (take 32 data))%nat))
    by (rewrite length_take; lia). cbn [mbind option_bind].
  rewrite !decide_True by lia. cbn [mbind option_bind].
  destruct (fle _ f0) eqn:E1; [done|]. destruct (fle (fadd _ _) f0) eqn:E2; [done|].
  assert (take 20 (drop 12 (take 32 data)) = take 20 (drop 12 data)) as Ht.
  { rewrite !take_drop_commute, take_take. done. }
  split_and!; try done.
  - cbn [Nat.sub]. by rewrite Ht.
  - pose proof (from_be_bound (take 20 (drop 12 (take 32 data)))) as Hb.
    rewrite length_take_le in Hb by (rewrite length_drop, length_take; lia). exact Hb.
  - apply f64_to_uint_width. lia.
Qed.

(** ** Witnesses *)

Definition example_trades : list trade :=
  [(100, true, 5); (100, false, 2); (103, true, 7); (103, true, 1); (900, false, 4)].

Lemma example_in_order : in_order example_trades.
Proof. repeat constructor; vm_compute; discriminate. Defined.

Lemma window_in_order_witness :
  blocks (ingest_all empty_stats example_trades) =
    block_summary example_trades <$> [100; 103; 900].
Proof. apply (window_in_order example_trades example_in_order). Defined.

Lemma buy_count_last_exact_witness :
  buy_count_last (ingest_all empty_stats example_trades) 3 = 3.
Proof.
  rewrite (buy_count_last_exact example_trades 3 example_in_order).
  - vm_compute. reflexivity.
  - unfold STATS_WINDOW. lia.
Defined.

Lemma unordered_trade_splits_block_witness :
  bs_block <$> blocks (ingest (ingest (ingest empty_stats 7 true 1) 8 true 1) 7 false 1) =
    [7; 8; 7].
Proof.
  apply (unordered_trade_splits_block (ingest empty_stats 7 true 1) 7 8 false 1 1);
    [lia|reflexivity|cbn; lia].
Defined.

(** The trade observed on chain at block 102044910. *)
Example decode_observed :
  let data := address_word 0x9f54b1dd9b1437c6096ce80855cd6848269f4444 ++ word 0 ++ word 0 ++
    word 0x5cca4dcda4d9861b0c00 ++ word 0x36a57d52f89470 ++ word 0x8be517dea553 ++
    word 0 ++ word 0 in
  match decode_trade_buy data (Some 102044910) with
  | Some (Some (token, block, p, bnb_wei)) =>
      token = 0x9f54b1dd9b1437c6096ce80855cd6848269f4444 ∧ block = 102044910 ∧
      flt (fabs (fdiv (fsub p (f64_lit 3545365688141697 (10 ^ 23)))
        (f64_lit 3545365688141697 (10 ^ 23)))) (f64_lit 1 10000) = true
  | _ => False
  end.
Proof. vm_compute. repeat split. Qed.
