(* ===== verification/ExecMath.v ===== *)
(** * trader/executor_live.rs, blacklist.rs, live_ledger.rs: the executor's parts

    The pure arithmetic of the live executor (proportional sizing, slippage,
    implied sell tax, the KOL's sell fraction), the token blacklist, and the
    live ledger with its open-position counter.  Reads of the node are
    parameters of the functions that make them. *)

From Stdlib Require Import ZArith Lia Floats.SpecFloat.
From S2P Require Import Prelude F64 Bytes Dex Limits.

(** ** Routes, actions *)

Inductive BuyRoute : Type := PancakeV2 | FourMeme.
#[global] Instance BuyRoute_eq_dec : EqDecision BuyRoute.
Proof. solve_decision. Defined.

Inductive Action : Type := ABuy | ASell.

Definition FOURMEME : Address := 0x5c952063c7fc8610FFDB798152D69F0B9550762b.
Definition BSC_CHAIN_ID : Z := 56.
Definition DEADLINE_SECS : Z := 60.
Definition SWAP_GAS_LIMIT : Z := 300000.
Definition FOURMEME_GAS_LIMIT : Z := 250000.

(** ** Arithmetic *)

(** [U256]'s [*] wraps; its [/] is the floor. *)
Definition scale_u256_by_fraction (x : U256) (f : f64) : U256 :=
  let bps := f64_to_uint 64 (fmul (fclamp f f0 f1) (f64_of_Z 10000)) in
  if bps =? 0 then 0
  else if 10000 <=? bps then x
  else wrap 256 (x * bps) / 10000.

Definition saturating_sub_u256 (a b : U256) : U256 := if b <=? a then a - b else 0.

Definition apply_slippage (amount : U256) (slip_bps : Z) : U256 :=
  if (slip_bps =? 0) || (amount =? 0) then amount
  else if 10000 <=? slip_bps then 0
  else wrap 256 (amount * (10000 - slip_bps)) / 10000.

(** The quote of [getAmountsOut], from the node's reply.  The data is read
    only after its length is checked; the decoder keeps no other value. *)
Definition amounts_out_last (raw : bytes) : option U256 :=
  if (length raw <? 96)%nat then None
  else
  match slice 32 64 raw with
  | None => None
  | Some lw =>
      match try_from_width 32 (from_be lw) with
      | None => None
      | Some n =>
          if (n =? 0) || (Z.of_nat (length raw) <? 64 + n * 32) then None
          else
            let last_off := (64 + (Z.to_nat n - 1) * 32)%nat in
            from_be <$> slice last_off (last_off + 32) raw
      end
  end.

Section Quotes.
(** [get_amounts_out_v2]: [None] on any failure. *)
Context (quote : U256 → list Address → option U256).

Definition implied_sell_tax_bps_v2 (token : Address) (probe_bnb : U256) : option Z :=
buy_out ← quote probe_bnb [WBNB; token];
if buy_out =? 0 then None
else
sell_out ← quote buy_out [token; WBNB];
if probe_bnb <=? sell_out then Some 0
else
let loss := probe_bnb - sell_out in
let loss_bps := wrap 256 (loss * 10000) / probe_bnb in
total ← try_from_width 64 loss_bps;
Some (sat_sub total 50).
End Quotes.

Section Balances.
(** [balance_of_at]: the KOL's balance of the token at a block. *)
Context (balance_of_at : Address → Address → Z → option U256).

Definition kol_sell_fraction (kol_addr token : Address) (kol_block : Z) : option f64 :=
if (kol_addr =? 0) || (kol_block =? 0) then None
else
pre ← balance_of_at kol_addr token (sat_sub kol_block 1);
post ← balance_of_at kol_addr token kol_block;
if (pre =? 0) || (pre <=? post) then None
else Some (fclamp (fdiv (f64_of_Z (pre - post)) (f64_of_Z pre)) f0 f1).
End Balances.

(** ** Labels *)

Definition leak_str (s : string) : string :=
  if String.eqb s "public" then "public"
  else if String.eqb s "private" then "private" else "public".

(** ** The blacklist *)

Definition FALLBACK_BLACKLISTED : list Address := [
  0x55d398326f99059ff775485246999027b3197955;
  0x8ac76a51cc950d9822d68b83fe1ad97b32cd580d;
  0xe9e7cea3dedca5984780bafc599bd69add087d56;
  0x8d0d000ee44948fc98c9b98a4fa4921476f08b0d;
  0xbb4cdb9cbd36b01bd1cbaebf2de08d9173bc095c;
  0x7130d2a12b9bcbfae4f2634d864a1ee1ce3ead9c;
  0x2170ed0880ac9a755fd29b2688956bd959f933f8;
  0x000ae314e2a2172a039b26378814c252734f556a ].

Definition is_blacklisted_fallback (token : Address) : bool :=
  bool_decide (token ∈ FALLBACK_BLACKLISTED).

(** [BlacklistRuntime::load]: the file is missing, does not parse, or gives
    entries, of which those that are no address are skipped. *)
Inductive blacklist_file : Type := BlMissing | BlUnparsed | BlEntries (l : list string).

Definition blacklist_load (parse_address : string → option Address) (f : blacklist_file)
  : result (gset Address) unit :=
  let base : gset Address := list_to_set FALLBACK_BLACKLISTED in
  match f with
  | BlMissing => Ok base
  | BlUnparsed => Err tt
  | BlEntries l =>
      Ok (foldl (λ acc s, match parse_address s with Some a => {[a]} ∪ acc | None => acc end) base l)
  end.

(** [check_blacklisted]: the runtime list, or the fallback without one. *)
Definition check_blacklisted (runtime : option (gset Address)) (token : Address) : bool :=
  match runtime with
  | Some s => bool_decide (token ∈ s)
  | None => is_blacklisted_fallback token
  end.

(** ** The live ledger *)

Record LiveEntry : Type := {
  le_phase : string;
  le_kol_name : string;
  le_visibility : string;
  le_token_address : Address;
  le_token_symbol : string;
  le_bnb_in_wei : U256;
  le_gas_gwei : Z;
  le_nonce : Z;
  le_tx_hash : B256;
  le_wallet_bnb : f64;
  le_broadcast : bool;
  le_skip : option string;
}.

(** The rows appended, oldest first, and the counter. *)
Record LiveLedger : Type := { rows : list LiveEntry; open_count : Z }.

Definition append (l : LiveLedger) (e : LiveEntry) : LiveLedger :=
  {| rows := rows l ++ [e]; open_count := open_count l |}.
Definition record_opened (l : LiveLedger) : LiveLedger :=
  {| rows := rows l; open_count := wrap 32 (open_count l + 1) |}.
Definition record_closed (l : LiveLedger) : LiveLedger :=
  {| rows := rows l; open_count := sat_sub (open_count l) 1 |}.

(** ** Lemmas *)

Lemma wrap_le w z : 0 ≤ w → 0 ≤ z → 0 ≤ wrap w z ≤ z.
Proof.
  intros Hw Hz. pose proof (pow2_pos w Hw). unfold wrap.
  split; [apply Z.mod_pos_bound; lia|apply Z.mod_le; lia].
Qed.

(** Scaling by [b/10000] with [b <= 10000], the product wrapped or not. *)
Lemma bps_scale_bound a b : 0 ≤ a → 0 ≤ b ≤ 10000 → 0 ≤ wrap 256 (a * b) / 10000 ≤ a.
Proof.
  intros Ha Hb. pose proof (wrap_le 256 (a * b) ltac:(lia) ltac:(nia)).
  split; [apply Z.div_pos; lia|apply Z.div_le_upper_bound; nia].
Qed.

Lemma bps_fits a b : 0 ≤ a < 2 ^ 242 → 0 ≤ b ≤ 10000 → in_width 256 (a * b).
Proof. intros Ha Hb. unfold in_width. assert (0 ≤ a * b ≤ a * 10000) by nia. lia. Qed.

Lemma scale_u256_le x f : 0 ≤ x → 0 ≤ scale_u256_by_fraction x f ≤ x.
Proof.
  intros Hx. unfold scale_u256_by_fraction. cbv zeta.
  pose proof (f64_to_uint_width 64 (fmul (fclamp f f0 f1) (f64_of_Z 10000)) ltac:(lia)) as Hb.
  destruct (Z.eqb_spec (f64_to_uint 64 (fmul (fclamp f f0 f1) (f64_of_Z 10000))) 0); [lia|].
  destruct (Z.leb_spec 10000 (f64_to_uint 64 (fmul (fclamp f f0 f1) (f64_of_Z 10000)))); [lia|].
  apply bps_scale_bound; [lia|]. unfold in_width in Hb. lia.
Qed.

Lemma saturating_sub_spec a b : 0 ≤ b ≤ a → saturating_sub_u256 a b = a - b.
Proof. unfold saturating_sub_u256. intros. case_scrut; zbool; lia. Qed.

(** ** Properties *)

(** The slippage floor.  For every 256-bit quote and every bps value,
    [amountOutMin] is at most the quote; for amounts below 2^242 it is the
    floor of [quote * (10000 - bps) / 10000] up to 10000 bps, and 0 above. *)
Theorem apply_slippage_spec a bps :
  0 ≤ a → 0 ≤ bps →
  0 ≤ apply_slippage a bps ≤ a ∧
  (a < 2 ^ 242 → apply_slippage a bps = a * Z.max 0 (10000 - bps) / 10000).
Proof.
  intros Ha Hb. unfold apply_slippage.
  destruct (Z.eqb_spec bps 0) as [->|H0]; cbn [orb].
  { split; [lia|]. intros _. symmetry. change (Z.max 0 (10000 - 0)) with 10000.
    by apply Z.div_mul. }
  destruct (Z.eqb_spec a 0) as [->|H1].
  { split; [lia|]. intros _. rewrite Z.mul_0_l. done. }
  destruct (Z.leb_spec 10000 bps).
  - split; [lia|]. intros _. rewrite Z.max_l by lia. rewrite Z.mul_0_r. done.
  - split; [apply bps_scale_bound; lia|]. intros Hw. rewrite Z.max_r by lia.
    rewrite wrap_small; [done|]. apply bps_fits; lia.
Qed.

Lemma apply_slippage_spec_witness : apply_slippage 1000 1500 = 850.
Proof.
  destruct (apply_slippage_spec 1000 1500) as [_ H]; [lia|lia|]. apply H. lia.
Defined.

(** The honeypot estimate.  When both quotes answer, for probes below
    2^242, the implied tax is the round-trip loss in basis points (rounded
    down) less the 50 of the two pool fees, between 0 and 9950; it is 0 when
    the round trip breaks even, and absent when a quote fails or buys nothing. *)
Theorem implied_sell_tax_spec quote token probe :
  0 < probe < 2 ^ 242 →
  (∀ a p o, quote a p = Some o → 0 ≤ o) →
  match quote probe [WBNB; token] with
  | Some bought =>
      if bought =? 0 then implied_sell_tax_bps_v2 quote token probe = None
      else
        match quote bought [token; WBNB] with
        | Some back =>
            implied_sell_tax_bps_v2 quote token probe =
              Some (Z.max 0 (Z.max 0 (probe - back) * 10000 / probe - 50)) ∧
            0 ≤ Z.max 0 (Z.max 0 (probe - back) * 10000 / probe - 50) ≤ 9950
        | None => implied_sell_tax_bps_v2 quote token probe = None
        end
  | None => implied_sell_tax_bps_v2 quote token probe = None
  end.
Proof.
  intros Hp Hq. unfold implied_sell_tax_bps_v2.
  destruct (quote probe _) as [bought|]; [|done]. cbn [mbind option_bind].
  destruct (bought =? 0); [done|].
  destruct (quote bought _) as [back|] eqn:Eb; [|done]. cbn [mbind option_bind].
  apply Hq in Eb.
  assert (0 ≤ Z.max 0 (probe - back) * 10000 / probe ≤ 10000) as Hb.
  { split; [apply Z.div_pos; lia|apply Z.div_le_upper_bound; nia]. }
  split; [|lia]. destruct (Z.leb_spec probe back) as [|Hlt].
  { rewrite (Z.max_l 0 (probe - back)) by lia. done. }
  rewrite (Z.max_r 0 (probe - back)) in * by lia.
  rewrite wrap_small by (apply bps_fits; lia).
  unfold try_from_width. destruct (_ && _) eqn:E.
  - cbn. f_equal. unfold sat_sub. lia.
  - zbool. lia.
Qed.

Lemma implied_sell_tax_spec_witness :
  let quote := λ (a : Z) (p : list Address),
    match p with x :: _ => Some (Z.max 0 (if decide (x = WBNB) then a * 2 else a * 45 / 100)) | [] => None end in
  implied_sell_tax_bps_v2 quote 7 1000 = Some 950.
Proof.
  intros quote.
  assert (∀ a p o, quote a p = Some o → 0 ≤ o) as Hq.
  { intros a p o. unfold quote. destruct p; [done|]. intros [= <-]. lia. }
  pose proof (implied_sell_tax_spec quote 7 1000 ltac:(lia) Hq) as H.
  vm_compute in H. vm_compute. exact (proj1 H).
Defined.
