(* ===== verification/Executor.v ===== *)
(** * trader/executor_live.rs: the live executor

    [execute] is the buy pipeline, [execute_exit] the exit pipeline,
    [submit_approve] the allowance, and the [bg_*] steps the background task
    of a buy.  Each is a function from a state and the answers of the outside
    world ([Env]: node reads, signer, relays, clocks) to a state.  Positions
    are shared objects: [positions] maps a token to an entry's name and [heap]
    holds the entries, because the background task keeps its own reference.

    Transactions handed to the relays are appended to [wire] with the local
    node's verdict.  The chat notices are in [LiveNotices]; logging and metrics
    are not modelled. *)

From Stdlib Require Import ZArith Lia Floats.SpecFloat Ascii String.
From S2P Require Import Prelude F64 Bytes Types Dex Limits ExecMath.
From S2P Require Nonce.

(** ** Data *)

(** The calls of the [sol!] interfaces, before ABI encoding. *)
Inductive call : Type :=
| swapExactETHForTokens (amountOutMin : U256) (path : list Address) (to : Address) (deadline : Z)
| swapExactTokensForETH (amountIn amountOutMin : U256) (path : list Address) (to : Address)
    (deadline : Z)
| buyTokenAMAP (token : Address) (amountIn amountOutMin : U256)
| sellToken (token : Address) (amount : U256)
| approve (spender : Address) (amount : U256).

Record Tx : Type := {
  tx_to : Address;
  tx_value : U256;
  tx_call : call;
  tx_gas_limit : Z;
  tx_max_fee : Z;
  tx_priority_fee : Z;
  tx_nonce : Z;
  tx_chain_id : Z;
}.

Record PositionEntry : Type := {
  route : BuyRoute;
  tokens_bought : U256;
  entry_bnb_in : U256;
  approved : bool;
  opened_at : Z;
}.

Record V2PairCacheEntry : Type := { pair : option Address; cached_at : Z }.

Record LiveExecutor : Type := {
  wallet : Address;
  nonce : Nonce.NonceManager;
  limits_rt : LimitsRuntime;
  ledger : LiveLedger;
  positions : gmap Address nat;
  heap : gmap nat PositionEntry;
  next_entry : nat;
  gas_cache : Z * Z;
  wallet_bnb_cache : f64;
  v2_pair_cache : gmap Address V2PairCacheEntry;
  blacklist : option (gset Address);
  wire : list (Tx * bool);
}.

(** What the outside answers during one call. *)
Record Env : Type := {
  now_ms : Z;
  instant_ms : Z;
  bnb_usd : option f64;
  gas_price : option Z;
  get_pair : Address → option Address;
  accepts_buy : Address → U256 → bool;
  accepts_sell : Address → bool;
  accepts_resell : Address → bool;
  tax_quote : U256 → list Address → option U256;
  amounts_out : U256 → list Address → option U256;
  sign : Tx → option B256;
  send_ok : Tx → bool;
  chain_nonce : option Z;
  token_balance : Address → option U256;
  token_allowance : Address → Address → option U256;
  balance_of_at : Address → Address → Z → option U256;
}.

Definition GAS_PRICE_TTL : Z := 2000.
Definition V2_PAIR_NEG_TTL : Z := 30000.
Definition U256_MAX : U256 := umax 256.

(** ** Field updates *)

Section Setters.
Context (s : LiveExecutor).
Definition set_nonce n : LiveExecutor :=
{| wallet := wallet s; nonce := n; limits_rt := limits_rt s; ledger := ledger s;
positions := positions s; heap := heap s; next_entry := next_entry s;
gas_cache := gas_cache s; wallet_bnb_cache := wallet_bnb_cache s;
v2_pair_cache := v2_pair_cache s; blacklist := blacklist s; wire := wire s |}.
Definition set_limits l : LiveExecutor :=
{| wallet := wallet s; nonce := nonce s; limits_rt := l; ledger := ledger s;
positions := positions s; heap := heap s; next_entry := next_entry s;
gas_cache := gas_cache s; wallet_bnb_cache := wallet_bnb_cache s;
v2_pair_cache := v2_pair_cache s; blacklist := blacklist s; wire := wire s |}.
Definition set_ledger l : LiveExecutor :=
{| wallet := wallet s; nonce := nonce s; limits_rt := limits_rt s; ledger := l;
positions := positions s; heap := heap s; next_entry := next_entry s;
gas_cache := gas_cache s; wallet_bnb_cache := wallet_bnb_cache s;
v2_pair_cache := v2_pair_cache s; blacklist := blacklist s; wire := wire s |}.
Definition set_positions p h n : LiveExecutor :=
{| wallet := wallet s; nonce := nonce s; limits_rt := limits_rt s; ledger := ledger s;
positions := p; heap := h; next_entry := n;
gas_cache := gas_cache s; wallet_bnb_cache := wallet_bnb_cache s;
v2_pair_cache := v2_pair_cache s; blacklist := blacklist s; wire := wire s |}.
Definition set_caches g v : LiveExecutor :=
{| wallet := wallet s; nonce := nonce s; limits_rt := limits_rt s; ledger := ledger s;
positions := positions s; heap := heap s; next_entry := next_entry s;
gas_cache := g; wallet_bnb_cache := wallet_bnb_cache s;
v2_pair_cache := v; blacklist := blacklist s; wire := wire s |}.
Definition set_wallet_bnb f : LiveExecutor :=
{| wallet := wallet s; nonce := nonce s; limits_rt := limits_rt s; ledger := ledger s;
positions := positions s; heap := heap s; next_entry := next_entry s;
gas_cache := gas_cache s; wallet_bnb_cache := f;
v2_pair_cache := v2_pair_cache s; blacklist := blacklist s; wire := wire s |}.
Definition push_wire t b : LiveExecutor :=
{| wallet := wallet s; nonce := nonce s; limits_rt := limits_rt s; ledger := ledger s;
positions := positions s; heap := heap s; next_entry := next_entry s;
gas_cache := gas_cache s; wallet_bnb_cache := wallet_bnb_cache s;
v2_pair_cache := v2_pair_cache s; blacklist := blacklist s; wire := wire s ++ [(t, b)] |}.
End Setters.

(** The entry object of a token. *)
Definition entry_of (s : LiveExecutor) (token : Address) : option (nat * PositionEntry) :=
  id ← positions s !! token; e ← heap s !! id; Some (id, e).

Definition set_entry (s : LiveExecutor) (id : nat) (e : PositionEntry) : LiveExecutor :=
  set_positions s (positions s) (<[id := e]> (heap s)) (next_entry s).

Definition with_tokens (e : PositionEntry) (t : U256) : PositionEntry :=
  {| route := route e; tokens_bought := t; entry_bnb_in := entry_bnb_in e;
     approved := approved e; opened_at := opened_at e |}.
Definition with_approved (e : PositionEntry) : PositionEntry :=
  {| route := route e; tokens_bought := tokens_bought e; entry_bnb_in := entry_bnb_in e;
     approved := true; opened_at := opened_at e |}.

(** ** Helpers *)

Definition limit_label (f : LimitFail) : string :=
  match f with
  | NotWhitelisted _ => "not_whitelisted"
  | PrivateVisibilityWhilePublicOnly => "private_visibility"
  | PerTradeCapExceeded _ _ => "per_trade_cap"
  | MaxOpenPositions _ => "max_open"
  | MaxTradesPerDay _ => "max_trades_day"
  | DailyLossHalt _ _ => "daily_loss_halt"
  | WalletBelowMin _ _ => "wallet_low"
  | GasTooHigh _ _ => "gas_too_high"
  | InCooldown _ => "cooldown"
  | PhaseSaysShadow => "shadow"
  end.

Definition phase_label (s : LiveExecutor) : string :=
  let p := phase (cfg (limits_rt s)) in
  if full p then "full" else if tiny p then "tiny" else "shadow".

Definition unix_secs (env : Env) : Z := now_ms env / 1000.

Definition gas_wei (env : Env) (s : LiveExecutor) : LiveExecutor * option Z :=
  let '(wei, refreshed) := gas_cache s in
  if negb (wei =? 0) && (instant_ms env - refreshed <? GAS_PRICE_TTL) then (s, Some wei)
  else
    match gas_price env with
    | Some w => (set_caches s (w, instant_ms env) (v2_pair_cache s), Some w)
    | None => (s, None)
    end.

Definition v2_pair_cached (env : Env) (s : LiveExecutor) (token : Address)
  : LiveExecutor * option Address :=
  let lookup_again :=
    let p := get_pair env token in
    (set_caches s (gas_cache s)
       (<[token := {| pair := p; cached_at := instant_ms env |}]> (v2_pair_cache s)), p) in
  match v2_pair_cache s !! token with
  | Some e =>
      match pair e with
      | Some p => (s, Some p)
      | None =>
          if instant_ms env - cached_at e <? V2_PAIR_NEG_TTL then (s, None) else lookup_again
      end
  | None => lookup_again
  end.

(** [accepts] is the dry run on the bonding curve for the action. *)
Definition pick_route (env : Env) (accepts : bool) (s : LiveExecutor) (token : Address)
  : LiveExecutor * option BuyRoute :=
  let '(s, p) := v2_pair_cached env s token in
  match p with
  | Some _ => (s, Some PancakeV2)
  | None => if accepts then (s, Some FourMeme) else (s, None)
  end.

Definition reserve_nonce (s : LiveExecutor) : LiveExecutor * Z :=
  let '(m, n, _) := Nonce.reserve (nonce s) in (set_nonce s m, n).

Definition resync_nonce (env : Env) (s : LiveExecutor) : LiveExecutor :=
  match chain_nonce env with
  | Some c => set_nonce s (Nonce.resync (nonce s) c)
  | None => s
  end.

Definition make_tx (to : Address) (value : U256) (c : call) (gas_limit fee n : Z) : Tx :=
  {| tx_to := to; tx_value := value; tx_call := c; tx_gas_limit := gas_limit;
     tx_max_fee := fee; tx_priority_fee := fee; tx_nonce := n; tx_chain_id := BSC_CHAIN_ID |}.

(** [broadcast]: the bundles go out whatever the local node says; its verdict
    is the result. *)
Definition broadcast (env : Env) (s : LiveExecutor) (t : Tx) : LiveExecutor * bool :=
  (push_wire s t (send_ok env t), send_ok env t).

Definition live_entry (s : LiveExecutor) (kol vis : string) (token : Address) (bnb : U256)
    (gwei n : Z) (h : B256) (wbnb : f64) (bcast : bool) (skip : option string) : LiveEntry :=
  {| le_phase := phase_label s; le_kol_name := kol; le_visibility := vis;
     le_token_address := token; le_token_symbol := EmptyString; le_bnb_in_wei := bnb;
     le_gas_gwei := gwei; le_nonce := n; le_tx_hash := h; le_wallet_bnb := wbnb; le_broadcast := bcast; le_skip := skip |}.

Definition log_row (s : LiveExecutor) (e : LiveEntry) : LiveExecutor :=
  set_ledger s (append (ledger s) e).

(** ** The buy pipeline *)

(** The duplicate-entry guard: [None] skips the buy; otherwise a fully exited
    entry is dropped. *)
Definition dup_guard (s : LiveExecutor) (token : Address) : option LiveExecutor :=
  match entry_of s token with
  | Some (_, e) =>
      if (tokens_bought e =? 0) && approved e
      then Some (set_positions s (delete token (positions s)) (heap s) (next_entry s))
      else None
  | None => Some s
  end.

(** USD sizing by visibility; [None] when private entries are disabled. *)
Definition size_buy (env : Env) (sc : LiveStrategyConfig) (visibility : string) (bnb_amount : U256)
  : option U256 :=
  if fgt (trade_size_usd sc) f0 then
    let price := unwrap_or (bnb_usd env) f0 in
    if fle price f0 then Some bnb_amount
    else if String.eqb visibility "private" then
      if fgt (trade_size_private_usd sc) f0
      then Some (f64_to_uint 128 (fmul (fdiv (trade_size_private_usd sc) price) f1e18))
      else None
    else Some (f64_to_uint 128 (fmul (fdiv (trade_size_usd sc) price) f1e18))
  else Some bnb_amount.

Definition buy_cap (s : LiveExecutor) : f64 :=
  let c := cfg (limits_rt s) in
  effective_per_trade_max_bnb (phase c) (per_trade_max_bnb (limits c)).

(** The clamp to the cap: the size as [f64] and in wei. *)
Definition clamp_buy (cap_bnb : f64) (bnb_amount : U256) : f64 * U256 :=
  let wanted := fdiv (f64_of_Z bnb_amount) f1e18 in
  if fgt wanted cap_bnb then (cap_bnb, f64_to_uint 128 (fmul cap_bnb f1e18))
  else (wanted, bnb_amount).

Definition BUY_GAS_FLOOR : Z := 10000000000.
Definition SELL_GAS_FLOOR : Z := 3000000000.

Definition sell_tax_refuses (env : Env) (s : LiveExecutor) (r : BuyRoute) (token : Address)
    (bnb_amount : U256) : option Z :=
  match r with
  | FourMeme => None
  | PancakeV2 =>
      tax ← implied_sell_tax_bps_v2 (tax_quote env) token bnb_amount;
      if max_sell_tax_bps (tokens (cfg (limits_rt s))) <? tax then Some tax else None
  end.

(** Target, gas limit and calldata of the buy. *)
Definition buy_call (env : Env) (s : LiveExecutor) (r : BuyRoute) (token : Address)
    (bnb_amount : U256) : Address * Z * call :=
  let slip := slippage_bps (limits (cfg (limits_rt s))) in
  match r with
  | PancakeV2 =>
      let path := [WBNB; token] in
      let expected := unwrap_or (amounts_out env bnb_amount path) 0 in
      (PANCAKE_V2_ROUTER, SWAP_GAS_LIMIT,
       swapExactETHForTokens (apply_slippage expected slip) path (wallet s)
         (unix_secs env + DEADLINE_SECS))
  | FourMeme => (FOURMEME, FOURMEME_GAS_LIMIT, buyTokenAMAP token bnb_amount 0)
  end.

(** After a buy was sent (or signed, in shadow): the row, the counters, and
    the cached position when it was broadcast. *)
Definition record_buy (env : Env) (s : LiveExecutor) (r : BuyRoute) (kol vis : string)
    (token : Address) (bnb_amount : U256) (gwei n : Z) (h : B256) (bcast : bool) : LiveExecutor :=
  let s := log_row s (live_entry s kol (leak_str vis) token bnb_amount gwei n h
                        (wallet_bnb_cache s) bcast None) in
  let s := set_ledger s (record_opened (ledger s)) in
  let s := set_limits s (record_trade_fired (limits_rt s)) in
  if bcast then
    set_positions s (<[token := next_entry s]> (positions s))
      (<[next_entry s := {| route := r; tokens_bought := 0; entry_bnb_in := bnb_amount;
                            approved := false; opened_at := instant_ms env |}]> (heap s))
      (S (next_entry s))
  else s.

(** From the reserved nonce on. *)
Definition send_buy (env : Env) (s : LiveExecutor) (r : BuyRoute) (kol vis : string)
    (token : Address) (bnb_amount : U256) (fee : Z) : LiveExecutor :=
  let '(target, gas_limit, c) := buy_call env s r token bnb_amount in
  let '(s, n) := reserve_nonce s in
  let t := make_tx target bnb_amount c gas_limit fee n in
  let gwei := wrap 64 (fee / 1000000000) in
  match sign env t with
  | None => resync_nonce env s
  | Some h =>
      if broadcast_enabled (limits_rt s) then
        let '(s, ok) := broadcast env s t in
        if ok then record_buy env s r kol vis token bnb_amount gwei n h true
        else resync_nonce env s
      else record_buy env s r kol vis token bnb_amount gwei n h false
  end.

(** From the sized and clamped amount on: limits, route, tax. *)
Definition gated_buy (env : Env) (s : LiveExecutor) (kol vis : string) (token : Address)
    (bnb_in_f : f64) (bnb_amount : U256) (open_positions : Z) : LiveExecutor :=
  let '(s, observed) := gas_wei env s in
  let fee := Z.max (unwrap_or observed (umax 128)) BUY_GAS_FLOOR in
  let gwei := wrap 64 (fee / 1000000000) in
  let wbnb := wallet_bnb_cache s in
  let skip s gwei why :=
    log_row s (live_entry s kol (leak_str vis) token bnb_amount gwei 0 0 wbnb false (Some why)) in
  let '(l, res) := check (now_ms env) (limits_rt s)
    {| t_kol_name := kol; t_visibility := vis; t_bnb_amount := bnb_in_f;
       t_current_open_positions := open_positions; t_current_wallet_bnb := wbnb;
       t_current_gas_gwei := gwei |} in
  let s := set_limits s l in
  match res with
  | Err why => skip s gwei (limit_label why)
  | Ok _ =>
      let '(s, picked) := pick_route env (accepts_buy env token bnb_amount) s token in
      match picked with
      | None => skip s 0 "unknown_venue"%string
      | Some r =>
          match sell_tax_refuses env s r token bnb_amount with
          | Some tax =>
              skip s 0 (String.append "sell_tax_"
                (String.append (string_of_list_ascii (u64_to_string tax)) "bps"))
          | None => send_buy env s r kol vis token bnb_amount fee
          end
      end
  end.

Definition execute (env : Env) (s : LiveExecutor) (d : Decision) (visibility : string)
    (open_positions : Z) : LiveExecutor :=
  match d with
  | Enter kol token bnb_amount _ _ _ =>
      match dup_guard s token with
      | None => s
      | Some s =>
          match size_buy env (strategy (cfg (limits_rt s))) visibility bnb_amount with
          | None => s
          | Some sized =>
              if check_blacklisted (blacklist s) token then
                log_row s (live_entry s kol (leak_str visibility) token sized 0 0 0 f0 false
                             (Some "blacklisted_token"%string))
              else
                let '(bnb_in_f, amount) := clamp_buy (buy_cap s) sized in
                gated_buy env s kol visibility token bnb_in_f amount open_positions
          end
      end
  | _ => s
  end.

(** ** The exit pipeline *)

(** [submit_approve]: an unlimited allowance; [false] when it failed. *)
Definition submit_approve (env : Env) (s : LiveExecutor) (token spender : Address)
  : LiveExecutor * bool :=
  let '(s, n) := reserve_nonce s in
  let '(s, g) := gas_wei env s in
  let fee := Z.max (unwrap_or g (umax 128)) SELL_GAS_FLOOR in
  let t := make_tx token 0 (approve spender U256_MAX) 60000 fee n in
  match sign env t with
  | None => (s, false)
  | Some _ => if broadcast_enabled (limits_rt s) then broadcast env s t else (s, true)
  end.

(** Where the balance and the route of an exit come from: the cache when the
    entry is ready, nothing when it is fully exited, the node otherwise.  The
    flag says whether the fast path was taken. *)
Definition exit_source (env : Env) (s : LiveExecutor) (token : Address)
  : LiveExecutor * option (U256 * BuyRoute * bool) :=
  let bal := unwrap_or (token_balance env token) 0 in
  match entry_of s token with
  | Some (_, e) =>
      if (tokens_bought e =? 0) && approved e then (s, None)
      else if negb (tokens_bought e =? 0) && approved e then
        (s, Some (tokens_bought e, route e, true))
      else if bal =? 0 then (s, None) else (s, Some (bal, route e, false))
  | None =>
      if bal =? 0 then (s, None)
      else
        let '(s, r) := pick_route env (accepts_sell env token) s token in
        match r with
        | Some r => (s, Some (bal, r, false))
        | None => (s, None)
        end
  end.

Definition spender_of (r : BuyRoute) : Address :=
  match r with PancakeV2 => PANCAKE_V2_ROUTER | FourMeme => FOURMEME end.

Definition sell_call (env : Env) (s : LiveExecutor) (r : BuyRoute) (token : Address)
    (amount : U256) : Address * Z * call :=
  let slip := slippage_bps (limits (cfg (limits_rt s))) in
  match r with
  | PancakeV2 =>
      let path := [token; WBNB] in
      let expected := unwrap_or (amounts_out env amount path) 0 in
      (PANCAKE_V2_ROUTER, SWAP_GAS_LIMIT,
       swapExactTokensForETH amount (apply_slippage expected slip) path (wallet s)
         (unix_secs env + DEADLINE_SECS))
  | FourMeme => (FOURMEME, FOURMEME_GAS_LIMIT, sellToken token amount)
  end.

(** The cache update of a broadcast exit. *)
Definition shrink_cache (s : LiveExecutor) (token : Address) (is_full_close : bool)
    (our_balance sold : U256) : LiveExecutor :=
  match entry_of s token with
  | Some (id, e) =>
      set_entry s id (with_tokens e
        (if is_full_close then 0 else saturating_sub_u256 our_balance sold))
  | None => s
  end.

(** The ledger row and the counter of an exit. *)
Definition record_exit (s : LiveExecutor) (kol : string) (token : Address) (gwei n : Z)
    (h : B256) (bcast : bool) : LiveExecutor :=
  let s := log_row s (live_entry s kol "exit" token 0 gwei n h (wallet_bnb_cache s) bcast None) in
  set_ledger s (record_closed (ledger s)).

(** From the final route on. *)
Definition send_exit (env : Env) (s : LiveExecutor) (r : BuyRoute) (kol : string)
    (token : Address) (our_balance amount : U256) (is_full_close : bool) : LiveExecutor :=
  let '(target, gas_limit, c) := sell_call env s r token amount in
  let '(s, n) := reserve_nonce s in
  let '(s, g) := gas_wei env s in
  let fee := Z.max (unwrap_or g (umax 128)) SELL_GAS_FLOOR in
  let gwei := wrap 64 (fee / 1000000000) in
  let t := make_tx target 0 c gas_limit fee n in
  match sign env t with
  | None => resync_nonce env s
  | Some h =>
      if broadcast_enabled (limits_rt s) then
        let '(s, ok) := broadcast env s t in
        if ok then
          record_exit (shrink_cache s token is_full_close our_balance amount) kol token gwei n h true
        else resync_nonce env s
      else record_exit s kol token gwei n h false
  end.

Definition FULL_CLOSE : f64 := f64_lit 99 100.

Definition execute_exit (env : Env) (s : LiveExecutor) (token : Address) (kol : string)
    (kol_block : Z) (kol_addr : Address) : LiveExecutor :=
  if check_blacklisted (blacklist s) token then s
  else
  let fraction := unwrap_or (kol_sell_fraction (balance_of_at env) kol_addr token kol_block) f1 in
  let is_full_close := fge fraction FULL_CLOSE in
  let '(s, src) := exit_source env s token in
  match src with
  | None => s
  | Some (our_balance, r, fast) =>
      let amount := if is_full_close then our_balance
                    else scale_u256_by_fraction our_balance fraction in
      if negb is_full_close && (amount =? 0) then s
      else
      let '(s, ok) :=
        if negb fast && (unwrap_or (token_allowance env token (spender_of r)) 0 <? amount)
        then submit_approve env s token (spender_of r)
        else (s, true) in
      if negb ok then resync_nonce env s
      else
      let '(s, fresh) := pick_route env (accepts_resell env token) s token in
      send_exit env s (unwrap_or fresh r) kol token our_balance amount is_full_close
  end.

(** ** The background task of a buy ([BgPrep])

    Once the buy's receipt is seen: the balance read, the allowance for the
    bonding curve, and its receipt.  [id] is the entry the task holds. *)

Definition bg_balance (env : Env) (s : LiveExecutor) (token : Address) (id : nat) : LiveExecutor :=
  let bal := unwrap_or (token_balance env token) 0 in
  match heap s !! id with
  | Some e => if negb (bal =? 0) then set_entry s id (with_tokens e bal) else s
  | None => s
  end.

(** [submit_approve_bg], on the curve's route only. *)
Definition bg_approve (env : Env) (s : LiveExecutor) (token : Address) (id : nat) : LiveExecutor :=
  match heap s !! id with
  | Some e =>
      if bool_decide (route e = FourMeme) && broadcast_enabled (limits_rt s) then
        let '(s, n) := reserve_nonce s in
        let fee := Z.max (unwrap_or (gas_price env) 3000000000) SELL_GAS_FLOOR in
        let t := make_tx token 0 (approve FOURMEME U256_MAX) 60000 fee n in
        match sign env t with
        | None => s
        | Some _ => push_wire s t (send_ok env t)
        end
      else s
  | None => s
  end.

(** The receipt of that allowance: only the curve's route has one. *)
Definition bg_approved (s : LiveExecutor) (id : nat) : LiveExecutor :=
  match heap s !! id with
  | Some e =>
      if bool_decide (route e = FourMeme) && broadcast_enabled (limits_rt s)
      then set_entry s id (with_approved e) else s
  | None => s
  end.

(** One round of the balance poller: [result] is the reply's ["result"]. *)
Definition refresh_wallet (s : LiveExecutor) (result : option (list ascii)) : LiveExecutor :=
  match h ← result; from_str_radix16 128 (trim_0x h) with
  | Some n => set_wallet_bnb s (fdiv (f64_of_Z n) f1e18)
  | None => s
  end.

Definition drop_position (s : LiveExecutor) (token : Address) : LiveExecutor :=
  set_positions s (delete token (positions s)) (heap s) (next_entry s).

(** ** Histories *)

Inductive event : Type :=
| EvBuy (env : Env) (d : Decision) (visibility : string) (open_positions : Z)
| EvExit (env : Env) (token : Address) (kol : string) (kol_block : Z) (kol_addr : Address)
| EvBgBalance (env : Env) (token : Address) (id : nat)
| EvBgApprove (env : Env) (token : Address) (id : nat)
| EvBgApproved (id : nat)
| EvLoss (loss_usd : f64)
| EvWallet (result : option (list ascii)).

Definition step (s : LiveExecutor) (e : event) : LiveExecutor :=
  match e with
  | EvBuy env d vis n => execute env s d vis n
  | EvExit env token kol blk addr => execute_exit env s token kol blk addr
  | EvBgBalance env token id => bg_balance env s token id
  | EvBgApprove env token id => bg_approve env s token id
  | EvBgApproved id => bg_approved s id
  | EvLoss l => set_limits s (sync_realized_loss l (limits_rt s))
  | EvWallet r => refresh_wallet s r
  end.

Definition run (s : LiveExecutor) (es : list event) : LiveExecutor := foldl step s es.

(** The executor at start-up. *)
Definition LiveExecutor_new (me : Address) (nm : Nonce.NonceManager) (l : LimitsRuntime)
    (led : LiveLedger) (bl : option (gset Address)) : LiveExecutor :=
  {| wallet := me; nonce := nm; limits_rt := l; ledger := led; positions := ∅; heap := ∅;
     next_entry := 0; gas_cache := (0, 0); wallet_bnb_cache := f0; v2_pair_cache := ∅;
     blacklist := bl; wire := [] |}.

(** ** Lemmas: what each helper touches *)

(** The node-read helpers change the caches only. *)
Definition caches_only (s s' : LiveExecutor) : Prop := ∃ g v, s' = set_caches s g v.

Lemma caches_refl s : caches_only s s.
Proof. exists (gas_cache s), (v2_pair_cache s). by destruct s. Qed.

Lemma caches_trans s1 s2 s3 : caches_only s1 s2 → caches_only s2 s3 → caches_only s1 s3.
Proof. intros (g & v & ->) (g' & v' & ->). by exists g', v'. Qed.

Lemma gas_wei_caches env s : caches_only s (gas_wei env s).1.
Proof.
  unfold gas_wei. destruct (gas_cache s) as [w r]. repeat case_scrut; cbn;
    try apply caches_refl. by eexists _, _.
Qed.

Lemma v2_pair_caches env s token : caches_only s (v2_pair_cached env s token).1.
Proof.
  unfold v2_pair_cached. repeat case_scrut; cbn; try apply caches_refl; by eexists _, _.
Qed.

Lemma pick_route_caches env a s token : caches_only s (pick_route env a s token).1.
Proof.
  unfold pick_route. pose proof (v2_pair_caches env s token) as H.
  destruct (v2_pair_cached env s token) as [s' p]. cbn in H. repeat case_scrut; done.
Qed.

Lemma resync_nonce_of env s : ∃ m, resync_nonce env s = set_nonce s m ∧
  Nonce.current (nonce s) ≤ Nonce.current m ∧
  (∀ c, chain_nonce env = Some c → Nonce.current m = Z.max c (Nonce.current (nonce s))) .
Proof.
  unfold resync_nonce. destruct (chain_nonce env) as [c|].
  - eexists. split; [done|]. cbn. unfold Nonce.resync_load. split; [lia|]. by intros ? [= ->].
  - exists (nonce s). split; [by destruct s|]. done.
Qed.

(** The manager after one reservation. *)
Definition bump (s : LiveExecutor) : LiveExecutor := (reserve_nonce s).1.

Lemma reserve_nonce_eq s : reserve_nonce s = (bump s, Nonce.current (nonce s)).
Proof. done. Qed.

Lemma bump_current s :
  in_width 64 (Nonce.current (nonce s) + 1) → Nonce.current (nonce (bump s)) = Nonce.current (nonce s) + 1.
Proof. intros H. cbn. by apply wrap_small. Qed.

(** The transaction a buy builds. *)
Definition buy_tx (env : Env) (s : LiveExecutor) (r : BuyRoute) (token : Address)
    (amount : U256) (fee : Z) : Tx :=
  let '(target, gas_limit, c) := buy_call env s r token amount in
  make_tx target amount c gas_limit fee (Nonce.current (nonce s)).

Lemma buy_tx_fields env s r token amount fee :
  let t := buy_tx env s r token amount fee in
  tx_value t = amount ∧ tx_nonce t = Nonce.current (nonce s) ∧ tx_max_fee t = fee ∧
  tx_chain_id t = BSC_CHAIN_ID ∧ tx_to t = spender_of r.
Proof. unfold buy_tx. by destruct r. Qed.

(** The four ends of [send_buy]. *)
Lemma send_buy_cases env s r kol vis token amount fee :
  let t := buy_tx env s r token amount fee in
  let gwei := wrap 64 (fee / 1000000000) in
  let n := Nonce.current (nonce s) in
  let s' := send_buy env s r kol vis token amount fee in
  (sign env t = None ∧ s' = resync_nonce env (bump s)) ∨
  (∃ h, sign env t = Some h ∧
    ((broadcast_enabled (limits_rt s) = true ∧ send_ok env t = false ∧
        s' = resync_nonce env (push_wire (bump s) t false)) ∨
     (broadcast_enabled (limits_rt s) = true ∧ send_ok env t = true ∧
        s' = record_buy env (push_wire (bump s) t true) r kol vis token amount gwei n h true) ∨
     (broadcast_enabled (limits_rt s) = false ∧
        s' = record_buy env (bump s) r kol vis token amount gwei n h false))).
Proof.
  unfold buy_tx, send_buy. destruct (buy_call env s r token amount) as [[target gl] c].
  rewrite reserve_nonce_eq. cbv zeta. cbn [fst snd].
  destruct (sign env _) as [h|]; [right; exists h; split; [done|]|by left].
  change (limits_rt (bump s)) with (limits_rt s). unfold broadcast.
  destruct (broadcast_enabled (limits_rt s)); [|auto].
  destruct (send_ok env _); auto.
Qed.

(** The sell side. *)
Definition sell_tx (env : Env) (s : LiveExecutor) (r : BuyRoute) (token : Address)
    (amount fee : Z) : Tx :=
  let '(target, gas_limit, c) := sell_call env s r token amount in
  make_tx target 0 c gas_limit fee (Nonce.current (nonce s)).

Lemma send_exit_cases env s r kol token bal amount full_close :
  ∃ s1 fee, caches_only (bump s) s1 ∧ SELL_GAS_FLOOR ≤ fee ∧
  let t := sell_tx env s r token amount fee in
  let gwei := wrap 64 (fee / 1000000000) in
  let n := Nonce.current (nonce s) in
  let s' := send_exit env s r kol token bal amount full_close in
  (sign env t = None ∧ s' = resync_nonce env s1) ∨
  (∃ h, sign env t = Some h ∧
    ((broadcast_enabled (limits_rt s) = true ∧ send_ok env t = false ∧
        s' = resync_nonce env (push_wire s1 t false)) ∨
     (broadcast_enabled (limits_rt s) = true ∧ send_ok env t = true ∧
        s' = record_exit (shrink_cache (push_wire s1 t true) token full_close bal amount)
               kol token gwei n h true) ∨
     (broadcast_enabled (limits_rt s) = false ∧ s' = record_exit s1 kol token gwei n h false))).
Proof.
  unfold sell_tx, send_exit. destruct (sell_call env s r token amount) as [[target gl] c].
  rewrite reserve_nonce_eq. pose proof (gas_wei_caches env (bump s)) as Hg.
  destruct (gas_wei env (bump s)) as [s1 g]. cbn [fst] in Hg.
  exists s1, (Z.max (unwrap_or g (umax 128)) SELL_GAS_FLOOR).
  split; [done|]. split; [lia|]. cbv zeta.
  destruct (sign env _) as [h|]; [right; exists h; split; [done|]|by left].
  destruct Hg as (gc & v & ->).
  change (limits_rt (set_caches (bump s) gc v)) with (limits_rt s). unfold broadcast.
  destruct (broadcast_enabled (limits_rt s)); [|auto].
  destruct (send_ok env _); auto.
Qed.

(** The fields [record_buy] and [record_exit] leave alone. *)
Lemma record_buy_frame env s r kol vis token amount gwei n h b :
  let s' := record_buy env s r kol vis token amount gwei n h b in
  wire s' = wire s ∧ nonce s' = nonce s ∧ blacklist s' = blacklist s ∧ wallet s' = wallet s.
Proof. unfold record_buy. by destruct b. Qed.

Lemma record_exit_frame s kol token gwei n h b :
  let s' := record_exit s kol token gwei n h b in
  wire s' = wire s ∧ nonce s' = nonce s ∧ positions s' = positions s ∧ heap s' = heap s ∧
  next_entry s' = next_entry s ∧ limits_rt s' = limits_rt s.
Proof. done. Qed.

Lemma shrink_cache_frame s token fc bal sold :
  let s' := shrink_cache s token fc bal sold in
  wire s' = wire s ∧ nonce s' = nonce s ∧ positions s' = positions s ∧
  next_entry s' = next_entry s ∧ limits_rt s' = limits_rt s ∧ ledger s' = ledger s.
Proof. unfold shrink_cache. by destruct (entry_of s token) as [[]|]. Qed.

(** What a buy that reached the relays went through, from the sized amount. *)
Record buy_gates (env : Env) (s : LiveExecutor) (kol vis : string) (token : Address)
    (bnb_in_f : f64) (amount : U256) (open_positions : Z) (t : Tx) : Prop := {
  bg_enabled : broadcast_enabled (limits_rt s) = true;
  bg_limits : ∃ gwei, (check (now_ms env) (limits_rt s)
    {| t_kol_name := kol; t_visibility := vis; t_bnb_amount := bnb_in_f;
       t_current_open_positions := open_positions;
       t_current_wallet_bnb := wallet_bnb_cache s; t_current_gas_gwei := gwei |}).2 = Ok tt;
  bg_tax : tx_to t = PANCAKE_V2_ROUTER → ∀ tax,
    implied_sell_tax_bps_v2 (tax_quote env) token amount = Some tax →
    tax ≤ max_sell_tax_bps (tokens (cfg (limits_rt s)));
  bg_value : tx_value t = amount;
  bg_nonce : tx_nonce t = Nonce.current (nonce s);
  bg_chain : tx_chain_id t = 56;
  bg_fee : BUY_GAS_FLOOR ≤ tx_max_fee t;
}.

Lemma sell_tax_accepted env s r token amount :
  sell_tax_refuses env s r token amount = None → r = PancakeV2 →
  ∀ tax, implied_sell_tax_bps_v2 (tax_quote env) token amount = Some tax →
    tax ≤ max_sell_tax_bps (tokens (cfg (limits_rt s))).
Proof.
  intros E -> tax Htax. unfold sell_tax_refuses in E. rewrite Htax in E. cbn in E.
  destruct (Z.ltb_spec (max_sell_tax_bps (tokens (cfg (limits_rt s)))) tax); [done|lia].
Qed.

(** What [send_buy] puts on the wire. *)
Lemma send_buy_wire env s r kol vis token amount fee :
  let t := buy_tx env s r token amount fee in
  wire (send_buy env s r kol vis token amount fee) = wire s ∨
  broadcast_enabled (limits_rt s) = true ∧
  wire (send_buy env s r kol vis token amount fee) = wire s ++ [(t, send_ok env t)].
Proof.
  cbv zeta. destruct (send_buy_cases env s r kol vis token amount fee)
    as [[_ ->]|(h & _ & [(He & Hk & ->)|[(He & Hk & ->)|(He & ->)]])].
  - left. by destruct (resync_nonce_of env (bump s)) as (m & -> & _).
  - right. split; [done|]. rewrite Hk.
    by destruct (resync_nonce_of env (push_wire (bump s) (buy_tx env s r token amount fee) false))
      as (m & -> & _).
  - right. split; [done|]. rewrite Hk. apply record_buy_frame.
  - left. apply (record_buy_frame env (bump s)).
Qed.

Lemma gated_buy_sends env s kol vis token bnb_in_f amount n :
  wire (gated_buy env s kol vis token bnb_in_f amount n) ≠ wire s →
  ∃ t ok, wire (gated_buy env s kol vis token bnb_in_f amount n) = wire s ++ [(t, ok)] ∧
    ok = send_ok env t ∧ buy_gates env s kol vis token bnb_in_f amount n t.
Proof.
  unfold gated_buy. pose proof (gas_wei_caches env s) as Hg.
  destruct (gas_wei env s) as [s1 observed]. cbn [fst] in Hg. destruct Hg as (gc & v & ->).
  set (fee := Z.max _ BUY_GAS_FLOOR). cbv zeta.
  destruct (check _ _ _) as [l res] eqn:Ec. destruct res as [[]|why]; [|done].
  assert (∃ gwei, (check (now_ms env) (limits_rt s)
    {| t_kol_name := kol; t_visibility := vis; t_bnb_amount := bnb_in_f;
       t_current_open_positions := n; t_current_wallet_bnb := wallet_bnb_cache s;
       t_current_gas_gwei := gwei |}).2 = Ok tt) as Hchk by (eexists; exact (f_equal snd Ec)).
  assert (cfg l = cfg (limits_rt s)) as Hcfg.
  { apply (f_equal (λ p, cfg p.1)) in Ec. cbn in Ec. by rewrite maybe_reset_cfg in Ec. }
  clear Ec. set (s2 := set_limits _ l).
  pose proof (pick_route_caches env (accepts_buy env token amount) s2 token) as Hp.
  destruct (pick_route env _ s2 token) as [s3 [r|]]; cbn [fst] in Hp;
    destruct Hp as (gc' & v' & ->); [|done].
  destruct (sell_tax_refuses env _ r token amount) as [tax|] eqn:Et; [done|].
  set (s4 := set_caches s2 gc' v') in *.
  destruct (buy_tx_fields env s4 r token amount fee) as (Tv & Tn & Tf & Tc & Tt).
  assert (broadcast_enabled (limits_rt s4) = broadcast_enabled (limits_rt s)) as Hb
    by (unfold broadcast_enabled; cbn; by rewrite Hcfg).
  destruct (send_buy_wire env s4 r kol vis token amount fee) as [Hs|[Hen Hs]]; intros Hw; [done|].
  exists (buy_tx env s4 r token amount fee), (send_ok env (buy_tx env s4 r token amount fee)).
  split; [exact Hs|]. split; [done|]. split; try done; [congruence| |rewrite Tf; lia].
  intros Hto. rewrite <- Hcfg. apply (sell_tax_accepted env s4 r token amount Et).
  rewrite Tt in Hto. by destruct r.
Qed.

(** Not holding: no entry, or a fully exited one. *)
Definition not_holding (s : LiveExecutor) (token : Address) : Prop :=
  match entry_of s token with
  | Some (_, e) => tokens_bought e = 0 ∧ approved e = true
  | None => True
  end.

Lemma dup_guard_spec s token s' :
  dup_guard s token = Some s' →
  not_holding s token ∧ ∃ p, s' = set_positions s p (heap s) (next_entry s).
Proof.
  unfold dup_guard, not_holding. destruct (entry_of s token) as [[id e]|].
  - destruct (Z.eqb_spec (tokens_bought e) 0), (approved e); cbn; try done.
    intros [= <-]. split; [done|]. by eexists.
  - intros [= <-]. split; [done|]. exists (positions s). by destruct s.
Qed.

(** ** The store invariant *)

(** Every open position names a live entry, no two positions share one, and
    fresh names are fresh. *)
Record store_ok (s : LiveExecutor) : Prop := {
  so_live : ∀ token id, positions s !! token = Some id → is_Some (heap s !! id);
  so_inj : ∀ t1 t2 id, positions s !! t1 = Some id → positions s !! t2 = Some id → t1 = t2;
  so_fresh : ∀ id, is_Some (heap s !! id) → (id < next_entry s)%nat;
}.

(** Only the stored positions matter. *)
Lemma store_ok_same s s' :
  positions s' = positions s → heap s' = heap s → next_entry s' = next_entry s →
  store_ok s → store_ok s'.
Proof. intros Hp Hh Hn [H1 H2 H3]. split; rewrite ?Hp, ?Hh, ?Hn; done. Qed.

Lemma store_ok_set_entry s id e :
  store_ok s → is_Some (heap s !! id) → store_ok (set_entry s id e).
Proof.
  intros [H1 H2 H3] Hid. split; cbn; [|done|].
  - intros token i Hi. destruct (decide (i = id)) as [->|Hne].
    + rewrite lookup_insert_eq. eauto.
    + rewrite lookup_insert_ne by done. eauto.
  - intros i. destruct (decide (i = id)) as [->|Hne]; [auto|].
    rewrite lookup_insert_ne by done. apply H3.
Qed.

Lemma store_ok_new s token e :
  store_ok s →
  store_ok (set_positions s (<[token := next_entry s]> (positions s))
    (<[next_entry s := e]> (heap s)) (S (next_entry s))).
Proof.
  intros [H1 H2 H3].
  assert (∀ t, positions s !! t ≠ Some (next_entry s)) as Hfresh.
  { intros t Ht. pose proof (H3 _ (H1 _ _ Ht)). lia. }
  split; cbn.
  - intros t i. destruct (decide (i = next_entry s)) as [->|Hne]; [rewrite lookup_insert_eq; eauto|].
    rewrite (lookup_insert_ne (heap s)) by done. destruct (decide (t = token)) as [->|Ht].
    + rewrite lookup_insert_eq. by intros [= <-].
    + rewrite lookup_insert_ne by done. apply H1.
  - intros t1 t2 i. destruct (decide (t1 = token)) as [->|E1], (decide (t2 = token)) as [->|E2];
      rewrite ?lookup_insert_eq, ?lookup_insert_ne by done; [done| | |apply H2].
    + intros [= <-] Hi. by apply Hfresh in Hi.
    + intros Hi [= <-]. by apply Hfresh in Hi.
  - intros i Hi. destruct (decide (i = next_entry s)) as [->|Hne]; [lia|].
    rewrite lookup_insert_ne in Hi by done. specialize (H3 i Hi). lia.
Qed.

Lemma store_ok_delete s token :
  store_ok s → store_ok (set_positions s (delete token (positions s)) (heap s) (next_entry s)).
Proof.
  intros [H1 H2 H3]. split; cbn; [| |done].
  - intros t i [_ Hi]%lookup_delete_Some. eauto.
  - intros t1 t2 i [_ ?]%lookup_delete_Some [_ ?]%lookup_delete_Some. eauto.
Qed.

Lemma entry_of_Some s token id e :
  entry_of s token = Some (id, e) ↔ positions s !! token = Some id ∧ heap s !! id = Some e.
Proof.
  unfold entry_of. destruct (positions s !! token) as [i|]; cbn; [|naive_solver].
  destruct (heap s !! i) as [e'|] eqn:E; cbn; naive_solver.
Qed.

(** ** What a history preserves

    [steady] lists the closure conditions of a property of the store under
    the operations; a property that has them holds along every history. *)

Record steady (P : LiveExecutor → Prop) : Prop := {
  st_same : ∀ s s', positions s' = positions s → heap s' = heap s →
    next_entry s' = next_entry s → P s → P s';
  st_delete : ∀ s token, P s →
    P (set_positions s (delete token (positions s)) (heap s) (next_entry s));
  st_new : ∀ s token e, P s → tokens_bought e = 0 → approved e = false →
    P (set_positions s (<[token := next_entry s]> (positions s))
         (<[next_entry s := e]> (heap s)) (S (next_entry s)));
  st_tokens : ∀ s id e z, P s → heap s !! id = Some e → P (set_entry s id (with_tokens e z));
  st_approved : ∀ s id e, P s → heap s !! id = Some e → route e = FourMeme →
    P (set_entry s id (with_approved e));
}.

Section Steady.
Context (P : LiveExecutor → Prop) (HP : steady P).

Local Lemma P_caches s s' : caches_only s s' → P s → P s'.
Proof. intros (g & v & ->). by apply (st_same P HP). Qed.

Local Lemma P_resync env s : P s → P (resync_nonce env s).
Proof. destruct (resync_nonce_of env s) as (m & -> & _). by apply (st_same P HP). Qed.

Lemma steady_record_buy env s r kol vis token amount gwei n h b :
P s → P (record_buy env s r kol vis token amount gwei n h b).
Proof.
intros H. unfold record_buy. cbv zeta. destruct b.
- apply (st_new P HP); [|done|done]. by apply (st_same P HP s).
- by apply (st_same P HP s).
Qed.

Lemma steady_execute env s d vis n : P s → P (execute env s d vis n).
Proof.
intros H. unfold execute. destruct d as [| kol token amt k b t |]; try done.
destruct (dup_guard s token) as [s0|] eqn:Ed; [|done].
assert (P s0) as H0.
{ unfold dup_guard in Ed. destruct (entry_of s token) as [[id e]|].
- destruct (_ && _); [|done]. injection Ed as <-. by apply (st_delete P HP).
- by injection Ed as <-. }
destruct (size_buy _ _ _ _) as [sized|]; [|done].
destruct (check_blacklisted _ _); [by apply (st_same P HP s0)|].
destruct (clamp_buy _ _) as [f amount]. unfold gated_buy.
pose proof (gas_wei_caches env s0) as Hg. destruct (gas_wei env s0) as [s1 g]. cbn [fst] in Hg.
apply (P_caches _ _ Hg) in H0. cbv zeta. destruct (check _ _ _) as [l [[]|why]];
[|by apply (st_same P HP s1)].
pose proof (pick_route_caches env (accepts_buy env token amount) (set_limits s1 l) token) as Hp.
destruct (pick_route _ _ _ _) as [s2 [r|]]; cbn [fst] in Hp;
(apply (P_caches _ _) in Hp; [|by apply (st_same P HP s1)]);
[|by apply (st_same P HP s2)].
destruct (sell_tax_refuses _ _ _ _ _) as [tax|]; [by apply (st_same P HP s2)|].
set (fee := Z.max _ _).
destruct (send_buy_cases env s2 r kol vis token amount fee)
as [[_ ->]|(h & _ & [(_ & _ & ->)|[(_ & _ & ->)|(_ & ->)]])].
- apply P_resync. by apply (st_same P HP s2).
- apply P_resync. by apply (st_same P HP s2).
- apply steady_record_buy. by apply (st_same P HP s2).
- apply steady_record_buy. by apply (st_same P HP s2).
Qed.

Lemma exit_source_caches env s token : caches_only s (exit_source env s token).1.
Proof.
unfold exit_source. destruct (entry_of s token) as [[id e]|].
- repeat case_scrut; apply caches_refl.
- case_scrut; [apply caches_refl|].
pose proof (pick_route_caches env (accepts_sell env token) s token) as Hp.
destruct (pick_route _ _ _ _) as [s' [r|]]; done.
Qed.

Lemma steady_send_exit env s r kol token bal amount fc :
P s → P (send_exit env s r kol token bal amount fc).
Proof.
intros H. destruct (send_exit_cases env s r kol token bal amount fc)
as (s1 & fee & Hc & _ & [[_ ->]|(h & _ & [(_ & _ & ->)|[(_ & _ & ->)|(_ & ->)]])]);
apply (P_caches _ _) in Hc; try by apply (st_same P HP s).
- by apply P_resync.
- apply P_resync. by apply (st_same P HP s1).
- set (s2 := push_wire s1 _ true). assert (P s2) as H2 by (by apply (st_same P HP s1)).
apply (st_same P HP (shrink_cache s2 token fc bal amount)); try done.
unfold shrink_cache. destruct (entry_of s2 token) as [[id e]|] eqn:Ee; [|done].
apply entry_of_Some in Ee as [_ Ee]. by apply (st_tokens P HP).
- by apply (st_same P HP s1).
Qed.

Lemma steady_approve env s token spender : P s → P (submit_approve env s token spender).1.
Proof.
intros H. unfold submit_approve. rewrite reserve_nonce_eq.
pose proof (gas_wei_caches env (bump s)) as Hg.
destruct (gas_wei env (bump s)) as [s1 g]. cbn [fst] in Hg.
apply (P_caches _ _) in Hg; [|by apply (st_same P HP s)].
destruct (sign env _); [|done]. destruct (broadcast_enabled _); [|done].
by apply (st_same P HP s1).
Qed.

Lemma steady_exit_tail env acc s r kol token bal amount fc :
P s →
P (let '(s', fresh) := pick_route env acc s token in
send_exit env s' (unwrap_or fresh r) kol token bal amount fc).
Proof.
intros H. pose proof (pick_route_caches env acc s token) as Hp.
destruct (pick_route env acc s token) as [s' fresh]. cbn [fst] in Hp.
apply steady_send_exit. by apply (P_caches _ _ Hp).
Qed.

Lemma steady_exit env s token kol blk addr : P s → P (execute_exit env s token kol blk addr).
Proof.
intros H. unfold execute_exit. destruct (check_blacklisted _ _); [done|]. cbv zeta.
pose proof (exit_source_caches env s token) as Hx.
destruct (exit_source env s token) as [s1 [[[bal r] fast]|]]; cbn [fst] in Hx;
apply (P_caches _ _ Hx) in H; [|done].
destruct (negb _ && (_ =? 0)); [done|].
match goal with |- context [if ?c then submit_approve env s1 token ?sp else _] =>
pose proof (steady_approve env s1 token sp H) as Ha;
destruct c; [destruct (submit_approve env s1 token sp) as [s2 [|]]; cbn [fst negb] in Ha |- *|cbn [negb]]
end.
- by apply steady_exit_tail.
- by apply P_resync.
- by apply steady_exit_tail.
Qed.

Lemma steady_step s e : P s → P (step s e).
Proof.
intros H. destruct e as [env d vis n|env token kol blk addr|env token id|env token id|id|l|r]; cbn.
- by apply steady_execute.
- by apply steady_exit.
- unfold bg_balance. destruct (heap s !! id) eqn:E; [|done].
case_scrut; [by apply (st_tokens P HP)|done].
- unfold bg_approve. destruct (heap s !! id); [|done]. destruct (_ && _); [|done].
rewrite reserve_nonce_eq. destruct (sign env _); by apply (st_same P HP s).
- unfold bg_approved. destruct (heap s !! id) eqn:E; [|done].
case_bool_decide; cbn [andb]; [|done]. destruct (broadcast_enabled _); [|done].
by apply (st_approved P HP).
- by apply (st_same P HP s).
- unfold refresh_wallet. case_scrut; by apply (st_same P HP s).
Qed.

Lemma steady_run s es : P s → P (run s es).
Proof. revert s. induction es as [|e es IH]; intros s H; [done|]. by apply IH, steady_step. Qed.
End Steady.

Lemma store_ok_steady : steady store_ok.
Proof.
  split.
  - intros s s' Hp Hh Hn. by apply store_ok_same.
  - apply store_ok_delete.
  - intros s token e H _ _. by apply store_ok_new.
  - intros s id e z H He. apply store_ok_set_entry; eauto.
  - intros s id e H He _. apply store_ok_set_entry; eauto.
Qed.

(** No entry of the V2 route is ever marked approved. *)
Definition v2_unapproved (s : LiveExecutor) : Prop :=
  ∀ id e, heap s !! id = Some e → route e = PancakeV2 → approved e = false.

Lemma v2_unapproved_steady : steady v2_unapproved.
Proof.
  split; unfold v2_unapproved.
  - intros s s' _ Hh _ H. by rewrite Hh.
  - done.
  - intros s token e H _ Ha id e'. cbn. intros [[_ <-]|[_ ?]]%lookup_insert_Some; eauto.
  - intros s id e z H He id' e'. cbn. intros [[_ <-]|[_ ?]]%lookup_insert_Some; [|eauto].
    cbn. eauto.
  - intros s id e H He Hr id' e'. cbn. intros [[_ <-]|[_ ?]]%lookup_insert_Some; [|eauto].
    cbn. congruence.
Qed.

(** ** Nonces on the wire *)

Definition cur (s : LiveExecutor) : Z := Nonce.current (nonce s).
Definition wire_nonces (l : list (Tx * bool)) : list Z := (λ p, tx_nonce p.1) <$> l.

(** [s'] handed out nonces from [cur s] on, in order, and sent each once. *)
Record advances (s s' : LiveExecutor) : Prop := {
  adv_cur : cur s ≤ cur s';
  adv_wire : ∃ l, wire s' = wire s ++ l ∧ StronglySorted Z.lt (wire_nonces l) ∧
    Forall (λ n, cur s ≤ n < cur s') (wire_nonces l);
}.

Lemma adv_le s s' : cur s ≤ cur s' → wire s' = wire s → advances s s'.
Proof. intros Hn Hw. split; [done|]. exists []. rewrite app_nil_r. split_and!; try done; constructor. Qed.

Lemma adv_same s s' : nonce s' = nonce s → wire s' = wire s → advances s s'.
Proof. intros Hn. apply adv_le. unfold cur. by rewrite Hn. Qed.

Lemma adv_trans s1 s2 s3 : advances s1 s2 → advances s2 s3 → advances s1 s3.
Proof.
  intros [H1 (l1 & W1 & S1 & F1)] [H2 (l2 & W2 & S2 & F2)]. split; [lia|].
  exists (l1 ++ l2). unfold wire_nonces in *.
  rewrite W2, W1, app_assoc, fmap_app. split; [done|].
  rewrite Forall_forall in F1, F2. split.
  - apply StronglySorted_app_2; [|done|done]. intros x y Hx Hy.
    specialize (F1 x Hx). specialize (F2 y Hy). lia.
  - apply Forall_app. split; apply Forall_forall; intros x Hx;
      [specialize (F1 x Hx)|specialize (F2 x Hx)]; lia.
Qed.

Lemma adv_resync env s : advances s (resync_nonce env s).
Proof. destruct (resync_nonce_of env s) as (m & -> & H & _). by apply adv_le. Qed.

Section Bounded.
Context (s : LiveExecutor) (Hs : 0 ≤ cur s) (Hlt : cur s + 1 < 2 ^ 64).

Lemma cur_bump : cur (bump s) = cur s + 1.
Proof. apply bump_current. unfold in_width, cur in *. lia. Qed.

Lemma adv_bump : advances s (bump s).
Proof using All. apply adv_le; [rewrite cur_bump; lia|done]. Qed.

(** A transaction sent with the reserved nonce. *)
Lemma adv_push s1 t b :
caches_only (bump s) s1 → tx_nonce t = cur s → advances s (push_wire s1 t b).
Proof using All.
intros (g & v & ->) Ht. split.
- change (cur s ≤ cur (bump s)). rewrite cur_bump. lia.
- exists [(t, b)]. split; [done|]. cbn. rewrite Ht. split; [by repeat constructor|].
apply Forall_singleton. change (cur s ≤ cur s < cur (bump s)). rewrite cur_bump. lia.
Qed.
End Bounded.

Lemma adv_gated_buy env s kol vis token f amount n :
  0 ≤ cur s → cur s + 1 < 2 ^ 64 → advances s (gated_buy env s kol vis token f amount n).
Proof.
  intros H0 H1. unfold gated_buy. pose proof (gas_wei_caches env s) as Hg.
  destruct (gas_wei env s) as [s1 g]. cbn [fst] in Hg. destruct Hg as (gc & v & ->). cbv zeta.
  destruct (check _ _ _) as [l [[]|why]]; [|by apply adv_same]. set (s2 := set_limits _ l).
  pose proof (pick_route_caches env (accepts_buy env token amount) s2 token) as Hp.
  destruct (pick_route env _ s2 token) as [s3 [r|]]; cbn [fst] in Hp;
    destruct Hp as (gc' & v' & ->); [|by apply adv_same].
  destruct (sell_tax_refuses _ _ _ _ _); [by apply adv_same|].
  set (s4 := set_caches s2 gc' v'). set (fee := Z.max _ _).
  assert (advances s s4) as H4 by (by apply adv_same).
  assert (tx_nonce (buy_tx env s4 r token amount fee) = cur s4) as Hn.
  { by destruct (buy_tx_fields env s4 r token amount fee) as (_ & -> & _). }
  apply (adv_trans _ _ _ H4).
  destruct (send_buy_cases env s4 r kol vis token amount fee)
    as [[_ ->]|(h & _ & [(_ & _ & ->)|[(_ & _ & ->)|(_ & ->)]])].
  - eapply adv_trans; [by apply adv_bump|apply adv_resync].
  - eapply adv_trans; [|apply adv_resync]. apply adv_push; try done. apply caches_refl.
  - eapply adv_trans; [by apply (adv_push s4 H0 H1 _ _ true (caches_refl _) Hn)|].
    by apply adv_same.
  - eapply adv_trans; [by apply adv_bump|]. by apply adv_same.
Qed.

Lemma adv_execute env s d vis n :
  0 ≤ cur s → cur s + 1 < 2 ^ 64 → advances s (execute env s d vis n).
Proof.
  intros H0 H1. unfold execute.
  destruct d as [| kol token amt k b t |]; try by apply adv_same.
  destruct (dup_guard s token) as [s0|] eqn:Ed; [|by apply adv_same].
  apply dup_guard_spec in Ed as [_ [p ->]].
  destruct (size_buy _ _ _ _) as [sized|]; [|by apply adv_same].
  destruct (check_blacklisted _ _); [by apply adv_same|].
  destruct (clamp_buy _ _) as [f amount].
  eapply adv_trans; [|by apply adv_gated_buy]. by apply adv_same.
Qed.

Lemma adv_approve env s token spender :
  0 ≤ cur s → cur s + 1 < 2 ^ 64 →
  advances s (submit_approve env s token spender).1 ∧
  cur (submit_approve env s token spender).1 = cur s + 1.
Proof.
  intros H0 H1. unfold submit_approve. rewrite reserve_nonce_eq.
  pose proof (gas_wei_caches env (bump s)) as Hg.
  destruct (gas_wei env (bump s)) as [s1 g]. cbn [fst] in Hg.
  assert (cur s1 = cur s + 1) as Hc
    by (destruct Hg as (gc & v & ->); by apply (cur_bump s)).
  assert (advances s s1) as Ha
    by (eapply adv_trans; [by apply adv_bump|]; destruct Hg as (gc & v & ->); by apply adv_same).
  destruct (sign env _); [|done]. destruct (broadcast_enabled _); [|done]. cbn.
  split; [by apply adv_push|done].
Qed.

Lemma adv_send_exit env s r kol token bal amount fc :
  0 ≤ cur s → cur s + 1 < 2 ^ 64 → advances s (send_exit env s r kol token bal amount fc).
Proof.
  intros H0 H1. destruct (send_exit_cases env s r kol token bal amount fc)
    as (s1 & fee & Hc & _ & Hcases).
  assert (advances s s1) as Ha
    by (eapply adv_trans; [by apply adv_bump|]; destruct Hc as (gc & v & ->); by apply adv_same).
  assert (tx_nonce (sell_tx env s r token amount fee) = cur s) as Hn
    by (unfold sell_tx; by destruct (sell_call _ _ _ _ _) as [[]]).
  assert (∀ b, advances s (push_wire s1 (sell_tx env s r token amount fee) b)) as Hpush
    by (intros b; by apply adv_push).
  destruct Hcases as [[_ ->]|(h & _ & [(_ & _ & ->)|[(_ & _ & ->)|(_ & ->)]])].
  - eapply adv_trans; [done|apply adv_resync].
  - eapply adv_trans; [apply Hpush|apply adv_resync].
  - eapply adv_trans; [apply (Hpush true)|].
    destruct (shrink_cache_frame (push_wire s1 (sell_tx env s r token amount fee) true) token fc
      bal amount) as (Hw & Hm & _). by apply adv_same.
  - eapply adv_trans; [done|]. by apply adv_same.
Qed.

Lemma adv_caches s s' : caches_only s s' → advances s s' ∧ cur s' = cur s.
Proof. intros (g & v & ->). split; [by apply adv_same|done]. Qed.

Lemma adv_exit_tail env acc s r kol token bal amount fc :
  0 ≤ cur s → cur s + 1 < 2 ^ 64 →
  advances s (let '(s', fresh) := pick_route env acc s token in
              send_exit env s' (unwrap_or fresh r) kol token bal amount fc).
Proof.
  intros H0 H1. pose proof (pick_route_caches env acc s token) as Hp.
  destruct (pick_route env acc s token) as [s' fresh]. cbn [fst] in Hp.
  destruct (adv_caches _ _ Hp) as [Ha Hc]. eapply adv_trans; [done|].
  apply adv_send_exit; lia.
Qed.

Lemma adv_exit env s token kol blk addr :
  0 ≤ cur s → cur s + 2 < 2 ^ 64 → advances s (execute_exit env s token kol blk addr).
Proof.
  intros H0 H2. unfold execute_exit. destruct (check_blacklisted _ _); [by apply adv_same|].
  cbv zeta. pose proof (exit_source_caches env s token) as Hx.
  destruct (exit_source env s token) as [s1 [[[bal r] fast]|]]; cbn [fst] in Hx;
    destruct (adv_caches _ _ Hx) as [Ha Hc]; [|done].
  destruct (negb _ && (_ =? 0)); [done|]. eapply adv_trans; [done|].
  match goal with |- context [if ?c then submit_approve env s1 token ?sp else _] =>
    destruct (adv_approve env s1 token sp ltac:(lia) ltac:(lia)) as [Hap Hcp];
    destruct c; [destruct (submit_approve env s1 token sp) as [s2 [|]];
      cbn [fst negb] in Hap, Hcp |- *|cbn [negb]]
  end.
  - eapply adv_trans; [done|]. apply adv_exit_tail; lia.
  - eapply adv_trans; [done|apply adv_resync].
  - apply adv_exit_tail; lia.
Qed.

Lemma adv_step s e : 0 ≤ cur s → cur s + 2 < 2 ^ 64 → advances s (step s e).
Proof.
  intros H0 H2. destruct e as [env d vis n|env token kol blk addr|env token id|env token id|id|l|r]; cbn.
  - apply adv_execute; lia.
  - by apply adv_exit.
  - apply adv_same; unfold bg_balance; repeat case_scrut; done.
  - unfold bg_approve. destruct (heap s !! id); [|by apply adv_same].
    destruct (_ && _); [|by apply adv_same]. rewrite reserve_nonce_eq.
    destruct (sign env _); [|apply adv_bump; lia].
    apply adv_push; try lia; [apply caches_refl|done].
  - apply adv_same; unfold bg_approved; repeat case_scrut; done.
  - by apply adv_same.
  - apply adv_same; unfold refresh_wallet; repeat case_scrut; done.
Qed.

(** ** What an exit sells *)

(** The amount of [token] an accepted transaction sells. *)
Definition sold_of (token : Address) (p : Tx * bool) : Z :=
  if p.2 then
    match tx_call p.1 with
    | swapExactTokensForETH a _ (x :: _) _ _ => if decide (x = token) then a else 0
    | sellToken x a => if decide (x = token) then a else 0
    | _ => 0
    end
  else 0.
Definition total_sold (token : Address) (s : LiveExecutor) : Z := sum_by (sold_of token) (wire s).

(** [s'] has the positions of [s], and either the same entries and sales, or
    the sale of [amount] of [tk] with the cache updated for it. *)
Definition exit_effect (s s' : LiveExecutor) (tk : Address) (fc : bool) (bal amount : Z) : Prop :=
  positions s' = positions s ∧
  ((heap s' = heap s ∧ ∀ token, total_sold token s' = total_sold token s) ∨
   (heap s' = heap (shrink_cache s tk fc bal amount) ∧
    ∀ token, total_sold token s' = total_sold token s + if decide (tk = token) then amount else 0)).

Definition no_sale (s s' : LiveExecutor) : Prop :=
  positions s' = positions s ∧ heap s' = heap s ∧
  ∀ token, total_sold token s' = total_sold token s.

Lemma no_sale_caches s s' : caches_only s s' → no_sale s s'.
Proof. by intros (g & v & ->). Qed.

Lemma no_sale_trans s1 s2 s3 : no_sale s1 s2 → no_sale s2 s3 → no_sale s1 s3.
Proof.
  intros (P1 & H1 & T1) (P2 & H2 & T2). split_and!; [congruence..|].
  intros token. by rewrite T2, T1.
Qed.

Lemma no_sale_resync env s : no_sale s (resync_nonce env s).
Proof. by destruct (resync_nonce_of env s) as (m & -> & _). Qed.

Lemma no_sale_push s t b : (∀ token, sold_of token (t, b) = 0) → no_sale s (push_wire s t b).
Proof.
  intros H. split_and!; try done. intros token. unfold total_sold. cbn [push_wire wire].
  rewrite sum_by_app, sum_by_cons, H. cbn. lia.
Qed.

Lemma exit_effect_pre s0 s s' tk fc bal amount :
  no_sale s0 s → exit_effect s s' tk fc bal amount → exit_effect s0 s' tk fc bal amount.
Proof.
  intros (P1 & H1 & T1) [P2 H2]. split; [congruence|].
  destruct H2 as [[Hh Ht]|[Hh Ht]]; [left|right].
  - split; [congruence|]. intros token. by rewrite Ht, T1.
  - split; [|intros token; by rewrite Ht, T1].
    rewrite Hh. unfold shrink_cache, entry_of. rewrite P1, H1.
    destruct (positions s0 !! tk) as [i|]; cbn; [|done].
    destruct (heap s0 !! i); cbn; by rewrite ?P1, ?H1.
Qed.

Lemma sell_tx_sold env s r token amount fee tk :
  sold_of tk (sell_tx env s r token amount fee, true) = if decide (token = tk) then amount else 0.
Proof. unfold sell_tx. by destruct r. Qed.

Lemma send_exit_effect env s r kol tk bal amount fc :
  exit_effect s (send_exit env s r kol tk bal amount fc) tk fc bal amount.
Proof.
  destruct (send_exit_cases env s r kol tk bal amount fc)
    as (s1 & fee & Hc & _ & Hcases).
  assert (no_sale s s1) as H1
    by (apply (no_sale_trans _ (bump s)); [done|by apply no_sale_caches]).
  assert (∀ s', no_sale s1 s' → exit_effect s s' tk fc bal amount) as Hno.
  { intros s' H'. destruct (no_sale_trans _ _ _ H1 H') as (? & ? & ?). split; [done|]. by left. }
  destruct Hcases as [[_ ->]|(h & _ & [(_ & _ & ->)|[(_ & _ & ->)|(_ & ->)]])].
  - apply Hno, no_sale_resync.
  - apply Hno. apply (no_sale_trans _ (push_wire s1 (sell_tx env s r tk amount fee) false));
      [by apply no_sale_push|apply no_sale_resync].
  - apply (exit_effect_pre s s1); [done|].
    set (t := sell_tx env s r tk amount fee).
    destruct (shrink_cache_frame (push_wire s1 t true) tk fc bal amount) as (Hw & _ & Hp & _).
    split; [exact Hp|]. right. split.
    + cbn. unfold shrink_cache, entry_of. cbn. destruct (positions s1 !! tk); cbn; [|done].
      by destruct (heap s1 !! n).
    + intros token. unfold total_sold. cbn [record_exit log_row set_ledger wire]. rewrite Hw.
      cbn [push_wire wire]. rewrite sum_by_app, sum_by_cons. unfold t. rewrite sell_tx_sold.
      cbn. lia.
  - by apply Hno.
Qed.

Lemma no_sale_approve env s token spender : no_sale s (submit_approve env s token spender).1.
Proof.
  unfold submit_approve. rewrite reserve_nonce_eq.
  pose proof (gas_wei_caches env (bump s)) as Hg.
  destruct (gas_wei env (bump s)) as [s1 g]. cbn [fst] in Hg.
  assert (no_sale s s1) as H1 by (apply (no_sale_trans _ (bump s)); [done|by apply no_sale_caches]).
  destruct (sign env _); [|done]. destruct (broadcast_enabled _); [|done].
  eapply no_sale_trans; [done|]. apply no_sale_push. intros tk. unfold sold_of. cbn.
  by destruct (send_ok env _).
Qed.

Lemma exit_tail_effect env acc s r kol tk bal amount fc :
  exit_effect s (let '(s', fresh) := pick_route env acc s tk in
                 send_exit env s' (unwrap_or fresh r) kol tk bal amount fc) tk fc bal amount.
Proof.
  pose proof (pick_route_caches env acc s tk) as Hp.
  destruct (pick_route env acc s tk) as [s' fresh]. cbn [fst] in Hp.
  eapply exit_effect_pre; [by apply no_sale_caches|]. apply send_exit_effect.
Qed.

(** The size of an exit of [bal]. *)
Definition exit_amount (env : Env) (token : Address) (blk : Z) (addr : Address) (bal : Z) : Z :=
  let fraction := unwrap_or (kol_sell_fraction (balance_of_at env) addr token blk) f1 in
  if fge fraction FULL_CLOSE then bal else scale_u256_by_fraction bal fraction.

Lemma exit_amount_le env token blk addr bal :
  0 ≤ bal → 0 ≤ exit_amount env token blk addr bal ≤ bal.
Proof. intros H. unfold exit_amount. case_scrut; [lia|by apply scale_u256_le]. Qed.

Lemma execute_exit_effect env s token kol blk addr :
  (no_sale s (execute_exit env s token kol blk addr)) ∨
  ∃ bal r fast fc, (exit_source env s token).2 = Some (bal, r, fast) ∧
    (fc = true → exit_amount env token blk addr bal = bal) ∧
    exit_effect s (execute_exit env s token kol blk addr) token fc bal
      (exit_amount env token blk addr bal).
Proof.
  unfold execute_exit. destruct (check_blacklisted _ _); [by left|]. cbv zeta.
  unfold exit_amount. set (fr := unwrap_or (kol_sell_fraction _ _ _ _) f1).
  pose proof (exit_source_caches env s token) as Hx.
  destruct (exit_source env s token) as [s1 [[[bal r] fast]|]]; cbn [fst snd] in Hx |- *;
    apply no_sale_caches in Hx; [|by left].
  destruct (negb _ && (_ =? 0)); [by left|].
  match goal with |- context [if ?c then submit_approve env s1 token ?sp else _] =>
    pose proof (no_sale_approve env s1 token sp) as Ha;
    destruct c; [destruct (submit_approve env s1 token sp) as [s2 [|]]; cbn [fst negb] in Ha |- *|cbn [negb]]
  end.
  - right. exists bal, r, fast, (fge fr FULL_CLOSE). split; [done|]. split; [by intros ->|].
    eapply exit_effect_pre; [by eapply no_sale_trans|]. apply exit_tail_effect.
  - left. eapply no_sale_trans; [by eapply no_sale_trans|]. apply no_sale_resync.
  - right. exists bal, r, fast, (fge fr FULL_CLOSE). split; [done|]. split; [by intros ->|].
    eapply exit_effect_pre; [done|]. apply exit_tail_effect.
Qed.

(** *** One exit, seen from one ready position *)

(** The position of [token] is entry [id], approved, holding [t] tokens. *)
Definition ready (s : LiveExecutor) (token : Address) (id : nat) (t : U256) : Prop :=
  ∃ e, entry_of s token = Some (id, e) ∧ approved e = true ∧ tokens_bought e = t.

Lemma ready_same s s' token id t :
  positions s' = positions s → heap s' !! id = heap s !! id → ready s token id t → ready s' token id t.
Proof.
  intros Hp Hh (e & He & Ha & Ht). exists e. split_and!; try done.
  apply entry_of_Some in He as [? ?]. apply entry_of_Some. by rewrite Hp, Hh.
Qed.

Lemma exit_source_ready env s token id t :
  ready s token id t →
  (exit_source env s token).2 =
    if t =? 0 then None else
      match heap s !! id with Some e => Some (t, route e, true) | None => None end.
Proof.
  intros (e & He & Ha & <-). unfold exit_source. rewrite He, Ha.
  apply entry_of_Some in He as [_ ->]. by destruct (tokens_bought e =? 0).
Qed.

Lemma shrink_other s tk fc bal amount token id t :
  store_ok s → tk ≠ token → ready s token id t →
  heap (shrink_cache s tk fc bal amount) !! id = heap s !! id.
Proof.
  intros Hok Hne (e & He & _). apply entry_of_Some in He as [Hp _].
  unfold shrink_cache. destruct (entry_of s tk) as [[i e']|] eqn:E; [|done].
  apply entry_of_Some in E as [Hp' _]. cbn. apply lookup_insert_ne. intros ->.
  apply Hne. by eapply so_inj.
Qed.

(** An exit of any token keeps the position ready and moves tokens from the
    cache to the sales one for one. *)
Lemma exit_conserves env s tk kol blk addr token id t :
  store_ok s → ready s token id t → 0 ≤ t →
  ∃ t', ready (execute_exit env s tk kol blk addr) token id t' ∧ 0 ≤ t' ≤ t ∧
    total_sold token (execute_exit env s tk kol blk addr) + t' = total_sold token s + t.
Proof.
  intros Hok Hr Ht. set (s' := execute_exit env s tk kol blk addr).
  destruct (execute_exit_effect env s tk kol blk addr)
    as [(Hp & Hh & Hsold)|(bal & r & fast & fc & Hsrc & Hfc & Hp & [[Hh Hsold]|[Hh Hsold]])];
    fold s' in Hp, Hh, Hsold |- *.
  - exists t. split; [|by rewrite Hsold]. apply (ready_same s); [done|by rewrite Hh|done].
  - exists t. split; [|by rewrite Hsold]. apply (ready_same s); [done|by rewrite Hh|done].
  - set (amount := exit_amount env tk blk addr bal) in *.
    destruct (decide (tk = token)) as [->|Hne].
    + rewrite (exit_source_ready env s token id t Hr) in Hsrc.
      destruct (Z.eqb_spec t 0); [done|].
      destruct Hr as (e & He & Ha & Hte). pose proof He as He'.
      apply entry_of_Some in He' as [Hpe Hhe]. rewrite Hhe in Hsrc.
      injection Hsrc as <- <- <-.
      pose proof (exit_amount_le env token blk addr t Ht) as Hle. fold amount in Hle.
      exists (t - amount). rewrite Hsold, decide_True by done. split; [|lia].
      exists (with_tokens e (t - amount)). split_and!; [|done|done].
      apply entry_of_Some. rewrite Hp. split; [done|]. rewrite Hh.
      unfold shrink_cache. rewrite He. cbn. rewrite lookup_insert_eq. do 2 f_equal.
      destruct fc; [rewrite (Hfc eq_refl); lia|]. by apply saturating_sub_spec.
    + exists t. rewrite Hsold, decide_False by done. split; [|lia].
      apply (ready_same s); [done| |done]. rewrite Hh. by eapply shrink_other.
Qed.

(** A buy that reached the relays went through every gate. *)
Lemma execute_sends env s d vis n :
  wire (execute env s d vis n) ≠ wire s →
  ∃ kol token amt kin blk h sized t ok, d = Enter kol token amt kin blk h ∧
    not_holding s token ∧ check_blacklisted (blacklist s) token = false ∧
    size_buy env (strategy (cfg (limits_rt s))) vis amt = Some sized ∧
    let '(f, amount) := clamp_buy (buy_cap s) sized in
    buy_gates env s kol vis token f amount n t ∧
    kol ∈ whitelist (limits_rt s) ∧ fgt f (buy_cap s) = false ∧
    n < max_open_positions (limits (cfg (limits_rt s))) ∧
    ok = send_ok env t ∧ wire (execute env s d vis n) = wire s ++ [(t, ok)].
Proof.
  unfold execute. destruct d as [| kol token amt kin blk h |]; try done.
  destruct (dup_guard s token) as [s0|] eqn:Ed; [|done].
  apply dup_guard_spec in Ed as [Hnh [p ->]]. set (s0 := set_positions s p _ _).
  destruct (size_buy env (strategy (cfg (limits_rt s0))) vis amt) as [sized|] eqn:Es; [|done].
  destruct (check_blacklisted (blacklist s0) token) eqn:Eb; [done|].
  destruct (clamp_buy (buy_cap s0) sized) as [f amount] eqn:Ec.
  intros Hw. destruct (gated_buy_sends env s0 kol vis token f amount n Hw)
    as (t & ok & Hwire & Hok & Hg).
  exists kol, token, amt, kin, blk, h, sized, t, ok.
  change (buy_cap s) with (buy_cap s0). rewrite Ec.
  destruct (bg_limits _ _ _ _ _ _ _ _ _ Hg) as [gwei Hl].
  cbn in Hl. apply gate_ok in Hl as (_ & _ & Hwl & _ & Hcap & Hopen & _).
  rewrite maybe_reset_cfg in Hcap, Hopen.
  split_and!; try done; [by destruct Hg|].
  clear -Hwl. unfold maybe_reset_day in Hwl. by case_scrut_in Hwl.
Qed.

(** *** A buy, when everything answers *)

(** What it takes: the guards pass, the node answers and the relays accept. *)
Record willing (env : Env) (s : LiveExecutor) (kol vis : string) (token : Address)
    (amt n : Z) (amount : U256) : Prop := {
  wi_free : not_holding s token;
  wi_listed : check_blacklisted (blacklist s) token = false;
  wi_limits : ∃ sized f, size_buy env (strategy (cfg (limits_rt s))) vis amt = Some sized ∧
    clamp_buy (buy_cap s) sized = (f, amount) ∧
    let fee := Z.max (unwrap_or (gas_wei env s).2 (umax 128)) BUY_GAS_FLOOR in
    (check (now_ms env) (limits_rt s)
      {| t_kol_name := kol; t_visibility := vis; t_bnb_amount := f; t_current_open_positions := n;
         t_current_wallet_bnb := wallet_bnb_cache s;
         t_current_gas_gwei := wrap 64 (fee / 1000000000) |}).2 = Ok tt;
  wi_route : accepts_buy env token amount = true;
  wi_tax : ∀ tax, implied_sell_tax_bps_v2 (tax_quote env) token amount = Some tax →
    tax ≤ max_sell_tax_bps (tokens (cfg (limits_rt s)));
  wi_enabled : broadcast_enabled (limits_rt s) = true;
  wi_sign : ∀ tx, is_Some (sign env tx);
  wi_send : ∀ tx, send_ok env tx = true;
}.

Lemma dup_guard_free s token :
  not_holding s token → ∃ p, dup_guard s token = Some (set_positions s p (heap s) (next_entry s)).
Proof.
  unfold dup_guard, not_holding. destruct (entry_of s token) as [[id e]|].
  - intros [-> ->]. cbn. by eexists.
  - intros _. exists (positions s). by destruct s.
Qed.

Lemma pick_route_accepted env s token : ∃ s' r, pick_route env true s token = (s', Some r).
Proof. unfold pick_route. destruct (v2_pair_cached env s token) as [s' [?|]]; eauto. Qed.

Lemma sell_tax_passes env s r token amount :
  (∀ tax, implied_sell_tax_bps_v2 (tax_quote env) token amount = Some tax →
     tax ≤ max_sell_tax_bps (tokens (cfg (limits_rt s)))) →
  sell_tax_refuses env s r token amount = None.
Proof.
  intros H. destruct r; [|done]. unfold sell_tax_refuses.
  destruct (implied_sell_tax_bps_v2 _ _ _) as [tax|]; [|done]. cbn. specialize (H tax eq_refl).
  by rewrite (proj2 (Z.ltb_ge _ _)) by lia.
Qed.

Lemma send_buy_goes_out env s r kol vis token amount fee :
  broadcast_enabled (limits_rt s) = true → (∀ tx, is_Some (sign env tx)) → (∀ tx, send_ok env tx = true) →
  let t := buy_tx env s r token amount fee in
  let s' := send_buy env s r kol vis token amount fee in
  wire s' = wire s ++ [(t, true)] ∧
  entry_of s' token = Some (next_entry s,
    {| route := r; tokens_bought := 0; entry_bnb_in := amount; approved := false; opened_at := instant_ms env |}).
Proof.
  intros He Hsig Hsend. cbv zeta. set (t := buy_tx env s r token amount fee). destruct (Hsig t) as [h Hh].
  destruct (send_buy_cases env s r kol vis token amount fee)
    as [[Hn _]|(h' & _ & [(_ & Hk & _)|[(_ & _ & ->)|(Hk & _)]])];
    [unfold t in Hh; congruence|by rewrite Hsend in Hk| |congruence].
  split; [done|]. unfold entry_of. cbn. by rewrite lookup_insert_eq; cbn; rewrite lookup_insert_eq.
Qed.

(** Then the buy goes out, and its position is open. *)
Lemma willing_buys env s kol vis token amt n amount kin blk h :
  willing env s kol vis token amt n amount →
  let s' := execute env s (Enter kol token amt kin blk h) vis n in
  ∃ s0 r fee id, wire s' = wire s ++ [(buy_tx env s0 r token amount fee, true)] ∧
    Nonce.current (nonce s0) = Nonce.current (nonce s) ∧
    entry_of s' token = Some (id,
      {| route := r; tokens_bought := 0; entry_bnb_in := amount; approved := false; opened_at := instant_ms env |}).
Proof.
  intros [Hf Hl (sized & f & Hsz & Hcl & Hchk) Hrt Htx Hen Hsig Hsend]. cbv zeta.
  destruct (dup_guard_free s token Hf) as [p Hp]. unfold execute. rewrite Hp.
  set (s0 := set_positions s p _ _). change (limits_rt s0) with (limits_rt s).
  change (blacklist s0) with (blacklist s). change (buy_cap s0) with (buy_cap s).
  rewrite Hsz, Hl, Hcl. unfold gated_buy.
  pose proof (gas_wei_caches env s0) as Hg.
  assert ((gas_wei env s0).2 = (gas_wei env s).2) as Hsame
    by (unfold gas_wei; change (gas_cache s0) with (gas_cache s); by repeat case_scrut).
  rewrite <- Hsame in Hchk. destruct (gas_wei env s0) as [s1 g]. cbn [fst snd] in Hg, Hchk.
  destruct Hg as (gc & v & ->). cbv zeta in Hchk |- *.
  set (fee := Z.max _ BUY_GAS_FLOOR) in *. set (s1 := set_caches s0 gc v) in *.
  change (limits_rt s1) with (limits_rt s). change (wallet_bnb_cache s1) with (wallet_bnb_cache s).
  destruct (check _ _ _) as [l res] eqn:Ec. cbn [snd] in Hchk. subst res.
  assert (cfg l = cfg (limits_rt s)) as Hcfg.
  { apply (f_equal (λ p, cfg p.1)) in Ec. cbn in Ec. by rewrite maybe_reset_cfg in Ec. }
  rewrite Hrt. destruct (pick_route_accepted env (set_limits s1 l) token) as (s2 & r & Hr).
  pose proof (pick_route_caches env true (set_limits s1 l) token) as Hc. rewrite Hr in Hc |- *.
  cbn [fst] in Hc. destruct Hc as (gc' & v' & ->). set (s2 := set_caches _ gc' v').
  rewrite sell_tax_passes by (change (limits_rt s2) with l; by rewrite Hcfg).
  destruct (send_buy_goes_out env s2 r kol vis token amount fee) as [Hw He]; [|done|done|].
  { unfold broadcast_enabled in *. change (limits_rt s2) with l. by rewrite Hcfg. }
  exists s2, r, fee, (next_entry s2). by split_and!.
Qed.

(** *** A ready position's exit, when everything answers *)

Lemma send_exit_sells env s r kol tk bal amount fc :
  broadcast_enabled (limits_rt s) = true →
  (∀ tx, is_Some (sign env tx)) → (∀ tx, send_ok env tx = true) →
  total_sold tk (send_exit env s r kol tk bal amount fc) = total_sold tk s + amount.
Proof.
  intros He Hsig Hsend. destruct (send_exit_cases env s r kol tk bal amount fc)
    as (s1 & fee & (gc & v & ->) & _ & Hcases).
  destruct Hcases as [[Hn _]|(h & _ & [(_ & Hk & _)|[(_ & _ & ->)|(Hk & _)]])].
  - destruct (Hsig (sell_tx env s r tk amount fee)). congruence.
  - by rewrite Hsend in Hk.
  - set (t := sell_tx env s r tk amount fee).
    destruct (shrink_cache_frame (push_wire (set_caches (bump s) gc v) t true) tk fc bal amount)
      as (Hw & _). unfold total_sold. cbn [record_exit log_row set_ledger wire].
    rewrite Hw. cbn [push_wire wire]. rewrite sum_by_app, sum_by_cons. unfold t.
    rewrite sell_tx_sold, decide_True by done. 
    change (wire (set_caches (bump s) gc v)) with (wire s).
    change (sum_by (sold_of tk) []) with 0. lia.
  - congruence.
Qed.

(** The exit sells the KOL's fraction of the position, and keeps the rest. *)
Lemma ready_exit_sells env s token kol blk addr id t :
  store_ok s → ready s token id t → 0 < t → check_blacklisted (blacklist s) token = false →
  broadcast_enabled (limits_rt s) = true →
  (∀ tx, is_Some (sign env tx)) → (∀ tx, send_ok env tx = true) →
  total_sold token (execute_exit env s token kol blk addr) =
    total_sold token s + exit_amount env token blk addr t ∧
  ready (execute_exit env s token kol blk addr) token id (t - exit_amount env token blk addr t).
Proof.
  intros Hok Hr Ht Hb He Hsig Hsend. set (s' := execute_exit env s token kol blk addr).
  assert (total_sold token s' = total_sold token s + exit_amount env token blk addr t) as Hsold.
  { unfold s', execute_exit. rewrite Hb. cbv zeta. unfold exit_amount.
    set (fr := unwrap_or (kol_sell_fraction _ _ _ _) f1).
    pose proof (exit_source_ready env s token id t Hr) as Hx.
    pose proof (exit_source_caches env s token) as (gc & v & Hs1).
    destruct (exit_source env s token) as [s1 src]. cbn [fst snd] in Hx, Hs1. subst s1.
    destruct Hr as (e & Hent & _). apply entry_of_Some in Hent as [_ Hheap]. rewrite Hheap in Hx.
    destruct (Z.eqb_spec t 0); [lia|]. subst src. cbn [negb andb].
    destruct (negb (fge fr FULL_CLOSE)) eqn:Ef; cbn [andb].
    - apply negb_true_iff in Ef. rewrite Ef. cbn [negb].
      destruct (Z.eqb_spec (scale_u256_by_fraction t fr) 0) as [->|Hne]; [change (total_sold token s = total_sold token s + 0); lia|].
      pose proof (pick_route_caches env (accepts_resell env token) (set_caches s gc v) token)
        as (gc' & v' & Hp).
      destruct (pick_route _ _ _ _) as [s2 fresh]. cbn [fst] in Hp. subst s2.
      rewrite send_exit_sells by done. done.
    - apply negb_false_iff in Ef. rewrite Ef. cbn [negb].
      pose proof (pick_route_caches env (accepts_resell env token) (set_caches s gc v) token)
        as (gc' & v' & Hp).
      destruct (pick_route _ _ _ _) as [s2 fresh]. cbn [fst] in Hp. subst s2.
      rewrite send_exit_sells by done. done. }
  split; [done|]. destruct (exit_conserves env s token kol blk addr token id t Hok Hr ltac:(lia))
    as (t' & Hr' & _ & Hsum). fold s' in Hr', Hsum.
  replace (t - exit_amount env token blk addr t) with t' by lia. exact Hr'.
Qed.

(** ** Properties *)

(** [C7] A buy reaches the relays only through every gate.  If [execute] hands
    a transaction over, the decision is an entry, broadcasting is enabled, the
    token is neither held nor blacklisted, the limits check passed on the
    sized and clamped amount (so: not halted, KOL whitelisted, size within the
    cap, open positions below the maximum), a V2 token's estimated tax is
    within the maximum, and exactly one transaction was appended, for that
    amount, with the counter's nonce, BSC's chain id, and at least 10 gwei. *)
Theorem buy_passes_every_gate env s d vis n :
  wire (execute env s d vis n) ≠ wire s →
  ∃ kol token amt kin blk h sized t ok, d = Enter kol token amt kin blk h ∧
    not_holding s token ∧ check_blacklisted (blacklist s) token = false ∧
    size_buy env (strategy (cfg (limits_rt s))) vis amt = Some sized ∧
    let '(f, amount) := clamp_buy (buy_cap s) sized in
    buy_gates env s kol vis token f amount n t ∧
    kol ∈ whitelist (limits_rt s) ∧ fgt f (buy_cap s) = false ∧
    n < max_open_positions (limits (cfg (limits_rt s))) ∧
    ok = send_ok env t ∧ wire (execute env s d vis n) = wire s ++ [(t, ok)].
Proof. apply execute_sends. Qed.

(** The clamp makes the cap gate dead: no buy is ever refused, and logged,
    for exceeding the per-trade cap. *)
Theorem cap_gate_unreachable env s d vis n e :
  e ∈ rows (ledger (execute env s d vis n)) →
  e ∈ rows (ledger s) ∨ le_skip e ≠ Some "per_trade_cap"%string.
Proof.
  assert (∀ l e', e ∈ l ++ [e'] → le_skip e' ≠ Some "per_trade_cap"%string →
    e ∈ l ∨ le_skip e ≠ Some "per_trade_cap"%string) as Hsnoc.
  { intros l e' [?| ->%list_elem_of_singleton]%elem_of_app; auto. }
  unfold execute. destruct d as [| kol token amt kin blk h |]; try by left.
  destruct (dup_guard s token) as [s0|] eqn:Ed; [|by left].
  apply dup_guard_spec in Ed as [_ [p ->]]. set (s0 := set_positions s p _ _).
  destruct (size_buy _ _ _ _) as [sized|]; [|by left].
  destruct (check_blacklisted _ _). { intros He. eapply (Hsnoc (rows (ledger s))); [exact He|cbn; discriminate]. }
  destruct (clamp_buy (buy_cap s0) sized) as [f amount] eqn:Ec.
  assert (fgt f (buy_cap s0) = false) as Hf.
  { unfold clamp_buy in Ec. destruct (fgt _ _) eqn:Eg in Ec; injection Ec as <- <-; [|done].
    apply flt_irrefl. }
  unfold gated_buy. pose proof (gas_wei_caches env s0) as Hg.
  destruct (gas_wei env s0) as [s1 g]. cbn [fst] in Hg. destruct Hg as (gc & v & ->). cbv zeta.
  destruct (check _ _ _) as [l [[]|why]] eqn:Echk.
  2: { intros He. eapply (Hsnoc (rows (ledger s))); [exact He|]. cbn. intros [= Hl].
    destruct why; try done. apply (f_equal snd) in Echk. cbn in Echk.
    unfold gate in Echk. rewrite maybe_reset_cfg in Echk. cbn in Echk.
    change (effective_per_trade_max_bnb _ _) with (buy_cap s0) in Echk.
    rewrite Hf in Echk. repeat (case_scrut_in Echk; try done). }
  set (s2 := set_limits _ l).
  pose proof (pick_route_caches env (accepts_buy env token amount) s2 token) as Hp.
  destruct (pick_route env _ s2 token) as [s3 [r|]]; cbn [fst] in Hp;
    destruct Hp as (gc' & v' & ->).
  2: { intros He. eapply (Hsnoc (rows (ledger s))); [exact He|cbn; discriminate]. }
  destruct (sell_tax_refuses _ _ _ _ _).
  { intros He. eapply (Hsnoc (rows (ledger s))); [exact He|cbn; discriminate]. }
  set (s4 := set_caches s2 gc' v'). set (fee := Z.max _ _).
  destruct (send_buy_cases env s4 r kol vis token amount fee)
    as [[_ ->]|(hh & _ & [(_ & _ & ->)|[(_ & _ & ->)|(_ & ->)]])].
  - destruct (resync_nonce_of env (bump s4)) as (m & -> & _). by left.
  - destruct (resync_nonce_of env (push_wire (bump s4) (buy_tx env s4 r token amount fee) false))
      as (m & -> & _). by left.
  - intros He. eapply (Hsnoc (rows (ledger s))); [exact He|cbn; discriminate].
  - intros He. eapply (Hsnoc (rows (ledger s))); [exact He|cbn; discriminate].
Qed.

(** No nonce is sent twice.  Over any history of buys, exits, background
    tasks and losses, while the counter stays in 64 bits, the nonces of the
    transactions handed to the relays are strictly increasing. *)
Theorem wire_nonces_increase me nm l led bl es :
  0 ≤ Nonce.current nm →
  (∀ k, cur (run (LiveExecutor_new me nm l led bl) (take k es)) + 2 < 2 ^ 64) →
  StronglySorted Z.lt (wire_nonces (wire (run (LiveExecutor_new me nm l led bl) es))).
Proof.
  intros H0 Hb. set (s := LiveExecutor_new me nm l led bl) in *.
  assert (advances s (run s es)) as [_ (w & -> & Hs & _)]; [|by cbn].
  assert (0 ≤ cur s) as Hs by done. clearbody s. clear H0. revert s Hs Hb.
  induction es as [|e es IH]; intros s Hs Hb; [by apply adv_same|].
  assert (advances s (step s e)) as Ha by (apply adv_step; [done|exact (Hb 0%nat)]).
  pose proof (adv_cur _ _ Ha). eapply adv_trans; [done|].
  apply (IH (step s e)); [lia|]. intros k. exact (Hb (S k)).
Qed.

(** Exits never oversell.  From a consistent store with a ready position
    of [t] tokens, over any sequence of exits of any tokens, whatever the node
    answers: the position stays ready, what the accepted exits sold of the
    token plus what the cache still holds is always [t]. *)
Theorem exits_never_oversell s token id t es :
  store_ok s → ready s token id t → 0 ≤ t →
  (∀ e, e ∈ es → ∃ env tk kol blk addr, e = EvExit env tk kol blk addr) →
  ∃ left, ready (run s es) token id left ∧ 0 ≤ left ≤ t ∧
    (total_sold token (run s es) - total_sold token s) + left = t.
Proof.
  revert s t. induction es as [|e es IH]; intros s t Hok Hr Ht He.
  { exists t. split; [done|]. cbn. lia. }
  destruct (He e) as (env & tk & kol & blk & addr & ->); [set_solver|].
  destruct (exit_conserves env s tk kol blk addr token id t Hok Hr Ht) as (t1 & Hr1 & Hb1 & Hs1).
  destruct (IH (execute_exit env s tk kol blk addr) t1) as (t2 & Hr2 & Hb2 & Hs2).
  - apply (steady_exit store_ok store_ok_steady). done.
  - done.
  - lia.
  - set_solver.
  - exists t2. split; [exact Hr2|]. cbn. unfold run in *. lia.
Qed.

(** A fully exited position is inert: a further exit of the token, from
    whatever signal, changes nothing at all. *)
Theorem full_exit_is_final env s token id kol blk addr :
  ready s token id 0 → execute_exit env s token kol blk addr = s.
Proof.
  intros Hr. unfold execute_exit. destruct (check_blacklisted _ _); [done|]. cbv zeta.
  pose proof (exit_source_ready env s token id 0 Hr) as Hx.
  assert ((exit_source env s token).1 = s) as H1.
  { destruct Hr as (e & He & Ha & Ht). unfold exit_source. by rewrite He, Ht, Ha. }
  destruct (exit_source env s token) as [s1 src]. cbn in Hx, H1. by rewrite Hx, H1.
Qed.


(** Positions bought on V2 never become ready: over any history from
    start-up, no entry of the V2 route is ever marked approved, so every exit
    of such a position takes the slow path and none is ever recognised as
    fully exited. *)
Theorem v2_positions_never_approved me nm l led bl es :
  v2_unapproved (run (LiveExecutor_new me nm l led bl) es).
Proof. apply (steady_run _ v2_unapproved_steady). by intros id e ?. Qed.

(** *** The open-position counter *)

(** Nothing sold and nothing recorded, or one row and one close. *)
Definition exit_ledger (s s' : LiveExecutor) : Prop :=
  (ledger s' = ledger s ∧ ∀ tk, total_sold tk s' = total_sold tk s) ∨
  ∃ row, ledger s' = record_closed (append (ledger s) row).

Lemma exit_ledger_pre s0 s s' :
  ledger s = ledger s0 → (∀ tk, total_sold tk s = total_sold tk s0) →
  exit_ledger s s' → exit_ledger s0 s'.
Proof.
  intros Hl Ht [[H1 H2]|[row H]]; [left|right].
  - split; [congruence|]. intros tk. by rewrite H2, Ht.
  - exists row. by rewrite H, Hl.
Qed.

Lemma send_exit_ledger env s r kol token bal amount fc :
  exit_ledger s (send_exit env s r kol token bal amount fc).
Proof.
  destruct (send_exit_cases env s r kol token bal amount fc)
    as (s1 & fee & (gc & v & ->) & _ & Hcases).
  destruct Hcases as [[_ ->]|(h & _ & [(_ & _ & ->)|[(_ & _ & ->)|(_ & ->)]])].
  - destruct (resync_nonce_of env (set_caches (bump s) gc v)) as (m & -> & _). by left.
  - left. set (s2 := push_wire _ _ false).
    destruct (resync_nonce_of env s2) as (m & -> & _). split; [done|].
    assert (no_sale (set_caches (bump s) gc v) s2) as (_ & _ & H) by (by apply no_sale_push).
    exact H.
  - right. set (s2 := push_wire _ _ true).
    destruct (shrink_cache_frame s2 token fc bal amount) as (_ & _ & _ & _ & _ & Hl).
    eexists. cbn [record_exit log_row set_ledger ledger]. rewrite Hl. reflexivity.
  - right. by eexists.
Qed.

Lemma exit_tail_ledger env acc s r kol tk bal amount fc :
  exit_ledger s (let '(s', fresh) := pick_route env acc s tk in
                 send_exit env s' (unwrap_or fresh r) kol tk bal amount fc).
Proof.
  pose proof (pick_route_caches env acc s tk) as (gc & v & Hp).
  destruct (pick_route env acc s tk) as [s' fresh]. cbn [fst] in Hp. subst s'.
  apply (exit_ledger_pre s (set_caches s gc v)); [done|done|apply send_exit_ledger].
Qed.

Lemma approve_ledger env s token spender :
  ledger (submit_approve env s token spender).1 = ledger s.
Proof.
  unfold submit_approve. rewrite reserve_nonce_eq.
  destruct (gas_wei_caches env (bump s)) as (gc & v & Hg).
  destruct (gas_wei env (bump s)) as [s1 g]. cbn [fst] in Hg. subst s1.
  destruct (sign env _); [|done]. by destruct (broadcast_enabled _).
Qed.

Lemma resync_ledger env s : exit_ledger s (resync_nonce env s).
Proof. destruct (resync_nonce_of env s) as (m & -> & _). by left. Qed.

Lemma execute_exit_ledger env s token kol blk addr :
  exit_ledger s (execute_exit env s token kol blk addr).
Proof.
  unfold execute_exit. destruct (check_blacklisted _ _); [by left|]. cbv zeta.
  pose proof (exit_source_caches env s token) as (gc & v & Hx).
  destruct (exit_source env s token) as [s1 [[[bal r] fast]|]]; cbn [fst] in Hx; subst s1; [|by left].
  destruct (negb _ && (_ =? 0)); [by left|]. apply (exit_ledger_pre s (set_caches s gc v)); [done..|].
  match goal with |- context [if ?c then submit_approve env ?s1 token ?sp else _] =>
    pose proof (no_sale_approve env s1 token sp) as (_ & _ & Ha);
    pose proof (approve_ledger env s1 token sp) as Hl;
    destruct c; [destruct (submit_approve env s1 token sp) as [s2 [|]]; cbn [fst negb] in Ha, Hl |- *|cbn [negb]]
  end.
  - eapply exit_ledger_pre; [exact Hl|exact Ha|]. apply exit_tail_ledger.
  - eapply exit_ledger_pre; [exact Hl|exact Ha|]. apply resync_ledger.
  - apply exit_tail_ledger.
Qed.

(** Every exit counts as a close.  An exit that sells anything takes one
    off the open-position counter (not below zero), also when it is partial
    and the position stays open with tokens left. *)
Theorem partial_exit_counts_as_close env s token kol blk addr :
  total_sold token (execute_exit env s token kol blk addr) ≠ total_sold token s →
  open_count (ledger (execute_exit env s token kol blk addr)) =
    Z.max 0 (open_count (ledger s) - 1).
Proof.
  intros Hne. destruct (execute_exit_ledger env s token kol blk addr) as [[_ H]|[row ->]].
  - by rewrite H in Hne.
  - cbn. unfold sat_sub. lia.
Qed.

(** The re-validated route bypasses the allowance.  A position bought and
    approved on the bonding curve whose token has since got a V2 pair: a full
    exit takes the fast path, which does not look at allowances, and then
    switches to V2.  It sends one swap to the V2 router, whatever the router's
    allowance, no approval, and marks the position fully exited. *)
Theorem graduated_exit_skips_allowance env s token kol addr id t p :
  ready s token id t → 0 < t →
  check_blacklisted (blacklist s) token = false →
  broadcast_enabled (limits_rt s) = true →
  v2_pair_cache s !! token = None → get_pair env token = Some p →
  (∀ tx, is_Some (sign env tx)) → (∀ tx, send_ok env tx = true) →
  let s' := execute_exit env s token kol 0 addr in
  ∃ tx out deadline, wire s' = wire s ++ [(tx, true)] ∧ tx_to tx = PANCAKE_V2_ROUTER ∧
    tx_call tx = swapExactTokensForETH t out [token; WBNB] (wallet s) deadline ∧
    ready s' token id 0.
Proof.
  intros Hr Ht Hb He Hc Hp Hsig Hsend. cbn. unfold execute_exit. rewrite Hb. cbv zeta.
  assert (kol_sell_fraction (balance_of_at env) addr token 0 = None) as ->.
  { unfold kol_sell_fraction. by rewrite orb_true_r. }
  cbn [unwrap_or]. change (fge f1 FULL_CLOSE) with true. cbn [negb andb].
  pose proof (exit_source_ready env s token id t Hr) as Hx.
  destruct Hr as (e & Hent & Ha & Hte). pose proof Hent as Hent'.
  apply entry_of_Some in Hent' as [Hpos Hheap].
  assert ((exit_source env s token).1 = s) as H1.
  { unfold exit_source. rewrite Hent, Ha, Hte. destruct (Z.eqb_spec t 0); [lia|done]. }
  destruct (exit_source env s token) as [s1 src]. cbn [fst snd] in Hx, H1. subst s1.
  rewrite Hheap in Hx. destruct (Z.eqb_spec t 0); [lia|]. subst src. cbn [negb andb].
  unfold pick_route, v2_pair_cached. rewrite Hc, Hp. cbn [unwrap_or].
  set (s2 := set_caches _ _ _).
  destruct (send_exit_cases env s2 PancakeV2 kol token t t true)
    as (s3 & fee & (gc & v & ->) & _ & Hcases).
  destruct Hcases as [[Hn _]|(h & _ & [(_ & Hk & _)|[(_ & _ & ->)|(Hk & _)]])].
  - destruct (Hsig (sell_tx env s2 PancakeV2 token t fee)). congruence.
  - by rewrite Hsend in Hk.
  - set (tx := sell_tx env s2 PancakeV2 token t fee).
    eexists tx, _, _. split_and!; [|done|done|].
    + destruct (shrink_cache_frame (push_wire (set_caches (bump s2) gc v) tx true) token true t t)
        as (Hw & _). cbn in Hw |- *. by rewrite Hw.
    + exists (with_tokens e 0). split_and!; [|done|done]. apply entry_of_Some.
      unfold shrink_cache, entry_of. cbn. rewrite Hpos. cbn. rewrite Hheap. cbn.
      by rewrite Hpos, lookup_insert_eq.
  - change (limits_rt s2) with (limits_rt s) in Hk. congruence.
Qed.

(** ** Witnesses *)

Module Example.
Definition limits : LimitsRuntime := LimitsRuntime_new example_config 86400.
Definition nm (n : Z) : Nonce.NonceManager :=
{| Nonce.current := n; Nonce.persist := true; Nonce.disk := None |}.
Definition led : LiveLedger := {| rows := []; open_count := 0 |}.
Definition start : LiveExecutor := LiveExecutor_new 0x77 (nm 7) limits led None.
(** The balance poller's first round: one BNB. *)
Definition poll : event := EvWallet (Some (list_ascii_of_string "0xde0b6b3a7640000")).
Definition funded : LiveExecutor := run start [poll].
(** A node that knows a V2 pair or not, and answers everything. *)
Definition env (p : option Address) : Env :=
{| now_ms := 86400001; instant_ms := 100000; bnb_usd := Some (f64_of_Z 600);
gas_price := Some 50000000; get_pair := λ _, p; accepts_buy := λ _ _, true;
accepts_sell := λ _, true; accepts_resell := λ _, true;
tax_quote := λ a _, Some a; amounts_out := λ a _, Some a;
sign := λ t, Some (tx_nonce t); send_ok := λ _, true; chain_nonce := Some 7;
token_balance := λ _, Some 0; token_allowance := λ _ _, Some 0;
balance_of_at := λ _ _ _, None |}.
Definition entry : Decision := Enter "D" 9 5 100 0 1.
(** Bought on the curve, finalised, approved: 500 tokens. *)
Definition holds_500 : Env :=
{| now_ms := 86400001; instant_ms := 100000; bnb_usd := None; gas_price := None;
get_pair := λ _, None; accepts_buy := λ _ _, true; accepts_sell := λ _, true;
accepts_resell := λ _, true; tax_quote := λ _ _, None; amounts_out := λ _ _, None;
sign := λ _, None; send_ok := λ _, false; chain_nonce := None;
token_balance := λ _, Some 500; token_allowance := λ _ _, None;
balance_of_at := λ _ _ _, None |}.
Definition purchase : list event :=
[EvBuy (env None) entry "public" 0; EvBgBalance holds_500 9 0; EvBgApproved 0].
Definition bought : LiveExecutor := run funded purchase.
(** The position cache after the negative pair lookup has expired. *)
Definition later : LiveExecutor := set_caches bought (0, 0) ∅.
End Example.

Lemma buy_passes_every_gate_witness :
  length (wire (execute (Example.env None) Example.funded Example.entry "public" 0)) = 1%nat ∧
  not_holding Example.funded 9.
Proof.
  split; [by vm_compute|].
  destruct (buy_passes_every_gate (Example.env None) Example.funded Example.entry "public" 0)
    as (kol & token & amt & kin & blk & h & sized & t & ok & Hd & Hn & _).
  - vm_compute. discriminate.
  - injection Hd as _ <- _ _ _ _. exact Hn.
Defined.

Lemma cap_gate_unreachable_witness :
  let e := live_entry Example.funded "D" "public" 9 (f64_to_uint 128 (fmul (fdiv (f64_of_Z 10)
             (f64_of_Z 600)) f1e18)) 10 7 7 f1 true None in
  e ∈ rows (ledger Example.funded) ∨ le_skip e ≠ Some "per_trade_cap"%string.
Proof.
  intros e. apply (cap_gate_unreachable (Example.env None) Example.funded Example.entry "public" 0).
  vm_compute. apply list_elem_of_here.
Defined.

Lemma wire_nonces_increase_witness :
  let es := [Example.poll; EvBuy (Example.env None) Example.entry "public" 0] in
  let s := run (LiveExecutor_new 0x77 (Example.nm 7) Example.limits Example.led None) es in
  wire_nonces (wire s) = [7] ∧ StronglySorted Z.lt (wire_nonces (wire s)).
Proof.
  split; [by vm_compute|]. apply wire_nonces_increase; [by vm_compute|].
  intros [|[|[|k]]]; vm_compute; reflexivity.
Defined.

Lemma exits_never_oversell_witness :
  ∃ left, ready (run Example.bought [EvExit (Example.env None) 9 "D" 0 5]) 9 0 left ∧ 0 ≤ left ≤ 500.
Proof.
  destruct (exits_never_oversell Example.bought 9 0 500 [EvExit (Example.env None) 9 "D" 0 5])
    as (left & H1 & H2 & _).
  - apply (steady_run store_ok store_ok_steady Example.funded Example.purchase).
    split; cbn; [by intros ?? ?|by intros ??? ?|by intros ? [? ?]].
  - eexists. vm_compute. repeat split.
  - lia.
  - intros e ->%list_elem_of_singleton. eauto 10.
  - exists left. by split.
Defined.

Lemma full_exit_is_final_witness :
  let s := execute_exit (Example.env None) Example.bought 9 "D" 0 5 in
  total_sold 9 s = 500 ∧ execute_exit (Example.env None) s 9 "D" 0 5 = s.
Proof.
  intros s. split; [by vm_compute|]. apply (full_exit_is_final _ s 9 0).
  eexists. vm_compute. repeat split.
Defined.

Lemma partial_exit_counts_as_close_witness :
  open_count (ledger Example.bought) = 1 ∧
  open_count (ledger (execute_exit (Example.env None) Example.bought 9 "D" 0 5)) = 0.
Proof.
  split; [by vm_compute|].
  rewrite (partial_exit_counts_as_close (Example.env None) Example.bought 9 "D" 0 5).
  - by vm_compute.
  - vm_compute. discriminate.
Defined.

Lemma graduated_exit_skips_allowance_witness :
  ready (execute_exit (Example.env (Some 3)) Example.later 9 "D" 0 5) 9 0 0.
Proof.
  destruct (graduated_exit_skips_allowance (Example.env (Some 3)) Example.later 9 "D" 5 0 500 3)
    as (tx & out & dl & _ & _ & _ & H).
  - eexists. vm_compute. repeat split.
  - lia.
  - by vm_compute.
  - by vm_compute.
  - by vm_compute.
  - reflexivity.
  - intros tx. eexists. reflexivity.
  - reflexivity.
  - exact H.
Defined.
