(* ===== verification/ExitTasks.v ===== *)
(** * trader/executor_live.rs: exits as concurrent tasks

    [Executor.execute_exit] is an exit in one piece.  In the program exits are
    async functions that several tasks run at once: the trail spawns a task per
    position on every block, next to the consumer of hits.  Here an exit is a
    task that is suspended at its awaits, under the lock of its token
    ([token_exit_lock]), so that any interleaving of exits with each other and
    with the other operations of the executor is a list of events. *)

From Stdlib Require Import ZArith Lia Floats.SpecFloat Ascii String.
From S2P Require Import Prelude F64 Bytes Types Dex Limits ExecMath Executor.
From S2P Require Nonce.

(** ** Data *)

(** What an exit has decided to sell, and where. *)
Record Sizing : Type := {
  our_balance : U256;
  cached_route : BuyRoute;
  used_fast_path : bool;
  sell_amount : U256;
  is_full_close : bool;
}.

(** Where a task stands: the await it will resume from, with the local
    variables that are live there. *)
Inductive Stage : Type :=
| Waiting
| Locked
| Measured (fraction : f64)
| Sized (z : Sizing)
| Approving (z : Sizing) (n : Z)
| Allowed (z : Sizing)
| Selling (z : Sizing) (n : Z) (target : Address) (gas_limit : Z) (c : call)
| Delivered (z : Sizing) (n gwei : Z) (h : B256) (wallet_bnb : f64)
| Finished.

Record ExitTask : Type := {
  et_token : Address;
  et_kol_name : string;
  et_kol_block : Z;
  et_kol_addr : Address;
  stage : Stage;
}.

(** The executor, the map of locks, and the tasks.  A lock is the name of the
    task that holds its guard. *)
Record Exits : Type := {
  exec : LiveExecutor;
  exit_locks : gmap Address (option nat);
  tasks : gmap nat ExitTask;
  next_task : nat;
}.

Definition at_stage (t : ExitTask) (st : Stage) : ExitTask :=
  {| et_token := et_token t; et_kol_name := et_kol_name t; et_kol_block := et_kol_block t;
     et_kol_addr := et_kol_addr t; stage := st |}.

(** ** Operations *)

(** Get or create the lock of a token. *)
Definition token_exit_lock (locks : gmap Address (option nat)) (token : Address)
  : gmap Address (option nat) :=
  match locks !! token with
  | Some _ => locks
  | None => <[token := None]> locks
  end.

(** A call of [execute_exit], up to the await of the lock. *)
Definition begin_exit (p : Exits) (token : Address) (kol : string) (kol_block : Z)
    (kol_addr : Address) : Exits :=
  if check_blacklisted (blacklist (exec p)) token then p
  else
    {| exec := exec p; exit_locks := token_exit_lock (exit_locks p) token;
       tasks := <[next_task p := {| et_token := token; et_kol_name := kol;
                                    et_kol_block := kol_block; et_kol_addr := kol_addr;
                                    stage := Waiting |}]> (tasks p);
       next_task := S (next_task p) |}.

(** The balance and the route, and the slice of it that is sold. *)
Definition size_exit (env : Env) (s : LiveExecutor) (token : Address) (fraction : f64)
  : LiveExecutor * option Sizing :=
  let full := fge fraction FULL_CLOSE in
  let '(s, src) := exit_source env s token in
  match src with
  | None => (s, None)
  | Some (bal, r, fast) =>
      let amount := if full then bal else scale_u256_by_fraction bal fraction in
      if negb full && (amount =? 0) then (s, None)
      else (s, Some {| our_balance := bal; cached_route := r; used_fast_path := fast;
                       sell_amount := amount; is_full_close := full |})
  end.

(** From a stage past the lock to the next await. *)
Definition advance (env : Env) (s : LiveExecutor) (t : ExitTask) : LiveExecutor * Stage :=
  let token := et_token t in
  match stage t with
  | Waiting => (s, Waiting)
  | Locked =>
      (s, Measured (unwrap_or (kol_sell_fraction (balance_of_at env) (et_kol_addr t) token
                                 (et_kol_block t)) f1))
  | Measured fraction =>
      let '(s, z) := size_exit env s token fraction in
      (s, match z with Some z => Sized z | None => Finished end)
  | Sized z =>
      if negb (used_fast_path z) &&
         (unwrap_or (token_allowance env token (spender_of (cached_route z))) 0 <? sell_amount z)
      then let '(s, n) := reserve_nonce s in (s, Approving z n)
      else (s, Allowed z)
  | Approving z n =>
      let '(s, g) := gas_wei env s in
      let fee := Z.max (unwrap_or g (umax 128)) SELL_GAS_FLOOR in
      let tx := make_tx token 0 (approve (spender_of (cached_route z)) U256_MAX) 60000 fee n in
      match sign env tx with
      | None => (resync_nonce env s, Finished)
      | Some _ =>
          if broadcast_enabled (limits_rt s) then
            let '(s, ok) := broadcast env s tx in
            if ok then (s, Allowed z) else (resync_nonce env s, Finished)
          else (s, Allowed z)
      end
  | Allowed z =>
      let '(s, fresh) := pick_route env (accepts_resell env token) s token in
      let '(target, gas_limit, c) :=
        sell_call env s (unwrap_or fresh (cached_route z)) token (sell_amount z) in
      let '(s, n) := reserve_nonce s in
      (s, Selling z n target gas_limit c)
  | Selling z n target gas_limit c =>
      let '(s, g) := gas_wei env s in
      let fee := Z.max (unwrap_or g (umax 128)) SELL_GAS_FLOOR in
      let gwei := wrap 64 (fee / 1000000000) in
      let tx := make_tx target 0 c gas_limit fee n in
      match sign env tx with
      | None => (resync_nonce env s, Finished)
      | Some h =>
          if broadcast_enabled (limits_rt s) then
            let wallet_bnb := wallet_bnb_cache s in
            let '(s, ok) := broadcast env s tx in
            if ok then (s, Delivered z n gwei h wallet_bnb) else (resync_nonce env s, Finished)
          else (record_exit s (et_kol_name t) token gwei n h false, Finished)
      end
  | Delivered z n gwei h wallet_bnb =>
      let s := shrink_cache s token (is_full_close z) (our_balance z) (sell_amount z) in
      let s := log_row s (live_entry s (et_kol_name t) "exit" token 0 gwei n h wallet_bnb true None) in
      (set_ledger s (record_closed (ledger s)), Finished)
  | Finished => (s, Finished)
  end.

(** One poll of a task.  The guard is dropped when the function returns. *)
Definition resume (env : Env) (i : nat) (p : Exits) : Exits :=
  match tasks p !! i with
  | None => p
  | Some t =>
      match stage t with
      | Finished => p
      | Waiting =>
          match exit_locks p !! et_token t with
          | Some (Some _) => p
          | _ =>
              {| exec := exec p; exit_locks := <[et_token t := Some i]> (exit_locks p);
                 tasks := <[i := at_stage t Locked]> (tasks p); next_task := next_task p |}
          end
      | _ =>
          let '(s, st) := advance env (exec p) t in
          {| exec := s;
             exit_locks := match st with
                           | Finished => <[et_token t := None]> (exit_locks p)
                           | _ => exit_locks p
                           end;
             tasks := <[i := at_stage t st]> (tasks p); next_task := next_task p |}
      end
  end.

Inductive event : Type :=
| Begin (token : Address) (kol : string) (kol_block : Z) (kol_addr : Address)
| Resume (env : Env) (i : nat)
| Other (e : Executor.event).

Definition exits_step (p : Exits) (e : event) : Exits :=
  match e with
  | Begin token kol blk addr => begin_exit p token kol blk addr
  | Resume env i => resume env i p
  | Other e =>
      {| exec := Executor.step (exec p) e; exit_locks := exit_locks p; tasks := tasks p;
         next_task := next_task p |}
  end.

Definition exits_run (p : Exits) (es : list event) : Exits := foldl exits_step p es.

Definition exits_start (s : LiveExecutor) : Exits :=
  {| exec := s; exit_locks := ∅; tasks := ∅; next_task := 0 |}.

(** ** Lemmas: one task on its own *)

(** How many polls a task that has its lock is from its end. *)
Definition rank (st : Stage) : nat :=
  match st with
  | Waiting => 8
  | Locked => 7
  | Measured _ => 6
  | Sized _ => 5
  | Approving _ _ => 4
  | Allowed _ => 3
  | Selling _ _ _ _ _ => 2
  | Delivered _ _ _ _ _ => 1
  | Finished => 0
  end.

(** Polls, one per answer of the world. *)
Fixpoint drive (envs : list Env) (s : LiveExecutor) (t : ExitTask) : LiveExecutor * Stage :=
  match envs with
  | [] => (s, stage t)
  | env :: envs => let '(s, st) := advance env s t in drive envs s (at_stage t st)
  end.

Lemma drive_finished envs s t : stage t = Finished → drive envs s t = (s, Finished).
Proof.
  revert t. induction envs as [|env envs IH]; intros t H; [by rewrite <- H|].
  cbn [drive]. unfold advance. rewrite H. by apply IH.
Qed.

Lemma drive_cons env envs s t :
  drive (env :: envs) s t = let '(s, st) := advance env s t in drive envs s (at_stage t st).
Proof. done. Qed.

(** A poll past the lock comes closer to the end. *)
Lemma advance_rank env s t :
  stage t ≠ Waiting → stage t ≠ Finished → (rank (advance env s t).2 < rank (stage t))%nat.
Proof.
  intros Hw Hf. destruct (stage t) eqn:E; unfold advance; rewrite E; try done; cbn [rank].
  - cbn. lia.
  - destruct (size_exit _ _ _ _) as [s' [z|]]; cbn; lia.
  - case_scrut; [rewrite reserve_nonce_eq|]; cbn; lia.
  - destruct (gas_wei env s) as [s' g]. cbv zeta. repeat case_scrut; simplify_eq/=; lia.
  - destruct (pick_route _ _ _ _) as [s' r]. destruct (sell_call _ _ _ _ _) as [[tg gl] c].
    rewrite reserve_nonce_eq. cbn. lia.
  - destruct (gas_wei env s) as [s' g]. cbv zeta. repeat case_scrut; simplify_eq/=; lia.
  - cbn. lia.
Qed.

(** From the allowance on, the polls are [pick_route] and [send_exit]. *)
Lemma drive_allowed env envs s t z :
  drive (env :: env :: env :: envs) s (at_stage t (Allowed z)) =
    (let '(s, fresh) := pick_route env (accepts_resell env (et_token t)) s (et_token t) in
     send_exit env s (unwrap_or fresh (cached_route z)) (et_kol_name t) (et_token t)
       (our_balance z) (sell_amount z) (is_full_close z), Finished).
Proof.
  rewrite drive_cons. unfold advance.
  cbn [stage at_stage et_token].
  destruct (pick_route _ _ _ _) as [s1 fresh]. unfold send_exit.
  destruct (sell_call _ _ _ _ _) as [[tg gl] c]. rewrite reserve_nonce_eq, drive_cons.
  unfold advance. cbn [stage at_stage].
  destruct (gas_wei env (bump s1)) as [s2 g]. cbv zeta.
  destruct (sign env _) as [h|]; [|by rewrite drive_finished].
  destruct (broadcast_enabled _); [|by rewrite drive_finished].
  unfold broadcast. destruct (send_ok env _); [|by rewrite drive_finished].
  rewrite drive_cons. unfold advance. cbn [stage at_stage et_token et_kol_name].
  rewrite drive_finished by done. f_equal. unfold record_exit, shrink_cache.
  by destruct (entry_of _ _) as [[id e]|].
Qed.

(** From the lock on, they are [execute_exit]. *)
Lemma drive_exit env s t :
  stage t = Locked → check_blacklisted (blacklist s) (et_token t) = false →
  drive (replicate 7 env) s t =
    (execute_exit env s (et_token t) (et_kol_name t) (et_kol_block t) (et_kol_addr t), Finished).
Proof.
  intros E Hb. unfold execute_exit. rewrite Hb. cbv zeta.
  cbn [replicate]. rewrite drive_cons. unfold advance. rewrite E.
  rewrite drive_cons. unfold advance. cbn [stage at_stage et_kol_name et_token et_kol_block et_kol_addr].
  unfold size_exit. set (fr := unwrap_or _ f1).
  destruct (exit_source env s (et_token t)) as [s1 [[[bal r] fast]|]]; [|by rewrite drive_finished].
  destruct (negb _ && _); [by rewrite drive_finished|].
  rewrite drive_cons. unfold advance. cbn [stage at_stage used_fast_path cached_route sell_amount et_token].
  destruct (negb fast && _); cbn [negb].
  - rewrite reserve_nonce_eq, drive_cons. unfold advance.
    cbn [stage at_stage used_fast_path cached_route sell_amount et_token].
    unfold submit_approve. rewrite reserve_nonce_eq.
    destruct (gas_wei env (bump s1)) as [s2 g].
    cbv zeta. destruct (sign env _); [|by rewrite drive_finished].
    destruct (broadcast_enabled _); [|by rewrite drive_allowed].
    unfold broadcast. destruct (send_ok env _); cbv beta iota;
      [by rewrite drive_allowed|by rewrite drive_finished].
  - by rewrite drive_allowed.
Qed.

Lemma exits_run_cons p e es : exits_run p (e :: es) = exits_run (exits_step p e) es.
Proof. done. Qed.

Lemma exits_run_app p es1 es2 : exits_run p (es1 ++ es2) = exits_run (exits_run p es1) es2.
Proof. apply foldl_app. Qed.

Lemma at_stage_twice t st st' : at_stage (at_stage t st) st' = at_stage t st'.
Proof. done. Qed.

(** A poll of a task that is past the lock. *)
Lemma resume_past env p i t :
  tasks p !! i = Some t → stage t ≠ Waiting → stage t ≠ Finished →
  resume env i p =
    {| exec := (advance env (exec p) t).1;
       exit_locks := match (advance env (exec p) t).2 with
                     | Finished => <[et_token t := None]> (exit_locks p)
                     | _ => exit_locks p
                     end;
       tasks := <[i := at_stage t (advance env (exec p) t).2]> (tasks p);
       next_task := next_task p |}.
Proof.
  intros Ht Hw Hf. unfold resume. rewrite Ht.
  destruct (advance env (exec p) t) as [s st]. by destruct (stage t).
Qed.

Lemma resume_finished env p i t : tasks p !! i = Some t → stage t = Finished → resume env i p = p.
Proof. intros Ht E. unfold resume. by rewrite Ht, E. Qed.

Definition polls (i : nat) (envs : list Env) : list event := (λ env, Resume env i) <$> envs.

Lemma polls_finished i envs p t :
  tasks p !! i = Some t → stage t = Finished → exits_run p (polls i envs) = p.
Proof.
  intros Ht E. induction envs as [|env envs IH]; [done|]. cbn. rewrite <- IH at 2.
  by rewrite (resume_finished env p i t).
Qed.

Lemma polls_idle i p envs : (∀ env, resume env i p = p) → exits_run p (polls i envs) = p.
Proof. intros H. induction envs as [|env envs IH]; [done|]. cbn. by rewrite H. Qed.

(** Enough polls of the holder of a lock end it: it is [drive], and the lock is
    free again. *)
Lemma polls_drive i envs p t :
  tasks p !! i = Some t → stage t ≠ Waiting → stage t ≠ Finished →
  (rank (stage t) ≤ length envs)%nat →
  exits_run p (polls i envs) =
    {| exec := (drive envs (exec p) t).1; exit_locks := <[et_token t := None]> (exit_locks p);
       tasks := <[i := at_stage t Finished]> (tasks p); next_task := next_task p |}.
Proof.
  revert p t. induction envs as [|env envs IH]; intros p t Ht Hw Hf Hr.
  { destruct (stage t); cbn in Hr; first [done|lia]. }
  pose proof (advance_rank env (exec p) t Hw Hf) as Hlt. cbn [length] in Hr.
  rewrite drive_cons. change (polls i (env :: envs)) with (Resume env i :: polls i envs).
  rewrite exits_run_cons. cbn [exits_step].
  rewrite (resume_past env p i t) by done.
  destruct (advance env (exec p) t) as [s st] eqn:Ea. cbn [fst snd] in *.
  assert (st ≠ Waiting) as Hst.
  { intros ->. cbn in Hlt. destruct (stage t); cbn in Hlt; first [done|lia]. }
  assert (st = Finished ∨ st ≠ Finished) as [->|Hne] by (destruct st; auto).
  - rewrite (polls_finished i envs _ (at_stage t Finished)) by (cbn; by rewrite ?lookup_insert_eq).
    by rewrite drive_finished.
  - rewrite (IH _ (at_stage t st)); [|cbn; by rewrite lookup_insert_eq|done|done|cbn; lia].
    cbn [exec exit_locks tasks next_task]. rewrite insert_insert_eq, at_stage_twice.
    destruct st; first [done|by destruct Hne].
Qed.

(** Taking the lock. *)
Lemma resume_waiting env p i t :
  tasks p !! i = Some t → stage t = Waiting → (∀ j, exit_locks p !! et_token t ≠ Some (Some j)) →
  resume env i p =
    {| exec := exec p; exit_locks := <[et_token t := Some i]> (exit_locks p);
       tasks := <[i := at_stage t Locked]> (tasks p); next_task := next_task p |}.
Proof.
  intros Ht E Hl. unfold resume. rewrite Ht, E.
  destruct (exit_locks p !! et_token t) as [[j|]|] eqn:El; [by destruct (Hl j)|done|done].
Qed.

(** A waiter whose lock is free runs to its end in eight polls. *)
Lemma polls_waiting i env envs p t :
  tasks p !! i = Some t → stage t = Waiting → (∀ j, exit_locks p !! et_token t ≠ Some (Some j)) →
  (7 ≤ length envs)%nat →
  exits_run p (polls i (env :: envs)) =
    {| exec := (drive envs (exec p) (at_stage t Locked)).1;
       exit_locks := <[et_token t := None]> (exit_locks p);
       tasks := <[i := at_stage t Finished]> (tasks p); next_task := next_task p |}.
Proof.
  intros Ht E Hl Hn. change (polls i (env :: envs)) with (Resume env i :: polls i envs).
  rewrite exits_run_cons. cbn [exits_step]. rewrite (resume_waiting env p i t) by done.
  rewrite (polls_drive i envs _ (at_stage t Locked));
    [|cbn; by rewrite lookup_insert_eq|done|done|cbn; lia].
  cbn [exec exit_locks tasks next_task et_token at_stage].
  by rewrite !insert_insert_eq, at_stage_twice.
Qed.

(** ** Lemmas: what is being sold *)

(** The sizing a task carries, and the tokens its accepted sale has sold and
    the cache does not know of yet. *)
Definition sizing (st : Stage) : option Sizing :=
  match st with
  | Sized z | Approving z _ | Allowed z | Selling z _ _ _ _ | Delivered z _ _ _ _ => Some z
  | _ => None
  end.
Definition unbooked (st : Stage) : Z :=
  match st with Delivered z _ _ _ _ => sell_amount z | _ => 0 end.

(** [z] was read from [s]. *)
Definition sized_from (z : Sizing) (s : LiveExecutor) (token : Address) : Prop :=
  ∃ env, option_map (λ x, x.1.1) (exit_source env s token).2 = Some (our_balance z) ∧
    (0 ≤ our_balance z → 0 ≤ sell_amount z ≤ our_balance z) ∧
    (is_full_close z = true → sell_amount z = our_balance z).

(** What one poll does to the positions and the sales. *)
Inductive advanced (s : LiveExecutor) (t : ExitTask) : LiveExecutor → Stage → Prop :=
| AdvQuiet s' st' :
    no_sale s s' → unbooked (stage t) = 0 → unbooked st' = 0 →
    (∀ z, sizing st' = Some z → sizing (stage t) = Some z ∨ sized_from z s (et_token t)) →
    advanced s t s' st'
| AdvSold s' z n gwei h w :
    sizing (stage t) = Some z → unbooked (stage t) = 0 →
    positions s' = positions s → heap s' = heap s →
    (∀ tk, total_sold tk s' =
       total_sold tk s + if decide (et_token t = tk) then sell_amount z else 0) →
    advanced s t s' (Delivered z n gwei h w)
| AdvBooked s' z n gwei h w :
    stage t = Delivered z n gwei h w →
    positions s' = positions s →
    heap s' = heap (shrink_cache s (et_token t) (is_full_close z) (our_balance z) (sell_amount z)) →
    (∀ tk, total_sold tk s' = total_sold tk s) →
    advanced s t s' Finished.

(** The call a selling task carries sells what was sized. *)
Definition coherent (t : ExitTask) : Prop :=
  match stage t with
  | Selling z _ _ _ c =>
      ∀ tk to gl fee n, sold_of tk (make_tx to 0 c gl fee n, true) =
        if decide (et_token t = tk) then sell_amount z else 0
  | _ => True
  end.

Lemma no_sale_refl s : no_sale s s.
Proof. by split_and!. Qed.

Lemma no_sale_bump s : no_sale s (bump s).
Proof. by split_and!. Qed.

Lemma size_exit_spec env s token fr :
  no_sale s (size_exit env s token fr).1 ∧
  ∀ z, (size_exit env s token fr).2 = Some z → sized_from z s token.
Proof.
  unfold size_exit. pose proof (exit_source_caches env s token) as Hc.
  destruct (exit_source env s token) as [s1 [[[bal r] fast]|]] eqn:Es; cbn [fst] in Hc;
    apply no_sale_caches in Hc; cbv zeta; [|by split].
  destruct (negb _ && _); [by split|]. split; [done|]. cbn [snd]. intros z [= <-].
  exists env. cbn. rewrite Es. split; [done|]. split; [|by intros ->].
  intros H. destruct (fge fr FULL_CLOSE); [lia|by apply scale_u256_le].
Qed.

Lemma approve_sells_nothing tk to sp a gl fee n b :
  sold_of tk (make_tx to 0 (approve sp a) gl fee n, b) = 0.
Proof. by destruct b. Qed.

Lemma refused_sells_nothing tk tx : sold_of tk (tx, false) = 0.
Proof. done. Qed.

Lemma sold_push s tx b tk : total_sold tk (push_wire s tx b) = total_sold tk s + sold_of tk (tx, b).
Proof. unfold total_sold. cbn [push_wire wire]. rewrite sum_by_app, sum_by_cons. cbn. lia. Qed.

Create HintDb quiet.
#[local] Hint Resolve no_sale_refl no_sale_bump no_sale_resync no_sale_push approve_sells_nothing
  refused_sells_nothing no_sale_trans no_sale_caches gas_wei_caches pick_route_caches : quiet.

Ltac keeps_sizing E := intros ? ?; left; rewrite E; done.

Lemma advance_spec env s t :
  coherent t → advanced s t (advance env s t).1 (advance env s t).2 ∧
    coherent (at_stage t (advance env s t).2).
Proof.
  intros Hc. unfold advance. destruct (stage t) as [| |fr|z|z n|z|z n target gl c|z n gwei h w|] eqn:E;
    cbv zeta.
  - split; [|done]. apply AdvQuiet; rewrite ?E; cbn; auto with quiet.
  - split; [|done]. apply AdvQuiet; rewrite ?E; cbn; by auto with quiet.
  - destruct (size_exit_spec env s (et_token t) fr) as [Hn Hz].
    destruct (size_exit env s (et_token t) fr) as [s1 [z|]]; cbn in *; (split; [|done]);
      apply AdvQuiet; rewrite ?E; try done. intros ? [= <-]. right. by apply Hz.
  - split; [|by case_scrut]. case_scrut; apply AdvQuiet; rewrite ?E; cbn; auto with quiet.
  - pose proof (no_sale_caches _ _ (gas_wei_caches env s)) as Hg.
    destruct (gas_wei env s) as [s1 g]. cbn [fst] in Hg. unfold broadcast.
    repeat case_scrut; simplify_eq/=; (split; [|done]); apply AdvQuiet; rewrite ?E; cbn;
      eauto 6 with quiet; done.
  - pose proof (no_sale_caches _ _ (pick_route_caches env (accepts_resell env (et_token t)) s (et_token t))) as Hp.
    destruct (pick_route _ _ _ _) as [s1 fresh]. cbn [fst] in Hp.
    set (r := unwrap_or fresh _).
    destruct (sell_call env s1 r (et_token t) (sell_amount z)) as [[tg gl] c] eqn:Ec.
    rewrite reserve_nonce_eq. cbn. split.
    + apply AdvQuiet; rewrite ?E; cbn; eauto with quiet.
    + intros tk to gl' fee n. revert Ec. unfold sell_call. by destruct r; intros [= <- <- <-].
  - pose proof (no_sale_caches _ _ (gas_wei_caches env s)) as Hg.
    destruct (gas_wei env s) as [s1 g]. cbn [fst] in Hg. set (fee := Z.max _ _).
    destruct (sign env _) as [h|]; [|split; [|done]; apply AdvQuiet; rewrite ?E; cbn; eauto with quiet; done].
    destruct (broadcast_enabled _).
    + unfold broadcast. destruct (send_ok env _); cbn; (split; [|done]).
      * unfold coherent in Hc. rewrite E in Hc. destruct Hg as (Hp & Hh & Hs).
        apply AdvSold; rewrite ?E; try done. intros tk. by rewrite sold_push, Hs, Hc.
      * apply AdvQuiet; rewrite ?E; try done; eauto 6 with quiet.
    + cbn. split; [|done]. by apply AdvQuiet; rewrite ?E.
  - split; [|done]. cbn.
    destruct (shrink_cache_frame s (et_token t) (is_full_close z) (our_balance z) (sell_amount z))
      as (Hw & _ & Hp & _).
    eapply AdvBooked; [done|by cbn|by cbn|]. intros tk. unfold total_sold. cbn. by rewrite Hw.
  - split; [|done]. apply AdvQuiet; rewrite ?E; cbn; auto with quiet.
Qed.

(** ** Lemmas: the other operations *)

(** [s'] has the entry [id] of [token] and the sales of [token] that [s] has. *)
Record same_for (token : Address) (id : nat) (s s' : LiveExecutor) : Prop := {
  sf_position : positions s' !! token = positions s !! token;
  sf_entry : heap s' !! id = heap s !! id;
  sf_sold : total_sold token s' = total_sold token s;
}.

Lemma same_for_no_sale token id s s' : no_sale s s' → same_for token id s s'.
Proof. intros (Hp & Hh & Hs). split; by rewrite ?Hp, ?Hh, ?Hs. Qed.

Lemma same_for_trans token id s1 s2 s3 :
  same_for token id s1 s2 → same_for token id s2 s3 → same_for token id s1 s3.
Proof. intros [P1 H1 T1] [P2 H2 T2]. split; congruence. Qed.

Lemma same_for_ready token id s s' left :
  same_for token id s s' → ready s token id left → ready s' token id left.
Proof.
  intros [Hp Hh _] (e & He & Ha & Ht). exists e. split; [|done].
  apply entry_of_Some in He as [? ?]. apply entry_of_Some. by rewrite Hp, Hh.
Qed.

Lemma same_for_record_buy token id env s r kol vis tk amount gwei n h b :
  tk ≠ token → next_entry s ≠ id →
  same_for token id s (record_buy env s r kol vis tk amount gwei n h b).
Proof.
  intros Ht Hi. unfold record_buy. destruct b; split; cbn; try done; by rewrite lookup_insert_ne.
Qed.

Lemma buy_tx_sells_nothing env s r tk amount fee b token :
  sold_of token (buy_tx env s r tk amount fee, b) = 0.
Proof. unfold buy_tx, buy_call. by destruct r, b. Qed.

Lemma same_for_send_buy token id env s r kol vis tk amount fee :
  tk ≠ token → next_entry s ≠ id → same_for token id s (send_buy env s r kol vis tk amount fee).
Proof.
  intros Ht Hi.
  assert (∀ b, same_for token id s (push_wire (bump s) (buy_tx env s r tk amount fee) b)) as Hpush.
  { intros b. split; [done..|]. rewrite sold_push, buy_tx_sells_nothing.
    change (total_sold token (bump s)) with (total_sold token s). lia. }
  destruct (send_buy_cases env s r kol vis tk amount fee)
    as [[_ ->]|(h & _ & [(_ & _ & ->)|[(_ & _ & ->)|(_ & ->)]])].
  - apply same_for_no_sale, (no_sale_trans _ (bump s)); auto with quiet.
  - eapply same_for_trans; [apply Hpush|]. apply same_for_no_sale, no_sale_resync.
  - eapply same_for_trans; [apply Hpush|]. by apply same_for_record_buy.
  - apply (same_for_trans _ _ _ (bump s)); [by split|]. by apply same_for_record_buy.
Qed.

(** A buy of another token. *)
Lemma same_for_execute token id env s kol tk amt kin b h vis n :
  tk ≠ token → next_entry s ≠ id →
  same_for token id s (execute env s (Enter kol tk amt kin b h) vis n).
Proof.
  intros Ht Hi. cbn [execute]. destruct (dup_guard s tk) as [s0|] eqn:Ed; [|by split].
  destruct (dup_guard_spec s tk s0 Ed) as [_ (ps & ->)].
  assert (same_for token id s (set_positions s ps (heap s) (next_entry s))) as H0.
  { unfold dup_guard in Ed. destruct (entry_of s tk) as [[j e]|].
    - destruct (_ && _); [|done]. injection Ed as <-. split; cbn; try done. by rewrite lookup_delete_ne.
    - injection Ed as Ed. rewrite <- Ed. by split. }
  set (s0 := set_positions s ps (heap s) (next_entry s)) in *.
  destruct (size_buy _ _ _ _) as [sized|]; [|done].
  eapply same_for_trans; [exact H0|].
  destruct (check_blacklisted _ _); [by split|].
  destruct (clamp_buy _ _) as [f amount]. unfold gated_buy.
  pose proof (gas_wei_caches env s0) as (g & v & Hg).
  destruct (gas_wei env s0) as [s1 w]. cbn [fst] in Hg. subst s1. cbv zeta.
  destruct (check _ _ _) as [l [[]|why]]; [|by split].
  pose proof (pick_route_caches env (accepts_buy env tk amount) (set_limits (set_caches s0 g v) l) tk)
    as (g' & v' & Hp).
  destruct (pick_route _ _ _ _) as [s2 [r|]]; cbn [fst] in Hp; subst s2; [|by split].
  destruct (sell_tax_refuses _ _ _ _ _) as [tax|]; [by split|].
  set (s2 := set_caches _ _ _).
  apply (same_for_trans _ _ _ s2); [by split|]. by apply same_for_send_buy.
Qed.

(** The operations that leave the position [id] of [token] to its exits. *)
Definition spares (token : Address) (id : nat) (e : Executor.event) : Prop :=
  match e with
  | EvBuy _ (Enter _ tk _ _ _ _) _ _ => tk ≠ token
  | EvExit _ _ _ _ _ => False
  | EvBgBalance _ _ i => i ≠ id
  | _ => True
  end.

Lemma spares_ready token id s e left :
  store_ok s → spares token id e → ready s token id left →
  ready (Executor.step s e) token id left ∧ total_sold token (Executor.step s e) = total_sold token s.
Proof.
  intros Hok Hsp Hr.
  destruct e as [env d vis n|env tk kol blk addr|env tk i|env tk i|i|l|r]; cbn [Executor.step spares] in *.
  - destruct d as [| kol tk amt k b t |]; try done.
    assert (next_entry s ≠ id).
    { destruct Hr as (e & He & _). apply entry_of_Some in He as [_ He].
      pose proof (so_fresh s Hok id ltac:(eauto)). lia. }
    pose proof (same_for_execute token id env s kol tk amt k b t vis n Hsp ltac:(done)) as Hs.
    split; [by eapply same_for_ready|apply Hs].
  - done.
  - unfold bg_balance. destruct (heap s !! i) as [e|]; [|done]. case_scrut; [|done].
    split; [|done]. apply (ready_same s); [done|cbn; by rewrite lookup_insert_ne|done].
  - unfold bg_approve. destruct (heap s !! i); [|done]. destruct (_ && _); [|done].
    rewrite reserve_nonce_eq. cbv zeta. destruct (sign env _); [|done]. split; [done|].
    rewrite sold_push, approve_sells_nothing.
    change (total_sold token (bump s)) with (total_sold token s). lia.
  - unfold bg_approved. destruct (heap s !! i) as [e|] eqn:Ei; [|done]. destruct (_ && _); [|done].
    split; [|done]. destruct Hr as (e0 & He & Ha & Ht). apply entry_of_Some in He as [Hp Hh].
    destruct (decide (i = id)) as [->|Hne].
    + rewrite Hh in Ei. injection Ei as <-. exists (with_approved e0). split_and!; try done.
      apply entry_of_Some. cbn. by rewrite lookup_insert_eq.
    + exists e0. split_and!; try done. apply entry_of_Some. cbn. by rewrite lookup_insert_ne.
  - done.
  - unfold refresh_wallet. case_scrut; done.
Qed.

(** ** Lemmas: the locks *)

Definition past_lock (st : Stage) : Prop := st ≠ Waiting ∧ st ≠ Finished.

Lemma past_lock_dec st : past_lock st ∨ st = Waiting ∨ st = Finished.
Proof. unfold past_lock. destruct st; auto; left; by split. Qed.

(** Every task past its lock holds it, and every held lock has such a holder. *)
Record locks_ok (p : Exits) : Prop := {
  lk_held : ∀ i t, tasks p !! i = Some t → past_lock (stage t) →
    exit_locks p !! et_token t = Some (Some i);
  lk_holder : ∀ tk i, exit_locks p !! tk = Some (Some i) →
    ∃ t, tasks p !! i = Some t ∧ et_token t = tk ∧ past_lock (stage t);
  lk_fresh : ∀ i, is_Some (tasks p !! i) → (i < next_task p)%nat;
  lk_coherent : ∀ i t, tasks p !! i = Some t → coherent t;
}.

Lemma exits_start_locks s : locks_ok (exits_start s).
Proof. split; cbn; [by intros ? ?|by intros ? ?|by intros ? [? ?]|by intros ? ?]. Qed.

Lemma token_exit_lock_held locks tk tk' i :
  token_exit_lock locks tk !! tk' = Some (Some i) ↔ locks !! tk' = Some (Some i).
Proof.
  unfold token_exit_lock. destruct (locks !! tk) eqn:E; [done|].
  destruct (decide (tk' = tk)) as [->|Hne]; [|by rewrite lookup_insert_ne].
  rewrite lookup_insert_eq, E. by split.
Qed.

Lemma locks_begin p tk kol blk addr : locks_ok p → locks_ok (begin_exit p tk kol blk addr).
Proof.
  intros [H1 H2 H3 H4]. unfold begin_exit. destruct (check_blacklisted _ _); [done|].
  assert (∀ i, is_Some (tasks p !! i) → i ≠ next_task p) as Hne.
  { intros i Hi ->. specialize (H3 _ Hi). lia. }
  split; cbn.
  - intros i t [[<- <-]|[Hi Ht]]%lookup_insert_Some Hp; [by destruct Hp|].
    apply token_exit_lock_held. by apply H1.
  - intros tk' i Hl%token_exit_lock_held. destruct (H2 _ _ Hl) as (t & Ht & ? & ?).
    exists t. rewrite lookup_insert_ne; [done|]. intros <-. by apply (Hne (next_task p)); eauto.
  - intros i [t [[<- _]|[_ Ht]]%lookup_insert_Some]; [lia|]. specialize (H3 i ltac:(eauto)). lia.
  - intros i t [[<- <-]|[Hi Ht]]%lookup_insert_Some; [done|by eapply H4].
Qed.

(** The three things a poll can be. *)
Inductive polled (env : Env) (i : nat) (p : Exits) : Exits → Prop :=
| PollIdle : polled env i p p
| PollLocks t :
    tasks p !! i = Some t → stage t = Waiting → (∀ j, exit_locks p !! et_token t ≠ Some (Some j)) →
    polled env i p
      {| exec := exec p; exit_locks := <[et_token t := Some i]> (exit_locks p);
         tasks := <[i := at_stage t Locked]> (tasks p); next_task := next_task p |}
| PollPast t s st :
    tasks p !! i = Some t → past_lock (stage t) → advance env (exec p) t = (s, st) → st ≠ Waiting →
    polled env i p
      {| exec := s;
         exit_locks := match st with
                       | Finished => <[et_token t := None]> (exit_locks p)
                       | _ => exit_locks p
                       end;
         tasks := <[i := at_stage t st]> (tasks p); next_task := next_task p |}.

Lemma resume_polled env i p : polled env i p (resume env i p).
Proof.
  destruct (tasks p !! i) as [t|] eqn:Ht; [|unfold resume; rewrite Ht; constructor].
  destruct (past_lock_dec (stage t)) as [Hp|[E|E]].
  - rewrite (resume_past env p i t) by (done || apply Hp).
    destruct (advance env (exec p) t) as [s st] eqn:Ea. cbn [fst snd].
    apply PollPast; [done..|]. intros ->.
    pose proof (advance_rank env (exec p) t (proj1 Hp) (proj2 Hp)) as Hr. rewrite Ea in Hr.
    destruct Hp as [Hw Hf]. cbn in Hr. destruct (stage t); cbn in Hr; try done; lia.
  - unfold resume. rewrite Ht, E. destruct (exit_locks p !! et_token t) as [[j|]|] eqn:El;
      [constructor|..]; by apply PollLocks; [done..|rewrite El].
  - rewrite (resume_finished env p i t) by done. constructor.
Qed.

Lemma locks_resume env i p : locks_ok p → locks_ok (resume env i p).
Proof.
  intros Hok. destruct Hok as [H1 H2 H3 H4].
  destruct (resume_polled env i p) as [|t Ht E Hl|t s st Ht Hp Ea Hst]; [by split| |].
  - split; cbn.
    + intros j u [[<- <-]|[Hj Hu]]%lookup_insert_Some Hq; [by rewrite lookup_insert_eq|].
      specialize (H1 j u Hu Hq). rewrite lookup_insert_ne; [done|]. intros E'.
      rewrite E' in Hl. by apply (Hl j).
    + intros tk j [[<- [= <-]]|[Hne Hj]]%lookup_insert_Some.
      * exists (at_stage t Locked). rewrite lookup_insert_eq. by split_and!.
      * destruct (H2 tk j Hj) as (u & Hu & Htk & Hq). exists u. split_and!; try done.
        rewrite lookup_insert_ne; [done|]. intros <-. rewrite Hu in Ht. injection Ht as ->.
        by destruct Hq.
    + intros j [u [[<- _]|[_ Hu]]%lookup_insert_Some]; eauto.
    + intros j u [[<- <-]|[_ Hu]]%lookup_insert_Some; [done|eauto].
  - pose proof (H1 i t Ht Hp) as Hi. pose proof (H4 i t Ht) as Hc.
    destruct (advance_spec env (exec p) t Hc) as [_ Hc']. rewrite Ea in Hc'. cbn in Hc'.
    assert (∀ j u, tasks p !! j = Some u → past_lock (stage u) → j ≠ i → et_token u ≠ et_token t) as Hother.
    { intros j u Hu Hq Hj E. specialize (H1 j u Hu Hq). rewrite E, Hi in H1. congruence. }
    split; cbn.
    + intros j u [[<- <-]|[Hj Hu]]%lookup_insert_Some Hq.
      * destruct st; first [done|by destruct Hq].
      * pose proof (Hother j u Hu Hq ltac:(done)). specialize (H1 j u Hu Hq).
        destruct st; rewrite ?lookup_insert_ne; done.
    + intros tk j Hj.
      assert (exit_locks p !! tk = Some (Some j) ∧ (tk = et_token t → st ≠ Finished)) as [Hj' Hf].
      { destruct st; try done. apply lookup_insert_Some in Hj as [[_ ?]|[Hne Hj]]; [done|].
        split; [done|]. by intros ->. }
      destruct (H2 tk j Hj') as (u & Hu & Htk & Hq). destruct (decide (j = i)) as [->|Hne].
      * exists (at_stage t st). rewrite lookup_insert_eq. rewrite Ht in Hu. injection Hu as ->.
        split_and!; try done. split; [done|auto].
      * exists u. by rewrite lookup_insert_ne.
    + intros j [u [[<- _]|[_ Hu]]%lookup_insert_Some]; eauto.
    + intros j u [[<- <-]|[_ Hu]]%lookup_insert_Some; [done|eauto].
Qed.

Lemma locks_step p e : locks_ok p → locks_ok (exits_step p e).
Proof.
  intros H. destruct e as [tk kol blk addr|env i|e]; cbn.
  - by apply locks_begin.
  - by apply locks_resume.
  - destruct H as [H1 H2 H3 H4]. by split.
Qed.

Lemma locks_run p es : locks_ok p → locks_ok (exits_run p es).
Proof. revert p. induction es as [|e es IH]; intros p H; [done|]. by apply IH, locks_step. Qed.

(** ** Lemmas: conservation under interleaving *)

(** What the holder of the token's lock has sold and not booked yet. *)
Definition in_flight (p : Exits) (token : Address) : Z :=
  match exit_locks p !! token with
  | Some (Some i) => match tasks p !! i with Some t => unbooked (stage t) | None => 0 end
  | _ => 0
  end.

(** A sizing that fits a position of [left] tokens. *)
Definition fits_left (z : Sizing) (left : Z) : Prop :=
  our_balance z = left ∧ 0 ≤ sell_amount z ≤ left ∧ (is_full_close z = true → sell_amount z = left).

Record conserved (token : Address) (id : nat) (total : Z) (p : Exits) (left : Z) : Prop := {
  cv_locks : locks_ok p;
  cv_store : store_ok (exec p);
  cv_ready : ready (exec p) token id left;
  cv_pos : 0 ≤ left;
  cv_sizing : ∀ i t z, tasks p !! i = Some t → et_token t = token → sizing (stage t) = Some z →
    fits_left z left;
  cv_sold : total_sold token (exec p) + left = total + in_flight p token;
}.

Lemma advance_next env s t : next_entry (advance env s t).1 = next_entry s.
Proof.
  unfold advance. cbv zeta. destruct (stage t); try done.
  - unfold size_exit. pose proof (exit_source_caches env s (et_token t)) as (g & v & H).
    destruct (exit_source env s (et_token t)) as [s1 [[[bal r] fast]|]]; cbn in H; subst s1; [|done].
    by destruct (negb _ && _).
  - case_scrut; done.
  - pose proof (gas_wei_caches env s) as (g & v & H). destruct (gas_wei env s) as [s1 w].
    cbn in H. subst s1. unfold broadcast.
    destruct (sign env _); [destruct (broadcast_enabled _); [destruct (send_ok env _)|]|]; cbn; try done;
      by match goal with |- context [resync_nonce env ?x] =>
           destruct (resync_nonce_of env x) as (m & -> & _) end.
  - pose proof (pick_route_caches env (accepts_resell env (et_token t)) s (et_token t)) as (g & v & H).
    destruct (pick_route _ _ _ _) as [s1 fresh]. cbn in H. subst s1.
    by destruct (sell_call _ _ _ _ _) as [[tg gl] c].
  - pose proof (gas_wei_caches env s) as (g & v & H). destruct (gas_wei env s) as [s1 w].
    cbn in H. subst s1. unfold broadcast.
    destruct (sign env _); [destruct (broadcast_enabled _); [destruct (send_ok env _)|]|]; cbn; try done;
      by match goal with |- context [resync_nonce env ?x] =>
           destruct (resync_nonce_of env x) as (m & -> & _) end.
  - cbn. by apply shrink_cache_frame.
Qed.

Lemma store_ok_shrink s tk fc bal sold : store_ok s → store_ok (shrink_cache s tk fc bal sold).
Proof.
  intros H. unfold shrink_cache. destruct (entry_of s tk) as [[id e]|] eqn:E; [|done].
  apply entry_of_Some in E as [_ He]. apply store_ok_set_entry; eauto.
Qed.

Lemma advance_store env s t : coherent t → store_ok s → store_ok (advance env s t).1.
Proof.
  intros Hc Hok. pose proof (advance_next env s t) as Hn.
  destruct (advance_spec env s t Hc) as [Ha _]. revert Hn.
  destruct Ha as [s' st' (Hp & Hh & _)|s' z n gwei h w _ _ Hp Hh|s' z n gwei h w _ Hp Hh]; intros Hn.
  - by apply (store_ok_same s).
  - by apply (store_ok_same s).
  - set (s1 := shrink_cache s (et_token t) (is_full_close z) (our_balance z) (sell_amount z)) in *.
    destruct (shrink_cache_frame s (et_token t) (is_full_close z) (our_balance z) (sell_amount z))
      as (_ & _ & Hp1 & Hn1 & _). fold s1 in Hp1, Hn1.
    apply (store_ok_same s1); [congruence|done|congruence|by apply store_ok_shrink].
Qed.

(** One poll past the lock, seen from the position [id] of [token]. *)
Lemma advance_conserves env s t token id left :
  coherent t → store_ok s → ready s token id left → 0 ≤ left →
  (et_token t = token → ∀ z, sizing (stage t) = Some z → fits_left z left) →
  let s' := (advance env s t).1 in let st' := (advance env s t).2 in
  ∃ left', ready s' token id left' ∧ 0 ≤ left' ∧
    (et_token t = token → ∀ z, sizing st' = Some z → fits_left z left') ∧
    (et_token t ≠ token → left' = left) ∧
    total_sold token s' + left' + (if decide (et_token t = token) then unbooked (stage t) else 0) =
      total_sold token s + left + (if decide (et_token t = token) then unbooked st' else 0).
Proof.
  intros Hc Hok Hr Hl Hz. destruct (advance_spec env s t Hc) as [Ha _]. cbv zeta. revert Ha.
  generalize (advance env s t). intros [s' st']. cbn [fst snd].
  intros [s1 st1 (Hp & Hh & Hs) Hu Hu' Hsz|s1 z n gwei h w E Hu Hp Hh Hs|s1 z n gwei h w E Hp Hh Hs].
  - exists left. split_and!; try done.
    + apply (ready_same s); by rewrite ?Hh.
    + intros <- z Ez. destruct (Hsz z Ez) as [Ez'|(env' & Hx & Ham & Hfc)]; [by apply Hz|].
      rewrite (exit_source_ready env' s _ id left Hr) in Hx.
      destruct (Z.eqb_spec left 0); [done|]. destruct (heap s !! id); [|done].
      injection Hx as Hx. rewrite <- Hx in Ham, Hfc. split_and!; auto; try lia; apply Ham; lia.
    + rewrite Hs, Hu, Hu'. lia.
  - exists left. split_and!; try done.
    + apply (ready_same s); by rewrite ?Hh.
    + intros <- z' [= <-]. by apply Hz.
    + rewrite Hs, Hu. cbn [unbooked]. destruct (decide (et_token t = token)); lia.
  - destruct (decide (et_token t = token)) as [<-|Hne].
    + destruct (Hz eq_refl z) as (Hb & Ham & Hfc); [by rewrite E|].
      exists (left - sell_amount z). split_and!; try done; [|lia|rewrite Hs, E; cbn; lia].
      destruct Hr as (e & He & Hap & Ht). exists (with_tokens e (left - sell_amount z)).
      split_and!; [|done|done]. apply entry_of_Some. rewrite Hp, Hh. unfold shrink_cache. rewrite He.
      apply entry_of_Some in He as [Hpe _]. split; [done|]. cbn. rewrite lookup_insert_eq. do 2 f_equal.
      destruct (is_full_close z); [rewrite Hfc by done; lia|].
      rewrite Hb. by apply saturating_sub_spec.
    + exists left. split_and!; try done; [|rewrite Hs; lia].
      apply (ready_same s); [done| |done]. rewrite Hh. by eapply shrink_other.
Qed.

Lemma in_flight_holder p i t :
  locks_ok p → tasks p !! i = Some t → past_lock (stage t) →
  in_flight p (et_token t) = unbooked (stage t).
Proof. intros Hok Ht Hp. unfold in_flight. by rewrite (lk_held p Hok i t Ht Hp), Ht. Qed.

(** The flow of another token, or of a lock that is free, stays. *)
Lemma in_flight_insert p p' i t st token :
  locks_ok p → tasks p !! i = Some t → tasks p' = <[i := at_stage t st]> (tasks p) →
  exit_locks p' !! token = exit_locks p !! token → (past_lock (stage t) → et_token t ≠ token) →
  in_flight p' token = in_flight p token.
Proof.
  intros Hok Ht Htasks Hl Hne. unfold in_flight. rewrite Hl, Htasks.
  destruct (exit_locks p !! token) as [[j|]|] eqn:E; [|done..].
  destruct (lk_holder p Hok token j E) as (u & Hu & Etk & Hp).
  destruct (decide (j = i)) as [->|Hj]; [|by rewrite lookup_insert_ne].
  rewrite Ht in Hu. injection Hu as ->. by destruct Hne.
Qed.

Lemma conserved_begin token id total p left tk kol blk addr :
  conserved token id total p left → conserved token id total (begin_exit p tk kol blk addr) left.
Proof.
  intros [Hl Hs Hr Hp Hz Hc]. pose proof (locks_begin p tk kol blk addr Hl) as Hl'.
  unfold begin_exit in *. destruct (check_blacklisted _ _); [done|].
  assert (∀ i, is_Some (tasks p !! i) → next_task p ≠ i) as Hne.
  { intros i Hi <-. pose proof (lk_fresh p Hl _ Hi). lia. }
  split; try done; cbn.
  - intros i t z [[<- <-]|[_ Ht]]%lookup_insert_Some; [done|by eapply Hz].
  - rewrite Hc. f_equal. unfold in_flight. cbn.
    destruct (token_exit_lock (exit_locks p) tk !! token) as [[i|]|] eqn:E.
    + apply token_exit_lock_held in E. rewrite E. destruct (lk_holder p Hl token i E) as (t & Ht & _).
      rewrite lookup_insert_ne by (apply Hne; eauto). done.
    + destruct (exit_locks p !! token) as [[i|]|] eqn:E'; [|done..].
      apply (token_exit_lock_held _ tk) in E'. congruence.
    + destruct (exit_locks p !! token) as [[i|]|] eqn:E'; [|done..].
      apply (token_exit_lock_held _ tk) in E'. congruence.
Qed.

Lemma conserved_resume token id total p left env i :
  conserved token id total p left → ∃ left', conserved token id total (resume env i p) left'.
Proof.
  intros [Hl Hs Hr Hp Hz Hc]. pose proof (locks_resume env i p Hl) as Hl'.
  destruct (resume_polled env i p) as [|t Ht E Hfree|t s st Ht Hpast Ea Hst].
  - by exists left.
  - exists left. split; try done; cbn.
    + intros j u z [[<- <-]|[_ Hu]]%lookup_insert_Some; [done|by eapply Hz].
    + rewrite Hc. f_equal. destruct (decide (et_token t = token)) as [<-|Hne].
      * unfold in_flight at 2. cbn. rewrite !lookup_insert_eq. unfold in_flight.
        destruct (exit_locks p !! et_token t) as [[j|]|] eqn:El; [by destruct (Hfree j)|done..].
      * symmetry. eapply in_flight_insert; [done..|cbn; by rewrite lookup_insert_ne|done].
  - destruct (advance_conserves env (exec p) t token id left) as (left' & Hr' & Hp' & Hz' & Hne' & Hc');
      [by apply (lk_coherent p Hl i)|done..|intros Etk z; by eapply Hz|].
    pose proof (advance_store env (exec p) t (lk_coherent p Hl i t Ht) Hs) as Hs'.
    rewrite Ea in *. cbn [fst snd] in *. exists left'. split; try done; cbn.
    + intros j u z [[<- <-]|[Hj Hu]]%lookup_insert_Some Etk Ez; [by apply Hz'|].
      assert (past_lock (stage u)) as Hq by (by split; intros Eu; rewrite Eu in Ez).
      assert (et_token t ≠ token) as Hne.
      { intros Et. pose proof (lk_held p Hl j u Hu Hq) as H1.
        pose proof (lk_held p Hl i t Ht Hpast) as H2. rewrite Etk, <- Et in H1. congruence. }
      rewrite (Hne' Hne). by eapply Hz.
    + destruct (decide (et_token t = token)) as [Etk|Hne].
      * pose proof (in_flight_holder p i t Hl Ht Hpast) as Hf. rewrite Etk in Hf.
        match goal with |- _ = _ + in_flight ?q _ => assert (in_flight q token = unbooked st) as -> end;
          [|lia].
        unfold in_flight. cbn. rewrite Etk. pose proof (lk_held p Hl i t Ht Hpast) as Hk.
        rewrite Etk in Hk. destruct st; rewrite ?lookup_insert_eq, ?Hk, ?lookup_insert_eq; done.
      * rewrite (Hne' Hne) in *.
        match goal with |- _ = _ + in_flight ?q _ =>
          assert (in_flight q token = in_flight p token) as -> end; [|lia].
        eapply in_flight_insert; [done..| |done]. cbn. destruct st; by rewrite ?lookup_insert_ne.
Qed.

Lemma conserved_other token id total p left e :
  spares token id e → conserved token id total p left →
  conserved token id total (exits_step p (Other e)) left.
Proof.
  intros Hsp [Hl Hs Hr Hp Hz Hc]. pose proof (locks_step p (Other e) Hl) as Hl'.
  destruct (spares_ready token id (exec p) e left Hs Hsp Hr) as [Hr' Hsold].
  split; try done; cbn.
  - by apply (steady_step store_ok store_ok_steady).
  - rewrite Hsold, Hc. done.
Qed.

Lemma conserved_run token id total es p left :
  conserved token id total p left → (∀ e, Other e ∈ es → spares token id e) →
  ∃ left', conserved token id total (exits_run p es) left'.
Proof.
  revert p left. induction es as [|e es IH]; intros p left H Hes; [by exists left|].
  assert (∃ left', conserved token id total (exits_step p e) left') as (l & Hl).
  { destruct e as [tk kol blk addr|env i|e].
    - exists left. by apply conserved_begin.
    - by eapply conserved_resume.
    - exists left. apply conserved_other; [apply Hes; set_solver|done]. }
  apply (IH _ l); [done|]. intros e' He'. apply Hes. set_solver.
Qed.

Lemma conserved_start s token id t :
  store_ok s → ready s token id t → 0 ≤ t →
  conserved token id (total_sold token s + t) (exits_start s) t.
Proof.
  intros Hs Hr Ht. split; try done; [apply exits_start_locks|].
  unfold in_flight. cbn. rewrite lookup_empty. lia.
Qed.

Lemma in_flight_bounds token id total p left :
  conserved token id total p left → 0 ≤ in_flight p token ≤ left.
Proof.
  intros [Hl _ _ Hp Hz _]. unfold in_flight.
  destruct (exit_locks p !! token) as [[i|]|] eqn:E; [|lia..].
  destruct (lk_holder p Hl token i E) as (u & Hu & Etk & _). rewrite Hu.
  destruct (stage u) as [| | | | | | |z n g h w|] eqn:Eu; cbn; try lia.
  destruct (Hz i u z Hu Etk) as (_ & ? & _); [by rewrite Eu|lia].
Qed.

(** ** Lemmas: nonces under interleaving *)

(** The nonce a task has reserved and not sent yet. *)
Definition reserved (st : Stage) : option Z :=
  match st with Approving _ n | Selling _ n _ _ _ => Some n | _ => None end.

(** What one poll does to the counter and the wire. *)
Inductive nonce_poll (s : LiveExecutor) (t : ExitTask) : LiveExecutor → Stage → Prop :=
| NonceQuiet s' st' :
    cur s ≤ cur s' → wire s' = wire s → reserved st' = None → nonce_poll s t s' st'
| NonceReserve s' st' :
    cur s' = cur s + 1 → wire s' = wire s → reserved st' = Some (cur s) → nonce_poll s t s' st'
| NonceSend s' st' n tx b :
    reserved (stage t) = Some n → tx_nonce tx = n → wire s' = wire s ++ [(tx, b)] →
    cur s ≤ cur s' → reserved st' = None → nonce_poll s t s' st'.

Lemma resync_frame env s : cur s ≤ cur (resync_nonce env s) ∧ wire (resync_nonce env s) = wire s.
Proof. by destruct (resync_nonce_of env s) as (m & -> & H & _). Qed.

(** The two polls that send a transaction with a reserved nonce. *)
Lemma send_poll env s t n tx (delivered shadow : Stage) (booked : LiveExecutor) :
  reserved (stage t) = Some n → tx_nonce tx = n →
  reserved delivered = None → reserved shadow = None →
  cur booked = cur s → wire booked = wire s →
  let r := match sign env tx with
           | None => (resync_nonce env s, Finished)
           | Some _ =>
               if broadcast_enabled (limits_rt s) then
                 let '(s, ok) := broadcast env s tx in
                 if ok then (s, delivered) else (resync_nonce env s, Finished)
               else (booked, shadow)
           end in
  nonce_poll s t r.1 r.2.
Proof.
  intros Hr Ht Hd Hsh Hc Hw. cbv zeta. destruct (sign env tx).
  - destruct (broadcast_enabled _); [|apply NonceQuiet; cbn; rewrite ?Hc; done || lia].
    unfold broadcast. destruct (send_ok env tx); cbn.
    + by eapply (NonceSend _ _ _ _ n tx true).
    + destruct (resync_frame env (push_wire s tx false)) as [H1 H2].
      by eapply (NonceSend _ _ _ _ n tx false).
  - destruct (resync_frame env s). by apply NonceQuiet.
Qed.

Lemma cur_caches s s' : caches_only s s' → cur s' = cur s ∧ wire s' = wire s.
Proof. by intros (g & v & ->). Qed.

Lemma nonce_poll_caches s s0 t s' st' :
  caches_only s s0 → nonce_poll s0 t s' st' → nonce_poll s t s' st'.
Proof.
  intros [Hc Hw]%cur_caches H. destruct H; rewrite ?Hc, ?Hw in *.
  - by apply NonceQuiet.
  - by apply NonceReserve.
  - by eapply NonceSend.
Qed.

Lemma advance_nonces env s t :
  0 ≤ cur s → cur s + 1 < 2 ^ 64 → nonce_poll s t (advance env s t).1 (advance env s t).2.
Proof.
  intros H0 H1. unfold advance.
  destruct (stage t) as [| |fr|z|z n|z|z n target gl c|z n gwei h w|] eqn:E; cbv zeta.
  - by apply NonceQuiet.
  - by apply NonceQuiet.
  - unfold size_exit. pose proof (cur_caches _ _ (exit_source_caches env s (et_token t))) as [Hc Hw].
    destruct (exit_source env s (et_token t)) as [s1 [[[bal r] fast]|]]; cbn [fst snd] in *; [destruct (negb _ && _)|];
      apply NonceQuiet; cbn [fst snd]; done || lia.
  - case_scrut; [|by apply NonceQuiet]. rewrite reserve_nonce_eq.
    apply NonceReserve; [by apply cur_bump|done|done].
  - pose proof (gas_wei_caches env s) as Hg. destruct (gas_wei env s) as [s1 g]. cbn [fst] in Hg.
    apply (nonce_poll_caches s s1); [done|]. apply (send_poll env s1 t n); try done. by rewrite E.
  - pose proof (pick_route_caches env (accepts_resell env (et_token t)) s (et_token t)) as Hp.
    destruct (pick_route _ _ _ _) as [s1 fresh]. cbn [fst] in Hp.
    apply (nonce_poll_caches s s1); [done|]. destruct (cur_caches _ _ Hp) as [Hc _].
    destruct (sell_call _ _ _ _ _) as [[tg gl] c]. rewrite reserve_nonce_eq.
    apply NonceReserve; [apply cur_bump; lia|done|done].
  - pose proof (gas_wei_caches env s) as Hg. destruct (gas_wei env s) as [s1 g]. cbn [fst] in Hg.
    apply (nonce_poll_caches s s1); [done|].
    set (tx := make_tx _ _ _ _ _ _). set (gwei := wrap 64 _).
    destruct (sign env tx) as [h|] eqn:Eh.
    + pose proof (send_poll env s1 t n tx (Delivered z n gwei h (wallet_bnb_cache s1)) Finished
        (record_exit s1 (et_kol_name t) (et_token t) gwei n h false)) as Hx.
      rewrite Eh in Hx. apply Hx; try done. by rewrite E.
    + destruct (resync_frame env s1). by apply NonceQuiet.
  - cbn. destruct (shrink_cache_frame s (et_token t) (is_full_close z) (our_balance z) (sell_amount z))
      as (Hw & Hn & _). apply NonceQuiet; [unfold cur; cbn; rewrite Hn; lia|done|done].
  - by apply NonceQuiet.
Qed.

(** Sent and reserved nonces are below the counter and pairwise different. *)
Record nonces_ok (p : Exits) : Prop := {
  no_dup : NoDup (wire_nonces (wire (exec p)));
  no_below : ∀ n, n ∈ wire_nonces (wire (exec p)) → n < cur (exec p);
  no_reserved : ∀ i t n, tasks p !! i = Some t → reserved (stage t) = Some n →
    n < cur (exec p) ∧ n ∉ wire_nonces (wire (exec p));
  no_shared : ∀ i j t u n, tasks p !! i = Some t → tasks p !! j = Some u →
    reserved (stage t) = Some n → reserved (stage u) = Some n → i = j;
}.

(** A task's stage that reserves nothing drops out. *)
Lemma nonces_ok_quiet p p' i t st :
  nonces_ok p → tasks p' = <[i := at_stage t st]> (tasks p) → reserved st = None →
  cur (exec p) ≤ cur (exec p') → wire (exec p') = wire (exec p) → nonces_ok p'.
Proof.
  intros [N1 N2 N3 N4] Ht Hr Hc Hw. split; rewrite ?Hw; [done| | |].
  - intros n Hn. specialize (N2 n Hn). lia.
  - intros j u n. rewrite Ht. intros [[<- <-]|[Hne Hu]]%lookup_insert_Some E; [cbn in E; congruence|].
    destruct (N3 j u n Hu E). split; [lia|done].
  - intros j k u v n. rewrite Ht.
    intros [[<- <-]|[Hj Hu]]%lookup_insert_Some [[<- <-]|[Hk Hv]]%lookup_insert_Some Eu Ev;
      cbn in *; try congruence. by eapply N4.
Qed.

Lemma nonces_resume env i p :
  nonces_ok p → 0 ≤ cur (exec p) → cur (exec p) + 1 < 2 ^ 64 → nonces_ok (resume env i p).
Proof.
  intros Hok H0 H1. destruct (resume_polled env i p) as [|t Ht E Hl|t s st Ht Hp Ea Hst]; [done| |].
  { by eapply (nonces_ok_quiet p _ i t Locked). }
  pose proof (advance_nonces env (exec p) t H0 H1) as Hn. rewrite Ea in Hn. cbn [fst snd] in Hn.
  destruct Hn as [s st Hc Hw Hr|s st Hc Hw Hr|s st n tx b Hres Hnt Hw Hc Hr].
  - by eapply (nonces_ok_quiet p _ i t st).
  - destruct Hok as [N1 N2 N3 N4].
    assert (∀ j u, tasks p !! j = Some u → reserved (stage u) ≠ Some (cur (exec p))) as Hnew.
    { intros j u Hu E. destruct (N3 j u _ Hu E). lia. }
    split; cbn; rewrite ?Hw; [done| | |].
    + intros n Hn%N2. lia.
    + intros j u n [[<- <-]|[Hne Hu]]%lookup_insert_Some E.
      * cbn in E. rewrite Hr in E. injection E as <-. split; [lia|]. intros Hin%N2. lia.
      * destruct (N3 j u n Hu E). split; [lia|done].
    + intros j k u v n [[<- <-]|[Hj Hu]]%lookup_insert_Some [[<- <-]|[Hk Hv]]%lookup_insert_Some Eu Ev;
        cbn in *; [done| | |by eapply N4];
        (rewrite Hr in *; simplify_eq; exfalso; by eapply Hnew).
  - destruct Hok as [N1 N2 N3 N4]. destruct (N3 i t n Ht Hres) as [Hlt Hnew].
    split; cbn; rewrite ?Hw; unfold wire_nonces in *; rewrite ?fmap_app; cbn.
    + apply NoDup_app. split_and!; [done| |by apply NoDup_singleton].
      intros m Hm ->%list_elem_of_singleton. by rewrite Hnt in Hm.
    + intros m [Hm%N2| ->%list_elem_of_singleton]%elem_of_app; lia.
    + intros j u m [[<- <-]|[Hne Hu]]%lookup_insert_Some E; [cbn in E; congruence|].
      destruct (N3 j u m Hu E). split; [lia|]. rewrite elem_of_app, list_elem_of_singleton.
      intros [?| ->]; [done|]. apply Hne. rewrite Hnt in E. by eapply N4.
    + intros j k u v m [[<- <-]|[Hj Hu]]%lookup_insert_Some [[<- <-]|[Hk Hv]]%lookup_insert_Some Eu Ev;
        cbn in *; try congruence. by eapply N4.
Qed.

Lemma nonces_other p e :
  nonces_ok p → 0 ≤ cur (exec p) → cur (exec p) + 2 < 2 ^ 64 → nonces_ok (exits_step p (Other e)).
Proof.
  intros [N1 N2 N3 N4] H0 H1.
  destruct (adv_step (exec p) e H0 H1) as [Hc (l & Hw & Hs & Hf)]. rewrite Forall_forall in Hf.
  split; cbn; rewrite ?Hw; unfold wire_nonces in *; rewrite ?fmap_app.
  - apply NoDup_app. split_and!; [done| |].
    + intros n Hn%N2 Hn'%Hf. lia.
    + clear -Hs. induction Hs as [|m l' Hs IH Hn]; constructor; [|done].
      rewrite Forall_forall in Hn. intros Hin%Hn. lia.
  - intros n [Hn%N2|Hn%Hf]%elem_of_app; lia.
  - intros i t n Ht E. destruct (N3 i t n Ht E). split; [lia|].
    intros [?|Hn%Hf]%elem_of_app; [done|lia].
  - done.
Qed.

Lemma nonces_begin p tk kol blk addr : nonces_ok p → nonces_ok (begin_exit p tk kol blk addr).
Proof.
  intros Hok. unfold begin_exit. destruct (check_blacklisted _ _); [done|].
  by apply (nonces_ok_quiet p _ (next_task p)
    {| et_token := tk; et_kol_name := kol; et_kol_block := blk; et_kol_addr := addr;
       stage := Waiting |} Waiting).
Qed.

Lemma exits_step_cur p e :
  0 ≤ cur (exec p) → cur (exec p) + 2 < 2 ^ 64 → cur (exec p) ≤ cur (exec (exits_step p e)).
Proof.
  intros H0 H1. destruct e as [tk kol blk addr|env i|e]; cbn.
  - unfold begin_exit. destruct (check_blacklisted _ _); cbn; lia.
  - destruct (resume_polled env i p) as [|t Ht E Hl|t s st Ht Hp Ea Hst]; cbn; try lia.
    pose proof (advance_nonces env (exec p) t H0 ltac:(lia)) as Hn. rewrite Ea in Hn.
    cbn [fst snd] in Hn. destruct Hn; lia.
  - by destruct (adv_step (exec p) e H0 H1).
Qed.

(** ** Properties *)

(** [C4] Exits never oversell, however they interleave.  From a consistent store
    with a ready position of [t] tokens, let any number of exits of any tokens
    run as concurrent tasks, interleaved at their awaits with each other, with
    buys of other tokens, background tasks of other positions, allowances,
    polls, and whatever the node answers at each of them.  The position stays
    ready and what the accepted exits sold of the token never exceeds [t]: sold
    plus cached is [t] plus the sale that was delivered but not booked yet,
    which is zero whenever no exit of the token is under way. *)
Theorem interleaved_exits_never_oversell s token id t es :
  store_ok s → ready s token id t → 0 ≤ t →
  (∀ e, Other e ∈ es → spares token id e) →
  let p := exits_run (exits_start s) es in
  ∃ left, ready (exec p) token id left ∧ 0 ≤ left ∧
    total_sold token (exec p) - total_sold token s + left = t + in_flight p token ∧
    0 ≤ in_flight p token ≤ left ∧
    ((∀ i, exit_locks p !! token ≠ Some (Some i)) → in_flight p token = 0).
Proof.
  intros Hs Hr Ht Hes. cbv zeta.
  destruct (conserved_run token id _ es _ t (conserved_start s token id t Hs Hr Ht) Hes) as (left & H).
  set (p := exits_run _ _) in *. pose proof (in_flight_bounds _ _ _ _ _ H).
  exists left. split_and!; try apply H; try lia; [pose proof (cv_sold _ _ _ _ _ H); lia|].
  intros Hfree. unfold in_flight.
  destruct (exit_locks p !! token) as [[i|]|]; [by destruct (Hfree i)|done..].
Qed.


Lemma past_rank st : past_lock st → (rank st ≤ 7)%nat.
Proof. intros [Hw Hf]. destruct st; cbn; lia || done. Qed.

(** Polls of given tasks, with given answers. *)
Definition schedule (envs : list Env) (order : list nat) : list event := zip_with Resume envs order.

Lemma schedule_replicate envs i : schedule envs (replicate (length envs) i) = polls i envs.
Proof. unfold schedule, polls. induction envs as [|env envs IH]; [done|]. cbn. by rewrite IH. Qed.

Lemma waiter_finishes p i t envs :
  tasks p !! i = Some t → stage t = Waiting → (∀ j, exit_locks p !! et_token t ≠ Some (Some j)) →
  length envs = 8%nat → tasks (exits_run p (polls i envs)) !! i = Some (at_stage t Finished).
Proof.
  intros Ht E Hf Hn. destruct envs as [|env envs]; [done|]. injection Hn as Hn.
  rewrite (polls_waiting i env envs p t) by (done || lia). apply lookup_insert_eq.
Qed.

(** [C27] Every exit can finish: the locks do not dead-lock.  After any history, for
    every exit that has not returned there is a schedule of at most fifteen
    polls, of the task that holds its token's lock and then of the task itself,
    at whose end it has returned, whatever the node, the signer and the relays
    answer on the way. *)
Theorem every_exit_finishes s es i t :
  let p := exits_run (exits_start s) es in
  tasks p !! i = Some t → stage t ≠ Finished →
  ∃ order, (length order ≤ 15)%nat ∧ (∀ j, j ∈ order → j = i ∨ exit_locks p !! et_token t = Some (Some j)) ∧
    ∀ envs, length envs = length order →
      tasks (exits_run p (schedule envs order)) !! i = Some (at_stage t Finished).
Proof.
  cbv zeta. pose proof (locks_run _ es (exits_start_locks s)) as Hok.
  set (p := exits_run _ es) in *. intros Ht Hf.
  destruct (past_lock_dec (stage t)) as [Hp|[E|E]]; [| |done].
  { exists (replicate 7 i). split; [cbn; lia|]. split; [by intros j [-> _]%elem_of_replicate; left|].
    intros envs Hn. rewrite length_replicate in Hn. rewrite <- Hn, schedule_replicate.
    rewrite (polls_drive i envs p t); [apply lookup_insert_eq|done|apply Hp..|].
    rewrite Hn. by apply past_rank. }
  destruct (exit_locks p !! et_token t) as [[j|]|] eqn:El.
  - exists (replicate 7 j ++ replicate 8 i). split; [cbn; lia|]. split.
    { intros k [[-> _]%elem_of_replicate|[-> _]%elem_of_replicate]%elem_of_app; auto. }
    intros envs Hn. rewrite length_app, !length_replicate in Hn.
    rewrite <- (take_drop 7 envs). unfold schedule. rewrite zip_with_app
      by (rewrite length_take, length_replicate; lia).
    rewrite exits_run_app. fold (schedule (take 7 envs) (replicate 7 j)).
    destruct (lk_holder p Hok _ j El) as (u & Hu & Etk & Hq).
    assert (length (take 7 envs) = 7%nat) as H7 by (rewrite length_take; lia).
    assert (length (drop 7 envs) = 8%nat) as H8 by (rewrite length_drop; lia).
    assert (schedule (take 7 envs) (replicate 7 j) = polls j (take 7 envs)) as ->
      by (by rewrite <- schedule_replicate, H7).
    rewrite (polls_drive j _ p u); [|done|apply Hq..|rewrite H7; by apply past_rank].
    fold (schedule (drop 7 envs) (replicate 8 i)).
    assert (schedule (drop 7 envs) (replicate 8 i) = polls i (drop 7 envs)) as ->
      by (by rewrite <- schedule_replicate, H8).
    apply waiter_finishes; [|done| |done].
    + cbn. rewrite lookup_insert_ne; [done|]. intros <-. rewrite Hu in Ht. injection Ht as ->.
      by destruct Hq.
    + cbn. intros k. by rewrite Etk, lookup_insert_eq.
  - exists (replicate 8 i). split; [cbn; lia|]. split; [by intros j [-> _]%elem_of_replicate; left|].
    intros envs Hn. rewrite length_replicate in Hn. rewrite <- Hn, schedule_replicate.
    apply waiter_finishes; try done. by rewrite El.
  - exists (replicate 8 i). split; [cbn; lia|]. split; [by intros j [-> _]%elem_of_replicate; left|].
    intros envs Hn. rewrite length_replicate in Hn. rewrite <- Hn, schedule_replicate.
    apply waiter_finishes; try done. by rewrite El.
Qed.


(** ** Witnesses *)

Module Concurrent.
(** A node that reports 500 of every token and accepts everything. *)
Definition env : Env :=
{| now_ms := 86400001; instant_ms := 100000; bnb_usd := Some (f64_of_Z 600);
gas_price := Some 50000000; get_pair := λ _, None; accepts_buy := λ _ _, true;
accepts_sell := λ _, true; accepts_resell := λ _, true;
tax_quote := λ a _, Some a; amounts_out := λ a _, Some a;
sign := λ t, Some (tx_nonce t); send_ok := λ _, true; chain_nonce := Some 7;
token_balance := λ _, Some 500; token_allowance := λ _ _, Some 1000;
balance_of_at := λ _ _ _, None |}.
(** The trail of two blocks and a KOL's sell, all on token 9. *)
Definition calls : list event :=
[Begin 9 "TRAIL_trail" 1 0; Begin 9 "TRAIL_trail" 2 0; Begin 9 "D" 0 5].
Definition mixed : list event :=
calls ++ schedule (replicate 27 env) [0; 1; 2; 0; 1; 0; 2; 0; 0; 1; 0; 2; 0; 1; 1; 2; 1; 2; 1; 2; 1;
                                   2; 2; 2; 2; 2; 2]%nat ++ [Other Example.poll].
(** Exits of tokens 9 and 10 whose broadcasts overtake each other. *)
Definition crossed : list event :=
[Begin 9 "D" 0 5; Begin 10 "D" 0 5] ++
schedule (replicate 12 env) [0; 0; 0; 0; 0; 1; 1; 1; 1; 1; 1; 0]%nat.
Definition store : store_ok Example.bought.
Proof.
apply (steady_run store_ok store_ok_steady Example.funded Example.purchase).
split; cbn; [by intros ?? ?|by intros ??? ?|by intros ? [? ?]].
Qed.
End Concurrent.

Lemma interleaved_exits_never_oversell_witness :
  let p := exits_run (exits_start Example.bought) Concurrent.mixed in
  total_sold 9 (exec p) = 500 ∧
  ∃ left, ready (exec p) 9 0 left ∧
    total_sold 9 (exec p) - total_sold 9 Example.bought + left = 500 + in_flight p 9.
Proof.
  split; [by vm_compute|].
  destruct (interleaved_exits_never_oversell Example.bought 9 0 500 Concurrent.mixed)
    as (left & H1 & _ & H2 & _).
  - exact Concurrent.store.
  - eexists. vm_compute. repeat split.
  - lia.
  - assert (Forall (λ x, match x with Other e => spares 9 0 e | _ => True end) Concurrent.mixed) as Hf
      by (by repeat constructor).
    rewrite Forall_forall in Hf. intros e He. exact (Hf _ He).
  - exists left. by split.
Defined.


Lemma every_exit_finishes_witness :
  let p := exits_run (exits_start Example.bought) (Concurrent.calls ++ [Resume Concurrent.env 0]) in
  exit_locks p !! 9 = Some (Some 0%nat) ∧ ∃ order, (length order ≤ 15)%nat ∧
    ∀ envs, length envs = length order →
      stage <$> tasks (exits_run p (schedule envs order)) !! 1%nat = Some Finished.
Proof.
  split; [by vm_compute|].
  destruct (every_exit_finishes Example.bought (Concurrent.calls ++ [Resume Concurrent.env 0]) 1
              {| et_token := 9; et_kol_name := "TRAIL_trail"; et_kol_block := 2; et_kol_addr := 0;
                 stage := Waiting |}) as (order & Hl & _ & H).
  - by vm_compute.
  - done.
  - exists order. split; [done|]. intros envs He. by rewrite H.
Defined.

