(* ===== verification/NonceGaps.v ===== *)
(** * trader/nonce.rs under trader/executor_live.rs: nonces that are never sent

    A chain executes an account's transactions in the order of their nonces,
    without a gap.  The executor reserves a nonce before it signs, and neither
    [resync], which never lowers the counter, nor a restart, which takes the
    maximum with the persisted counter, gives one back.  This file shows what
    that leads to: after a failed sale, and after a shadow run. *)

From Stdlib Require Import ZArith Lia Floats.SpecFloat Ascii String.
From S2P Require Import Prelude F64 Bytes Types Dex Limits ExecMath Executor.
From S2P Require Nonce.

(** ** What a chain can execute *)

(** The nonces of the transactions the node accepted. *)
Definition accepted (s : LiveExecutor) : list Z :=
  wire s ≫= λ p : Tx * bool, if p.2 then [tx_nonce p.1] else [].

(** With the account's nonce at [c], the transaction with nonce [n] can be
    executed once all nonces from [c] to [n] are there. *)
Definition executable (c n : Z) (nonces : list Z) : Prop := ∀ m, c ≤ m ≤ n → m ∈ nonces.

(** The counter stays in 64 bits along a history. *)
Definition in_range (s : LiveExecutor) (es : list event) : Prop :=
  ∀ k, cur (run s (take k es)) + 2 < 2 ^ 64.

(** ** Lemmas *)

Lemma run_advances s es : 0 ≤ cur s → in_range s es → advances s (run s es).
Proof.
  revert s. induction es as [|e es IH]; intros s H0 Hb; [by apply adv_same|].
  pose proof (adv_step s e H0 (Hb 0%nat)) as Ha. pose proof (adv_cur _ _ Ha).
  eapply adv_trans; [done|]. apply IH; [lia|]. intros k. exact (Hb (S k)).
Qed.

Lemma accepted_app s s' l :
  wire s' = wire s ++ l → accepted s' = accepted s ++ (l ≫= λ p : Tx * bool, if p.2 then [tx_nonce p.1] else []).
Proof. unfold accepted. intros ->. apply bind_app. Qed.

(** What is accepted later has a nonce from the counter on. *)
Lemma accepted_later s s' n : advances s s' → n ∈ accepted s' → n ∈ accepted s ∨ cur s ≤ n.
Proof.
  intros [_ (l & Hw & _ & Hf)]. rewrite (accepted_app _ _ _ Hw), elem_of_app. intros [?|Hn]; [by left|].
  right. rewrite Forall_forall in Hf. apply list_elem_of_bind in Hn as ([tx b] & Hn & Hp).
  cbn in Hn. destruct b; [|by apply not_elem_of_nil in Hn]. apply list_elem_of_singleton in Hn as ->.
  apply Hf. unfold wire_nonces. apply list_elem_of_fmap. by exists (tx, true).
Qed.

(** A nonce the counter has passed and that was not accepted blocks all that
    come after it, whatever happens. *)
Lemma skipped_nonce_blocks s es g c :
  0 ≤ cur s → in_range s es → c ≤ g < cur s → g ∉ accepted s →
  ∀ n, g ≤ n → ¬ executable c n (accepted (run s es)).
Proof.
  intros H0 Hb Hg Hn n Hle Hx. specialize (Hx g ltac:(lia)).
  apply (accepted_later s) in Hx; [|by apply run_advances]. destruct Hx; [done|lia].
Qed.

(** ** Shadow mode *)

(** [s'] has the configuration and the blacklist of [s] and, in shadow mode,
    its wire. *)
Definition shadowed (s s' : LiveExecutor) : Prop :=
  cfg (limits_rt s') = cfg (limits_rt s) ∧ blacklist s' = blacklist s ∧
  (broadcast_enabled (limits_rt s) = false → wire s' = wire s).

Lemma shadowed_refl s : shadowed s s.
Proof. by split_and!. Qed.

Lemma shadowed_same s s' :
  limits_rt s' = limits_rt s → blacklist s' = blacklist s → wire s' = wire s → shadowed s s'.
Proof. intros Hl Hb Hw. split_and!; [by rewrite Hl|done|done]. Qed.

Lemma shadowed_trans s1 s2 s3 : shadowed s1 s2 → shadowed s2 s3 → shadowed s1 s3.
Proof.
  intros (C1 & B1 & W1) (C2 & B2 & W2). split_and!; [congruence..|]. intros H. rewrite W2, W1; [done|done|].
  revert H. unfold broadcast_enabled. by rewrite C1.
Qed.

Lemma shadowed_caches s s' : caches_only s s' → shadowed s s'.
Proof. intros (g & v & ->). by apply shadowed_same. Qed.

Lemma shadowed_resync env s : shadowed s (resync_nonce env s).
Proof. destruct (resync_nonce_of env s) as (m & -> & _). by apply shadowed_same. Qed.

Lemma shadowed_push s tx b : broadcast_enabled (limits_rt s) = true → shadowed s (push_wire s tx b).
Proof. intros H. split_and!; [done..|]. congruence. Qed.

Lemma shadowed_record_buy env s r kol vis token amount gwei n h b :
  shadowed s (record_buy env s r kol vis token amount gwei n h b).
Proof. unfold record_buy. by destruct b. Qed.

Lemma shadowed_shrink s token fc bal sold : shadowed s (shrink_cache s token fc bal sold).
Proof.
  destruct (shrink_cache_frame s token fc bal sold) as (Hw & _ & _ & _ & Hl & _).
  apply shadowed_same; [done| |done]. unfold shrink_cache. by destruct (entry_of s token) as [[]|].
Qed.

Lemma shadowed_send_buy env s r kol vis token amount fee :
  shadowed s (send_buy env s r kol vis token amount fee).
Proof.
  destruct (send_buy_cases env s r kol vis token amount fee)
    as [[_ ->]|(h & _ & [(He & _ & ->)|[(He & _ & ->)|(_ & ->)]])].
  - apply (shadowed_trans _ (bump s)); [by apply shadowed_same|apply shadowed_resync].
  - eapply shadowed_trans; [|apply shadowed_resync].
    apply (shadowed_trans _ (bump s)); [by apply shadowed_same|by apply shadowed_push].
  - eapply shadowed_trans; [|apply shadowed_record_buy].
    apply (shadowed_trans _ (bump s)); [by apply shadowed_same|by apply shadowed_push].
  - apply (shadowed_trans _ (bump s)); [by apply shadowed_same|apply shadowed_record_buy].
Qed.

Lemma shadowed_execute env s d vis n : shadowed s (execute env s d vis n).
Proof.
  unfold execute. destruct d as [| kol token amt k b t |]; try apply shadowed_refl.
  destruct (dup_guard s token) as [s0|] eqn:Ed; [|apply shadowed_refl].
  apply dup_guard_spec in Ed as [_ [p ->]]. set (s0 := set_positions s p _ _).
  apply (shadowed_trans _ s0); [by apply shadowed_same|].
  destruct (size_buy _ _ _ _) as [sized|]; [|apply shadowed_refl].
  destruct (check_blacklisted _ _); [by apply shadowed_same|].
  destruct (clamp_buy _ _) as [f amount]. unfold gated_buy.
  pose proof (shadowed_caches _ _ (gas_wei_caches env s0)) as Hg.
  destruct (gas_wei env s0) as [s1 g]. cbn [fst] in Hg. eapply shadowed_trans; [exact Hg|]. cbv zeta.
  destruct (check _ _ _) as [l res] eqn:Ec.
  assert (shadowed s1 (set_limits s1 l)) as Hl.
  { apply (f_equal (λ p, cfg p.1)) in Ec. cbn in Ec. rewrite maybe_reset_cfg in Ec. by split_and!. }
  destruct res as [[]|why]; [|eapply shadowed_trans; [exact Hl|]; by apply shadowed_same].
  eapply shadowed_trans; [exact Hl|].
  pose proof (shadowed_caches _ _ (pick_route_caches env (accepts_buy env token amount) (set_limits s1 l) token)) as Hp.
  destruct (pick_route _ _ _ _) as [s2 [r|]]; cbn [fst] in Hp; (eapply shadowed_trans; [exact Hp|]);
    [|by apply shadowed_same].
  destruct (sell_tax_refuses _ _ _ _ _); [by apply shadowed_same|apply shadowed_send_buy].
Qed.

Lemma shadowed_send_exit env s r kol token bal amount fc :
  shadowed s (send_exit env s r kol token bal amount fc).
Proof.
  destruct (send_exit_cases env s r kol token bal amount fc) as (s1 & fee & Hc & _ & Hcases).
  assert (shadowed s s1) as H1
    by (apply (shadowed_trans _ (bump s)); [by apply shadowed_same|by apply shadowed_caches]).
  assert (broadcast_enabled (limits_rt s1) = broadcast_enabled (limits_rt s)) as Hb
    by (unfold broadcast_enabled; by rewrite (proj1 H1)).
  eapply shadowed_trans; [exact H1|].
  destruct Hcases as [[_ ->]|(h & _ & [(He & _ & ->)|[(He & _ & ->)|(_ & ->)]])].
  - apply shadowed_resync.
  - eapply shadowed_trans; [apply shadowed_push; congruence|apply shadowed_resync].
  - eapply shadowed_trans; [apply (shadowed_push s1 (sell_tx env s r token amount fee) true); congruence|].
    eapply shadowed_trans; [apply (shadowed_shrink _ token fc bal amount)|]. by apply shadowed_same.
  - by apply shadowed_same.
Qed.

Lemma shadowed_approve env s token spender : shadowed s (submit_approve env s token spender).1.
Proof.
  unfold submit_approve. rewrite reserve_nonce_eq.
  pose proof (shadowed_caches _ _ (gas_wei_caches env (bump s))) as Hg.
  destruct (gas_wei env (bump s)) as [s1 g]. cbn [fst] in Hg.
  assert (shadowed s s1) as H1 by (apply (shadowed_trans _ (bump s)); [by apply shadowed_same|done]).
  destruct (sign env _); [|done]. destruct (broadcast_enabled _) eqn:Eb; [|done].
  eapply shadowed_trans; [exact H1|]. by apply shadowed_push.
Qed.

Lemma shadowed_exit env s token kol blk addr : shadowed s (execute_exit env s token kol blk addr).
Proof.
  unfold execute_exit. destruct (check_blacklisted _ _); [apply shadowed_refl|]. cbv zeta.
  pose proof (shadowed_caches _ _ (exit_source_caches env s token)) as Hx.
  destruct (exit_source env s token) as [s1 [[[bal r] fast]|]]; cbn [fst] in Hx; [|done].
  destruct (negb _ && (_ =? 0)); [done|]. eapply shadowed_trans; [exact Hx|].
  assert (∀ s2 amount fc, shadowed s2 (let '(s', fresh) := pick_route env (accepts_resell env token) s2 token in
    send_exit env s' (unwrap_or fresh r) kol token bal amount fc)) as Htail.
  { intros s2 amount fc. pose proof (shadowed_caches _ _ (pick_route_caches env (accepts_resell env token) s2 token)) as Hp.
    destruct (pick_route _ _ _ _) as [s' fresh]. cbn [fst] in Hp.
    eapply shadowed_trans; [exact Hp|apply shadowed_send_exit]. }
  match goal with |- context [if ?c then submit_approve env s1 token ?sp else _] =>
    pose proof (shadowed_approve env s1 token sp) as Ha;
    destruct c; [destruct (submit_approve env s1 token sp) as [s2 [|]]; cbn [fst negb] in Ha |- *|cbn [negb]]
  end.
  - eapply shadowed_trans; [exact Ha|apply Htail].
  - eapply shadowed_trans; [exact Ha|apply shadowed_resync].
  - apply Htail.
Qed.

Lemma shadowed_step s e : shadowed s (step s e).
Proof.
  destruct e as [env d vis n|env token kol blk addr|env token id|env token id|id|l|r]; cbn.
  - apply shadowed_execute.
  - apply shadowed_exit.
  - apply shadowed_same; unfold bg_balance; repeat case_scrut; done.
  - unfold bg_approve. destruct (heap s !! id) as [e|]; [|apply shadowed_refl].
    destruct (bool_decide _); cbn [andb]; [|apply shadowed_refl].
    destruct (broadcast_enabled (limits_rt s)) eqn:Eb; [|apply shadowed_refl].
    rewrite reserve_nonce_eq. cbv zeta. destruct (sign env _); [|by apply shadowed_same].
    apply (shadowed_trans _ (bump s)); [by apply shadowed_same|by apply shadowed_push].
  - apply shadowed_same; unfold bg_approved; repeat case_scrut; done.
  - split_and!; [|done|done]. cbn. unfold sync_realized_loss. by case_scrut.
  - apply shadowed_same; unfold refresh_wallet; repeat case_scrut; done.
Qed.

Lemma shadowed_run s es : shadowed s (run s es).
Proof.
  revert s. induction es as [|e es IH]; intros s; [apply shadowed_refl|].
  eapply shadowed_trans; [apply shadowed_step|apply IH].
Qed.

(** ** A sale that fails *)

(** The exit of a ready position goes straight to [send_exit]. *)
Lemma ready_exit_is_send env s token kol blk addr id t :
  ready s token id t → 0 < t → check_blacklisted (blacklist s) token = false →
  exit_amount env token blk addr t ≠ 0 →
  ∃ s2 r fc, caches_only s s2 ∧
    execute_exit env s token kol blk addr =
      send_exit env s2 r kol token t (exit_amount env token blk addr t) fc.
Proof.
  intros Hr Ht Hb. unfold execute_exit, exit_amount. rewrite Hb. cbv zeta.
  set (fr := unwrap_or (kol_sell_fraction _ _ _ _) f1). intros Ha.
  pose proof (exit_source_ready env s token id t Hr) as Hx.
  pose proof (exit_source_caches env s token) as Hs1.
  destruct (exit_source env s token) as [s1 src]. cbn [fst snd] in Hx, Hs1.
  destruct Hr as (e & Hent & _). apply entry_of_Some in Hent as [_ Hheap]. rewrite Hheap in Hx.
  destruct (Z.eqb_spec t 0); [lia|]. subst src.
  assert (negb (fge fr FULL_CLOSE) && ((if fge fr FULL_CLOSE then t else scale_u256_by_fraction t fr) =? 0)
    = false) as ->.
  { destruct (fge fr FULL_CLOSE); [done|]. cbn. by apply Z.eqb_neq. }
  cbn [negb andb]. pose proof (pick_route_caches env (accepts_resell env token) s1 token) as Hp.
  destruct (pick_route _ _ _ _) as [s2 fresh]. cbn [fst] in Hp.
  exists s2, (unwrap_or fresh (route e)), (fge fr FULL_CLOSE). split; [|done].
  by eapply caches_trans.
Qed.

(** A send that fails leaves the accepted transactions and the positions, and
    consumes the nonce. *)
Lemma failed_send env s r kol token bal amount fc :
  0 ≤ cur s → cur s + 1 < 2 ^ 64 → broadcast_enabled (limits_rt s) = true →
  (∀ tx, sign env tx = None) ∨ (∀ tx, send_ok env tx = false) →
  let s' := send_exit env s r kol token bal amount fc in
  accepted s' = accepted s ∧ cur s < cur s' ∧ positions s' = positions s ∧ heap s' = heap s.
Proof.
  intros H0 H1 He Hf. cbv zeta.
  destruct (send_exit_cases env s r kol token bal amount fc) as (s1 & fee & (g & v & ->) & _ & Hcases).
  set (s1 := set_caches (bump s) g v) in *.
  assert (cur s1 = cur s + 1) as Hc by (by apply (cur_bump s)).
  assert (∀ s2, cur s2 = cur s1 → accepted s2 = accepted s → positions s2 = positions s →
    heap s2 = heap s → let s' := resync_nonce env s2 in
    accepted s' = accepted s ∧ cur s < cur s' ∧ positions s' = positions s ∧ heap s' = heap s) as Hre.
  { intros s2 Hc2 Ha Hp Hh. cbv zeta. destruct (resync_nonce_of env s2) as (m & -> & Hm & _).
    split_and!; try done. unfold cur in *. cbn. lia. }
  set (tx := sell_tx env s r token amount fee) in *.
  destruct Hcases as [[_ ->]|(h & Hh & [(_ & _ & ->)|[(_ & Hok & _)|(Hn & _)]])].
  - by apply Hre.
  - apply Hre; try done. unfold accepted. cbn [wire push_wire].
    rewrite bind_app. cbn. by rewrite app_nil_r.
  - destruct Hf as [Hf|Hf]; [by rewrite Hf in Hh|by rewrite Hf in Hok].
  - congruence.
Qed.

(** ** Properties *)

(** [C12] One failed sale blocks the wallet.  Let a ready position be sold while the
    signer fails or the node refuses, the account's nonce on the chain being at
    most the counter.  The position stays and the counter has moved past the
    failed transaction's nonce.  From then on, over any history, with any
    resynchronisations: no transaction with that nonce or a later one can ever
    be executed on what the node accepts, because that nonce is never accepted
    again.  Only a transaction sent by other means can fill the gap. *)
Theorem failed_sale_blocks_the_wallet env s token id t kol blk addr c es :
  ready s token id t → 0 < t → check_blacklisted (blacklist s) token = false →
  exit_amount env token blk addr t ≠ 0 → broadcast_enabled (limits_rt s) = true →
  (∀ tx, sign env tx = None) ∨ (∀ tx, send_ok env tx = false) →
  0 ≤ cur s → cur s + 2 < 2 ^ 64 → c ≤ cur s → (∀ n, n ∈ accepted s → n < cur s) →
  let s' := execute_exit env s token kol blk addr in
  in_range s' es →
  ready s' token id t ∧ cur s < cur s' ∧ accepted s' = accepted s ∧
  ∀ n, cur s ≤ n → ¬ executable c n (accepted (run s' es)).
Proof.
  intros Hr Ht Hb Ha He Hf H0 H1 Hc Hacc. cbv zeta. intros Hin.
  destruct (ready_exit_is_send env s token kol blk addr id t Hr Ht Hb Ha)
    as (s2 & r & fc & (g & v & ->) & Heq).
  rewrite Heq in Hin |- *.
  destruct (failed_send env (set_caches s g v) r kol token t (exit_amount env token blk addr t) fc)
    as (Hacc' & Hcur & Hp & Hh); [done|unfold cur in *; cbn in *; lia|done|done|].
  set (s' := send_exit _ _ _ _ _ _ _ _) in *. change (cur s < cur s') in Hcur.
  change (accepted s' = accepted s) in Hacc'. split_and!; try done.
  - apply (ready_same s); [done|by rewrite Hh|done].
  - apply skipped_nonce_blocks; [lia|done|lia|]. rewrite Hacc'. intros Hin'%Hacc. lia.
Qed.

(** [C11] A shadow run blocks live trading.  Start in shadow mode, as the README
    advises, and let it sign at least one transaction; nothing is sent, so the
    account's nonce on the chain stays [c].  Stop, switch to a live phase and
    start again on the counter the shadow run persisted: over any history,
    nothing that the node accepts from the live run can be executed, since
    the nonce [c] is never used. *)
Theorem shadow_run_blocks_live_trading me file reply reply' c nm nm' l l' led led' bl bl' es es' :
  let s0 := LiveExecutor_new me nm l led bl in
  let s1 := run s0 es in
  let live := LiveExecutor_new me nm' l' led' bl' in
  0 ≤ c →
  Nonce.fetch_pending_nonce reply = Ok c → Nonce.NonceManager_new true file reply = Ok nm →
  broadcast_enabled l = false → in_range s0 es → cur s0 < cur s1 →
  Nonce.fetch_pending_nonce reply' = Ok c →
  Nonce.NonceManager_new true (Nonce.disk (Nonce.disk_write (nonce s1) (cur s1))) reply' = Ok nm' →
  in_range live es' →
  wire s1 = [] ∧ ∀ n, n ∈ accepted (run live es') → ¬ executable c n (accepted (run live es')).
Proof.
  cbv zeta. intros H0 Hf Hnm Hsh Hin Hsig Hf' Hnm' Hin'.
  unfold Nonce.NonceManager_new in Hnm, Hnm'. rewrite Hf in Hnm. rewrite Hf' in Hnm'.
  injection Hnm as <-. injection Hnm' as <-.
  set (s0 := LiveExecutor_new me _ l led bl) in *. set (s1 := run s0 es) in *.
  assert (c ≤ cur s0) as Hc by apply Z.le_max_l.
  pose proof (Hin (length es)) as Hlen. rewrite take_ge in Hlen by done. fold s1 in Hlen.
  assert (in_width 64 (cur s1)) as Hw by (unfold in_width; lia).
  split; [by apply (shadowed_run s0 es)|].
  pose proof (Nonce.disk_n_write (nonce s1) (cur s1) Hw) as Hd. cbn in Hd. rewrite Hd in Hin' |- *.
  set (live := LiveExecutor_new me _ l' led' bl') in *.
  assert (cur live = Z.max c (cur s1)) as Hcl by done.
  intros n Hn. apply (skipped_nonce_blocks live es' c c); [lia|done|lia|apply not_elem_of_nil|].
  apply (accepted_later live) in Hn; [|apply run_advances; [lia|done]].
  destruct Hn as [Hn|Hn]; [by apply not_elem_of_nil in Hn|lia].
Qed.

(** ** Witnesses *)

Module Gap.
(** The configuration of the examples, in shadow mode. *)
Definition shadow_config : LimitsConfig :=
{| phase := {| shadow := true; tiny := false; full := false |};
limits := limits example_config; strategy := strategy example_config;
wallet_keyfile := wallet_keyfile example_config; submission := submission example_config; tokens := tokens example_config;
audit := audit example_config |}.
Definition reply : rpc_reply := Reply true None (Some (list_ascii_of_string "0x7")).
Definition buys : list event :=
[Example.poll; EvBuy (Example.env None) Example.entry "public" 0].
(** After a buy, a sale fails; the next one goes out. *)
Definition retry : list event := [EvExit (Example.env None) 9 "D" 0 5].
End Gap.

Lemma failed_sale_blocks_the_wallet_witness :
  let s' := execute_exit Example.holds_500 Example.bought 9 "D" 0 5 in
  accepted (run s' Gap.retry) = [7; 9] ∧ ¬ executable 8 9 (accepted (run s' Gap.retry)).
Proof.
  intros s'. split; [by vm_compute|].
  destruct (failed_sale_blocks_the_wallet Example.holds_500 Example.bought 9 0 500 "D" 0 5 8 Gap.retry)
    as (_ & _ & _ & H).
  - eexists. vm_compute. repeat split.
  - lia.
  - by vm_compute.
  - vm_compute. discriminate.
  - by vm_compute.
  - left. by intros tx.
  - by vm_compute.
  - by vm_compute.
  - by vm_compute.
  - intros n Hn. vm_compute in Hn. apply list_elem_of_singleton in Hn as ->. by vm_compute.
  - intros [|[|k]]; by vm_compute.
  - apply H. by vm_compute.
Defined.

Lemma shadow_run_blocks_live_trading_witness :
  let nm n disk := {| Nonce.current := n; Nonce.persist := true; Nonce.disk := disk |} in
  let s1 := run (LiveExecutor_new 0x77 (nm 7 None) (LimitsRuntime_new Gap.shadow_config 86400)
                   Example.led None) Gap.buys in
  let s2 := run (LiveExecutor_new 0x77 (nm 8 (Some ["8"%char])) Example.limits Example.led None) Gap.buys in
  accepted s2 = [8] ∧ wire s1 = [] ∧ ¬ executable 7 8 (accepted s2).
Proof.
  intros nm s1 s2. split; [by vm_compute|].
  destruct (shadow_run_blocks_live_trading 0x77 None Gap.reply Gap.reply 7 (nm 7 None)
              (nm 8 (Some ["8"%char])) (LimitsRuntime_new Gap.shadow_config 86400) Example.limits
              Example.led Example.led None None Gap.buys Gap.buys) as [H1 H2].
  - lia.
  - by vm_compute.
  - by vm_compute.
  - by vm_compute.
  - intros [|[|[|k]]]; by vm_compute.
  - by vm_compute.
  - by vm_compute.
  - by vm_compute.
  - intros [|[|[|k]]]; by vm_compute.
  - split; [exact H1|]. apply H2. vm_compute. apply list_elem_of_here.
Defined.
