(* ===== verification/Finalize.v ===== *)
(** * trader/executor_live.rs: the background task of a buy

    A buy that was broadcast spawns [finalize_position]: under one of eight
    permits it waits for the buy's receipt, reads the balance, and on the
    bonding curve submits the allowance and waits for its receipt.  Here the
    tasks and the semaphore are a state, and a poll of a task is a step; what
    the tasks do to the executor are its [bg_*] operations. *)

From Stdlib Require Import ZArith Lia Floats.SpecFloat Ascii String.
From S2P Require Import Prelude F64 Bytes Types Dex Limits ExecMath Executor NonceGaps.
From S2P Require Nonce.

(** ** Data *)

Definition BG_FINALIZE_CONCURRENCY : nat := 8.
Definition RECEIPT_WAIT : Z := 30000.
Definition APPROVE_WAIT : Z := 15000.
Definition POLL_PAUSE : Z := 500.

Inductive FinStage : Type :=
| Queued
| PollReceipt (deadline : Z)
| ReadBalance
| Approve
| PollApproval (deadline : Z) (approve_hash : B256)
| Settled.

Record FinTask : Type := {
  fin_token : Address;
  fin_hash : B256;
  fin_route : BuyRoute;
  fin_entry : nat;
  fin_stage : FinStage;
}.

(** The executor, the free permits of [bg_semaphore], the spawned tasks. *)
Record Finalizer : Type := {
  fin_exec : LiveExecutor;
  permits : nat;
  fins : gmap nat FinTask;
  next_fin : nat;
}.

Definition fin_at (t : FinTask) (st : FinStage) : FinTask :=
  {| fin_token := fin_token t; fin_hash := fin_hash t; fin_route := fin_route t;
     fin_entry := fin_entry t; fin_stage := st |}.

Definition finalizer_start (s : LiveExecutor) : Finalizer :=
  {| fin_exec := s; permits := BG_FINALIZE_CONCURRENCY; fins := ∅; next_fin := 0 |}.

(** ** Operations *)

(** [submit_approve_bg]: the hash of the allowance when the node took it. *)
Definition submit_approve_bg (env : Env) (s : LiveExecutor) (token : Address)
  : LiveExecutor * option B256 :=
  if negb (broadcast_enabled (limits_rt s)) then (s, None)
  else
    let '(s, n) := reserve_nonce s in
    let fee := Z.max (unwrap_or (gas_price env) 3000000000) SELL_GAS_FLOOR in
    let tx := make_tx token 0 (approve FOURMEME U256_MAX) 60000 fee n in
    match sign env tx with
    | None => (s, None)
    | Some h => (push_wire s tx (send_ok env tx), if send_ok env tx then Some h else None)
    end.

(** One poll of a task that has its permit.  [receipts] is what
    [receipt_status] reads. *)
Definition fin_advance (env : Env) (receipts : B256 → option bool) (s : LiveExecutor) (t : FinTask)
  : LiveExecutor * FinStage :=
  let seen h := bool_decide (receipts h = Some true) in
  match fin_stage t with
  | Queued => (s, Queued)
  | PollReceipt deadline =>
      if instant_ms env <? deadline then
        (s, if seen (fin_hash t) then ReadBalance else PollReceipt deadline)
      else (s, Settled)
  | ReadBalance =>
      (bg_balance env s (fin_token t) (fin_entry t),
       if bool_decide (fin_route t = FourMeme) && broadcast_enabled (limits_rt s)
       then Approve else Settled)
  | Approve =>
      let '(s, h) := submit_approve_bg env s (fin_token t) in
      (s, match h with Some h => PollApproval (instant_ms env + APPROVE_WAIT) h | None => Settled end)
  | PollApproval deadline h =>
      if instant_ms env <? deadline then
        if seen h then (bg_approved s (fin_entry t), Settled) else (s, PollApproval deadline h)
      else (s, Settled)
  | Settled => (s, Settled)
  end.

(** A poll.  A queued task takes a permit if there is one; a task that returns
    gives its permit back. *)
Definition fin_poll (env : Env) (receipts : B256 → option bool) (i : nat) (f : Finalizer) : Finalizer :=
  match fins f !! i with
  | None => f
  | Some t =>
      match fin_stage t with
      | Settled => f
      | Queued =>
          match permits f with
          | O => f
          | S k =>
              {| fin_exec := fin_exec f; permits := k;
                 fins := <[i := fin_at t (PollReceipt (instant_ms env + RECEIPT_WAIT))]> (fins f);
                 next_fin := next_fin f |}
          end
      | _ =>
          let '(s, st) := fin_advance env receipts (fin_exec f) t in
          {| fin_exec := s;
             permits := match st with Settled => S (permits f) | _ => permits f end;
             fins := <[i := fin_at t st]> (fins f); next_fin := next_fin f |}
      end
  end.

(** [execute] with the task that a broadcast buy spawns: the entry it opened,
    the route it took and the hash that was signed. *)
Definition fin_buy (env : Env) (d : Decision) (vis : string) (n : Z) (f : Finalizer) : Finalizer :=
  let s := fin_exec f in
  let s' := execute env s d vis n in
  let unspawned := {| fin_exec := s'; permits := permits f; fins := fins f; next_fin := next_fin f |} in
  match d with
  | Enter _ token _ _ _ _ =>
      if (next_entry s' =? next_entry s)%nat then unspawned
      else
        match entry_of s' token, last (wire s') with
        | Some (id, e), Some (tx, _) =>
            {| fin_exec := s'; permits := permits f;
               fins := <[next_fin f := {| fin_token := token; fin_hash := unwrap_or (sign env tx) 0;
                                          fin_route := route e; fin_entry := id;
                                          fin_stage := Queued |}]> (fins f);
               next_fin := S (next_fin f) |}
        | _, _ => unspawned
        end
  | _ => unspawned
  end.

Inductive fin_event : Type :=
| FinBuy (env : Env) (d : Decision) (vis : string) (n : Z)
| FinPoll (env : Env) (receipts : B256 → option bool) (i : nat)
| FinOther (e : event).

Definition fin_step (f : Finalizer) (e : fin_event) : Finalizer :=
  match e with
  | FinBuy env d vis n => fin_buy env d vis n f
  | FinPoll env receipts i => fin_poll env receipts i f
  | FinOther e =>
      {| fin_exec := Executor.step (fin_exec f) e; permits := permits f; fins := fins f;
         next_fin := next_fin f |}
  end.

Definition fin_run (f : Finalizer) (es : list fin_event) : Finalizer := foldl fin_step f es.

(** ** Lemmas: the entry of a task *)

(** Entry [id] is in the store and was opened on route [r]. *)
Definition tracked (id : nat) (r : BuyRoute) (s : LiveExecutor) : Prop :=
  store_ok s ∧ ∃ e, heap s !! id = Some e ∧ route e = r.

Lemma tracked_steady id r : steady (tracked id r).
Proof.
  destruct store_ok_steady as [Ss Sd Sn St Sa]. split.
  - intros s s' Hp Hh Hn [Hok He]. split; [by eapply Ss|by rewrite Hh].
  - intros s token [Hok He]. split; [by apply Sd|done].
  - intros s token e [Hok (e0 & He & Hr)] Ht Ha. split; [by apply Sn|].
    exists e0. cbn. rewrite lookup_insert_ne; [done|]. intros Eid. subst id.
    pose proof (so_fresh s Hok _ ltac:(eauto)). lia.
  - intros s i e z [Hok (e0 & He & Hr)] Hi. split; [by eapply St|]. cbn.
    destruct (decide (i = id)) as [->|Hne]; [|by rewrite lookup_insert_ne; eauto].
    rewrite lookup_insert_eq. rewrite He in Hi. injection Hi as ->. by eexists.
  - intros s i e [Hok (e0 & He & Hr)] Hi Hc. split; [by eapply Sa|]. cbn.
    destruct (decide (i = id)) as [->|Hne]; [|by rewrite lookup_insert_ne; eauto].
    rewrite lookup_insert_eq. rewrite He in Hi. injection Hi as ->. by eexists.
Qed.

Lemma step_enabled s e :
  broadcast_enabled (limits_rt (Executor.step s e)) = broadcast_enabled (limits_rt s).
Proof. unfold broadcast_enabled. by rewrite (proj1 (shadowed_step s e)). Qed.

(** With the curve's route, the allowance is [bg_approve]. *)
Lemma submit_approve_bg_is_step env s token id :
  tracked id FourMeme s →
  (submit_approve_bg env s token).1 = Executor.step s (EvBgApprove env token id).
Proof.
  intros (_ & e & He & Hr). cbn. unfold submit_approve_bg, bg_approve. rewrite He, Hr.
  rewrite bool_decide_eq_true_2 by done. cbn [andb]. destruct (broadcast_enabled _); [|done].
  cbn [negb]. rewrite reserve_nonce_eq. cbv zeta. by destruct (sign env _).
Qed.

(** ** Lemmas: what the tasks do to the executor *)

Definition permitted (st : FinStage) : bool :=
  match st with Queued | Settled => false | _ => true end.
Definition approving (st : FinStage) : bool :=
  match st with Approve | PollApproval _ _ => true | _ => false end.

(** The tasks that have a permit. *)
Definition running (f : Finalizer) : gmap nat FinTask :=
  filter (λ p, permitted (fin_stage p.2) = true) (fins f).

Record fin_ok (f : Finalizer) : Prop := {
  fo_store : store_ok (fin_exec f);
  fo_fresh : ∀ i, is_Some (fins f !! i) → (i < next_fin f)%nat;
  fo_tracked : ∀ i t, fins f !! i = Some t → tracked (fin_entry t) (fin_route t) (fin_exec f);
  fo_curve : ∀ i t, fins f !! i = Some t → approving (fin_stage t) = true →
    fin_route t = FourMeme ∧ broadcast_enabled (limits_rt (fin_exec f)) = true;
  fo_permits : (permits f + size (running f) = BG_FINALIZE_CONCURRENCY)%nat;
}.

(** A poll past the queue is at most one operation of the executor. *)
Lemma fin_advance_steps env receipts s t :
  (fin_stage t = Approve ∨ (∃ d h, fin_stage t = PollApproval d h) →
     tracked (fin_entry t) FourMeme s) →
  ∃ evs, (fin_advance env receipts s t).1 = run s evs ∧
    Forall (λ e, (∃ env, e = EvBgBalance env (fin_token t) (fin_entry t)) ∨
                 (∃ env, e = EvBgApprove env (fin_token t) (fin_entry t)) ∨
                 e = EvBgApproved (fin_entry t)) evs.
Proof.
  intros Htr. unfold fin_advance. cbv zeta.
  destruct (fin_stage t) as [|d| | |d h|] eqn:E.
  - by exists [].
  - exists []. split; [by case_scrut|done].
  - exists [EvBgBalance env (fin_token t) (fin_entry t)]. split; [done|]. constructor; eauto.
  - exists [EvBgApprove env (fin_token t) (fin_entry t)]. split; [|constructor; eauto].
    change (run s [EvBgApprove env (fin_token t) (fin_entry t)])
      with (Executor.step s (EvBgApprove env (fin_token t) (fin_entry t))).
    rewrite <- (submit_approve_bg_is_step env s (fin_token t)) by auto.
    by destruct (submit_approve_bg env s (fin_token t)).
  - destruct (instant_ms env <? d); [|by exists []]. case_scrut; [|by exists []].
    exists [EvBgApproved (fin_entry t)]. split; [done|]. constructor; auto.
  - by exists [].
Qed.

(** The approval's stages are entered on the curve's route only. *)
Lemma fin_advance_curve env receipts s t :
  (approving (fin_stage t) = true → fin_route t = FourMeme ∧ broadcast_enabled (limits_rt s) = true) →
  approving (fin_advance env receipts s t).2 = true →
  fin_route t = FourMeme ∧ broadcast_enabled (limits_rt s) = true.
Proof.
  intros Hc. unfold fin_advance. cbv zeta. destruct (fin_stage t) as [|d| | |d h|] eqn:E; try done.
  - destruct (instant_ms env <? d); [|done]. by case_scrut.
  - cbn [snd]. destruct (bool_decide _) eqn:Er; [|done]. apply bool_decide_eq_true in Er.
    by destruct (broadcast_enabled _).
  - intros _. by apply Hc.
  - intros _. by apply Hc.
Qed.

Lemma fin_advance_permitted env receipts s t :
  permitted (fin_stage t) = true → permitted (fin_advance env receipts s t).2 = false →
  (fin_advance env receipts s t).2 = Settled.
Proof.
  unfold fin_advance. cbv zeta. destruct (fin_stage t) as [|d| | |d h|]; try done; intros _;
    repeat case_scrut; by cbn.
Qed.

(** The number of running tasks when the stage of one changes. *)
Lemma running_insert (m : gmap nat FinTask) i t st :
  m !! i = Some t →
  let run (m : gmap nat FinTask) := size (filter (λ p, permitted (fin_stage p.2) = true) m) in
  (run (<[i := fin_at t st]> m) + (if permitted (fin_stage t) then 1 else 0) =
   run m + (if permitted st then 1 else 0))%nat.
Proof.
  intros Ht. cbv zeta.
  assert (∀ (m' : gmap nat FinTask) u, m' !! i = None →
    size (filter (λ p, permitted (fin_stage p.2) = true) (<[i := u]> m')) =
    (size (filter (λ p, permitted (fin_stage p.2) = true) m') +
      (if permitted (fin_stage u) then 1 else 0))%nat) as Hnew.
  { intros m' u Hn. destruct (permitted (fin_stage u)) eqn:Ep.
    - rewrite map_filter_insert_True by done. rewrite map_size_insert_None; [lia|].
      apply map_lookup_filter_None. by left.
    - rewrite map_filter_insert_False by (cbn; congruence). rewrite delete_id by done. lia. }
  rewrite <- (insert_delete_id m i t Ht) at 2. rewrite <- insert_delete_eq.
  rewrite !Hnew by apply lookup_delete_eq. cbn [fin_stage fin_at]. lia.
Qed.

(** The ways a poll can go. *)
Inductive fin_polled (env : Env) (receipts : B256 → option bool) (i : nat) (f : Finalizer)
  : Finalizer → Prop :=
| FinIdle : fin_polled env receipts i f f
| FinPermit t k :
    fins f !! i = Some t → fin_stage t = Queued → permits f = S k →
    fin_polled env receipts i f
      {| fin_exec := fin_exec f; permits := k;
         fins := <[i := fin_at t (PollReceipt (instant_ms env + RECEIPT_WAIT))]> (fins f);
         next_fin := next_fin f |}
| FinAdvance t s st :
    fins f !! i = Some t → permitted (fin_stage t) = true →
    fin_advance env receipts (fin_exec f) t = (s, st) → (permitted st = false → st = Settled) →
    fin_polled env receipts i f
      {| fin_exec := s; permits := match st with Settled => S (permits f) | _ => permits f end;
         fins := <[i := fin_at t st]> (fins f); next_fin := next_fin f |}.

Lemma fin_poll_cases env receipts i f : fin_polled env receipts i f (fin_poll env receipts i f).
Proof.
  unfold fin_poll. destruct (fins f !! i) as [t|] eqn:Ht; [|constructor].
  destruct (permitted (fin_stage t)) eqn:Ep.
  - pose proof (fin_advance_permitted env receipts (fin_exec f) t Ep) as Hs.
    destruct (fin_advance env receipts (fin_exec f) t) as [s st] eqn:Ea. cbn [snd] in Hs.
    pose proof (FinAdvance env receipts i f t s st Ht Ep Ea Hs) as H.
    destruct (fin_stage t); done.
  - destruct (fin_stage t) eqn:E; try done; [|constructor].
    destruct (permits f) as [|k] eqn:Ek; [constructor|]. by apply FinPermit.
Qed.

Lemma tracked_run id r s evs : tracked id r s → tracked id r (run s evs).
Proof. apply steady_run, tracked_steady. Qed.

Lemma run_enabled s evs :
  broadcast_enabled (limits_rt (run s evs)) = broadcast_enabled (limits_rt s).
Proof. unfold broadcast_enabled. by rewrite (proj1 (shadowed_run s evs)). Qed.

(** Only the executor changes: by a history. *)
Lemma fin_ok_exec f evs :
  fin_ok f →
  fin_ok {| fin_exec := run (fin_exec f) evs; permits := permits f; fins := fins f;
            next_fin := next_fin f |}.
Proof.
  intros [H1 H2 H3 H4 H5]. split; cbn; [by apply (steady_run store_ok store_ok_steady)|done| | |done].
  - intros i t Ht. by apply tracked_run, (H3 i).
  - intros i t Ht Ha. rewrite run_enabled. by apply (H4 i).
Qed.

Lemma fin_ok_poll env receipts i f :
  fin_ok f →
  fin_ok (fin_poll env receipts i f) ∧
  ∃ evs, fin_exec (fin_poll env receipts i f) = run (fin_exec f) evs.
Proof.
  intros Hok. destruct (fin_poll_cases env receipts i f) as [|t k Ht E Hk|t s st Ht Ep Ea Hst];
    [split; [done|by exists []]| |].
  - destruct Hok as [H1 H2 H3 H4 H5]. split; [|by exists []]. split; cbn; [done|..].
    + intros j [u [[<- _]|[_ Hu]]%lookup_insert_Some]; eauto.
    + intros j u [[<- <-]|[_ Hu]]%lookup_insert_Some; [exact (H3 i t Ht)|exact (H3 j u Hu)].
    + intros j u [[<- <-]|[_ Hu]]%lookup_insert_Some Ha; [done|exact (H4 j u Hu Ha)].
    + pose proof (running_insert (fins f) i t (PollReceipt (instant_ms env + RECEIPT_WAIT)) Ht) as Hn.
      cbv zeta in Hn. rewrite E in Hn. cbn [permitted] in Hn. unfold running in *. cbn. lia.
  - pose proof (fo_tracked f Hok i t Ht) as Htr. pose proof (fo_curve f Hok i t Ht) as Hcv.
    destruct (fin_advance_steps env receipts (fin_exec f) t) as (evs & Hs & _).
    { intros [E|(d & h & E)]; rewrite E in Hcv; by destruct (Hcv eq_refl) as [<- _]. }
    pose proof (fin_advance_curve env receipts (fin_exec f) t Hcv) as Hcv'.
    rewrite Ea in Hs, Hcv'. cbn [fst snd] in Hs, Hcv'. subst s. split; [|by exists evs].
    destruct (fin_ok_exec f evs Hok) as [H1 H2 H3 H4 H5]. cbn in H1, H2, H3, H4, H5.
    split; cbn; [done|..].
    + intros j [u [[<- _]|[_ Hu]]%lookup_insert_Some]; eauto.
    + intros j u [[<- <-]|[_ Hu]]%lookup_insert_Some; [exact (H3 i t Ht)|exact (H3 j u Hu)].
    + intros j u [[<- <-]|[_ Hu]]%lookup_insert_Some Ha; [|exact (H4 j u Hu Ha)].
      cbn in *. rewrite run_enabled. by apply Hcv'.
    + pose proof (running_insert (fins f) i t st Ht) as Hn. cbv zeta in Hn. rewrite Ep in Hn.
      unfold running in *. cbn in *. destruct st; cbn [permitted] in *; try lia.
      by discriminate Hst.
Qed.


Lemma fin_ok_buy env d vis n f :
  fin_ok f → fin_ok (fin_buy env d vis n f) ∧
    fin_exec (fin_buy env d vis n f) = run (fin_exec f) [EvBuy env d vis n].
Proof.
  intros Hok. pose proof (fin_ok_exec f [EvBuy env d vis n] Hok) as Hx. cbn [run foldl Executor.step] in Hx |- *.
  unfold fin_buy. set (s' := execute env (fin_exec f) d vis n) in *.
  destruct d as [| kol token amt k b t |]; try (by split).
  destruct (_ =? _)%nat; [by split|]. destruct (entry_of s' token) as [[id e]|] eqn:Ee; [|by split].
  destruct (last (wire s')) as [[tx ok]|]; [|by split]. split; [|done].
  destruct Hx as [H1 H2 H3 H4 H5]. cbn in H1, H2, H3, H4, H5.
  assert (fins f !! next_fin f = None) as Hnone.
  { apply eq_None_not_Some. intros Hi%H2. lia. }
  split; cbn; [done|..].
  - intros j [u [[<- _]|[_ Hu]]%lookup_insert_Some]; [lia|]. specialize (H2 j ltac:(eauto)). lia.
  - intros j u [[<- <-]|[_ Hu]]%lookup_insert_Some; [|exact (H3 j u Hu)].
    cbn. split; [done|]. apply entry_of_Some in Ee as [_ He]. by exists e.
  - intros j u [[<- <-]|[_ Hu]]%lookup_insert_Some Ha; [done|exact (H4 j u Hu Ha)].
  - unfold running in *. cbn in *. rewrite map_filter_insert_False by done. by rewrite delete_id.
Qed.

Lemma fin_ok_step f e :
  fin_ok f → fin_ok (fin_step f e) ∧ ∃ evs, fin_exec (fin_step f e) = run (fin_exec f) evs.
Proof.
  intros Hok. destruct e as [env d vis n|env receipts i|e]; cbn [fin_step].
  - destruct (fin_ok_buy env d vis n f Hok) as [H1 H2]. split; [done|]. by eexists.
  - by apply fin_ok_poll.
  - split; [exact (fin_ok_exec f [e] Hok)|]. by exists [e].
Qed.

Lemma fin_ok_start s : store_ok s → fin_ok (finalizer_start s).
Proof.
  intros Hs. split; cbn; [done|by intros ? [? ?]|by intros ? ?|by intros ? ?|].
  unfold running. cbn. by rewrite map_filter_empty, map_size_empty.
Qed.

Lemma fin_ok_run f es :
  fin_ok f → fin_ok (fin_run f es) ∧ ∃ evs, fin_exec (fin_run f es) = run (fin_exec f) evs.
Proof.
  revert f. induction es as [|e es IH]; intros f Hok; [split; [done|by exists []]|].
  destruct (fin_ok_step f e Hok) as [H1 [evs1 E1]]. destruct (IH _ H1) as [H2 [evs2 E2]].
  split; [done|]. exists (evs1 ++ evs2). change (fin_run f (e :: es)) with (fin_run (fin_step f e) es).
  rewrite E2, E1. unfold run. by rewrite foldl_app.
Qed.

(** ** Lemmas: time *)

(** The polls of task [i] are half a second apart, from [now] on. *)
Fixpoint paced (i : nat) (now : Z) (es : list fin_event) : Prop :=
  match es with
  | [] => True
  | FinPoll env _ j :: es =>
      if decide (j = i) then now ≤ instant_ms env ∧ paced i (instant_ms env + POLL_PAUSE) es
      else paced i now es
  | _ :: es => paced i now es
  end.

Fixpoint polls_of (i : nat) (es : list fin_event) : nat :=
  match es with
  | [] => 0
  | FinPoll _ _ j :: es => (if decide (j = i) then 1 else 0) + polls_of i es
  | _ :: es => polls_of i es
  end.

(** [n] paced polls from [now] on are enough for a task at stage [st]. *)
Definition enough (st : FinStage) (now : Z) (n : nat) : Prop :=
  match st with
  | Queued => False
  | PollReceipt d => ∃ m, 1 ≤ m ∧ d ≤ now + POLL_PAUSE * (m - 1) ∧ m + 31 ≤ Z.of_nat n
  | ReadBalance => 32 ≤ Z.of_nat n
  | Approve => 31 ≤ Z.of_nat n
  | PollApproval d _ => 1 ≤ Z.of_nat n ∧ d ≤ now + POLL_PAUSE * (Z.of_nat n - 1)
  | Settled => True
  end.

Lemma poll_enough env receipts s t now n :
  permitted (fin_stage t) = true → now ≤ instant_ms env → enough (fin_stage t) now (S n) →
  enough (fin_advance env receipts s t).2 (instant_ms env + POLL_PAUSE) n.
Proof.
  unfold fin_advance, enough, POLL_PAUSE, APPROVE_WAIT. intros Hp Hnow.
  destruct (fin_stage t) as [|d| | |d h|]; try done; cbv zeta.
  - intros (m & Hm & Hd & Hn). destruct (Z.ltb_spec (instant_ms env) d); [|done]. cbn [snd].
    destruct (bool_decide _); [lia|]. exists (m - 1). lia.
  - intros Hn. cbn [snd]. destruct (_ && _); [lia|done].
  - intros Hn. destruct (submit_approve_bg env s (fin_token t)) as [s' [h|]]; cbn [snd]; [lia|done].
  - intros [Hn Hd]. destruct (Z.ltb_spec (instant_ms env) d); [|done].
    destruct (bool_decide _); cbn [snd]; [done|lia].
Qed.

(** Another event leaves the task where it is. *)
Lemma fin_step_other f e i t :
  fin_ok f → fins f !! i = Some t → (∀ env receipts, e ≠ FinPoll env receipts i) →
  fins (fin_step f e) !! i = Some t.
Proof.
  intros Hok Ht He. destruct e as [env d vis n|env receipts j|e]; cbn [fin_step]; [| |done].
  - unfold fin_buy. destruct d as [| kol token amt k b tt' |]; try done.
    destruct (_ =? _)%nat; [done|]. destruct (entry_of _ _) as [[id e]|]; [|done].
    destruct (last _) as [[tx ok]|]; [|done]. cbn. rewrite lookup_insert_ne; [done|].
    pose proof (fo_fresh f Hok i ltac:(eauto)). lia.
  - assert (j ≠ i) by (intros ->; by eapply He).
    destruct (fin_poll_cases env receipts j f); cbn; by rewrite ?lookup_insert_ne.
Qed.

Lemma paced_polls_settle i es f t now :
  fin_ok f → fins f !! i = Some t → enough (fin_stage t) now (polls_of i es) → paced i now es →
  fins (fin_run f es) !! i = Some (fin_at t Settled).
Proof.
  revert f t now. induction es as [|e es IH]; intros f t now Hok Ht Hn Hp.
  { cbn in *. destruct (fin_stage t) as [|d| | |d h|] eqn:E; cbn in Hn; try lia.
    - destruct Hn as (m & ? & _ & ?). lia.
    - rewrite Ht. unfold fin_at. rewrite <- E. by destruct t. }
  change (fin_run f (e :: es)) with (fin_run (fin_step f e) es).
  pose proof (proj1 (fin_ok_step f e Hok)) as Hok'.
  assert ((∃ env receipts, e = FinPoll env receipts i) ∨ ∀ env receipts, e ≠ FinPoll env receipts i)
    as [(env & receipts & ->)|Hne].
  { destruct e as [| env receipts j |]; [by right| |by right].
    destruct (decide (j = i)) as [->|Hj]; [left; eauto|]. right. intros ? ? [= _ _ ?]. done. }
  - cbn [paced polls_of] in Hp, Hn. destruct (decide (i = i)) as [_|]; [|done]. destruct Hp as [Hle Hp].
    cbn [fin_step] in *. destruct (permitted (fin_stage t)) eqn:Ep.
    + destruct (fin_advance env receipts (fin_exec f) t) as [s st] eqn:Ea.
      assert (fins (fin_poll env receipts i f) !! i = Some (fin_at t st)) as Ht'.
      { unfold fin_poll. rewrite Ht, Ea. destruct (fin_stage t); try done; apply lookup_insert_eq. }
      pose proof (poll_enough env receipts (fin_exec f) t now (polls_of i es) Ep Hle Hn) as Hn'.
      rewrite Ea in Hn'. exact (IH _ _ _ Hok' Ht' Hn' Hp).
    + destruct (fin_stage t) eqn:E; try done.
      assert (fin_poll env receipts i f = f) as -> by (unfold fin_poll; by rewrite Ht, E).
      apply (IH f t (instant_ms env + POLL_PAUSE)); [done|done|by rewrite E|done].
  - apply (IH _ t now); [done|by apply fin_step_other| |].
    + destruct e as [| env receipts j |]; try done. cbn [polls_of] in Hn.
      destruct (decide (j = i)) as [->|]; [by destruct (Hne env receipts)|done].
    + destruct e as [| env receipts j |]; try done. cbn [paced] in Hp.
      destruct (decide (j = i)) as [->|]; [by destruct (Hne env receipts)|done].
Qed.

(** ** Lemmas: one task on its own *)

Lemma fin_poll_past env receipts i f t :
  fins f !! i = Some t → permitted (fin_stage t) = true →
  fin_poll env receipts i f =
    {| fin_exec := (fin_advance env receipts (fin_exec f) t).1;
       permits := match (fin_advance env receipts (fin_exec f) t).2 with
                  | Settled => S (permits f) | _ => permits f end;
       fins := <[i := fin_at t (fin_advance env receipts (fin_exec f) t).2]> (fins f);
       next_fin := next_fin f |}.
Proof.
  intros Ht Hp. unfold fin_poll. rewrite Ht.
  destruct (fin_advance env receipts (fin_exec f) t) as [s st]. by destruct (fin_stage t).
Qed.

Lemma fin_run_poll env receipts i f t es :
  fins f !! i = Some t → permitted (fin_stage t) = true →
  fin_run f (FinPoll env receipts i :: es) =
    fin_run {| fin_exec := (fin_advance env receipts (fin_exec f) t).1;
               permits := match (fin_advance env receipts (fin_exec f) t).2 with
                          | Settled => S (permits f) | _ => permits f end;
               fins := <[i := fin_at t (fin_advance env receipts (fin_exec f) t).2]> (fins f);
               next_fin := next_fin f |} es.
Proof. intros Ht Hp. by rewrite <- (fin_poll_past env receipts i f t). Qed.

Lemma bg_approved_curve s id e :
  heap s !! id = Some e → route e = FourMeme → broadcast_enabled (limits_rt s) = true →
  bg_approved s id = set_entry s id (with_approved e).
Proof.
  intros He Hr Hen. unfold bg_approved. by rewrite He, Hr, Hen, bool_decide_eq_true_2.
Qed.

Lemma bg_approve_quiet env s token id : no_sale s (bg_approve env s token id).
Proof.
  unfold bg_approve. destruct (heap s !! id); [|done]. destruct (_ && _); [|done].
  rewrite reserve_nonce_eq. cbv zeta. destruct (sign env _); [|done].
  apply (no_sale_trans _ (bump s)); [done|]. apply no_sale_push. intros tk. by destruct (send_ok env _).
Qed.

Lemma exit_blacklist env s token kol blk addr :
  blacklist (execute_exit env s token kol blk addr) = blacklist s.
Proof. apply shadowed_exit. Qed.

(** The exit of a position that is not finalised yet reads the node. *)
Lemma slow_exit_sells env s token kol blk addr id e t :
  store_ok s → entry_of s token = Some (id, e) → approved e = false →
  token_balance env token = Some t → 0 < t →
  kol_sell_fraction (balance_of_at env) addr token blk = None →
  check_blacklisted (blacklist s) token = false → broadcast_enabled (limits_rt s) = true →
  (∀ r, ∃ a, token_allowance env token (spender_of r) = Some a ∧ t ≤ a) →
  (∀ tx, is_Some (sign env tx)) → (∀ tx, send_ok env tx = true) →
  let s' := execute_exit env s token kol blk addr in
  total_sold token s' = total_sold token s + t ∧ entry_of s' token = Some (id, with_tokens e 0).
Proof.
  intros Hok He Ha Hbal Ht Hfr Hb Hen Hal Hsig Hsend. cbv zeta. unfold execute_exit.
  rewrite Hb, Hfr. cbv zeta. cbn [unwrap_or].
  assert (fge f1 FULL_CLOSE = true) as -> by (by vm_compute).
  assert (exit_source env s token = (s, Some (t, route e, false))) as ->.
  { unfold exit_source. rewrite He, Ha, Hbal, !andb_false_r. cbn.
    by rewrite (proj2 (Z.eqb_neq t 0)) by lia. }
  cbn [negb andb]. destruct (Hal (route e)) as (a & -> & Hle). cbn [unwrap_or].
  rewrite (proj2 (Z.ltb_ge a t)) by lia. cbn [negb].
  pose proof (pick_route_caches env (accepts_resell env token) s token) as (g & v & Hp).
  destruct (pick_route _ _ _ _) as [s2 fresh]. cbn [fst] in Hp. subst s2.
  set (s2 := set_caches s g v). set (r := unwrap_or fresh (route e)).
  pose proof (send_exit_sells env s2 r kol token t t true Hen Hsig Hsend) as Hsold.
  change (total_sold token s2) with (total_sold token s) in Hsold. split; [done|].
  destruct (send_exit_effect env s2 r kol token t t true) as [Hp [[_ Hs]|[Hh _]]].
  { specialize (Hs token). change (total_sold token s2) with (total_sold token s) in Hs. lia. }
  pose proof He as He'. apply entry_of_Some in He' as [Hpos _]. apply entry_of_Some.
  rewrite Hp, Hh. split; [done|]. unfold shrink_cache.
  change (entry_of s2 token) with (entry_of s token). rewrite He. cbn. apply lookup_insert_eq.
Qed.

(** ** Properties *)

(** [C28] The background tasks refine the executor's history, under at most eight
    permits.  From a consistent store, over any interleaving of buys, of the
    polls of the tasks they spawn and of other operations: the executor is the
    result of a history of its own operations, and free permits and running
    tasks always add up to eight. *)
Theorem finalizer_refines_executor s es :
  store_ok s →
  let f := fin_run (finalizer_start s) es in
  (∃ evs, fin_exec f = run s evs) ∧
  (permits f + size (running f) = BG_FINALIZE_CONCURRENCY)%nat ∧
  ∀ i t, fins f !! i = Some t → approving (fin_stage t) = true → fin_route t = FourMeme.
Proof.
  intros Hs. destruct (fin_ok_run _ es (fin_ok_start s Hs)) as [Hok He]. cbv zeta. split; [done|].
  split; [apply Hok|]. intros i t Ht Ha. by destruct (fo_curve _ Hok i t Ht Ha).
Qed.


(** A curve buy gets armed.  A task that sees the buy's receipt in time, reads
    a balance, and whose allowance is taken and mined, makes the position ready
    for the fast path with exactly that balance, in four polls, and returns its
    permit. *)
Theorem curve_buy_gets_armed env receipts f i t d b :
  fin_ok f → fins f !! i = Some t → fin_stage t = PollReceipt d → instant_ms env < d →
  receipts (fin_hash t) = Some true → fin_route t = FourMeme →
  broadcast_enabled (limits_rt (fin_exec f)) = true →
  positions (fin_exec f) !! fin_token t = Some (fin_entry t) →
  token_balance env (fin_token t) = Some b → b ≠ 0 →
  (∀ tx, ∃ h, sign env tx = Some h ∧ receipts h = Some true) → (∀ tx, send_ok env tx = true) →
  let f' := fin_run f (replicate 4 (FinPoll env receipts i)) in
  ready (fin_exec f') (fin_token t) (fin_entry t) b ∧
  fins f' !! i = Some (fin_at t Settled) ∧ permits f' = S (permits f).
Proof.
  intros Hok Ht E Hd Hr Hcv Hen Hpos Hbal Hb Hsig Hsend. cbv zeta.
  destruct (fo_tracked f Hok i t Ht) as (_ & e & He & Her).
  cbn [replicate].
  assert ((instant_ms env <? d) = true) as Hlt by lia.
  assert ((instant_ms env <? instant_ms env + APPROVE_WAIT) = true) as Hlt' by (unfold APPROVE_WAIT; lia).
  rewrite (fin_run_poll env receipts i f t) by (done || by rewrite E).
  unfold fin_advance. rewrite E, Hlt, bool_decide_eq_true_2 by done. cbn [fst snd].
  rewrite (fin_run_poll _ _ _ _ (fin_at t ReadBalance)); [|cbn; apply lookup_insert_eq|done].
  unfold fin_advance. cbn [fin_stage fin_at fin_route fin_token fin_entry fin_exec].
  rewrite Hcv, Hen, bool_decide_eq_true_2 by done. cbn [fst snd andb].
  unfold bg_balance. rewrite Hbal, He. cbn [unwrap_or]. rewrite (proj2 (Z.eqb_neq b 0)) by done. cbn [negb].
  rewrite (fin_run_poll _ _ _ _ (fin_at t Approve)); [|cbn; by rewrite lookup_insert_eq|done].
  unfold fin_advance. cbn [fin_stage fin_at fin_token fin_exec fins permits next_fin].
  unfold submit_approve_bg. cbn [limits_rt set_entry set_positions]. rewrite Hen. cbn [negb].
  rewrite reserve_nonce_eq. cbv zeta.
  match goal with |- context [sign env ?x] => destruct (Hsig x) as (h & -> & Hh) end. rewrite Hsend.
  cbn [fst snd].
  rewrite (fin_run_poll _ _ _ _ (fin_at t (PollApproval (instant_ms env + APPROVE_WAIT) h)));
    [|cbn; by rewrite lookup_insert_eq|done].
  unfold fin_advance. cbn [fin_stage fin_at fin_token fin_entry fin_exec fins permits next_fin].
  rewrite Hlt', bool_decide_eq_true_2 by done. cbn [fst snd fin_run foldl fins permits fin_exec].
  split_and!; [|by rewrite lookup_insert_eq|done].
  rewrite (bg_approved_curve _ _ (with_tokens e b)); [|cbn; apply lookup_insert_eq|by rewrite <- Hcv|done].
  exists (with_approved (with_tokens e b)). split_and!; [|done|done].
  apply entry_of_Some. cbn. split; [done|]. apply lookup_insert_eq.
Qed.

(** [C30] A late finalisation revives a sold position.  A KOL's sell that comes before
    the finalisation sells the whole balance [t] by the slow path, which marks
    the position empty but leaves it unapproved.  If the background task then
    reads the balance before that sale is mined, and arms the position, the
    next sell signal sells [t] tokens again: twice what was held. *)
Theorem late_finalisation_revives env s token id e t kol blk addr kol' blk' addr' :
  store_ok s → entry_of s token = Some (id, e) → approved e = false → route e = FourMeme →
  token_balance env token = Some t → 0 < t →
  kol_sell_fraction (balance_of_at env) addr token blk = None →
  kol_sell_fraction (balance_of_at env) addr' token blk' = None →
  check_blacklisted (blacklist s) token = false → broadcast_enabled (limits_rt s) = true →
  (∀ r, ∃ a, token_allowance env token (spender_of r) = Some a ∧ t ≤ a) →
  (∀ tx, is_Some (sign env tx)) → (∀ tx, send_ok env tx = true) →
  let first := [EvExit env token kol blk addr] in
  let background := [EvBgBalance env token id; EvBgApprove env token id; EvBgApproved id] in
  let second := [EvExit env token kol' blk' addr'] in
  total_sold token (run s first) = total_sold token s + t ∧
  total_sold token (run s (first ++ background ++ second)) = total_sold token s + 2 * t.
Proof.
  intros Hok He Ha Hroute Hbal Ht Hfr Hfr' Hb Hen Hal Hsig Hsend. cbv zeta.
  destruct (slow_exit_sells env s token kol blk addr id e t Hok He Ha Hbal Ht Hfr Hb Hen Hal Hsig Hsend)
    as [Hs1 He1].
  pose proof (steady_exit store_ok store_ok_steady env s token kol blk addr Hok) as Hok1.
  pose proof (step_enabled s (EvExit env token kol blk addr)) as Hen1. cbn [Executor.step] in Hen1.
  pose proof (exit_blacklist env s token kol blk addr) as Hb1.
  split; [exact Hs1|]. cbn [run foldl app Executor.step].
  set (s1 := execute_exit env s token kol blk addr) in *. rewrite Hen in Hen1.
  apply entry_of_Some in He1 as [Hp1 Hh1].
  assert (bg_balance env s1 token id = set_entry s1 id (with_tokens (with_tokens e 0) t)) as ->.
  { unfold bg_balance. rewrite Hh1, Hbal. cbn [unwrap_or]. by rewrite (proj2 (Z.eqb_neq t 0)) by lia. }
  set (e1 := with_tokens (with_tokens e 0) t). set (s2 := set_entry s1 id e1).
  assert (store_ok s2) as Hok2 by (apply store_ok_set_entry; [done|by eexists]).
  destruct (bg_approve_quiet env s2 token id) as (Hp3 & Hh3 & Hs3).
  pose proof (steady_step store_ok store_ok_steady s2 (EvBgApprove env token id) Hok2) as Hok3.
  pose proof (step_enabled s2 (EvBgApprove env token id)) as Hen3.
  pose proof (proj1 (proj2 (shadowed_step s2 (EvBgApprove env token id)))) as Hb3.
  cbn [Executor.step] in Hok3, Hen3, Hb3. set (s3 := bg_approve env s2 token id) in *.
  change (broadcast_enabled (limits_rt s2)) with (broadcast_enabled (limits_rt s1)) in Hen3.
  assert (heap s3 !! id = Some e1) as He3 by (rewrite Hh3; apply lookup_insert_eq).
  rewrite (bg_approved_curve s3 id e1 He3) by (done || congruence).
  assert (ready (set_entry s3 id (with_approved e1)) token id t) as Hr.
  { exists (with_approved e1). split_and!; [|done|done].
    apply entry_of_Some. split; [by cbn; rewrite Hp3|]. cbn. apply lookup_insert_eq. }
  assert (store_ok (set_entry s3 id (with_approved e1))) as Hok4
    by (apply store_ok_set_entry; [done|by eexists]).
  destruct (ready_exit_sells env _ token kol' blk' addr' id t Hok4 Hr Ht) as [-> _];
    [|cbn; congruence|done|done|].
  { cbn. rewrite Hb3. change (blacklist s2) with (blacklist s1). by rewrite Hb1. }
  unfold exit_amount. rewrite Hfr'. cbn [unwrap_or].
  assert (fge f1 FULL_CLOSE = true) as -> by (by vm_compute).
  change (total_sold token (set_entry s3 id (with_approved e1))) with (total_sold token s3).
  rewrite Hs3. change (total_sold token s2) with (total_sold token s1). lia.
Qed.

(** ** Witnesses *)

Module Background.
(** A node that takes everything and reports 500 tokens. *)
Definition env : Env :=
{| now_ms := 86400001; instant_ms := 100000; bnb_usd := Some (f64_of_Z 600);
gas_price := Some 50000000; get_pair := λ _, None; accepts_buy := λ _ _, true;
accepts_sell := λ _, true; accepts_resell := λ _, true;
tax_quote := λ a _, Some a; amounts_out := λ a _, Some a;
sign := λ t, Some (tx_nonce t); send_ok := λ _, true; chain_nonce := Some 7;
token_balance := λ _, Some 500; token_allowance := λ _ _, Some 1000;
balance_of_at := λ _ _ _, None |}.
(** The same node [ms] later. *)
Definition at_ms (ms : Z) : Env :=
{| now_ms := now_ms env; instant_ms := instant_ms env + ms; bnb_usd := bnb_usd env;
gas_price := gas_price env; get_pair := get_pair env; accepts_buy := accepts_buy env;
accepts_sell := accepts_sell env; accepts_resell := accepts_resell env;
tax_quote := tax_quote env; amounts_out := amounts_out env; sign := sign env;
send_ok := send_ok env; chain_nonce := chain_nonce env; token_balance := token_balance env;
token_allowance := token_allowance env; balance_of_at := balance_of_at env |}.
Definition mined (_ : B256) : option bool := Some true.
Definition unknown (_ : B256) : option bool := None.
(** A buy on the curve; its task takes a permit. *)
Definition begun : list fin_event :=
[FinBuy env Example.entry "public" 0; FinPoll env unknown 0].
Definition silence : list fin_event :=
(λ k : nat, FinPoll (at_ms (500 * Z.of_nat k)) unknown 0) <$> seq 0 92.
Definition task (st : FinStage) : FinTask :=
{| fin_token := 9; fin_hash := 7; fin_route := FourMeme; fin_entry := 0; fin_stage := st |}.
Lemma store : store_ok Example.funded.
Proof. split; cbn; [by intros ?? ?|by intros ??? ?|by intros ? [? ?]]. Qed.
Lemma started : fin_ok (fin_run (finalizer_start Example.funded) begun).
Proof. apply (fin_ok_run _ begun (fin_ok_start _ store)). Qed.
End Background.

Lemma finalizer_refines_executor_witness :
  let f := fin_run (finalizer_start Example.funded) Background.begun in
  permits f = 7%nat ∧ ∃ evs, fin_exec f = run Example.funded evs.
Proof.
  split; [by vm_compute|].
  apply (finalizer_refines_executor Example.funded Background.begun Background.store).
Defined.


Lemma curve_buy_gets_armed_witness :
  let f := fin_run (finalizer_start Example.funded) Background.begun in
  ready (fin_exec (fin_run f (replicate 4 (FinPoll Background.env Background.mined 0)))) 9 0 500.
Proof.
  destruct (curve_buy_gets_armed Background.env Background.mined
              (fin_run (finalizer_start Example.funded) Background.begun) 0
              (Background.task (PollReceipt 130000)) 130000 500 Background.started) as [H _].
  - by vm_compute.
  - done.
  - by vm_compute.
  - done.
  - done.
  - by vm_compute.
  - by vm_compute.
  - done.
  - done.
  - intros tx. eexists. by split.
  - done.
  - exact H.
Defined.

Lemma late_finalisation_revives_witness :
  let s := run Example.funded [EvBuy Background.env Example.entry "public" 0] in
  let back := [EvBgBalance Background.env 9 0; EvBgApprove Background.env 9 0; EvBgApproved 0] in
  total_sold 9 s = 0 ∧
  total_sold 9 (run s ([EvExit Background.env 9 "D" 0 5] ++ back ++ [EvExit Background.env 9 "D" 44 5])) =
    1000.
Proof.
  intros s back. split; [by vm_compute|].
  assert (entry_of s 9 = Some (0%nat, {| route := FourMeme; tokens_bought := 0;
    entry_bnb_in := 16666666666666666; approved := false; opened_at := 100000 |})) as He by (by vm_compute).
  destruct (late_finalisation_revives Background.env s 9 0 _ 500 "D" 0 5 "D" 44 5
    (steady_run store_ok store_ok_steady _ [EvBuy Background.env Example.entry "public" 0] Background.store) He)
    as [_ H].
  - reflexivity.
  - reflexivity.
  - reflexivity.
  - lia.
  - by vm_compute.
  - by vm_compute.
  - by vm_compute.
  - by vm_compute.
  - intros r. exists 1000. split; [done|lia].
  - intros tx. by eexists.
  - intros tx. reflexivity.
  - unfold back. rewrite H. by vm_compute.
Defined.
