(* ===== verification/Trail.v ===== *)
(** * trader/adaptive_trail.rs: the adaptive trailing-stop exit

    [step] is the state machine run on each price observation, with its ring
    buffer of prices; [compute_vote_signals] the voting exit;
    [process_one_position] the per-block tick that finds the price, steps the
    state and dispatches the exit.  The tick is written against [ExitHost],
    the interface it needs of the executor; the live executor is an instance.
    Node reads are arguments. *)

From Stdlib Require Import ZArith Lia Floats.SpecFloat Strings.Byte Ascii String.
From S2P Require Import Prelude F64 Bytes Dex FourMeme ExecMath Limits Executor.
From S2P Require Nonce.

Record TrailConfig : Type := {
  enabled : bool;
  arm_pct : f64;
  trail_pct : f64;
  hard_sl_pct : f64;
  max_hold_blocks : Z;
  breakeven_at_pct : f64;
  breakeven_lock_pct : f64;
}.

(** [TrailConfig::default]. *)
Definition default_trail : TrailConfig :=
  {| enabled := false; arm_pct := f64_lit 20 100; trail_pct := f64_lit 10 100;
     hard_sl_pct := f64_lit 30 100; max_hold_blocks := 4000;
     breakeven_at_pct := f64_lit 15 100; breakeven_lock_pct := f64_lit 5 100 |}.

Definition PRICE_HISTORY_LEN : nat := 10.

Record TrailState : Type := {
  entry_price : f64;
  peak_price : f64;
  last_price : f64;
  armed : bool;
  opened_block : Z;
  last_observed_block : Z;
  price_history : list f64;
  history_count : nat;
  history_idx : nat;
  breakeven_ratcheted : bool;
}.

(** A state with the given entry price and block, the rest by default. *)
Definition fresh_state (entry : f64) (block : Z) : TrailState :=
  {| entry_price := entry; peak_price := entry; last_price := entry; armed := false;
     opened_block := block; last_observed_block := block;
     price_history := replicate PRICE_HISTORY_LEN f0; history_count := 0; history_idx := 0;
     breakeven_ratcheted := false |}.

Inductive ExitReason : Type :=
| HardStopLoss | BreakevenLocked | SignalDump | SignalVote | Trail | Timeout.

Definition reason_label (r : ExitReason) : string :=
  match r with
  | HardStopLoss => "hard_sl"
  | BreakevenLocked => "be_locked"
  | SignalDump => "signal_dump"
  | SignalVote => "signal_vote"
  | Trail => "trail"
  | Timeout => "timeout"
  end.

(** ** The state machine *)

Definition arm_threshold (cfg : TrailConfig) (s : TrailState) : f64 :=
  fmul (entry_price s) (fadd f1 (arm_pct cfg)).
Definition ratchet_threshold (cfg : TrailConfig) (s : TrailState) : f64 :=
  fmul (entry_price s) (fadd f1 (breakeven_at_pct cfg)).
Definition hard_sl_floor (cfg : TrailConfig) (s : TrailState) : f64 :=
  fmul (entry_price s) (fsub f1 (hard_sl_pct cfg)).
Definition lock_floor (cfg : TrailConfig) (s : TrailState) : f64 :=
  fmul (entry_price s) (fadd f1 (breakeven_lock_pct cfg)).
Definition effective_floor (cfg : TrailConfig) (s : TrailState) : f64 :=
  if breakeven_ratcheted s then fmax (hard_sl_floor cfg s) (lock_floor cfg s)
  else hard_sl_floor cfg s.
Definition trail_floor (cfg : TrailConfig) (s : TrailState) : f64 :=
  fmul (peak_price s) (fsub f1 (trail_pct cfg)).

(** [history.iter().fold(0.0, f64::max)]. *)
Definition local_max (h : list f64) : f64 := foldl fmax f0 h.

(** The ring buffer's oldest slot: the next one to overwrite. *)
Definition oldest_price (s : TrailState) : f64 :=
  unwrap_or (price_history s !! (history_idx s mod PRICE_HISTORY_LEN)%nat) f0.

Definition dist_from_max (s : TrailState) (price : f64) : f64 :=
  fdiv (fsub (local_max (price_history s)) price) (local_max (price_history s)).
Definition vel_10 (s : TrailState) (price : f64) : f64 :=
  fdiv (fdiv (fsub price (oldest_price s)) (oldest_price s)) (f64_of_Z 10).
Definition f03 : f64 := f64_lit 30 100.
Definition f001_neg : f64 := f64_lit (-1) 100.

(** The first half of [step]: peak, history, arming, ratchet. *)
Definition observe (cfg : TrailConfig) (price : f64) (block : Z) (s : TrailState) : TrailState :=
  let peak := if fgt price (peak_price s) then price else peak_price s in
  {| entry_price := entry_price s; peak_price := peak; last_price := price;
     armed := armed s || fge peak (arm_threshold cfg s);
     opened_block := opened_block s; last_observed_block := block;
     price_history := <[history_idx s := price]> (price_history s);
     history_count := if (history_count s <? PRICE_HISTORY_LEN)%nat
                      then S (history_count s) else history_count s;
     history_idx := (S (history_idx s) mod PRICE_HISTORY_LEN)%nat;
     breakeven_ratcheted := breakeven_ratcheted s || fge peak (ratchet_threshold cfg s) |}.

Definition signal_dump (s : TrailState) (price : f64) : bool :=
  armed s && (PRICE_HISTORY_LEN <=? history_count s)%nat &&
  (fgt (local_max (price_history s)) f0 && fgt (oldest_price s) f0) &&
  (fgt (dist_from_max s price) f03 && flt (vel_10 s price) f001_neg).

(** The second half: the exit conditions, on the updated state. *)
Definition exit_reason (cfg : TrailConfig) (price : f64) (block : Z) (s : TrailState)
  : option ExitReason :=
  if fle price (effective_floor cfg s) then
    if breakeven_ratcheted s && fgt (lock_floor cfg s) (hard_sl_floor cfg s)
    then Some BreakevenLocked else Some HardStopLoss
  else if signal_dump s price then Some SignalDump
  else if armed s && fle price (trail_floor cfg s) then Some Trail
  else if max_hold_blocks cfg <=? sat_sub block (opened_block s) then Some Timeout
  else None.

Definition step (cfg : TrailConfig) (price : f64) (block : Z) (s : TrailState)
  : TrailState * option ExitReason :=
  let s' := observe cfg price block s in (s', exit_reason cfg price block s').

(** ** The voting exit *)

Definition compute_vote_signals (stats : gmap Address TokenStats) (token : Address)
    (s : TrailState) (price : f64) : option Z :=
  if fle (local_max (price_history s)) f0 then None
  else if fle (oldest_price s) f0 then None
  else
    token_stats ← stats !! token;
    let buy_3 := buy_count_last token_stats 3 in
    let buy_10 := buy_count_last token_stats 10 in
    let net_flow_3blk := net_flow_bnb_wei_last token_stats 3 in
    let bv3 := fdiv (f64_of_Z buy_3) (f64_of_Z 3) in
    let bv10 := fdiv (f64_of_Z buy_10) (f64_of_Z 10) in
    let collapse := if fgt bv10 f0 then fdiv bv3 bv10 else f1 in
    let net_flow_bnb := fdiv (f64_of_Z net_flow_3blk) f1e18 in
    let vote (b : bool) : Z := if b then 1 else 0 in
    Some (vote (fgt (dist_from_max s price) f03) + vote (flt (vel_10 s price) f001_neg) +
          vote (flt collapse (f64_lit 1 2)) + vote (flt net_flow_bnb (f64_of_Z (-1)))).

(** ** Text of the ledger and of the node's replies *)

Definition to_lower (c : ascii) : ascii :=
  let n := N_of_ascii c in
  if (65 <=? Z.of_N n) && (Z.of_N n <=? 90) then ascii_of_N (n + 32) else c.
Definition to_lowercase (s : list ascii) : list ascii := to_lower <$> s.

(** [line.split(',')]. *)
Fixpoint split_comma (s : list ascii) : list (list ascii) :=
  match s with
  | [] => [[]]
  | c :: r =>
      if Ascii.eqb c ","%char then [] :: split_comma r
      else match split_comma r with
           | f :: fs => (c :: f) :: fs
           | [] => [[c]]
           end
  end.

Fixpoint starts_with (p s : list ascii) : bool :=
  match p, s with
  | [], _ => true
  | a :: p, b :: s => Ascii.eqb a b && starts_with p s
  | _ :: _, [] => false
  end.
Fixpoint contains (p s : list ascii) : bool :=
  starts_with p s || match s with [] => false | _ :: r => contains p r end.

(** [format!("{token:#x}")]. *)
Definition address_hex (a : Address) : list ascii :=
  "0"%char :: "x"%char :: Hex.hex_encode (to_be 20 a).

Definition TRANSFER_TOPIC : list ascii := list_ascii_of_string
  "0xddf252ad1be2c89b69c2b068fc378daa952ba7f163c4a11628f55a4df523b3ef".

Definition parse_u128 (s : list ascii) : option Z := parse_radix 10 128 to_digit10 s.

(** ** Prices *)

(** One log of the [eth_getLogs] reply: its data, and the ["value"] member of
    the transaction it names when the hash, the reply and the member exist. *)
Record TransferLog : Type := { lg_data : list ascii; lg_tx_value : option (list ascii) }.

(** A receipt's log, its members when they are present and of the right type. *)
Record ReceiptLog : Type := {
  rl_address : option (list ascii);
  rl_topics : option (list (option (list ascii)));
  rl_data : option (list ascii);
}.
Record Receipt : Type := {
  rc_logs : option (list ReceiptLog);
  rc_block : option (list ascii);
}.

Section Prices.
(** [U256::from_str_radix(_, 16)] of the alloy crate. *)
Variable parse_u256_hex : list ascii → option U256.

Definition PROBE_IN : Z := 1000000000000000.

(** [v2_quote_price] on the decoded bytes of the router's reply.  Indices
are machine words and wrap; a slice out of range panics ([None]). *)
Definition v2_quote_price (reply : option bytes) : option (option f64) :=
match reply with
| None => Some None
| Some raw =>
if (length raw <? 96)%nat then Some None
else
match slice 32 64 raw with
| None => None
| Some nw =>
match try_from_width 64 (from_be nw) with
| None => Some None
| Some n =>
  if (n =? 0) || (Z.of_nat (length raw) <? wrap 64 (64 + wrap 64 (n * 32)))
  then Some None
  else
    let last_off := wrap 64 (64 + wrap 64 ((n - 1) * 32)) in
    match slice (Z.to_nat last_off) (Z.to_nat (wrap 64 (last_off + 32))) raw with
    | None => None
    | Some w =>
        let tokens_out_f := f64_of_Z (from_be w) in
        if fle tokens_out_f f0 then Some None
        else Some (Some (fdiv (f64_of_Z PROBE_IN) tokens_out_f))
    end
end
end
end.

(** [fourmeme_observed_price]: [logs] is what [eth_getLogs] answers for the
range. *)
Fixpoint scan_buys (logs : list TransferLog) : option f64 :=
match logs with
| [] => None
| lg :: r =>
let hex_s := trim_0x (lg_data lg) in
match hex_s with
| [] => scan_buys r
| _ =>
tokens ← parse_u256_hex hex_s;
if tokens =? 0 then scan_buys r
else
bnb_hex ← lg_tx_value lg;
bnb ← parse_u256_hex (trim_0x bnb_hex);
if bnb =? 0 then scan_buys r
else Some (fdiv (f64_of_Z bnb) (f64_of_Z tokens))
end
end.
Definition fourmeme_observed_price (logs : Z → Z → option (list TransferLog))
(from_block to_block : Z) : option f64 :=
if to_block <=? from_block then None
else
l ← logs (wrap 64 (from_block + 1)) to_block;
scan_buys (rev l).

(** [None]: the V2 quote panicked. *)
Definition get_latest_price (v2 : option bytes) (logs : Z → Z → option (list TransferLog))
(from_block to_block : Z) : option (option f64) :=
match v2_quote_price v2 with
| Some (Some p) => Some (Some p)
| Some None => Some (fourmeme_observed_price logs from_block to_block)
| None => None
end.

Definition get_latest_price_cached (cache : gmap Address PricePoint) (max_stale_blocks : Z)
(v2 : option bytes) (logs : Z → Z → option (list TransferLog))
(token : Address) (from_block to_block : Z) : option (option f64) :=
let latest := get_latest_price v2 logs from_block to_block in
match cache !! token with
| Some pp =>
if sat_sub to_block (pp_block pp) <=? max_stale_blocks then Some (Some (price pp))
else latest
| None => latest
end.

(** [init_state_from_ledger]: the last buy row of the token. *)
Definition buy_row (token_lower : list ascii) (acc : option (list (list ascii)))
(line : list ascii) : option (list (list ascii)) :=
let parts := split_comma line in
let field i := unwrap_or (parts !! i) [] in
if (length parts <? 13)%nat then acc
else if negb (contains token_lower (to_lowercase (field 4%nat))) then acc
else if bool_decide (field 3%nat = list_ascii_of_string "exit") then acc
else if unwrap_or (parse_u128 (field 6%nat)) 0 =? 0 then acc
else Some parts.

(** The largest transfer of the token in the receipt; [None] is an early
return. *)
Fixpoint tokens_received (token_lower : list ascii) (logs : list ReceiptLog) (best : f64)
: option f64 :=
match logs with
| [] => Some best
| lg :: r =>
if negb (bool_decide (to_lowercase (unwrap_or (rl_address lg) []) = token_lower))
then tokens_received token_lower r best
else
topics ← rl_topics lg;
match topics with
| [] => tokens_received token_lower r best
| t0 :: _ =>
if negb (bool_decide (to_lowercase (unwrap_or t0 []) = to_lowercase TRANSFER_TOPIC))
then tokens_received token_lower r best
else
let hex_s := trim_0x (unwrap_or (rl_data lg) ["0"%char; "x"%char]) in
match hex_s with
| [] => tokens_received token_lower r best
| _ =>
    amt ← parse_u256_hex hex_s;
    tokens_received token_lower r
      (if fgt (f64_of_Z amt) best then f64_of_Z amt else best)
end
end
end.

(** [ledger] is the ledger file's lines, [receipt] the node's answer for a
transaction hash. *)
Definition init_state_from_ledger (ledger : option (list (list ascii)))
(receipt : list ascii → option Receipt) (token : Address) (current_block : Z)
: option TrailState :=
let token_lower := to_lowercase (address_hex token) in
lines ← ledger;
row ← foldl (buy_row token_lower) None lines;
bnb ← parse_u128 (unwrap_or (row !! 6%nat) []);
let bnb_in := fdiv (f64_of_Z bnb) f1e18 in
rc ← receipt (unwrap_or (row !! 9%nat) []);
logs ← rc_logs rc;
received ← tokens_received token_lower (rev logs) f0;
if fle received f0 then None
else
let entry := fdiv (fmul bnb_in f1e18) received in
let buy_block :=
unwrap_or (s ← rc_block rc; from_str_radix16 64 (trim_0x s)) current_block in
Some (fresh_state entry buy_block).
End Prices.

(** ** The per-block tick *)

(** What the watcher needs of the executor: the position snapshot, an entry's
    amount and approved flag, and the exit. *)
Class ExitHost (H : Type) : Type := {
  host_positions : H → list (Address * nat);
  host_entry : H → nat → option (U256 * bool);
  host_exit : Env → H → Address → string → Z → Address → H;
}.

(** What it may rely on: an exit never flips an entry's approved flag and only
    lowers the amount of an approved one. *)
Class ExitHostLaws (H : Type) `{ExitHost H} : Prop := {
  host_exit_sells env h token kol blk addr id t a :
    host_entry h id = Some (t, a) →
    ∃ t', host_entry (host_exit env h token kol blk addr) id = Some (t', a) ∧
      (a = true → 0 ≤ t → 0 ≤ t' ≤ t);
}.

(** What the outside answers during one tick of one position. *)
Record TickEnv : Type := {
  te_exec : Env;
  te_caches : Caches;
  te_v2 : option bytes;
  te_logs : Z → Z → option (list TransferLog);
  te_ledger : option (list (list ascii));
  te_receipt : list ascii → option Receipt;
}.

Definition CACHE_MAX_STALE_BLOCKS : Z := 5.

Section Watcher.
Context {H : Type} `{ExitHost H}.
Variable parse_u256_hex : list ascii → option U256.

Record TrailWatcher : Type := {
tw_cfg : TrailConfig;
exec : H;
states : gmap Address TrailState;
}.

Definition with_states (w : TrailWatcher) (m : gmap Address TrailState) : TrailWatcher :=
{| tw_cfg := tw_cfg w; exec := exec w; states := m |}.

Definition fire_exit (env : Env) (w : TrailWatcher) (token : Address) (reason : string)
(block_n : Z) : TrailWatcher :=
{| tw_cfg := tw_cfg w;
exec := host_exit env (exec w) token (String.append "TRAIL_" reason) block_n 0;
states := delete token (states w) |}.

(** The tick once the state is known. *)
Definition tick_state (te : TickEnv) (w : TrailWatcher) (token : Address) (s : TrailState)
(block_n : Z) : option TrailWatcher :=
observed ← get_latest_price_cached parse_u256_hex (prices (te_caches te))
 CACHE_MAX_STALE_BLOCKS (te_v2 te) (te_logs te) token (last_observed_block s) block_n;
match observed with
| None =>
if max_hold_blocks (tw_cfg w) <=? sat_sub block_n (opened_block s)
then Some (fire_exit (te_exec te) w token "timeout" block_n)
else Some w
| Some current_price =>
let votes :=
if armed s && (PRICE_HISTORY_LEN <=? history_count s)%nat
then unwrap_or (compute_vote_signals (stats (te_caches te)) token s current_price) 0
else 0 in
if 3 <=? votes
then Some (fire_exit (te_exec te) w token (reason_label SignalVote) block_n)
else
match step (tw_cfg w) current_price block_n s with
| (_, Some reason) => Some (fire_exit (te_exec te) w token (reason_label reason) block_n)
| (s', None) => Some (with_states w (<[token := s']> (states w)))
end
end.

(** [process_one_position]; [None] when the tick's task panics. *)
Definition process_one_position (te : TickEnv) (w : TrailWatcher) (token : Address) (id : nat)
(block_n : Z) : option TrailWatcher :=
match host_entry (exec w) id with
| None => Some w
| Some (amt, appr) =>
if (amt =? 0) || negb appr then Some w
else
match states w !! token with
| Some s => tick_state te w token s block_n
| None =>
match init_state_from_ledger parse_u256_hex (te_ledger te) (te_receipt te)
      token block_n with
| None => Some w
| Some s => tick_state te (with_states w (<[token := s]> (states w))) token s block_n
end
end
end.

(** [on_block]: one task per position of the snapshot, run in some order; a
panic aborts the program. *)
Definition on_block (te : Address → TickEnv) (order : list (Address * nat) → list (Address * nat))
(w : TrailWatcher) (block_n : Z) : option TrailWatcher :=
foldl (λ w '(token, id), w ← w; process_one_position (te token) w token id block_n)
(Some w) (order (host_positions (exec w))).
End Watcher.
Arguments TrailWatcher : clear implicits.

(** The live executor is such a host. *)
#[export] Instance executor_host : ExitHost LiveExecutor := {|
  host_positions s := map_to_list (positions s);
  host_entry s id := (λ e, (tokens_bought e, approved e)) <$> heap s !! id;
  host_exit := execute_exit;
|}.

(** ** The executor keeps its promise *)

Lemma exit_source_approved env s token bal r fast id e :
  entry_of s token = Some (id, e) → approved e = true →
  (exit_source env s token).2 = Some (bal, r, fast) → bal = tokens_bought e.
Proof.
  intros He Ha. unfold exit_source. rewrite He, Ha.
  destruct (tokens_bought e =? 0); cbn; [done|]. by intros [= <- _ _].
Qed.

#[export] Instance executor_host_laws : ExitHostLaws LiveExecutor.
Proof.
  split. cbn [host_entry host_exit executor_host]. intros env s tk kol blk addr id t a Hid.
  apply fmap_Some in Hid as (e & Hh & [= -> ->]).
  assert (heap (execute_exit env s tk kol blk addr) !! id = Some e →
    ∃ t', (λ e, (tokens_bought e, approved e)) <$> heap (execute_exit env s tk kol blk addr) !! id =
      Some (t', approved e) ∧ (approved e = true → 0 ≤ tokens_bought e → 0 ≤ t' ≤ tokens_bought e))
    as Hsame by (intros ->; eexists; split; [done|lia]).
  destruct (execute_exit_effect env s tk kol blk addr)
    as [(_ & Hs & _)|(bal & r & fast & fc & Hsrc & Hfc & _ & [[Hs _]|[Hs _]])];
    [apply Hsame; by rewrite Hs..|].
  unfold shrink_cache in Hs. destruct (entry_of s tk) as [[i e']|] eqn:He; cbn in Hs;
    [|apply Hsame; by rewrite Hs].
  destruct (decide (i = id)) as [->|Hne];
    [|apply Hsame; by rewrite Hs, lookup_insert_ne by done].
  pose proof He as He'. apply entry_of_Some in He' as [_ He']. rewrite Hh in He'. injection He' as <-.
  rewrite Hs, lookup_insert_eq. cbn. eexists. split; [done|]. intros Ha H0.
  pose proof (exit_source_approved env s tk bal r fast id e He Ha Hsrc) as ->.
  pose proof (exit_amount_le env tk blk addr _ H0) as Hle.
  destruct fc; [lia|]. rewrite saturating_sub_spec by lia. lia.
Qed.

(** ** The state machine against the price history

    The specification has no state: it looks at every price observed so far,
    the last one included. *)

Definition spec_peak (entry : f64) (ps : list f64) : f64 :=
  foldl (λ m p, if fgt p m then p else m) entry ps.

Definition history_exit (cfg : TrailConfig) (entry : f64) (opened : Z) (past : list f64)
    (p : f64) (block : Z) : option ExitReason :=
  let ps := past ++ [p] in
  let peak := spec_peak entry ps in
  let reached k := fge peak (fmul entry (fadd f1 k)) in
  let hard := fmul entry (fsub f1 (hard_sl_pct cfg)) in
  let lock := fmul entry (fadd f1 (breakeven_lock_pct cfg)) in
  let floor := if reached (breakeven_at_pct cfg) then fmax hard lock else hard in
  let window := lastn PRICE_HISTORY_LEN ps in
  let hi := foldl fmax f0 window in
  let old := unwrap_or (head window) f0 in
  let dump := reached (arm_pct cfg) && (PRICE_HISTORY_LEN <=? length ps)%nat &&
    (fgt hi f0 && fgt old f0) && (fgt (fdiv (fsub hi p) hi) f03 &&
     flt (fdiv (fdiv (fsub p old) old) (f64_of_Z 10)) f001_neg) in
  if fle p floor then
    if reached (breakeven_at_pct cfg) && fgt lock hard
    then Some BreakevenLocked else Some HardStopLoss
  else if dump then Some SignalDump
  else if reached (arm_pct cfg) && fle p (fmul peak (fsub f1 (trail_pct cfg))) then Some Trail
  else if max_hold_blocks cfg <=? sat_sub block opened then Some Timeout
  else None.

Definition observe_all (cfg : TrailConfig) (s : TrailState) (obs : list (f64 * Z)) : TrailState :=
  foldl (λ s '(p, b), (step cfg p b s).1) s obs.

(** What the state records of the prices [ps]. *)
Record records (cfg : TrailConfig) (entry : f64) (opened : Z) (ps : list f64) (s : TrailState)
  : Prop := {
  rec_entry : entry_price s = entry;
  rec_opened : opened_block s = opened;
  rec_peak : peak_price s = spec_peak entry ps;
  rec_armed : armed s = negb (bool_decide (ps = [])) &&
    fge (spec_peak entry ps) (fmul entry (fadd f1 (arm_pct cfg)));
  rec_ratchet : breakeven_ratcheted s = negb (bool_decide (ps = [])) &&
    fge (spec_peak entry ps) (fmul entry (fadd f1 (breakeven_at_pct cfg)));
  rec_count : history_count s = Nat.min (length ps) PRICE_HISTORY_LEN;
  rec_idx : history_idx s = (length ps mod PRICE_HISTORY_LEN)%nat;
  rec_len : length (price_history s) = PRICE_HISTORY_LEN;
  rec_slots i : (i < length ps)%nat → (length ps ≤ i + PRICE_HISTORY_LEN)%nat →
    price_history s !! (i mod PRICE_HISTORY_LEN)%nat = ps !! i;
}.

Lemma spec_peak_snoc entry ps p :
  spec_peak entry (ps ++ [p]) =
    if fgt p (spec_peak entry ps) then p else spec_peak entry ps.
Proof. unfold spec_peak. by rewrite foldl_app. Qed.

(** Once reached, a threshold stays reached. *)
Lemma reached_snoc entry ps p t :
  fge (spec_peak entry ps) t = true → fge (spec_peak entry (ps ++ [p])) t = true.
Proof.
  rewrite spec_peak_snoc. intros H. destruct (fgt p _) eqn:E; [|done].
  change (fle t p = true). change (fle t (spec_peak entry ps) = true) in H.
  change (flt (spec_peak entry ps) p = true) in E. by eapply fle_trans, flt_le.
Qed.

Lemma latch entry ps p t :
  negb (bool_decide (ps = [])) && fge (spec_peak entry ps) t || fge (spec_peak entry (ps ++ [p])) t
  = negb (bool_decide (ps ++ [p] = [])) && fge (spec_peak entry (ps ++ [p])) t.
Proof.
  rewrite (bool_decide_eq_false_2 (ps ++ [p] = [])) by (by destruct ps). cbn [negb andb].
  destruct (fge (spec_peak entry ps) t) eqn:E.
  - rewrite (reached_snoc _ _ _ _ E). by rewrite orb_true_r.
  - by rewrite andb_false_r.
Qed.

Lemma records_fresh cfg entry opened : records cfg entry opened [] (fresh_state entry opened).
Proof. split; try done. intros i Hi. cbn in Hi. lia. Qed.

(** Two positions less than one turn apart are in different slots. *)
Lemma slots_differ i n :
  (i < n)%nat → (n < i + PRICE_HISTORY_LEN)%nat →
  (i mod PRICE_HISTORY_LEN ≠ n mod PRICE_HISTORY_LEN)%nat.
Proof.
  unfold PRICE_HISTORY_LEN. intros H1 H2 He.
  pose proof (Nat.div_mod i 10). pose proof (Nat.div_mod n 10). lia.
Qed.

Lemma records_observe cfg entry opened ps s p b :
  records cfg entry opened ps s → records cfg entry opened (ps ++ [p]) (observe cfg p b s).
Proof.
  intros []. unfold observe, arm_threshold, ratchet_threshold.
  split; cbn [entry_price opened_block peak_price armed breakeven_ratcheted history_count
    history_idx price_history].
  - done.
  - done.
  - by rewrite spec_peak_snoc, rec_peak0.
  - by rewrite <- latch, spec_peak_snoc, rec_armed0, rec_entry0, rec_peak0.
  - by rewrite <- latch, spec_peak_snoc, rec_ratchet0, rec_entry0, rec_peak0.
  - rewrite length_app, rec_count0. cbn [length]. unfold PRICE_HISTORY_LEN.
    destruct (Nat.ltb_spec (length ps `min` 10) 10); lia.
  - rewrite length_app, rec_idx0. cbn [length]. unfold PRICE_HISTORY_LEN.
    rewrite <- Nat.add_1_r, Nat.Div0.add_mod_idemp_l. done.
  - by rewrite length_insert.
  - intros i Hi Hn. rewrite length_app in Hi, Hn. cbn [length] in Hi, Hn. rewrite rec_idx0.
    destruct (decide (i = length ps)) as [->|Hne].
    + rewrite list_lookup_insert_eq, list_lookup_middle; [done|done|].
      rewrite rec_len0. by apply Nat.mod_upper_bound.
    + rewrite list_lookup_insert_ne by (apply not_eq_sym, slots_differ; lia).
      rewrite lookup_app_l by lia. apply rec_slots0; lia.
Qed.

Lemma records_all cfg entry opened obs :
  records cfg entry opened obs.*1 (observe_all cfg (fresh_state entry opened) obs).
Proof.
  induction obs as [|[p b] obs IH] using rev_ind; [apply records_fresh|].
  unfold observe_all. rewrite foldl_app, fmap_app. by apply records_observe.
Qed.

(** The full ring buffer is the last ten prices, rotated. *)
Lemma ring_rotation cfg entry opened ps s :
  records cfg entry opened ps s → (PRICE_HISTORY_LEN ≤ length ps)%nat →
  drop (history_idx s) (price_history s) ++ take (history_idx s) (price_history s)
  = lastn PRICE_HISTORY_LEN ps.
Proof.
  intros [] Hn. assert (history_idx s < PRICE_HISTORY_LEN)%nat as Hr
    by (rewrite rec_idx0; by apply Nat.mod_upper_bound).
  pose proof (Nat.div_mod (length ps) PRICE_HISTORY_LEN) as Hd.
  rewrite <- rec_idx0 in Hd. specialize (Hd ltac:(done)). unfold PRICE_HISTORY_LEN in *.
  set (r := history_idx s) in *. set (q := (length ps / 10)%nat) in *.
  apply list_eq. intros j. unfold lastn. rewrite lookup_drop.
  destruct (decide (j < 10)%nat) as [Hj|Hj].
  - rewrite <- (rec_slots0 (length ps - 10 + j)%nat) by lia.
    destruct (decide (j < 10 - r)%nat).
    + rewrite lookup_app_l by (rewrite length_drop; lia). rewrite lookup_drop. f_equal.
      apply (Nat.mod_unique _ _ (q - 1)); lia.
    + rewrite lookup_app_r, length_drop by (rewrite length_drop; lia).
      rewrite lookup_take_lt by lia. f_equal. apply (Nat.mod_unique _ _ q); lia.
  - rewrite !lookup_ge_None_2; [done|lia|]. rewrite length_app, length_drop, length_take. lia.
Qed.

Lemma ring_max cfg entry opened ps s :
  records cfg entry opened ps s → (PRICE_HISTORY_LEN ≤ length ps)%nat →
  local_max (price_history s) = foldl fmax f0 (lastn PRICE_HISTORY_LEN ps) ∧
  oldest_price s = unwrap_or (head (lastn PRICE_HISTORY_LEN ps)) f0.
Proof.
  intros Hrec Hn. rewrite <- (ring_rotation _ _ _ _ _ Hrec Hn). split.
  - unfold local_max. apply foldl_fmax_perm; [by left|]. rewrite Permutation_app_comm.
    by rewrite take_drop.
  - destruct Hrec. assert (history_idx s < PRICE_HISTORY_LEN)%nat as Hr
      by (rewrite rec_idx0; by apply Nat.mod_upper_bound).
    unfold oldest_price. rewrite Nat.mod_small by done.
    destruct (price_history s !! history_idx s) as [x|] eqn:E;
      [by rewrite (drop_S _ _ _ E)|]. apply lookup_ge_None_1 in E. lia.
Qed.

(** The step is the specification. *)
Lemma step_history cfg entry opened obs p block :
  (step cfg p block (observe_all cfg (fresh_state entry opened) obs)).2 =
  history_exit cfg entry opened obs.*1 p block.
Proof.
  pose proof (records_all cfg entry opened obs) as Hr.
  apply (records_observe _ _ _ _ _ p block) in Hr. cbn [step snd].
  unfold history_exit. set (s := observe cfg p block _) in *. set (ps := obs.*1 ++ [p]) in *.
  cbv zeta. assert (negb (bool_decide (ps = [])) = true) as Hne by (unfold ps; by destruct obs).
  pose proof Hr as []. rewrite Hne in rec_armed0, rec_ratchet0. cbn [andb] in *.
  unfold exit_reason, effective_floor, lock_floor, hard_sl_floor, trail_floor, signal_dump.
  rewrite rec_entry0, rec_opened0, rec_peak0, rec_armed0, rec_ratchet0, rec_count0.
  destruct (Nat.leb_spec PRICE_HISTORY_LEN (length ps)) as [Hn|Hn].
  - destruct (ring_max _ _ _ _ _ Hr Hn) as [Hmax Hold].
    replace (PRICE_HISTORY_LEN <=? length ps `min` PRICE_HISTORY_LEN)%nat with true
      by (symmetry; apply Nat.leb_le; lia).
    unfold dist_from_max, vel_10. by rewrite Hmax, Hold.
  - replace (PRICE_HISTORY_LEN <=? length ps `min` PRICE_HISTORY_LEN)%nat with false
      by (symmetry; apply Nat.leb_gt; lia).
    by rewrite !andb_false_r.
Qed.

Lemma exit_reason_timeout cfg p n s :
  max_hold_blocks cfg ≤ sat_sub n (opened_block s) → ∃ r, exit_reason cfg p n s = Some r.
Proof.
  intros Hn%Z.leb_le. unfold exit_reason. rewrite Hn. repeat case_scrut; eauto. Qed.

(** ** Properties *)

(** [C8] The trailing stop implements its history specification.  From a fresh
    state, after any observations, one more step exits exactly when and for
    the reason the stateless rule gives on the whole price history: the peak
    is the highest price since entry, arming and the break-even ratchet are
    thresholds on that peak, and the leading signal reads the maximum and the
    oldest of the last ten prices, which is nine observations before the
    current one.  No hypothesis on the prices: NaN and infinities included. *)
Theorem trail_refines_history cfg entry opened obs p block :
  (step cfg p block (observe_all cfg (fresh_state entry opened) obs)).2 =
  history_exit cfg entry opened obs.*1 p block.
Proof. apply step_history. Qed.


(** *** The tick, against any host *)

Section Ticks.
Context {H : Type} `{ExitHostLaws H}.
Variable parse_u256_hex : list ascii → option U256.

(** A tick leaves the host alone or makes one exit of that token. *)
Definition tick_effect (te : TickEnv) (w w' : TrailWatcher H) (token : Address) (n : Z) : Prop :=
tw_cfg w' = tw_cfg w ∧
(exec w' = exec w ∨
∃ why, exec w' = host_exit (te_exec te) (exec w) token (String.append "TRAIL_" why) n 0).

Lemma tick_state_cases te (w : TrailWatcher H) token s n w' :
tick_state parse_u256_hex te w token s n = Some w' → tick_effect te w w' token n.
Proof.
unfold tick_state. intros (obs & _ & Ht)%bind_Some.
case_all_in Ht; (split; [done|]); first [by left|by right; eexists].
Qed.

Lemma tick_cases te (w : TrailWatcher H) token id n w' :
process_one_position parse_u256_hex te w token id n = Some w' → tick_effect te w w' token n.
Proof.
unfold process_one_position. intros Ht.
case_all_in Ht; try (split; [done|by left]); by apply tick_state_cases in Ht.
Qed.

(** The entry [id] stays as ready as it is and, ready, does not grow. *)
Definition only_sells (h h' : H) : Prop :=
∀ id t a, host_entry h id = Some (t, a) →
∃ t', host_entry h' id = Some (t', a) ∧ (a = true → 0 ≤ t → 0 ≤ t' ≤ t).

Lemma only_sells_refl h : only_sells h h.
Proof. intros id t a Hh. exists t. split; [done|lia]. Qed.

Lemma only_sells_trans h1 h2 h3 : only_sells h1 h2 → only_sells h2 h3 → only_sells h1 h3.
Proof.
intros Hs1 Hs2 id t a Hh. destruct (Hs1 _ _ _ Hh) as (t1 & Hh1 & Hle1).
destruct (Hs2 _ _ _ Hh1) as (t2 & Hh2 & Hle2). exists t2. split; [done|].
intros Ha H0t. specialize (Hle1 Ha H0t). specialize (Hle2 Ha ltac:(lia)). lia.
Qed.

Lemma tick_only_sells te (w : TrailWatcher H) token id n w' :
process_one_position parse_u256_hex te w token id n = Some w' → only_sells (exec w) (exec w').
Proof.
intros [_ [->|(why & ->)]]%tick_cases; [apply only_sells_refl|].
intros i t a Hh. by apply host_exit_sells.
Qed.

Definition block_loop (te : Address → TickEnv) (n : Z) (o : option (TrailWatcher H))
(l : list (Address * nat)) : option (TrailWatcher H) :=
foldl (λ w '(token, id), w ← w; process_one_position parse_u256_hex (te token) w token id n) o l.

Lemma block_loop_None te n l : block_loop te n None l = None.
Proof. by induction l as [|[??] l IH]. Qed.

Lemma block_loop_cons te n w token id l :
block_loop te n (Some w) ((token, id) :: l) =
block_loop te n (process_one_position parse_u256_hex (te token) w token id n) l.
Proof. done. Qed.

Lemma block_loop_only_sells te n l (w w' : TrailWatcher H) :
block_loop te n (Some w) l = Some w' → only_sells (exec w) (exec w').
Proof.
revert w. induction l as [|[token id] l IH]; intros w Hw.
- injection Hw as <-. apply only_sells_refl.
- rewrite block_loop_cons in Hw.
destruct (process_one_position _ _ w token id n) as [w1|] eqn:E;
[|by rewrite block_loop_None in Hw].
eapply only_sells_trans; [by eapply tick_only_sells|by apply IH].
Qed.

(** A position that is not ready. *)
Definition unready (h : H) (id : nat) : Prop :=
∀ t a, host_entry h id = Some (t, a) → t = 0 ∨ a = false.

Lemma tick_unready te (w : TrailWatcher H) token id n :
unready (exec w) id → process_one_position parse_u256_hex te w token id n = Some w.
Proof.
intros Hu. unfold process_one_position.
destruct (host_entry (exec w) id) as [[t a]|] eqn:E; [|done].
destruct (Hu _ _ E) as [->| ->]; [done|]. by rewrite orb_true_r.
Qed.

Lemma block_loop_unready te n l (w : TrailWatcher H) :
(∀ token id, (token, id) ∈ l → unready (exec w) id) → block_loop te n (Some w) l = Some w.
Proof.
induction l as [|[token id] l IH]; [done|]. intros Hu. rewrite block_loop_cons.
rewrite tick_unready by (apply (Hu token); set_solver). apply IH. set_solver.
Qed.
End Ticks.

(** The trail only sells, whatever its host.  Against any host that keeps
    the [ExitHost] laws, over a whole block, in any order of the positions,
    with any prices and replies: no entry's approved flag changes and no
    approved entry's amount grows or goes negative. *)
Theorem block_only_sells {H} `{ExitHostLaws H} pu te order (w w' : TrailWatcher H) n id t a :
  on_block pu te order w n = Some w' →
  host_entry (exec w) id = Some (t, a) →
  ∃ t', host_entry (exec w') id = Some (t', a) ∧ (a = true → 0 ≤ t → 0 ≤ t' ≤ t).
Proof. intros Hb. apply (block_loop_only_sells pu te n _ w w' Hb). Qed.

(** A host state of the executor with nothing but V2 positions. *)
Lemma v2_block_inert pu te order (w : TrailWatcher LiveExecutor) n :
  (∀ ps, order ps ≡ₚ ps) → v2_unapproved (exec w) →
  (∀ token id e, positions (exec w) !! token = Some id → heap (exec w) !! id = Some e →
     route e = PancakeV2) →
  on_block pu te order w n = Some w.
Proof.
  intros Ho Hu Hv2. unfold on_block. fold (block_loop pu te n). apply block_loop_unready.
  intros token id Hin. rewrite Ho in Hin. apply elem_of_map_to_list in Hin.
  intros t a Hh. apply fmap_Some in Hh as (e & He & [= -> ->]). right.
  eapply Hu; [done|]. by eapply Hv2.
Qed.

(** A position bought on PancakeSwap V2 is never watched.  From start-up,
    after any history of the executor, if every open position was routed to
    V2 then a block tick of the trail does nothing: no price check, no stop
    loss, no timeout, no state, no panic, whatever the prices. *)
Theorem v2_positions_never_trailed me nm l led bl es pu te order cfg sts n :
  (∀ ps, order ps ≡ₚ ps) →
  let s := run (LiveExecutor_new me nm l led bl) es in
  (∀ token id e, positions s !! token = Some id → heap s !! id = Some e → route e = PancakeV2) →
  let w := {| tw_cfg := cfg; exec := s; states := sts |} in
  on_block pu te order w n = Some w.
Proof.
  intros Ho s Hv2 w. apply v2_block_inert; [done| |done].
  apply (steady_run _ v2_unapproved_steady). by intros ? ? ?.
Qed.


(** A failed exit forgets the peak.  When a tick fires an exit and the
    position is still there afterwards (the broadcast was refused), the next
    tick starts over from the ledger's entry price: if the history rule holds
    the position on that single price, it is kept, the executor is not called,
    and the recorded peak is the greater of the entry price and that price,
    however high the token had been. *)
Theorem failed_exit_forgets_the_peak {H} `{ExitHost H} pu te te' (w w1 : TrailWatcher H)
    token id n n' t why entry opened p :
  process_one_position pu te w token id n = Some w1 →
  w1 = fire_exit (te_exec te) w token why n →
  host_entry (exec w1) id = Some (t, true) → t ≠ 0 →
  init_state_from_ledger pu (te_ledger te') (te_receipt te') token n' =
    Some (fresh_state entry opened) →
  get_latest_price_cached pu (prices (te_caches te')) CACHE_MAX_STALE_BLOCKS (te_v2 te')
    (te_logs te') token opened n' = Some (Some p) →
  history_exit (tw_cfg w) entry opened [] p n' = None →
  ∃ w2 s2, process_one_position pu te' w1 token id n' = Some w2 ∧ exec w2 = exec w1 ∧
    states w2 !! token = Some s2 ∧ peak_price s2 = spec_peak entry [p].
Proof.
  intros _ -> Hh Ht Hi Hp Hx. unfold process_one_position. rewrite Hh.
  destruct (Z.eqb_spec t 0); [done|]. cbn [negb orb fire_exit states].
  rewrite lookup_delete_eq, Hi. unfold tick_state. cbn [fresh_state last_observed_block].
  rewrite Hp. cbn [option_bind mbind armed fresh_state andb]. change (3 <=? 0) with false.
  rewrite <- (step_history _ _ _ [] p n') in Hx. cbn [observe_all foldl] in Hx.
  cbn [with_states tw_cfg fire_exit]. unfold step in *. cbn [snd] in Hx. rewrite Hx.
  eexists _, _. split; [reflexivity|]. split; [done|]. split; [apply lookup_insert_eq|]. done.
Qed.

(** ** Witnesses *)

Module Example.
Definition pu := from_str_radix16 256.
Definition str := list_ascii_of_string.
Definition cfg : TrailConfig := default_trail.
(** Entry at 10, then 20. *)
Definition armed_at_20 : TrailState :=
observe_all cfg (fresh_state (f64_of_Z 10) 100) [(f64_of_Z 20, 101)].
Definition watcher : TrailWatcher LiveExecutor :=
{| tw_cfg := cfg; exec := Executor.Example.bought; states := {[ 9 := armed_at_20 ]} |}.
(** A tick that sees the price 17; the signer answers nothing. *)
Definition tick (blk : Z) : TickEnv :=
{| te_exec := Executor.Example.holds_500;
te_caches := {| prices := {[ 9 := {| pp_block := blk; price := f64_of_Z 17 |} ]}; stats := ∅ |};
te_v2 := None; te_logs := λ _ _, None;
te_ledger := Some [str "1,full,D,public,0x0000000000000000000000000000000000000009,,1000000000000000000,10,7,0xab,1.0,true,"];
te_receipt := λ _, Some
{| rc_logs := Some [{| rl_address := Some (str "0x0000000000000000000000000000000000000009");
                rl_topics := Some [Some TRANSFER_TOPIC];
                rl_data := Some (str "0x16345785d8a0000") |}];
rc_block := Some (str "0x64") |} |}.
End Example.

Example init_example :
  init_state_from_ledger Example.pu (te_ledger (Example.tick 102)) (te_receipt (Example.tick 102)) 9 102 =
    Some (fresh_state (f64_of_Z 10) 100).
Proof. vm_compute. reflexivity. Qed.


(** The tick fires the trail; nothing is sold and the state is gone. *)
Definition after_tick : option (TrailWatcher LiveExecutor) :=
  on_block Example.pu (λ _, Example.tick 102) (λ l, l) Example.watcher 102.

Lemma block_only_sells_witness :
  ∃ w' t', after_tick = Some w' ∧ host_entry (exec w') 0 = Some (t', true) ∧ 0 ≤ t' ≤ 500.
Proof.
  destruct after_tick as [w'|] eqn:E; [|vm_compute in E; discriminate].
  destruct (block_only_sells Example.pu (λ _, Example.tick 102) (λ l, l) Example.watcher w' 102
    0 500 true E) as (t' & Ht & Hle); [vm_compute; reflexivity|].
  exists w', t'. split; [done|]. split; [exact Ht|]. apply Hle; [done|lia].
Defined.

(** A purchase routed to V2, confirmed with a balance of 500. *)
Definition v2_purchase : list event :=
  [Executor.Example.poll; EvBuy (Executor.Example.env (Some 3)) Executor.Example.entry "public" 0;
   EvBgBalance Executor.Example.holds_500 9 0; EvBgApproved 0].

Lemma v2_positions_never_trailed_witness :
  let s := run Executor.Example.start v2_purchase in
  let w := {| tw_cfg := Example.cfg; exec := s; states := ∅ |} in
  positions s !! 9 = Some 0%nat ∧
  on_block Example.pu (λ _, Example.tick 102) (λ l, l) w 102 = Some w.
Proof.
  intros s w. split; [vm_compute; reflexivity|].
  apply v2_positions_never_trailed; [done|]. intros token id e Hp He.
  change (positions s !! token = Some id) in Hp. change (heap s !! id = Some e) in He.
  assert (positions s = {[ 9 := 0%nat ]}) as Hs by (vm_compute; reflexivity).
  rewrite Hs in Hp. apply lookup_singleton_Some in Hp as [_ <-].
  assert (route <$> heap s !! 0%nat = Some PancakeV2) as Hr by (vm_compute; reflexivity).
  rewrite He in Hr. by injection Hr.
Defined.


Lemma failed_exit_forgets_the_peak_witness :
  peak_price Example.armed_at_20 = f64_of_Z 20 ∧
  ∃ w1 w2 s2, process_one_position Example.pu (Example.tick 102) Example.watcher 9 0 102 = Some w1 ∧
    process_one_position Example.pu (Example.tick 103) w1 9 0 103 = Some w2 ∧
    states w2 !! 9 = Some s2 ∧ peak_price s2 = f64_of_Z 17.
Proof.
  split; [vm_compute; reflexivity|].
  set (w1 := fire_exit (te_exec (Example.tick 102)) Example.watcher 9 "trail" 102).
  destruct (failed_exit_forgets_the_peak Example.pu (Example.tick 102) (Example.tick 103)
    Example.watcher w1 9 0 102 103 500 "trail" (f64_of_Z 10) 100 (f64_of_Z 17))
    as (w2 & s2 & Hw & _ & Hs & Hpk).
  - vm_compute. reflexivity.
  - reflexivity.
  - vm_compute. reflexivity.
  - lia.
  - vm_compute. reflexivity.
  - vm_compute. reflexivity.
  - vm_compute. reflexivity.
  - exists w1, w2, s2. split; [vm_compute; reflexivity|]. split; [exact Hw|].
    split; [exact Hs|]. rewrite Hpk. vm_compute. reflexivity.
Defined.
