(* ===== verification/Live.v ===== *)
(** * trader/mod.rs: the live trader put together

    [start_live_only] runs one consumer of KOL hits, the kill-switch poller
    and, when enabled, the adaptive trail, all on one executor.  A history of
    the trader is a sequence of their steps.  The file shows that it is a
    history of the executor ([run_executor]), so the executor's theorems hold
    of the whole trader, and the end-to-end properties: what a KOL's hit can
    and must lead to. *)

From Stdlib Require Import ZArith Lia Floats.SpecFloat Ascii String.
From S2P Require Import Prelude F64 Bytes Types Dex Bus Kol Strategy FourMeme.
From S2P Require Import ExecMath Limits Executor Trail.
From S2P Require Nonce.
Import Kol.Watch.

Record LiveTrader : Type := {
  watcher : TrailWatcher LiveExecutor;
  strategy_cfg : StrategyConfig;
  kill : option KillSwitch;
}.

Definition executor (t : LiveTrader) : LiveExecutor := exec (watcher t).
Definition trail_active (t : LiveTrader) : bool := enabled (tw_cfg (watcher t)).
Definition set_executor (t : LiveTrader) (s : LiveExecutor) : LiveTrader :=
  {| watcher := {| tw_cfg := tw_cfg (watcher t); exec := s; states := states (watcher t) |};
     strategy_cfg := strategy_cfg t; kill := kill t |}.

(** The strategy's configuration is a copy of the limits file's section. *)
Definition strategy_of (c : LimitsConfig) : StrategyConfig :=
  {| kol_filter := kol_whitelist (strategy c); min_buy_usd := Limits.live_min_buy_usd (strategy c);
     min_buy_bnb := Limits.live_min_buy_bnb (strategy c);
     size_fraction := Limits.live_size_fraction (strategy c) |}.

(** [start_live_only]: the poller reads its baseline, or gives up. *)
Definition start_live_only (trail_cfg : TrailConfig) (s : LiveExecutor) (balance : option f64)
    (now_s : Z) : LiveTrader :=
  {| watcher := {| tw_cfg := trail_cfg; exec := s; states := ∅ |};
     strategy_cfg := strategy_of (cfg (limits_rt s));
     kill := (λ b, {| baseline := b; baseline_day := now_s / 86400 |}) <$> balance |}.

Section Trader.
(** [B256::from_str], [Address::from_str], [U256::from_str_radix]. *)
Context (parse_b256 : string → option B256) (parse_address : string → option Address).
Context (parse_u256_hex : list ascii → option U256).

(** One hit taken from the channel; [price] is the BNB/USD read. *)
Definition on_hit (env : Env) (price : option f64) (hit : KolHit) (t : LiveTrader) : LiveTrader :=
let s := executor t in
match evaluate parse_b256 parse_address (strategy_cfg t) hit (unwrap_or price f0) with
| Skip _ => t
| Exit kol token kol_block _ kol_addr =>
if trail_active t then t
else set_executor t (execute_exit env s token kol kol_block kol_addr)
| (Enter _ _ _ _ _ _) as d =>
set_executor t (execute env s d (visibility hit) (open_count (ledger s)))
end.

Definition on_kill_tick (today : Z) (balance price : option f64) (t : LiveTrader) : LiveTrader :=
match kill t with
| None => t
| Some k =>
let '(k, l) := kill_switch_tick today balance price k (limits_rt (executor t)) in
{| watcher := watcher (set_executor t (set_limits (executor t) l));
strategy_cfg := strategy_cfg t; kill := Some k |}
end.

(** A new head: the trail, when it was started; a panic stops the program. *)
Definition on_head (te : Address → TickEnv)
(order : list (Address * nat) → list (Address * nat)) (n : Z) (t : LiveTrader)
: option LiveTrader :=
if trail_active t then
w ← on_block parse_u256_hex te order (watcher t) n;
Some {| watcher := w; strategy_cfg := strategy_cfg t; kill := kill t |}
else Some t.

(** The steps of the trader's tasks.  [Background] is a step of the tasks
the executor spawned: the balance poller and the finalisers of buys. *)
Inductive step_of : Type :=
| Hit (env : Env) (price : option f64) (hit : KolHit)
| Head (te : Address → TickEnv) (order : list (Address * nat) → list (Address * nat)) (n : Z)
| KillTick (today : Z) (balance price : option f64)
| BgBalance (env : Env) (token : Address) (id : nat)
| BgApprove (env : Env) (token : Address) (id : nat)
| BgApproved (id : nat)
| WalletPoll (result : option (list ascii)).

Definition trader_step (t : LiveTrader) (e : step_of) : option LiveTrader :=
match e with
| Hit env price hit => Some (on_hit env price hit t)
| Head te order n => on_head te order n t
| KillTick d b p => Some (on_kill_tick d b p t)
| BgBalance env token id => Some (set_executor t (bg_balance env (executor t) token id))
| BgApprove env token id => Some (set_executor t (bg_approve env (executor t) token id))
| BgApproved id => Some (set_executor t (bg_approved (executor t) id))
| WalletPoll r => Some (set_executor t (refresh_wallet (executor t) r))
end.

Definition trader_run (t : LiveTrader) (es : list step_of) : option LiveTrader :=
foldl (λ o e, t ← o; trader_step t e) (Some t) es.
End Trader.

(** ** A history of the trader is a history of its executor *)

Lemma set_limits_same s : set_limits s (limits_rt s) = s.
Proof. by destruct s. Qed.

Lemma run_app s es1 es2 : run s (es1 ++ es2) = run (run s es1) es2.
Proof. apply foldl_app. Qed.

Definition is_buy (ev : event) : bool := match ev with EvBuy _ _ _ _ => true | _ => false end.

Lemma block_loop_run pu te n l (w w' : TrailWatcher LiveExecutor) :
  block_loop pu te n (Some w) l = Some w' →
  (∃ es, exec w' = run (exec w) es ∧ Forall (λ ev, is_buy ev = false) es) ∧ tw_cfg w' = tw_cfg w.
Proof.
  revert w. induction l as [|[token id] l IH]; intros w Hw.
  - injection Hw as <-. split; [by exists []|done].
  - rewrite block_loop_cons in Hw.
    destruct (process_one_position _ _ w token id n) as [w1|] eqn:E;
      [|by rewrite block_loop_None in Hw].
    destruct (IH w1 Hw) as [(es & Hes & Hnb) Hc].
    apply tick_cases in E as [Hcfg [Hsame|(why & Hx)]]; rewrite Hcfg in Hc.
    + split; [|done]. exists es. by rewrite Hes, Hsame.
    + split; [|done]. exists (EvExit (te_exec (te token)) token (String.append "TRAIL_" why) n 0 :: es).
      rewrite Hes, Hx. by split; [|constructor].
Qed.

Lemma kill_tick_limits d b p k r :
  ∃ k' r', kill_switch_tick d b p k r = (k', r') ∧
    (r' = r ∨ ∃ l, r' = sync_realized_loss l r).
Proof. unfold kill_switch_tick. repeat case_scrut; eauto 8. Qed.

(** What never changes: the trail's configuration and the strategy's. *)
Definition same_config (t t' : LiveTrader) : Prop :=
  tw_cfg (watcher t') = tw_cfg (watcher t) ∧ strategy_cfg t' = strategy_cfg t.

(** The only step that buys is a hit, and it buys what the strategy made of it. *)
Definition explains (pb : string → option B256) (pa : string → option Address)
    (c : StrategyConfig) (e : step_of) (ev : event) : Prop :=
  match ev with
  | EvBuy env d vis _ => ∃ price hit, e = Hit env price hit ∧ vis = visibility hit ∧
      d = evaluate pb pa c hit (unwrap_or price f0)
  | _ => True
  end.

Lemma trader_step_events pb pa pu t e t' :
  trader_step pb pa pu t e = Some t' →
  (∃ es, executor t' = run (executor t) es ∧ Forall (explains pb pa (strategy_cfg t) e) es) ∧
  same_config t t'.
Proof.
  assert (∀ ev s', s' = Executor.step (executor t) ev → explains pb pa (strategy_cfg t) e ev →
    ∃ es, s' = run (executor t) es ∧ Forall (explains pb pa (strategy_cfg t) e) es) as Hone.
  { intros ev s' -> Hev. exists [ev]. split; [done|]. by apply Forall_singleton. }
  assert (∃ es, executor t = run (executor t) es ∧ Forall (explains pb pa (strategy_cfg t) e) es)
    as Hnone by (by exists []).
  destruct e as [env price hit|te order n|d b p|env token id|env token id|id|r]; cbn.
  - intros [= <-]. unfold on_hit.
    destruct (evaluate _ _ _ _ _) as [why|kol tok amt kin blk h|kol tok blk h addr] eqn:Ev.
    + done.
    + split; [|done]. apply (Hone (EvBuy env (Enter kol tok amt kin blk h) (visibility hit)
        (open_count (ledger (executor t))))); [done|]. exists price, hit. by rewrite Ev.
    + destruct (trail_active t); (split; [|done]); [done|].
      by apply (Hone (EvExit env tok kol blk addr)).
  - unfold on_head. destruct (trail_active t); [|by intros [= <-]].
    destruct (on_block pu te order (watcher t) n) as [w|] eqn:E; cbn; [|done].
    intros [= <-]. destruct (block_loop_run _ _ _ _ _ _ E) as [(es & Hes & Hnb) ?].
    split; [|done]. exists es. split; [done|].
    eapply Forall_impl; [exact Hnb|]. by intros [].
  - intros [= <-]. unfold on_kill_tick. destruct (kill t) as [k|]; [|done].
    destruct (kill_tick_limits d b p k (limits_rt (executor t))) as (k' & r' & -> & [->|(l & ->)]);
      (split; [|done]); cbn.
    + by rewrite set_limits_same.
    + by apply (Hone (EvLoss l)).
  - intros [= <-]. split; [|done]. by apply (Hone (EvBgBalance env token id)).
  - intros [= <-]. split; [|done]. by apply (Hone (EvBgApprove env token id)).
  - intros [= <-]. split; [|done]. by apply (Hone (EvBgApproved id)).
  - intros [= <-]. split; [|done]. by apply (Hone (EvWallet r)).
Qed.

Lemma trader_step_run pb pa pu t e t' :
  trader_step pb pa pu t e = Some t' →
  (∃ es, executor t' = run (executor t) es) ∧ same_config t t'.
Proof. intros [(es & ? & _) ?]%trader_step_events. eauto. Qed.

Lemma trader_run_None pb pa pu es : foldl (λ o e, t ← o; trader_step pb pa pu t e) None es = None.
Proof. by induction es. Qed.

Lemma trader_run_cons pb pa pu t e es :
  trader_run pb pa pu t (e :: es) =
    t' ← trader_step pb pa pu t e; trader_run pb pa pu t' es.
Proof.
  unfold trader_run. cbn. destruct (trader_step pb pa pu t e); cbn; [done|].
  apply trader_run_None.
Qed.

Lemma run_executor pb pa pu t es t' :
  trader_run pb pa pu t es = Some t' →
  (∃ evs, executor t' = run (executor t) evs) ∧ same_config t t'.
Proof.
  revert t. induction es as [|e es IH]; intros t Ht.
  - injection Ht as <-. split; [by exists []|done].
  - rewrite trader_run_cons in Ht. apply bind_Some in Ht as (t1 & H1 & H2).
    apply trader_step_run in H1 as [(es1 & He1) [Hc1 Hs1]].
    destruct (IH t1 H2) as [(es2 & He2) [Hc2 Hs2]]. split; [|split; congruence].
    exists (es1 ++ es2). by rewrite run_app, <- He1.
Qed.

(** An exit signal or anything else that is not a buy never enters. *)
Lemma non_buy_never_enters pb pa c hit price :
  side hit ≠ Some "BUY"%string →
  match evaluate pb pa c hit price with Enter _ _ _ _ _ _ => False | _ => True end.
Proof.
  intros Hs. destruct (evaluate pb pa c hit price) as [|n tok o k blk h|] eqn:E; try done.
  apply evaluate_enter_spec in E. naive_solver.
Qed.

(** ** Properties *)




(** [C21] Under the trail, V2 positions cannot be closed.  After any history of
    a trader started with the trail on, if the open positions were all routed
    to PancakeSwap V2, then no sequence of KOL sells (or other non-buy hits)
    and of blocks, whatever the prices and the replies, changes anything: the
    KOL's sells are ignored because the trail is on, and the trail skips the
    positions because nothing ever approves them. *)
Theorem v2_positions_stuck_under_the_trail pb pa pu me nm l led bl tc bal now es t es' :
  enabled tc = true →
  trader_run pb pa pu (start_live_only tc (LiveExecutor_new me nm l led bl) bal now) es = Some t →
  (∀ token id e, positions (executor t) !! token = Some id → heap (executor t) !! id = Some e →
     route e = PancakeV2) →
  (∀ e, e ∈ es' →
     (∃ env price hit, e = Hit env price hit ∧ side hit ≠ Some "BUY"%string) ∨
     (∃ te order n, e = Head te order n ∧ ∀ ps, order ps ≡ₚ ps)) →
  trader_run pb pa pu t es' = Some t.
Proof.
  intros Hen Hrun Hv2 Hes. apply run_executor in Hrun as [(evs & Hex) [Hcfg _]].
  assert (v2_unapproved (executor t)) as Hu.
  { rewrite Hex. apply (steady_run _ v2_unapproved_steady). by intros ? ? ?. }
  assert (trail_active t = true) as Hact by (unfold trail_active; by rewrite Hcfg).
  induction es' as [|e es' IH]; [done|]. rewrite trader_run_cons.
  assert (trader_step pb pa pu t e = Some t) as ->; [|apply IH; set_solver].
  destruct (Hes e) as [(env & price & hit & -> & Hs)|(te & order & n & -> & Ho)]; [set_solver|..].
  - cbn. unfold on_hit.
    pose proof (non_buy_never_enters pb pa (strategy_cfg t) hit (unwrap_or price f0) Hs) as Hno.
    destruct (evaluate _ _ _ _ _); [done|done|]. by rewrite Hact.
  - cbn. unfold on_head. rewrite Hact.
    assert (on_block pu te order (watcher t) n = Some (watcher t)) as ->; [|by destruct t].
    apply v2_block_inert; done.
Qed.

(** ** Witnesses *)

Module Example.
Definition pb : string → option B256 := λ _, Some 1.
Definition pa : string → option Address := λ _, Some 5.
Definition pu := from_str_radix16 256.
(** A hit of the KOL "D" on token 9, worth one BNB. *)
Definition hit (sd : string) : KolHit :=
{| kol_name := "D"; kol_emoji := None; kol_groups := []; tx_hash := "0x1"; from_addr := "0x5";
to_addr := None; to_label := None; method_id := "0x"; method_label := None;
value_bnb := f1; gas_price_gwei := f0; gas_limit := 0; nonce := 0; source_seen := "";
calldata := []; decoded := None; token := Some 9; side := Some sd;
confirmed_block := None; visibility := "public" |}.
Definition price : option f64 := Some (f64_of_Z 600).
Definition trail_on : TrailConfig :=
{| enabled := true; arm_pct := arm_pct default_trail; trail_pct := trail_pct default_trail;
hard_sl_pct := hard_sl_pct default_trail; max_hold_blocks := 10;
breakeven_at_pct := breakeven_at_pct default_trail;
breakeven_lock_pct := breakeven_lock_pct default_trail |}.
Definition funded : LiveTrader :=
start_live_only default_trail Executor.Example.funded (Some f1) 86400.
Definition holding : LiveTrader :=
start_live_only default_trail Executor.Example.bought (Some f1) 86400.
(** With the trail on: funds, a buy routed to V2, its confirmation. *)
Definition start : LiveTrader :=
start_live_only trail_on Executor.Example.start (Some f1) 86400.
Definition v2_history : list step_of :=
[WalletPoll (Some (list_ascii_of_string "0xde0b6b3a7640000"));
Hit (Executor.Example.env (Some 3)) price (hit "BUY");
BgBalance Executor.Example.holds_500 9 0; BgApproved 0].
Definition stuck : option LiveTrader := trader_run pb pa pu start v2_history.
(** A KOL sell, then a block far past the maximal holding time. *)
Definition signals : list step_of :=
[Hit (Executor.Example.env (Some 3)) price (hit "SELL");
Head (λ _, Trail.Example.tick 5000) (λ l, l) 5000].
End Example.




Lemma v2_positions_stuck_under_the_trail_witness :
  ∃ t, Example.stuck = Some t ∧ positions (executor t) !! 9 = Some 0%nat ∧
    trader_run Example.pb Example.pa Example.pu t Example.signals = Some t.
Proof.
  assert (option_map (λ t, (positions (executor t), route <$> heap (executor t))) Example.stuck
    = Some ({[ 9 := 0%nat ]}, {[ 0%nat := PancakeV2 ]})) as Hs by (vm_compute; reflexivity).
  destruct Example.stuck as [t|] eqn:E; [|done]. injection Hs as Hp Hr. exists t.
  split; [done|]. split; [rewrite Hp; apply lookup_singleton_eq|].
  apply (v2_positions_stuck_under_the_trail Example.pb Example.pa Example.pu 0x77
    (Executor.Example.nm 7) Executor.Example.limits Executor.Example.led None Example.trail_on
    (Some f1) 86400 Example.v2_history t Example.signals).
  - reflexivity.
  - exact E.
  - intros token id e Hpos He. rewrite Hp in Hpos. apply lookup_singleton_Some in Hpos as [_ <-].
    apply (f_equal (λ m, m !! 0%nat)) in Hr. cbn beta in Hr. rewrite lookup_fmap, He in Hr. by injection Hr.
  - intros e [->|[->|[]%not_elem_of_nil]%elem_of_cons]%elem_of_cons; [left|right].
    + do 3 eexists. split; [reflexivity|discriminate].
    + do 3 eexists. split; [reflexivity|done].
Defined.
