(* ===== verification/PaperPrice.v ===== *)
(** * trader/paper.rs: what a simulated fill is worth

    The prices the paper trader books: the KOL's executed price read from a
    receipt, the median price of other traders' swaps, the re-quote one block
    after the KOL, and the rate limiter of the archive node they share.  Node
    replies are arguments; the limiter's two static atomics are a state that
    the functions thread. *)

From Stdlib Require Import ZArith Lia Floats.SpecFloat Ascii String.
From S2P Require Import Prelude F64 Bytes Dex Sim Trail.

Local Abbreviation text := (list ascii) (only parsing).

(** ** Arithmetic *)

Definition bps_haircut_u256 (x : U256) (bps : Z) : U256 :=
  sat_mul 256 x (10000 - Z.min bps 10000) / 10000.

Definition u_hex (h : text) : f64 :=
  match from_str_radix16 128 (trim_0x h) with
  | Some v => f64_of_Z v
  | None => f0
  end.

(** [10f64.powi(d)]: the compiler's repeated squaring, which multiplies by the
    powers of the set bits from the lowest up. *)
Fixpoint powi_pos (a r : f64) (b : positive) : f64 :=
match b with
| xH => fmul r a
| xO b => powi_pos (fmul a a) r b
| xI b => powi_pos (fmul a a) (fmul r a) b
end.
Definition powi10 (d : Z) : f64 :=
match d with Zpos b => powi_pos (f64_of_Z 10) f1 b | _ => f1 end.

(** [sort_by(partial_cmp.unwrap_or(Equal))], a stable sort. *)
Fixpoint insert_price (p : f64) (l : list f64) : list f64 :=
  match l with
  | [] => [p]
  | q :: r => if flt p q then p :: l else q :: insert_price p r
  end.
Definition sort_prices (l : list f64) : list f64 := foldl (λ acc p, insert_price p acc) [] l.

Definition median (prices : list f64) : option f64 :=
  let s := sort_prices prices in s !! (length s / 2)%nat.

(** ** The archive node's budget *)

Definition ARCHIVE_DAILY_CAP : Z := 800.
Definition ARCHIVE_MIN_GAP_NS : Z := 400000000.

(** [ARCHIVE_CALLS], [ARCHIVE_LAST_NS]. *)
Record Archive : Type := { calls : Z; last_ns : Z }.

Definition archive_take (now : Z) (a : Archive) : option Archive :=
  if ARCHIVE_DAILY_CAP <=? calls a then None
  else if sat_sub now (last_ns a) <? ARCHIVE_MIN_GAP_NS then None
  else Some {| calls := wrap 64 (calls a + 1); last_ns := now |}.

(** ** Receipts *)

Record SwapLog : Type := {
  sl_topic0 : option text;
  sl_data : option text;
  sl_address : option text;
}.
Record SwapReceipt : Type := {
  sr_status : option text;
  sr_block : option text;
  sr_logs : option (list SwapLog);
  sr_gas_used : option text;
  sr_gas_price : option text;
}.

(** What the nodes answer about one transaction: the receipt at each poll, the
    transaction's value and sender, its sender's balance at a block (local
    node, archive node), and the clock at an archive call. *)
Record TxEnv : Type := {
  tx_receipt : nat → option SwapReceipt;
  tx_value : option text;
  tx_from : option text;
  local_balance : Z → option text;
  archive_reply : Z → option text;
  tx_clock : Z → Z;
}.

(** Polling: the first answer among [n] attempts. *)
Fixpoint poll {A : Type} (n i : nat) (f : nat → option A) : option A :=
  match n with
  | O => None
  | S n => match f i with Some a => Some a | None => poll n (S i) f end
  end.

Definition WBNB_LC : text := address_hex WBNB.

(** The largest transfer of the token and of WBNB. *)
Definition leg (token : Address) (acc : f64 * f64) (lg : SwapLog) : f64 * f64 :=
  if negb (bool_decide (to_lowercase (unwrap_or (sl_topic0 lg) []) = to_lowercase TRANSFER_TOPIC))
  then acc
  else
    let amt := u_hex (unwrap_or (sl_data lg) ["0"%char; "x"%char; "0"%char]) in
    let addr := to_lowercase (unwrap_or (sl_address lg) []) in
    if bool_decide (addr = to_lowercase (address_hex token)) then (fmax acc.1 amt, acc.2)
    else if bool_decide (addr = WBNB_LC) then (acc.1, fmax acc.2 amt)
    else acc.
Definition legs (token : Address) (logs : list SwapLog) : f64 * f64 :=
  foldl (leg token) (f0, f0) logs.

(** [archive_balance]; [on] says an archive URL is configured. *)
Definition archive_balance (on : bool) (e : TxEnv) (block : Z) (a : Archive)
  : option f64 * Archive :=
  if negb on then (None, a)
  else
    match archive_take (tx_clock e block) a with
    | None => (None, a)
    | Some a => (u_hex <$> archive_reply e block, a)
    end.

Definition balance_at (on : bool) (e : TxEnv) (block : Z) (a : Archive) : option f64 * Archive :=
  match local_balance e block with
  | Some x => (Some (u_hex x), a)
  | None => archive_balance on e block a
  end.

(** BNB in a sell that paid native BNB: the sender's balance change plus the
    gas it burned. *)
Definition native_proceeds (on : bool) (e : TxEnv) (rc : SwapReceipt) (a : Archive)
  : option f64 * Archive :=
  match (s ← sr_block rc; from_str_radix16 128 (trim_0x s)), tx_from e with
  | Some blk, Some _ =>
      let gas_used := u_hex (unwrap_or (sr_gas_used rc) ["0"%char; "x"%char; "0"%char]) in
      let gas_price := u_hex (unwrap_or (sr_gas_price rc) ["0"%char; "x"%char; "0"%char]) in
      match balance_at on e blk a with
      | (None, a) => (None, a)
      | (Some after, a) =>
          if blk =? 0 then (None, a)
          else
          match balance_at on e (blk - 1) a with
          | (None, a) => (None, a)
          | (Some before, a) =>
              let proceeds := fadd (fsub after before) (fmul gas_used gas_price) in
              if fle proceeds f0 then (None, a) else (Some (fdiv proceeds f1e18), a)
          end
      end
  | _, _ => (None, a)
  end.

Definition exec_price_of (bnb tok_whole : f64) : option f64 :=
  if fle bnb f0 || fle tok_whole f0 then None else Some (fdiv bnb tok_whole).

(** [kol_exec_price]. *)
Definition kol_exec_price (on : bool) (e : TxEnv) (token : Address) (decimals : Z) (is_buy : bool)
    (a : Archive) : option f64 * Archive :=
  match (rc ← poll 8 0 (tx_receipt e); logs ← sr_logs rc; Some (rc, logs)) with
  | None => (None, a)
  | Some (rc, logs) =>
      let '(tok_amt, wbnb_amt) := legs token logs in
      if fle tok_amt f0 then (None, a)
      else
        let tok_whole := fdiv tok_amt (powi10 decimals) in
        if is_buy then
          let v := unwrap_or (u_hex <$> tx_value e) f0 in
          (exec_price_of (if fgt v f0 then fdiv v f1e18 else fdiv wbnb_amt f1e18) tok_whole, a)
        else if fgt wbnb_amt f0 then (exec_price_of (fdiv wbnb_amt f1e18) tok_whole, a)
        else
          match native_proceeds on e rc a with
          | (None, a) => (None, a)
          | (Some bnb, a) => (exec_price_of bnb tok_whole, a)
          end
  end.

(** ** One block after the KOL *)

(** The KOL's block: a mined receipt that reverted ends the search. *)
Fixpoint kol_block_poll (n i : nat) (f : nat → option SwapReceipt) : option Z :=
  match n with
  | O => None
  | S n =>
      match f i with
      | Some rc =>
          if negb (bool_decide (sr_status rc = Some (list_ascii_of_string "0x1"))) then None
          else
            match (s ← sr_block rc; from_str_radix16 64 (trim_0x s)) with
            | Some b => Some b
            | None => kol_block_poll n (S i) f
            end
      | None => kol_block_poll n (S i) f
      end
  end.

(** What the nodes answer about a KOL's transaction and the blocks after it. *)
Record AfterEnv : Type := {
  kol_tx : TxEnv;
  local_node : Address → text → block_tag → rpc_reply;
  archive_node : Address → text → block_tag → rpc_reply;
  archive_clock : Z;
  archive_logs : Z → Z → option (list (option text));
  parse_b256 : text → option B256;
  tx_env : B256 → TxEnv;
}.

Definition simulate (node : Address → text → block_tag → rpc_reply) (is_buy : bool)
    (amount_in : U256) (token : Address) (block : option Z) : option QuoteResult :=
  match (if is_buy then simulate_buy node amount_in token block
         else simulate_sell node amount_in token block) with
  | Some q => q
  | None => None
  end.

Definition nonzero (q : option QuoteResult) : option QuoteResult :=
  q ← q; if amount_out q =? 0 then None else Some q.

(** [measured_v2v3_fill_at_kol_plus1]. *)
Definition measured_v2v3_fill (on : bool) (e : AfterEnv) (is_buy : bool) (amount_in : U256) (token : Address)
    (a : Archive) : option QuoteResult * Archive :=
  match kol_block_poll 10 0 (tx_receipt (kol_tx e)) with
  | None => (None, a)
  | Some kol_block =>
      let target := Some (wrap 64 (kol_block + 1)) in
      match nonzero (simulate (local_node e) is_buy amount_in token target) with
      | Some q => (Some q, a)
      | None =>
          if negb on then (None, a)
          else
            match archive_take (archive_clock e) a with
            | None => (None, a)
            | Some a => (nonzero (simulate (archive_node e) is_buy amount_in token target), a)
            end
      end
  end.

(** Sorting and deduplicating the transaction hashes, as strings. *)
Fixpoint text_leb (x y : text) : bool :=
  match x, y with
  | [], _ => true
  | _ :: _, [] => false
  | a :: x, b :: y =>
      if Ascii.eqb a b then text_leb x y else (N_of_ascii a <? N_of_ascii b)%N
  end.
Fixpoint insert_text (t : text) (l : list text) : list text :=
  match l with
  | [] => [t]
  | u :: r => if text_leb t u then t :: l else u :: insert_text t r
  end.
Fixpoint dedup (l : list text) : list text :=
  match l with
  | x :: ((y :: _) as r) => if bool_decide (x = y) then dedup r else x :: dedup r
  | _ => l
  end.
Definition sort_dedup (l : list text) : list text := dedup (foldr insert_text [] l).

(** The prices of the swaps, in the order of the hashes. *)
Fixpoint swap_prices (on : bool) (e : AfterEnv) (token : Address) (decimals : Z) (is_buy : bool)
    (hashes : list text) (a : Archive) : list f64 * Archive :=
  match hashes with
  | [] => ([], a)
  | h :: r =>
      match parse_b256 e h with
      | None => swap_prices on e token decimals is_buy r a
      | Some hash =>
          let '(p, a) := kol_exec_price on (tx_env e hash) token decimals is_buy a in
          let '(ps, a) := swap_prices on e token decimals is_buy r a in
          (match p with Some p => if fgt p f0 then p :: ps else ps | None => ps end, a)
      end
  end.

(** [measured_chain_swap_price_at_kol_plus1]. *)
Definition measured_chain_swap_price (on : bool) (e : AfterEnv) (is_buy : bool) (token : Address)
    (decimals : Z) (a : Archive) : option f64 * Archive :=
  if negb on then (None, a)
  else
  match kol_block_poll 10 0 (tx_receipt (kol_tx e)) with
  | None => (None, a)
  | Some kol_block =>
      match archive_take (archive_clock e) a with
      | None => (None, a)
      | Some a =>
          match archive_logs e (wrap 64 (kol_block + 1)) (wrap 64 (kol_block + 5)) with
          | None => (None, a)
          | Some logs =>
              let hashes := take 12 (sort_dedup (omap id logs)) in
              let '(prices, a) := swap_prices on e token decimals is_buy hashes a in
              (median prices, a)
          end
      end
  end.
