(* ===== verification/Paper.v ===== *)
(** * trader/paper.rs: the paper trader

    A hit that the strategy accepts opens or enlarges a simulated position;
    a KOL's sell closes the same fraction of it; the sweep closes what is too
    old.  The state is everything those handlers change: the position book,
    the per-KOL budgets, the set of held tokens, the archive limiter and the
    three files.  [World] is what the nodes, the caches and the clock answer
    during one call; the prices themselves are computed in [PaperPrice].

    Each handler is also given in the parts between which another task can
    run: [enter_reserve], [enter_price], [enter_commit]; [close_read],
    [close_plan], [close_commit]. *)

From Stdlib Require Import ZArith Lia Floats.SpecFloat Strings.Byte Ascii String.
From S2P Require Import Prelude F64 Bytes Types Dex Kol Strategy KolBudget ExecMath Sim Positions PaperPrice.

Local Abbreviation text := (list ascii) (only parsing).

(** ** Data *)

Record Costs : Type := {
  slip_v2_bps : Z;
  slip_bonding_bps : Z;
  gas_per_trade_usd : f64;
}.

Record HeldMeta : Type := {
  hm_kol_name : string;
  hm_symbol : string;
  entered_block : Z;
  entered_unix_ns : Z;
  bnb_in_wei : Z;
}.

Record TokenInfo : Type := { symbol : string; decimals : Z }.

Record ClosedTrade : Type := {
  ct_portfolio : PortfolioMode;
  ct_kol_name : string;
  ct_token_address : Address;
  ct_token_symbol : string;
  ct_bnb_in_wei : U256;
  ct_bnb_out_wei : U256;
  tokens_traded : U256;
  pnl_wei : Z;
  pnl_pct : f64;
  ct_opened_at_block : Z;
  ct_opened_at_unix_ns : Z;
  closed_at_block : Z;
  closed_at_unix_ns : Z;
  held_secs : Z;
  buy_tx_count : Z;
  close_reason : CloseReason;
  trigger_sell_tx : option B256;
  ct_d_mcap_usd : f64;
  ct_our_entry_mcap_usd : f64;
  bnb_usd_at_close : f64;
  kol_exit_count : Z;
  kol_exit_mcap_first_usd : f64;
  kol_exit_mcap_last_usd : f64;
  our_avg_exit_mcap_usd : f64;
}.

(** [open_positions.json], [kol_budgets.json], the rows of the closed trades. *)
Record Disk : Type := {
  open_positions : gmap PositionKey OpenPosition;
  budgets_json : option (gmap string KolBudget);
  closed_rows : list ClosedTrade;
}.

Record PaperExecutor : Type := {
  book : gmap PositionKey OpenPosition;
  kol_budgets : option KolBudgetBook;
  held : gmap Address HeldMeta;
  archive : Archive;
  disk : Disk;
}.

(** [costs], and whether [archive_rpc] is set. *)
Record PaperConfig : Type := { costs : Costs; archive_on : bool }.

(** What a call learns from outside.  [w_price i] answers its [i]-th
    [kol_exec_price] of the KOL's transaction; [w_saves i] says whether its
    [i]-th write succeeds. *)
Record World : Type := {
  w_resolver : Address → option TokenInfo;
  w_node : Address → text → block_tag → rpc_reply;
  w_after : AfterEnv;
  w_chain : AfterEnv;
  w_price : nat → TxEnv;
  w_bnb_usd : option f64;
  w_pool : Address → Z → option (f64 * f64);
  w_supply : Address → Z → option f64;
  w_head : option Z;
  w_now : Z;
  w_balance : bool → Address → Address → Z → option text;
  w_parse_u256 : text → option U256;
  w_saves : nat → bool;
}.

(** ** State updates *)

Definition with_book (s : PaperExecutor) b : PaperExecutor :=
  {| book := b; kol_budgets := kol_budgets s; held := held s; archive := archive s; disk := disk s |}.
Definition with_budgets (s : PaperExecutor) b : PaperExecutor :=
  {| book := book s; kol_budgets := b; held := held s; archive := archive s; disk := disk s |}.
Definition with_held (s : PaperExecutor) h : PaperExecutor :=
  {| book := book s; kol_budgets := kol_budgets s; held := h; archive := archive s; disk := disk s |}.
Definition with_archive (s : PaperExecutor) a : PaperExecutor :=
  {| book := book s; kol_budgets := kol_budgets s; held := held s; archive := a; disk := disk s |}.
Definition with_disk (s : PaperExecutor) d : PaperExecutor :=
  {| book := book s; kol_budgets := kol_budgets s; held := held s; archive := archive s; disk := d |}.

(** [ledger.save_book], [kol_budgets.save], [ledger.append_trade]: a failure is
    only logged. *)
Definition save_book (ok : bool) (s : PaperExecutor) : PaperExecutor :=
  if ok then
    with_disk s {| open_positions := book s; budgets_json := budgets_json (disk s);
                   closed_rows := closed_rows (disk s) |}
  else s.
Definition save_budgets (ok : bool) (s : PaperExecutor) : PaperExecutor :=
  if ok then
    with_disk s {| open_positions := open_positions (disk s);
                   budgets_json := save <$> kol_budgets s;
                   closed_rows := closed_rows (disk s) |}
  else s.
Definition append_trade (ok : bool) (t : ClosedTrade) (s : PaperExecutor) : PaperExecutor :=
  if ok then
    with_disk s {| open_positions := open_positions (disk s); budgets_json := budgets_json (disk s);
                   closed_rows := closed_rows (disk s) ++ [t] |}
  else s.

Definition held_meta_of (p : OpenPosition) : HeldMeta :=
  {| hm_kol_name := kol_name p; hm_symbol := token_symbol p; entered_block := opened_at_block p;
     entered_unix_ns := opened_at_unix_ns p;
     bnb_in_wei := unwrap_or (try_from_width 128 (bnb_in p)) (umax 128) |}.

(** [PaperExecutor::new], from the files; [now] is the clock at load. *)
Definition PaperExecutor_new (now : Z) (file : Ledger.json_file) (budgets : option KolBudgetBook)
    (a : Archive) (d : Disk) : PaperExecutor :=
  let b :=
    match Ledger.load_book now file with Ok b => b | Err _ => PositionBook.new end in
  {| book := b; kol_budgets := budgets;
     held := foldl (λ h p, <[token_address p := held_meta_of p]> h) ∅ (PositionBook.snapshot b);
     archive := a; disk := d |}.

Section Paper.
Context (cfg : PaperConfig).

(** ** Entries *)

(** The token: the decision's, or the last hop of the calldata. *)
Definition entry_token (token : Address) (calldata : bytes) : option Address :=
if negb (token =? 0) then Some token
else match extract_target_token calldata with Some t => t | None => None end.

(** The budget gate: the size to trade, [None] when the KOL's pot is exhausted. *)
Definition enter_reserve (w : World) (kol : string) (bnb_amount : U256) (s : PaperExecutor)
: PaperExecutor * option U256 :=
match kol_budgets s with
| None => (s, Some bnb_amount)
| Some bk =>
let '(bk, r) := try_reserve (w_now w) bk kol in
let s := with_budgets s (Some bk) in
match r with
| Some amt => (save_budgets (w_saves w 0) s, Some amt)
| None => (s, None)
end
end.

(** Tokens that [bnb_amount] buys at a price in BNB per whole token. *)
Definition tokens_at (bnb_amount : U256) (price : f64) (dec : Z) : U256 :=
let in_bnb := fdiv (f64_of_Z bnb_amount) f1e18 in
let raw := fmul (fdiv in_bnb price) (powi10 dec) in
f64_to_uint 128 (fmax raw f0).

(** The quote before the KOL's trade: a pool's, else the KOL's own price. *)
Definition raw_quote (w : World) (amt : U256) (token : Address) (dec : Z) (a : Archive)
: option QuoteResult * Archive :=
match simulate (w_node w) true amt token None with
| Some q => (Some q, a)
| None =>
match kol_exec_price (archive_on cfg) (w_price w 0) token dec true a with
| (Some price, a) =>
(if fgt price f0
then Some {| amount_out := tokens_at amt price dec; venue := Bonding; fee_tier := None |}
else None, a)
| (None, a) => (None, a)
end
end.

Definition haircut (q : QuoteResult) (bps : Z) : QuoteResult :=
{| amount_out := bps_haircut_u256 (amount_out q) bps; venue := venue q; fee_tier := fee_tier q |}.

(** The fill one block after the KOL, or the haircut. *)
Definition entry_fill (w : World) (raw : QuoteResult) (amt : U256) (token : Address) (dec : Z)
(a : Archive) : QuoteResult * Archive :=
match venue raw with
| PancakeV2 | PancakeV3 =>
match measured_v2v3_fill (archive_on cfg) (w_after w) true amt token a with
| (Some m, a) => (m, a)
| (None, a) => (haircut raw (slip_v2_bps (costs cfg)), a)
end
| Bonding =>
match measured_chain_swap_price (archive_on cfg) (w_chain w) true token dec a with
| (Some price, a) =>
(if fgt price f0
then {| amount_out := tokens_at amt price dec; venue := venue raw;
     fee_tier := fee_tier raw |}
else haircut raw (slip_bonding_bps (costs cfg)), a)
| (None, a) => (haircut raw (slip_bonding_bps (costs cfg)), a)
end
end.

(** Our price per whole token; zero when nothing was received. *)
Definition price_paid (bnb : U256) (tokens : U256) (dec : Z) : f64 :=
let out_tok := fdiv (f64_of_Z tokens) (powi10 dec) in
if fgt out_tok f0 then fdiv (fdiv (f64_of_Z bnb) f1e18) out_tok else f0.

Definition entry_mcaps (w : World) (q : QuoteResult) (amt : U256) (token : Address) (dec : Z)
(a : Archive) : (f64 * f64) * Archive :=
let bnb_usd := unwrap_or (w_bnb_usd w) f0 in
let ours := price_paid amt (amount_out q) dec in
match venue q with
| PancakeV2 | PancakeV3 =>
match w_pool w token dec with
| Some (spot_bnb, supply) =>
((fmul (fmul spot_bnb supply) bnb_usd, fmul (fmul ours supply) bnb_usd), a)
| None => ((f0, f0), a)
end
| Bonding =>
let supply := unwrap_or (w_supply w token dec) f0 in
if fgt supply f0 then
let '(p, a) := kol_exec_price (archive_on cfg) (w_price w 1) token dec true a in
((fmul (fmul (unwrap_or p f0) supply) bnb_usd, fmul (fmul ours supply) bnb_usd), a)
else ((f0, f0), a)
end.

(** What the book needs of a priced entry. *)
Record Fill : Type := { fl_info : TokenInfo; fl_quote : QuoteResult; fl_mcaps : f64 * f64 }.

Definition enter_price (w : World) (token : Address) (amt : U256) (a : Archive)
: option Fill * Archive :=
match w_resolver w token with
| None => (None, a)
| Some info =>
match raw_quote w amt token (decimals info) a with
| (None, a) => (None, a)
| (Some raw, a) =>
let '(q, a) := entry_fill w raw amt token (decimals info) a in
let '(m, a) := entry_mcaps w q amt token (decimals info) a in
(Some {| fl_info := info; fl_quote := q; fl_mcaps := m |}, a)
end
end.

Definition open_mode (w : World) (kol : string) (token : Address) (amt : U256) (f : Fill)
(tx : B256) (b : gmap PositionKey OpenPosition) (mode : PortfolioMode)
: gmap PositionKey OpenPosition :=
let b := PositionBook.open_or_add (w_now w) b mode kol token (symbol (fl_info f))
(decimals (fl_info f)) amt (amount_out (fl_quote f)) (unwrap_or (w_head w) 0) tx in
PositionBook.set_entry_mcaps b
{| key_portfolio := mode; key_kol_name := kol; key_token := token |}
(fl_mcaps f).1 (fl_mcaps f).2.

Definition enter_commit (w : World) (kol : string) (token : Address) (amt : U256) (f : Fill)
(tx : B256) (s : PaperExecutor) : PaperExecutor :=
let s := with_book s (foldl (open_mode w kol token amt f tx) (book s) ALL) in
let meta :=
{| hm_kol_name := kol; hm_symbol := symbol (fl_info f); entered_block := unwrap_or (w_head w) 0;
entered_unix_ns := w_now w;
bnb_in_wei := sat_mul 128 (unwrap_or (try_from_width 128 amt) (umax 128)) 2 |} in
save_book (w_saves w 1) (with_held s (<[token := meta]> (held s))).

(** How an entry ends: before any money moved, after the reservation, or with
a position. *)
Inductive outcome : Type := Refused | Aborted (amt : U256) | Entered (amt : U256).

Definition handle_enter (w : World) (kol : string) (token : Address) (calldata : bytes)
(bnb_amount : U256) (kol_tx : B256) (s : PaperExecutor) : PaperExecutor * outcome :=
match entry_token token calldata with
| None => (s, Refused)
| Some token =>
if is_blacklisted_fallback token then (s, Refused)
else
match enter_reserve w kol bnb_amount s with
| (s, None) => (s, Refused)
| (s, Some amt) =>
let '(f, a) := enter_price w token amt (archive s) in
let s := with_archive s a in
match f with
| None => (s, Aborted amt)
| Some f => (enter_commit w kol token amt f kol_tx s, Entered amt)
end
end
end.

(** ** Closes *)

(** [balance_of_at]: the local node, then the archive. *)
Definition eth_call_u256 (w : World) (reply : option text) : option U256 :=
match reply with
| Some ("0"%char :: "x"%char :: hex) =>
match hex with [] => Some 0 | _ => w_parse_u256 w hex end
| _ => None
end.
Definition balance_of_at (w : World) (who token : Address) (block : Z) : option U256 :=
match eth_call_u256 w (w_balance w false who token block) with
| Some r => Some r
| None =>
if archive_on cfg then eth_call_u256 w (w_balance w true who token block) else None
end.

Definition saturating_sub_u256 (a b : U256) : U256 := if b <? a then a - b else 0.

(** The part of a position that a close sells, and what stays. *)
Record Slice : Type := {
sell_tokens : U256;
sell_bnb_in : U256;
remaining_tokens : U256;
remaining_bnb_in : U256;
is_full_close : bool;
}.

Definition slice_of (p : OpenPosition) (fraction : f64) : Slice :=
let fraction := fclamp fraction f0 f1 in
if fge fraction (f64_lit 99 100) then
{| sell_tokens := tokens_held p; sell_bnb_in := bnb_in p; remaining_tokens := 0;
remaining_bnb_in := 0; is_full_close := true |}
else
let t := scale_u256_by_fraction (tokens_held p) fraction in
let i := scale_u256_by_fraction (bnb_in p) fraction in
{| sell_tokens := t; sell_bnb_in := i;
remaining_tokens := saturating_sub_u256 (tokens_held p) t;
remaining_bnb_in := saturating_sub_u256 (bnb_in p) i; is_full_close := false |}.

(** Gas of the round trip, in wei. *)
Definition gas_wei (bnb_usd : f64) : Z :=
if fgt bnb_usd f0 then
let bnb := fdiv (fmul (gas_per_trade_usd (costs cfg)) (f64_of_Z 2)) bnb_usd in
f64_to_uint 128 (fmax (fmul bnb f1e18) f0)
else 0.

(** The pool's answer to the sell, and whether it was measured one block after
the KOL's. *)
Definition exit_quote (w : World) (tx : option B256) (p : OpenPosition) (amt : U256) (a : Archive)
: (option QuoteResult * bool) * Archive :=
let '(m, a) :=
match tx with
| Some _ => measured_v2v3_fill (archive_on cfg) (w_after w) false amt (token_address p) a
| None => (None, a)
end in
match m with
| Some q => ((Some q, true), a)
| None => ((simulate (w_node w) false amt (token_address p) None, false), a)
end.

(** The price of a bonding-curve sell, and whether it needs no haircut. *)
Definition bonding_price (w : World) (tx : option B256) (p : OpenPosition) (a : Archive)
: (option f64 * bool) * Archive :=
match tx with
| None => ((None, false), a)
| Some _ =>
match measured_chain_swap_price (archive_on cfg) (w_chain w) false (token_address p)
(token_decimals p) a with
| (Some px, a) => ((Some px, true), a)
| (None, a) =>
let '(px, a) := kol_exec_price (archive_on cfg) (w_price w 0) (token_address p)
              (token_decimals p) false a in
((px, false), a)
end
end.

(** Proceeds of the slice and the reason that is booked. *)
Definition exit_fill (w : World) (reason : CloseReason) (tx : option B256) (p : OpenPosition)
(sl : Slice) (a : Archive) : (U256 * CloseReason) * Archive :=
let gas := gas_wei (unwrap_or (w_bnb_usd w) f0) in
let '((quote, measured), a) := exit_quote w tx p (sell_tokens sl) a in
match nonzero quote with
| Some q =>
let after_slip :=
if measured then amount_out q else bps_haircut_u256 (amount_out q) (slip_v2_bps (costs cfg)) in
((saturating_sub_u256 after_slip gas, reason), a)
| None =>
let '((priced, chain), a) := bonding_price w tx p a in
let flat := ((sell_bnb_in sl, PriceUnavailable), a) in
match priced with
| Some px =>
if fgt px f0 then
let toks_whole := fdiv (f64_of_Z (sell_tokens sl)) (powi10 (token_decimals p)) in
let raw := fmul (fmul toks_whole px) f1e18 in
let pre := f64_to_uint 128 (fmax raw f0) in
let after_slip :=
if chain then pre else bps_haircut_u256 pre (slip_bonding_bps (costs cfg)) in
((saturating_sub_u256 after_slip gas, reason), a)
else flat
| None => flat
end
end.

Definition as_i128 (x : U256) : Z :=
let u := unwrap_or (try_from_width 128 x) (umax 128) in
if u <=? imax 128 then u else imax 128.

Definition exit_mcaps (w : World) (tx : option B256) (p : OpenPosition) (amt out : U256)
(a : Archive) : (f64 * f64) * Archive :=
let bnb_usd := unwrap_or (w_bnb_usd w) f0 in
match tx with
| None => ((f0, f0), a)
| Some _ =>
let supply := unwrap_or (w_supply w (token_address p) (token_decimals p)) f0 in
if fgt supply f0 then
let '(px, a) := kol_exec_price (archive_on cfg) (w_price w 1) (token_address p)
            (token_decimals p) false a in
let toks_whole := fdiv (f64_of_Z amt) (powi10 (token_decimals p)) in
let our_px :=
if fgt toks_whole f0 then fdiv (fdiv (f64_of_Z out) f1e18) toks_whole else f0 in
((fmul (fmul (unwrap_or px f0) supply) bnb_usd, fmul (fmul our_px supply) bnb_usd), a)
else ((f0, f0), a)
end.

(** The row of a close. *)
Definition trade_of (w : World) (p : OpenPosition) (sl : Slice) (out : U256) (why : CloseReason)
(tx : option B256) (m : f64 * f64) : ClosedTrade :=
let inp := f64_of_Z (sell_bnb_in sl) in
{| ct_portfolio := portfolio p; ct_kol_name := kol_name p; ct_token_address := token_address p;
ct_token_symbol := token_symbol p; ct_bnb_in_wei := sell_bnb_in sl; ct_bnb_out_wei := out;
tokens_traded := sell_tokens sl;
pnl_wei := sat_signed 128 (as_i128 out - as_i128 (sell_bnb_in sl));
pnl_pct := if sell_bnb_in sl =? 0 then f0 else fdiv (fsub (f64_of_Z out) inp) inp;
ct_opened_at_block := opened_at_block p; ct_opened_at_unix_ns := opened_at_unix_ns p;
closed_at_block := unwrap_or (w_head w) 0; closed_at_unix_ns := w_now w;
held_secs := sat_sub (w_now w) (opened_at_unix_ns p) / 1000000000;
buy_tx_count := Z.of_nat (length (buy_tx_hashes p)); close_reason := why;
trigger_sell_tx := tx; ct_d_mcap_usd := d_mcap_usd p;
ct_our_entry_mcap_usd := our_entry_mcap_usd p;
bnb_usd_at_close := unwrap_or (w_bnb_usd w) f0;
kol_exit_count := match tx with Some _ => 1 | None => 0 end;
kol_exit_mcap_first_usd := m.1; kol_exit_mcap_last_usd := m.1; our_avg_exit_mcap_usd := m.2 |}.

Record Plan : Type := { pl_slice : Slice; pl_trade : ClosedTrade }.

(** Reading the position and pricing the slice; [None] when there is no
position, or nothing of it to sell. *)
Definition close_plan (w : World) (k : PositionKey) (reason : CloseReason) (tx : option B256)
(fraction : f64) (s : PaperExecutor) : option Plan * Archive :=
match PositionBook.get (book s) k with
| None => (None, archive s)
| Some p =>
let sl := slice_of p fraction in
if sell_tokens sl =? 0 then (None, archive s)
else
let '((out, why), a) := exit_fill w reason tx p sl (archive s) in
let '(m, a) := exit_mcaps w tx p (sell_tokens sl) out a in
(Some {| pl_slice := sl; pl_trade := trade_of w p sl out why tx m |}, a)
end.

Definition token_held (b : gmap PositionKey OpenPosition) (token : Address) : bool :=
existsb (λ kp, key_token kp.1 =? token) (map_to_list b).

(** Crediting the budget, writing the row, updating the book and the held set. *)
Definition close_commit (w : World) (k : PositionKey) (pl : Plan) (s : PaperExecutor)
: PaperExecutor :=
let t := pl_trade pl in
let sl := pl_slice pl in
let s :=
match kol_budgets s with
| Some bk =>
save_budgets (w_saves w 0)
(with_budgets s (Some (credit_close (w_now w) bk (ct_kol_name t) (ct_bnb_in_wei t)
                     (ct_bnb_out_wei t))))
| None => s
end in
let s := append_trade (w_saves w 1) t s in
let b :=
if is_full_close sl then (PositionBook.remove (book s) k).1
else PositionBook.shrink (book s) k (remaining_tokens sl) (remaining_bnb_in sl) in
let s := with_book s b in
let s := if token_held b (key_token k) then s else with_held s (delete (key_token k) (held s)) in
save_book (w_saves w 2) s.

Definition close_one (w : World) (k : PositionKey) (reason : CloseReason) (tx : option B256)
(fraction : f64) (s : PaperExecutor) : PaperExecutor * option ClosedTrade :=
let '(pl, a) := close_plan w k reason tx fraction s in
let s := with_archive s a in
match pl with
| None => (s, None)
| Some pl => (close_commit w k pl s, Some (pl_trade pl))
end.

(** One close after the other; [ws k] is what the close of [k] learns. *)
Definition close_all (ws : PositionKey → World) (ks : list PositionKey) (reason : CloseReason)
(tx : option B256) (fraction : f64) (s : PaperExecutor) : PaperExecutor * list ClosedTrade :=
foldl (λ '(s, ts) k,
let '(s, t) := close_one (ws k) k reason tx fraction s in (s, ts ++ option_list t)) (s, []) ks.

Definition handle_exit (w : World) (ws : PositionKey → World) (kol : string) (token : Address)
(sell_tx : B256) (kol_block : Z) (kol_addr : Address) (s : PaperExecutor)
: PaperExecutor * list ClosedTrade :=
let ks := PositionBook.keys_for_kol_token (book s) kol token in
if bool_decide (ks = []) then (s, [])
else
let fraction := unwrap_or (kol_sell_fraction (balance_of_at w) kol_addr token kol_block) f1 in
close_all ws ks KolSell (Some sell_tx) fraction s.

(** The age limit in nanoseconds, as [as_nanos() as u64]. *)
Definition sweep_cutoff (now hold_ns : Z) : Z := sat_sub now (wrap 64 hold_ns).

Definition sweep_timeouts (now hold_ns : Z) (ws : PositionKey → World) (s : PaperExecutor)
: PaperExecutor * list ClosedTrade :=
close_all ws (PositionBook.opened_before (book s) (sweep_cutoff now hold_ns))
CloseTimeout None f1 s.

(** ** Decisions *)

(** [execute]: the closed trades, and the KOL and the outcome of an entry. *)
Definition execute (w : World) (ws : PositionKey → World) (d : Decision) (calldata : bytes)
(s : PaperExecutor) : PaperExecutor * (list ClosedTrade * option (string * outcome)) :=
match d with
| Skip _ => (s, ([], None))
| Exit kol token kol_block kol_tx kol_addr =>
let '(s, ts) := handle_exit w ws kol token kol_tx kol_block kol_addr s in (s, (ts, None))
| Enter kol token bnb_amount _ _ kol_tx =>
let '(s, o) := handle_enter w kol token calldata bnb_amount kol_tx s in
(s, ([], Some (kol, o)))
end.

(** ** The running trader: its consumer of hits and its sweeper *)

Inductive event : Type :=
| Hit (w : World) (ws : PositionKey → World) (d : Decision) (calldata : bytes)
| Sweep (now hold_ns : Z) (ws : PositionKey → World).

(** The state with what the events produced: the closed trades and the
outcomes of the entries, oldest first. *)
Record history : Type := {
final : PaperExecutor;
closed : list ClosedTrade;
entries : list (string * outcome);
}.

Definition paper_step (h : history) (e : event) : history :=
match e with
| Hit w ws d calldata =>
let '(s, (ts, o)) := execute w ws d calldata (final h) in
{| final := s; closed := closed h ++ ts; entries := entries h ++ option_list o |}
| Sweep now hold_ns ws =>
let '(s, ts) := sweep_timeouts now hold_ns ws (final h) in
{| final := s; closed := closed h ++ ts; entries := entries h |}
end.

Definition paper_run (s : PaperExecutor) (es : list event) : history :=
foldl paper_step {| final := s; closed := []; entries := [] |} es.

(** The body of [run_consumer], without a live executor: evaluate, then
execute; a [Skip] changes nothing. *)
Definition on_hit (parse_b256 : string → option B256) (parse_address : string → option Address)
(strategy : StrategyConfig) (bnb_usd : option f64) (w : World) (ws : PositionKey → World)
(hit : Watch.KolHit) : event :=
Hit w ws (evaluate parse_b256 parse_address strategy hit (unwrap_or bnb_usd f0))
(Watch.calldata hit).
End Paper.


(** *** Sums over the book *)

(** The cost basis of a KOL's open positions. *)
Definition open_bnb (kol : string) (b : gmap PositionKey OpenPosition) : Z :=
  map_fold (λ k p acc, (if String.eqb (key_kol_name k) kol then bnb_in p else 0) + acc) 0 b.

Definition share (kol : string) (k : PositionKey) (o : option OpenPosition) : Z :=
  match o with
  | Some p => if String.eqb (key_kol_name k) kol then bnb_in p else 0
  | None => 0
  end.

Lemma open_bnb_delete kol b k : open_bnb kol b = share kol k (b !! k) + open_bnb kol (delete k b).
Proof.
  unfold open_bnb. destruct (b !! k) as [p|] eqn:E.
  - rewrite (map_fold_delete_L _ _ k p b); [done|intros; lia|done].
  - rewrite delete_id by done. cbn. lia.
Qed.

Lemma open_bnb_insert kol b k p :
  open_bnb kol (<[k := p]> b) = open_bnb kol b - share kol k (b !! k) + share kol k (Some p).
Proof.
  rewrite (open_bnb_delete kol (<[k := p]> b) k), (open_bnb_delete kol b k).
  rewrite lookup_insert_eq, delete_insert_eq. lia.
Qed.

Lemma open_bnb_nonneg kol b :
  (∀ k p, b !! k = Some p → 0 ≤ bnb_in p) → 0 ≤ open_bnb kol b.
Proof.
  intros Hb. unfold open_bnb. apply (map_fold_weak_ind (λ r m, (m ⊆ b → 0 ≤ r))); [done| |done].
  intros k p m r Hm IH Hs.
  assert (0 ≤ bnb_in p) by (apply (Hb k), (lookup_weaken _ _ _ _ (lookup_insert_eq _ _ _) Hs)).
  assert (0 ≤ r) by (apply IH; etrans; [apply insert_subseteq|]; done). case_scrut; lia.
Qed.

(** *** What the writes leave alone *)

Lemma save_book_fields ok s :
  book (save_book ok s) = book s ∧ kol_budgets (save_book ok s) = kol_budgets s ∧
  held (save_book ok s) = held s ∧ archive (save_book ok s) = archive s.
Proof. by destruct ok. Qed.
Lemma save_budgets_fields ok s :
  book (save_budgets ok s) = book s ∧ kol_budgets (save_budgets ok s) = kol_budgets s ∧
  held (save_budgets ok s) = held s ∧ archive (save_budgets ok s) = archive s.
Proof. by destruct ok. Qed.
Lemma append_trade_fields ok t s :
  book (append_trade ok t s) = book s ∧ kol_budgets (append_trade ok t s) = kol_budgets s ∧
  held (append_trade ok t s) = held s ∧ archive (append_trade ok t s) = archive s.
Proof. by destruct ok. Qed.

(** *** The effect of one close *)

Section Specs.
Context (cfg : PaperConfig).

Definition unchanged (s s' : PaperExecutor) : Prop :=
book s' = book s ∧ kol_budgets s' = kol_budgets s ∧ held s' = held s.

Record close_effect (k : PositionKey) (p : OpenPosition) (sl : Slice) (now : Z) (t : ClosedTrade)
(s s' : PaperExecutor) : Prop := {
ce_kol : ct_kol_name t = kol_name p;
ce_token : ct_token_address t = token_address p;
ce_in : ct_bnb_in_wei t = sell_bnb_in sl;
ce_tokens : tokens_traded t = sell_tokens sl;
ce_out : 0 ≤ sell_bnb_in sl → 0 ≤ ct_bnb_out_wei t;
ce_book : book s' =
if is_full_close sl then delete k (book s)
else PositionBook.shrink (book s) k (remaining_tokens sl) (remaining_bnb_in sl);
ce_budgets : kol_budgets s' =
(λ bk, credit_close now bk (kol_name p) (sell_bnb_in sl) (ct_bnb_out_wei t)) <$> kol_budgets s;
ce_held : held s' =
if token_held (book s') (key_token k) then held s else delete (key_token k) (held s);
}.

Lemma saturating_sub_nonneg a b : 0 ≤ saturating_sub_u256 a b.
Proof. unfold saturating_sub_u256. case_scrut; zbool; lia. Qed.

Lemma exit_fill_nonneg w reason tx p sl a :
0 ≤ sell_bnb_in sl → 0 ≤ (exit_fill cfg w reason tx p sl a).1.1.
Proof.
intros Hs. unfold exit_fill.
destruct (exit_quote _ _ _ _ _ _) as [[q m] a1]. destruct (nonzero q).
{ apply saturating_sub_nonneg. }
destruct (bonding_price _ _ _ _ _) as [[[px|] c] a2]; [|done].
destruct (fgt px f0); [apply saturating_sub_nonneg|done].
Qed.

Lemma close_commit_effect w k p sl t s :
ct_kol_name t = kol_name p → ct_token_address t = token_address p →
ct_bnb_in_wei t = sell_bnb_in sl → tokens_traded t = sell_tokens sl →
(0 ≤ sell_bnb_in sl → 0 ≤ ct_bnb_out_wei t) →
close_effect k p sl (w_now w) t s (close_commit w k {| pl_slice := sl; pl_trade := t |} s).
Proof.
intros H1 H2 H3 H4 H5. unfold close_commit. cbn [pl_slice pl_trade]. cbv zeta.
set (s1 := match kol_budgets s with Some _ => _ | None => s end).
assert (book s1 = book s ∧ held s1 = held s ∧ kol_budgets s1 =
(λ bk, credit_close (w_now w) bk (kol_name p) (sell_bnb_in sl) (ct_bnb_out_wei t)) <$>
kol_budgets s) as (E1 & E2 & E3).
{ subst s1. destruct (kol_budgets s) as [bk|] eqn:E; [|by rewrite E].
rewrite H1, H3. by destruct (w_saves w 0). }
set (s2 := append_trade _ _ s1).
destruct (append_trade_fields (w_saves w 1) t s1) as (F1 & F2 & F3 & _). fold s2 in F1, F2, F3.
rewrite F1, E1. cbn [PositionBook.remove fst].
destruct (save_book_fields (w_saves w 2)
(let b := if is_full_close sl then delete k (book s)
else PositionBook.shrink (book s) k (remaining_tokens sl) (remaining_bnb_in sl) in
if token_held b (key_token k) then with_book s2 b
else with_held (with_book s2 b) (delete (key_token k) (held (with_book s2 b)))))
as (G1 & G2 & G3 & _).
cbv zeta in *. split; try done; rewrite ?G1, ?G2, ?G3;
destruct (token_held _ _) eqn:Et; cbn; rewrite ?Et, ?F2, ?F3, ?E2, ?E3; done.
Qed.

Lemma close_one_spec w k reason tx fr s s' o :
close_one cfg w k reason tx fr s = (s', o) →
match o with
| None => unchanged s s' ∧
∀ p, book s !! k = Some p → sell_tokens (slice_of p fr) = 0
| Some t => ∃ p, book s !! k = Some p ∧ sell_tokens (slice_of p fr) ≠ 0 ∧
close_effect k p (slice_of p fr) (w_now w) t s s'
end.
Proof.
unfold close_one, close_plan, PositionBook.get.
destruct (book s !! k) as [p|] eqn:Ek.
2: { cbn. intros [= <- <-]. by split. }
destruct (Z.eqb_spec (sell_tokens (slice_of p fr)) 0) as [Hz|Hz].
{ cbn. intros [= <- <-]. split; [done|]. by intros q [= <-]. }
pose proof (exit_fill_nonneg w reason tx p (slice_of p fr) (archive s)) as Ho.
destruct (exit_fill _ _ _ _ _ _ _) as [[out why] a1].
destruct (exit_mcaps _ _ _ _ _ _ _) as [m a2]. intros [= <- <-].
exists p. split_and!; [done..|].
destruct (close_commit_effect w k p (slice_of p fr)
(trade_of w p (slice_of p fr) out why tx m) (with_archive s a2)) as [];
[done..|]. by split.
Qed.

(** *** The effect of an entry *)

Definition entered_position (w : World) (kol : string) (token : Address) (amt : U256) (f : Fill)
(tx : B256) (old : option OpenPosition) : OpenPosition :=
let p := PositionBook.merged (w_now w) old FastTip kol token (symbol (fl_info f))
(decimals (fl_info f)) amt (amount_out (fl_quote f)) (unwrap_or (w_head w) 0) tx in
{| portfolio := portfolio p; kol_name := kol_name p; token_address := token_address p;
token_symbol := token_symbol p; token_decimals := token_decimals p;
bnb_in := bnb_in p; tokens_held := tokens_held p;
opened_at_block := opened_at_block p; opened_at_unix_ns := opened_at_unix_ns p;
last_added_block := last_added_block p; buy_tx_hashes := buy_tx_hashes p;
d_mcap_usd := if feq (d_mcap_usd p) f0 then (fl_mcaps f).1 else d_mcap_usd p;
our_entry_mcap_usd :=
if feq (our_entry_mcap_usd p) f0 then (fl_mcaps f).2 else our_entry_mcap_usd p |}.

Lemma open_mode_insert w kol token amt f tx b :
let k := {| key_portfolio := FastTip; key_kol_name := kol; key_token := token |} in
open_mode w kol token amt f tx b FastTip =
<[k := entered_position w kol token amt f tx (b !! k)]> b.
Proof.
intros k. unfold open_mode, PositionBook.set_entry_mcaps.
rewrite PositionBook.open_or_add_insert. fold k. by rewrite alter_insert_eq.
Qed.

Lemma enter_commit_fields w kol token amt f tx s :
let k := {| key_portfolio := FastTip; key_kol_name := kol; key_token := token |} in
book (enter_commit w kol token amt f tx s) =
<[k := entered_position w kol token amt f tx (book s !! k)]> (book s) ∧
kol_budgets (enter_commit w kol token amt f tx s) = kol_budgets s ∧
∃ m, held (enter_commit w kol token amt f tx s) = <[token := m]> (held s).
Proof.
intros k. unfold enter_commit, ALL. cbn [foldl]. rewrite open_mode_insert. fold k.
unfold save_book. destruct (w_saves w 1); (split_and!; [done|done|by eexists]).
Qed.

(** The amount an entry trades and the budgets after the gate. *)
Definition reserved (w : World) (kol : string) (bnb_amount : U256) (o : option KolBudgetBook)
: option KolBudgetBook * option U256 :=
match o with
| None => (None, Some bnb_amount)
| Some bk => (Some (try_reserve (w_now w) bk kol).1, (try_reserve (w_now w) bk kol).2)
end.

Lemma enter_reserve_fields w kol bnb s :
let '(s', r) := enter_reserve w kol bnb s in
book s' = book s ∧ held s' = held s ∧ (kol_budgets s', r) = reserved w kol bnb (kol_budgets s).
Proof.
unfold enter_reserve, reserved. destruct (kol_budgets s) as [bk|] eqn:E; [|by rewrite E].
destruct (try_reserve _ bk kol) as [bk' [amt|]]; [|done]. by destruct (w_saves w 0).
Qed.

Lemma handle_enter_spec w kol token cd bnb tx s s' o :
handle_enter cfg w kol token cd bnb tx s = (s', o) →
match o with
| Refused => book s' = book s ∧ held s' = held s ∧
(kol_budgets s' = kol_budgets s ∨
(kol_budgets s', None) = reserved w kol bnb (kol_budgets s))
| Aborted amt => book s' = book s ∧ held s' = held s ∧
(kol_budgets s', Some amt) = reserved w kol bnb (kol_budgets s)
| Entered amt => ∃ tok f m, entry_token token cd = Some tok ∧
let k := {| key_portfolio := FastTip; key_kol_name := kol; key_token := tok |} in
book s' = <[k := entered_position w kol tok amt f tx (book s !! k)]> (book s) ∧
held s' = <[tok := m]> (held s) ∧
(kol_budgets s', Some amt) = reserved w kol bnb (kol_budgets s)
end.
Proof.
unfold handle_enter. destruct (entry_token token cd) as [tok|]; [|intros [= <- <-]; auto].
destruct (is_blacklisted_fallback tok); [intros [= <- <-]; auto|].
pose proof (enter_reserve_fields w kol bnb s) as Hr.
destruct (enter_reserve w kol bnb s) as [s1 [amt|]]; destruct Hr as (E1 & E2 & E3).
2: { intros [= <- <-]. auto. }
destruct (enter_price _ _ _ _ _) as [[f|] a]; intros [= <- <-]; [|done].
destruct (enter_commit_fields w kol tok amt f tx (with_archive s1 a)) as (F1 & F2 & m & F3).
cbn in F1, F2, F3. exists tok, f, m. rewrite <- E1, <- E2, <- E3, F1, F2, F3. done.
Qed.
End Specs.

(** *** Induction over the trader's events *)

Section Histories.
Context (cfg : PaperConfig) (I : PaperExecutor → list ClosedTrade → list (string * outcome) → Prop).
Hypothesis Hclose : ∀ w k reason tx fr s s' o ts es,
close_one cfg w k reason tx fr s = (s', o) → I s ts es → I s' (ts ++ option_list o) es.
Hypothesis Henter : ∀ w kol token cd bnb tx s s' o ts es,
handle_enter cfg w kol token cd bnb tx s = (s', o) → I s ts es → I s' ts (es ++ [(kol, o)]).

Lemma close_all_invariant ws ks reason tx fr s s' new ts es :
close_all cfg ws ks reason tx fr s = (s', new) → I s ts es → I s' (ts ++ new) es.
Proof.
unfold close_all. intros Hc Hi. assert (I s (ts ++ []) es) as H0 by by rewrite app_nil_r.
clear Hi. revert s H0 Hc. generalize (@nil ClosedTrade) as acc.
induction ks as [|k ks IH]; intros acc s H0 Hc; cbn in Hc; [by simplify_eq|].
destruct (close_one cfg (ws k) k reason tx fr s) as [s1 o] eqn:E.
eapply IH; [|exact Hc]. rewrite app_assoc. by eapply Hclose.
Qed.

Lemma paper_step_invariant h e :
I (final h) (closed h) (entries h) →
I (final (paper_step cfg h e)) (closed (paper_step cfg h e)) (entries (paper_step cfg h e)).
Proof.
intros Hi. destruct e as [w ws d cd|now hold ws]; cbn.
- destruct d as [r|kol tok bnb kb blk tx|kol tok blk tx addr]; cbn.
+ by rewrite !app_nil_r.
+ destruct (handle_enter _ _ _ _ _ _ _ _) as [s' o] eqn:E. cbn. rewrite app_nil_r.
by eapply Henter.
+ unfold handle_exit. case_bool_decide; cbn; rewrite ?app_nil_r; [done|].
destruct (close_all _ _ _ _ _ _ _) as [s' new] eqn:E. cbn. rewrite app_nil_r.
by eapply close_all_invariant.
- unfold sweep_timeouts. destruct (close_all _ _ _ _ _ _ _) as [s' new] eqn:E. cbn.
by eapply close_all_invariant.
Qed.

Lemma paper_run_invariant s es :
I s [] [] →
let h := paper_run cfg s es in I (final h) (closed h) (entries h).
Proof.
intros Hs. cbv zeta. unfold paper_run.
assert (∀ h, I (final h) (closed h) (entries h) →
I (final (foldl (paper_step cfg) h es)) (closed (foldl (paper_step cfg) h es))
(entries (foldl (paper_step cfg) h es))) as Hall; [|by apply Hall].
induction es as [|e es IH]; intros h Hh; [done|]. cbn. by apply IH, paper_step_invariant.
Qed.
End Histories.

(** *** The held set *)

Definition in_book (b : gmap PositionKey OpenPosition) (t : Address) : Prop :=
  ∃ k p, b !! k = Some p ∧ key_token k = t.

Definition held_exact (s : PaperExecutor) : Prop :=
  ∀ t, is_Some (held s !! t) ↔ in_book (book s) t.

Lemma token_held_spec b t : token_held b t = true ↔ in_book b t.
Proof.
  unfold token_held, in_book. rewrite existsb_exists. split.
  - intros ([k p] & Hin & Ht). cbn in Ht. zbool. exists k, p.
    by rewrite <- elem_of_map_to_list, list_elem_of_In.
  - intros (k & p & Hk & <-). exists (k, p). cbn. rewrite Z.eqb_refl.
    by rewrite <- list_elem_of_In, elem_of_map_to_list.
Qed.

Lemma held_exact_close k p sl now t s s' :
  book s !! k = Some p → close_effect k p sl now t s s' → held_exact s → held_exact s'.
Proof.
  intros Hk [_ _ _ _ _ Hb _ Hh] H a. rewrite Hh.
  assert (∀ k', k' ≠ k → book s' !! k' = book s !! k') as Hother.
  { intros k' Hne. rewrite Hb. destruct (is_full_close sl); [by rewrite lookup_delete_ne|].
    unfold PositionBook.shrink. by rewrite lookup_alter_ne. }
  assert (in_book (book s') a → in_book (book s) a) as Hsub.
  { intros (k' & q & Hq & <-). destruct (decide (k' = k)) as [->|]; [by exists k, p|].
    rewrite Hother in Hq by done. by exists k', q. }
  assert (key_token k ≠ a → in_book (book s) a → in_book (book s') a) as Hsup.
  { intros Hne (k' & q & Hq & Ht). exists k', q. rewrite Hother; [done|congruence]. }
  pose proof (token_held_spec (book s') (key_token k)) as Ht.
  destruct (token_held (book s') (key_token k)).
  - rewrite (H a). split; [|done]. intros Ha.
    destruct (decide (key_token k = a)) as [<-|]; [by apply Ht|by apply Hsup].
  - destruct (decide (key_token k = a)) as [<-|Hne].
    + rewrite lookup_delete_eq. split; [by intros []|]. intros Hin%Ht. done.
    + rewrite lookup_delete_ne by done. rewrite (H a). split; auto.
Qed.

Lemma held_exact_enter w kol tok amt f tx m s s' :
  let k := {| key_portfolio := FastTip; key_kol_name := kol; key_token := tok |} in
  book s' = <[k := entered_position w kol tok amt f tx (book s !! k)]> (book s) →
  held s' = <[tok := m]> (held s) → held_exact s → held_exact s'.
Proof.
  intros k Hb Hh H a. rewrite Hb, Hh. destruct (decide (tok = a)) as [<-|Hne].
  - rewrite lookup_insert_eq. split; [|by eauto]. intros _. eexists k, _. by rewrite lookup_insert_eq.
  - rewrite lookup_insert_ne, (H a) by done. unfold in_book. split; intros (k' & q & Hq & Ht).
    + exists k', q. rewrite lookup_insert_ne; [done|]. intros <-. done.
    + exists k', q. rewrite lookup_insert_ne in Hq; [done|]. intros <-. done.
Qed.

Lemma held_exact_unchanged s s' :
  book s' = book s → held s' = held s → held_exact s → held_exact s'.
Proof. intros Hb Hh H t. by rewrite Hb, Hh. Qed.

Lemma load_book_keyed now file b :
  Ledger.load_book now file = Ok b → PositionBook.keyed b.
Proof.
  destruct file as [| | |ps]; cbn; try done; intros [= <-]; [done..|].
  assert (∀ b : gmap PositionKey OpenPosition, PositionBook.keyed b →
    PositionBook.keyed (foldl (Ledger.restore now) b ps)) as Hall; [|by apply Hall].
  induction ps as [|p ps IH]; intros b Hb; [done|]. cbn. apply IH.
  by apply PositionBook.open_or_add_keyed.
Qed.

Lemma held_exact_new now file bk a d : held_exact (PaperExecutor_new now file bk a d).
Proof.
  intros t. unfold PaperExecutor_new. cbn.
  set (b := match Ledger.load_book now file with Ok b => b | Err _ => _ end).
  assert (PositionBook.keyed b) as Hb.
  { subst b. destruct (Ledger.load_book now file) eqn:E; [by eapply load_book_keyed|done]. }
  assert (∀ ps (h : gmap Address HeldMeta), is_Some (foldl (λ h p, <[token_address p := held_meta_of p]> h) h ps !! t) ↔
    is_Some (h !! t) ∨ ∃ p, p ∈ ps ∧ token_address p = t) as Hf.
  { induction ps as [|p ps IH]; intros h; cbn.
    - split; [auto|]. intros [?|(p & Hp & _)]; [done|by apply not_elem_of_nil in Hp].
    - rewrite IH, lookup_insert_is_Some. setoid_rewrite elem_of_cons.
      destruct (decide (token_address p = t)); naive_solver. }
  rewrite Hf. unfold in_book. split.
  - intros [[x Hx]|(p & Hp & <-)]; [done|]. apply Ledger.snapshot_elem in Hp; [|done].
    by exists (key p), p.
  - intros (k & p & Hk & <-). right. exists p. pose proof (Hb k p Hk) as <-.
    split; [|done]. by apply Ledger.snapshot_elem.
Qed.

Lemma held_exact_run cfg s es : held_exact s → held_exact (final (paper_run cfg s es)).
Proof.
  apply (paper_run_invariant cfg (λ s _ _, held_exact s)).
  - intros w k reason tx fr s1 s2 o _ _ E%close_one_spec H. destruct o as [t|].
    + destruct E as (p & Hk & _ & He). by eapply held_exact_close.
    + destruct E as [(? & ? & ?) _]. by eapply held_exact_unchanged.
  - intros w kol token cd bnb tx s1 s2 o _ _ E%handle_enter_spec H. destruct o as [|amt|amt].
    + destruct E as (? & ? & _). by eapply held_exact_unchanged.
    + destruct E as (? & ? & _). by eapply held_exact_unchanged.
    + destruct E as (tok & f & m & _ & Hb & Hh & _). by eapply held_exact_enter.
Qed.

(** *** The budgets and the book *)

(** What a KOL's closed trades returned and had cost, and what its aborted
    entries had reserved. *)
Definition of_kol (kol : string) (f : ClosedTrade → Z) (t : ClosedTrade) : Z :=
  if String.eqb (ct_kol_name t) kol then f t else 0.
Definition paid (kol : string) (ts : list ClosedTrade) : Z := sum_by (of_kol kol ct_bnb_out_wei) ts.
Definition spent (kol : string) (ts : list ClosedTrade) : Z := sum_by (of_kol kol ct_bnb_in_wei) ts.
Definition leaked (kol : string) (es : list (string * outcome)) : Z :=
  sum_by (λ e, match e.2 with
               | Aborted amt => if String.eqb e.1 kol then amt else 0
               | _ => 0
               end) es.

(** Signs: what holds without any bound. *)
Record signs (pct initial : Z) (s : PaperExecutor) (bk : KolBudgetBook) (ts : list ClosedTrade)
    (es : list (string * outcome)) : Prop := {
  sg_budgets : kol_budgets s = Some bk;
  sg_pct : position_pct_bps bk = pct;
  sg_initial : book_initial_wei bk = initial;
  sg_cash : ∀ k e, inner bk !! k = Some e → 0 ≤ cash_wei e;
  sg_keyed : PositionBook.keyed (book s);
  sg_book : ∀ k p, book s !! k = Some p → 0 ≤ bnb_in p;
  sg_trades : Forall (λ t, 0 ≤ ct_bnb_in_wei t ∧ 0 ≤ ct_bnb_out_wei t) ts;
  sg_entries : Forall (λ e, match e.2 with Aborted a | Entered a => 0 ≤ a | Refused => True end) es;
}.

(** One KOL's pot. *)
Record pot (kol : string) (bk : KolBudgetBook) (b : gmap PositionKey OpenPosition)
    (ts : list ClosedTrade) (es : list (string * outcome)) : Prop := {
  pot_present : ∀ k p, b !! k = Some p → key_kol_name k = kol → is_Some (inner bk !! kol);
  pot_initial : initial_wei (entry_or_new bk kol) = book_initial_wei bk;
  pot_cash : 0 ≤ cash_wei (entry_or_new bk kol);
  pot_committed : committed_wei (entry_or_new bk kol) = open_bnb kol b + leaked kol es;
  pot_equity : cash_wei (entry_or_new bk kol) + committed_wei (entry_or_new bk kol) =
    book_initial_wei bk + realized_pnl_wei (entry_or_new bk kol);
  pot_pnl : realized_pnl_wei (entry_or_new bk kol) = paid kol ts - spent kol ts;
}.

Lemma try_reserve_book now bk kol :
  position_pct_bps (try_reserve now bk kol).1 = position_pct_bps bk ∧
  book_initial_wei (try_reserve now bk kol).1 = book_initial_wei bk ∧
  is_Some (inner (try_reserve now bk kol).1 !! kol) ∧
  ∀ k, k ≠ kol → inner (try_reserve now bk kol).1 !! k = inner bk !! k.
Proof.
  unfold try_reserve. destruct (_ <? _); cbn;
    (split_and!; [done..|rewrite lookup_insert_eq; eauto|intros; by rewrite lookup_insert_ne]).
Qed.

Lemma credit_close_book now bk kol i o :
  position_pct_bps (credit_close now bk kol i o) = position_pct_bps bk ∧
  book_initial_wei (credit_close now bk kol i o) = book_initial_wei bk ∧
  (∀ k, is_Some (inner (credit_close now bk kol i o) !! k) ↔ is_Some (inner bk !! k)) ∧
  ∀ k, k ≠ kol → inner (credit_close now bk kol i o) !! k = inner bk !! k.
Proof.
  unfold credit_close. destruct (inner bk !! kol) as [e|] eqn:E; cbn; [|done].
  split_and!; [done..| |intros; by rewrite lookup_insert_ne].
  intros k. destruct (decide (k = kol)) as [->|]; [|by rewrite lookup_insert_ne].
  rewrite lookup_insert_eq, E. split; eauto.
Qed.

Lemma try_reserve_signs now bk kol :
  0 ≤ position_pct_bps bk → 0 ≤ book_initial_wei bk →
  (∀ k e, inner bk !! k = Some e → 0 ≤ cash_wei e) →
  (∀ k e, inner (try_reserve now bk kol).1 !! k = Some e → 0 ≤ cash_wei e) ∧
  match (try_reserve now bk kol).2 with Some amt => 0 ≤ amt | None => True end.
Proof.
  intros Hp Hi Hc.
  assert (0 ≤ cash_wei (entry_or_new bk kol)) as He.
  { unfold entry_or_new. destruct (inner bk !! kol) eqn:E; [by eapply Hc|done]. }
  unfold try_reserve. destruct (_ <? _); cbn; split; try done.
  - intros k e [[<- <-]|[_ Hk]]%lookup_insert_Some; [done|by eapply Hc].
  - intros k e [[<- <-]|[_ Hk]]%lookup_insert_Some; [cbn; unfold sat_sub; lia|by eapply Hc].
  - apply Z.div_pos; [|lia]. unfold sat_mul, umax. nia.
Qed.

Lemma credit_close_signs now bk kol i o :
  0 ≤ o → (∀ k e, inner bk !! k = Some e → 0 ≤ cash_wei e) →
  ∀ k e, inner (credit_close now bk kol i o) !! k = Some e → 0 ≤ cash_wei e.
Proof.
  intros Ho Hc k e. unfold credit_close. destruct (inner bk !! kol) as [e0|] eqn:E; [|by apply Hc].
  cbn. intros [[<- <-]|[_ Hk]]%lookup_insert_Some; [|by eapply Hc]. cbn [cash_wei].
  specialize (Hc _ _ E).
  assert (0 ≤ unwrap_or (try_from_width 128 o) (umax 128))
    by (unfold try_from_width; case_scrut; [done|by vm_compute]).
  unfold sat_add. apply Z.min_glb; [by apply Z.add_nonneg_nonneg|by vm_compute].
Qed.

Lemma slice_bnb p fr :
  0 ≤ bnb_in p →
  let sl := slice_of p fr in
  0 ≤ sell_bnb_in sl ≤ bnb_in p ∧ remaining_bnb_in sl = bnb_in p - sell_bnb_in sl.
Proof.
  intros Hp. cbv zeta. unfold slice_of.
  destruct (fge _ _); cbn [sell_bnb_in remaining_bnb_in]; [lia|].
  pose proof (scale_u256_le (bnb_in p) (fclamp fr f0 f1) Hp).
  unfold saturating_sub_u256. case_scrut; zbool; lia.
Qed.

Lemma share_le kol b k :
  (∀ k p, b !! k = Some p → 0 ≤ bnb_in p) → 0 ≤ share kol k (b !! k) ≤ open_bnb kol b.
Proof.
  intros Hb. rewrite (open_bnb_delete kol b k).
  assert (0 ≤ open_bnb kol (delete k b)).
  { apply open_bnb_nonneg. intros k' p [_ Hp]%lookup_delete_Some. by eapply Hb. }
  assert (0 ≤ share kol k (b !! k)); [|lia].
  unfold share. destruct (b !! k) eqn:E; [|done]. case_scrut; [by eapply Hb|done].
Qed.

Lemma sum_of_kol_nonneg kol f ts : Forall (λ t, 0 ≤ f t) ts → 0 ≤ sum_by (of_kol kol f) ts.
Proof.
  intros Hf. apply sum_by_nonneg. intros t Ht. rewrite Forall_forall in Hf. unfold of_kol.
  case_scrut; [by apply Hf|done].
Qed.

Lemma leaked_nonneg kol es :
  Forall (λ e, match e.2 with Aborted a | Entered a => 0 ≤ a | Refused => True end) es →
  0 ≤ leaked kol es.
Proof.
  intros Hf. apply sum_by_nonneg. intros [k [|a|a]] Ht; cbn; try done.
  rewrite Forall_forall in Hf. specialize (Hf _ Ht). cbn in Hf. case_scrut; lia.
Qed.

(** The book of a close, whole or partial. *)
Lemma close_book_bnb kol k p sl (b : gmap PositionKey OpenPosition) :
  b !! k = Some p →
  remaining_bnb_in sl = bnb_in p - sell_bnb_in sl →
  (is_full_close sl = true → sell_bnb_in sl = bnb_in p) →
  open_bnb kol (if is_full_close sl then delete k b
                else PositionBook.shrink b k (remaining_tokens sl) (remaining_bnb_in sl)) =
    open_bnb kol b - (if String.eqb (key_kol_name k) kol then sell_bnb_in sl else 0).
Proof.
  intros Hk Hr Hf. destruct (is_full_close sl).
  - rewrite (open_bnb_delete kol b k), Hk. cbn. rewrite Hf by done. case_scrut; lia.
  - unfold PositionBook.shrink.
    rewrite (open_bnb_delete kol (alter _ k b) k), (open_bnb_delete kol b k).
    rewrite lookup_alter_eq, Hk, delete_alter, decide_True by done. cbn. rewrite Hr. case_scrut; lia.
Qed.

Lemma slice_full p fr : is_full_close (slice_of p fr) = true → sell_bnb_in (slice_of p fr) = bnb_in p.
Proof. unfold slice_of. by destruct (fge _ _). Qed.

Section Accounting.
Context (kol : string) (pct initial : Z).
Hypothesis Hpct : 0 ≤ pct ≤ 10000.
Hypothesis Hinitial : 0 ≤ initial.

Definition money_bounded (ts : list ClosedTrade) : Prop := initial + paid kol ts < 2 ^ 127.

(** The invariant of a run: the signs, and the pot while the money is bounded. *)
Definition books_balance (s : PaperExecutor) (ts : list ClosedTrade) (es : list (string * outcome))
: Prop :=
∃ bk, signs pct initial s bk ts es ∧ (money_bounded ts → pot kol bk (book s) ts es).

Lemma pot_bounds s bk ts es :
signs pct initial s bk ts es → money_bounded ts → pot kol bk (book s) ts es →
0 ≤ open_bnb kol (book s) ∧ 0 ≤ leaked kol es ∧ 0 ≤ spent kol ts ∧ 0 ≤ paid kol ts ∧
0 ≤ committed_wei (entry_or_new bk kol) ∧
cash_wei (entry_or_new bk kol) + committed_wei (entry_or_new bk kol) ≤ initial + paid kol ts.
Proof.
intros [S1 S2 S3 S4 S5 S6 S7 S8] Hm [P1 P2 P3 P4 P5 P6].
pose proof (open_bnb_nonneg kol (book s) S6). pose proof (leaked_nonneg kol es S8).
assert (0 ≤ spent kol ts ∧ 0 ≤ paid kol ts) as [].
{ split; apply sum_of_kol_nonneg; eapply Forall_impl; [exact S7| |exact S7|]; cbn; tauto. }
split_and!; lia.
Qed.

Lemma paid_snoc ts t : paid kol (ts ++ [t]) = paid kol ts + of_kol kol ct_bnb_out_wei t.
Proof. unfold paid. rewrite sum_by_app. cbn. lia. Qed.
Lemma spent_snoc ts t : spent kol (ts ++ [t]) = spent kol ts + of_kol kol ct_bnb_in_wei t.
Proof. unfold spent. rewrite sum_by_app. cbn. lia. Qed.
Lemma leaked_snoc es k o :
leaked kol (es ++ [(k, o)]) =
leaked kol es + match o with Aborted a => if String.eqb k kol then a else 0 | _ => 0 end.
Proof. unfold leaked. rewrite sum_by_app. cbn. lia. Qed.

Lemma close_book_lookup k p sl now t s s' k' q :
close_effect k p sl now t s s' → book s' !! k' = Some q →
∃ q0, book s !! k' = Some q0 ∧
(bnb_in q = bnb_in q0 ∨ k' = k ∧ bnb_in q = remaining_bnb_in sl).
Proof.
intros [_ _ _ _ _ E _ _]. rewrite E. destruct (is_full_close _).
- intros [_ Hq]%lookup_delete_Some. eauto.
- unfold PositionBook.shrink. rewrite lookup_alter_Some.
intros [(-> & q0 & Hq & ->)|[_ Hq]]; eauto 6.
Qed.

Lemma close_signs k p fr now t s s' bk ts es :
book s !! k = Some p → close_effect k p (slice_of p fr) now t s s' →
signs pct initial s bk ts es →
signs pct initial s'
(credit_close now bk (kol_name p) (sell_bnb_in (slice_of p fr)) (ct_bnb_out_wei t))
(ts ++ [t]) es.
Proof.
intros Hk He [S1 S2 S3 S4 S5 S6 S7 S8].
destruct (slice_bnb p fr (S6 _ _ Hk)) as [Hsl Hrem].
pose proof (λ k' q, close_book_lookup _ _ _ _ _ _ _ k' q He) as Hsub.
destruct He as [_ _ E3 _ E5 E6 E7 _]. rewrite S1 in E7.
destruct (credit_close_book now bk (kol_name p) (sell_bnb_in (slice_of p fr)) (ct_bnb_out_wei t))
as (C1 & C2 & _ & _).
split; [exact E7|by rewrite C1|by rewrite C2| | | | |exact S8].
- apply credit_close_signs; [apply E5, Hsl|done].
- rewrite E6. destruct (is_full_close _);
[by apply PositionBook.remove_keyed|by apply PositionBook.shrink_keyed].
- intros k' q (q0 & Hq & [->|[-> ->]])%Hsub; [by eapply S6|]. rewrite Hrem. lia.
- apply Forall_app. split; [done|]. apply Forall_singleton. rewrite E3.
split; [apply Hsl|apply E5, Hsl].
Qed.

(** What concerns another KOL leaves the pot alone. *)
Lemma pot_same bk bk' (b b' : gmap PositionKey OpenPosition) ts ts' es es' :
(∀ k p, b' !! k = Some p → key_kol_name k = kol → is_Some (b !! k)) →
inner bk' !! kol = inner bk !! kol → book_initial_wei bk' = book_initial_wei bk →
open_bnb kol b' + leaked kol es' = open_bnb kol b + leaked kol es →
paid kol ts' - spent kol ts' = paid kol ts - spent kol ts →
pot kol bk b ts es → pot kol bk' b' ts' es'.
Proof.
intros Hb Hi Hn Ho Hp [P1 P2 P3 P4 P5 P6].
assert (entry_or_new bk' kol = entry_or_new bk kol) as He by (unfold entry_or_new; by rewrite Hi, Hn).
split; rewrite ?He, ?Hn, ?Ho, ?Hp, ?Hi; try done.
intros k p Hk Hkol. destruct (Hb k p Hk Hkol) as [q Hq]. by eapply P1.
Qed.

(** The close of a position of this KOL, on its pot. *)
Lemma pot_credit now bk e i o (b b' : gmap PositionKey OpenPosition) ts t es :
inner bk !! kol = Some e → book_initial_wei bk = initial →
pot kol bk b ts es → 0 ≤ i ≤ committed_wei e → 0 ≤ o →
cash_wei e + committed_wei e + o < 2 ^ 127 →
- 2 ^ 127 < realized_pnl_wei e + o - i < 2 ^ 127 →
open_bnb kol b' = open_bnb kol b - i →
of_kol kol ct_bnb_in_wei t = i → of_kol kol ct_bnb_out_wei t = o →
pot kol (credit_close now bk kol i o) b' (ts ++ [t]) es.
Proof.
intros He Hb [P1 P2 P3 P4 P5 P6] Hi Ho Hs Hp Hopen Ht1 Ht2.
assert (entry_or_new bk kol = e) as Hee by (unfold entry_or_new; by rewrite He).
rewrite Hee in *.
destruct (credit_close_exact now bk kol e i o He Hi Ho) as (e' & -> & F1 & F2 & F3 & F4);
[lia|done|unfold imin, imax; change (128 - 1) with 127; lia|].
assert (entry_or_new (set_inner bk (<[kol:=e']> (inner bk))) kol = e') as Hee'
by (unfold entry_or_new; cbn; by rewrite lookup_insert_eq).
split; rewrite ?Hee', ?paid_snoc, ?spent_snoc, ?Ht1, ?Ht2; cbn [book_initial_wei set_inner inner].
- intros. rewrite lookup_insert_eq. eauto.
- by rewrite F1.
- lia.
- lia.
- lia.
- lia.
Qed.

Lemma balance_close k p fr now t s s' ts es :
book s !! k = Some p → close_effect k p (slice_of p fr) now t s s' →
books_balance s ts es → books_balance s' (ts ++ [t]) es.
Proof.
intros Hk He (bk & Hs & Hpot). pose proof (close_signs _ _ _ _ _ _ _ _ _ _ Hk He Hs) as Hs'.
eexists. split; [exact Hs'|]. unfold money_bounded. rewrite paid_snoc. intros Hm.
pose proof (λ k' q, close_book_lookup k p _ now t s s' k' q He) as Hsub.
destruct He as [E1 _ E3 _ E5 E6 _ _]. pose proof Hs as [_ _ S3 _ S5 S6 _ _].
destruct (slice_bnb p fr (S6 _ _ Hk)) as [Hsl Hrem]. specialize (E5 (proj1 Hsl)).
set (i := sell_bnb_in (slice_of p fr)) in *. set (o := ct_bnb_out_wei t) in *.
assert (key_kol_name k = kol_name p) as Hkey by (by rewrite <- (S5 _ _ Hk)).
assert (of_kol kol ct_bnb_out_wei t = if String.eqb (kol_name p) kol then o else 0) as Ho'
by (unfold of_kol; by rewrite E1).
assert (of_kol kol ct_bnb_in_wei t = if String.eqb (kol_name p) kol then i else 0) as Hi'
by (unfold of_kol; by rewrite E1, E3).
assert (0 ≤ of_kol kol ct_bnb_out_wei t) by (rewrite Ho'; by destruct (String.eqb _ _)).
assert (money_bounded ts) as Hm' by (unfold money_bounded; lia).
specialize (Hpot Hm'). destruct (pot_bounds _ _ _ _ Hs Hm' Hpot) as (B1 & B2 & B3 & B4 & B5 & B6).
pose proof (close_book_bnb kol k p (slice_of p fr) (book s) Hk Hrem (slice_full p fr)) as Hopen.
rewrite <- E6, Hkey in Hopen. fold i in Hopen. rewrite Ho' in Hm.
destruct (String.eqb_spec (kol_name p) kol) as [Hn|Hn]; cbv match in Hopen, Ho', Hi', Hm.
- destruct Hpot as [P1 P2 P3 P4 P5 P6]. destruct (P1 k p Hk) as [e He]; [congruence|].
assert (entry_or_new bk kol = e) as Hee by (unfold entry_or_new; by rewrite He).
pose proof (share_le kol (book s) k S6) as Hsh. rewrite Hk in Hsh. cbn in Hsh.
rewrite Hkey, Hn, String.eqb_refl in Hsh. rewrite Hn.
assert (0 ≤ i ≤ committed_wei e ∧ cash_wei e + committed_wei e + o < 2 ^ 127 ∧
- 2 ^ 127 < realized_pnl_wei e + o - i < 2 ^ 127) as (X1 & X2 & X3)
by (rewrite Hee in *; lia).
apply (pot_credit now bk e i o (book s));
[exact He|exact S3|by split|exact X1|exact E5|exact X2|exact X3|exact Hopen|exact Hi'|exact Ho'].
- destruct (credit_close_book now bk (kol_name p) i o) as (_ & C2 & _ & C4).
apply (pot_same bk _ (book s) _ ts _ es _); [|by rewrite C4|done|lia| |done].
+ intros k' q Hq _. destruct (Hsub _ _ Hq) as (q0 & Hq0 & _). eauto.
+ rewrite paid_snoc, spent_snoc. lia.
Qed.
(** A reservation for this KOL: what it took is in the book, or leaked. *)
Lemma pot_reserve now bk (b b' : gmap PositionKey OpenPosition) ts es es' :
position_pct_bps bk = pct → pot kol bk b ts es →
0 ≤ committed_wei (entry_or_new bk kol) →
cash_wei (entry_or_new bk kol) + committed_wei (entry_or_new bk kol) < 2 ^ 127 →
open_bnb kol b' + leaked kol es' =
open_bnb kol b + leaked kol es + unwrap_or (try_reserve now bk kol).2 0 →
pot kol (try_reserve now bk kol).1 b' ts es'.
Proof.
intros Hp [P1 P2 P3 P4 P5 P6] Hc Hs Ho.
destruct (try_reserve_exact now bk kol) as (e' & E1 & E2 & E3 & E4); [by rewrite Hp|done|done|lia|].
destruct (try_reserve_book now bk kol) as (_ & F2 & F3 & _).
assert (entry_or_new (try_reserve now bk kol).1 kol = e') as He
by (rewrite E1; unfold entry_or_new; cbn; by rewrite lookup_insert_eq).
split; rewrite ?He, ?F2; [done|congruence| | | |congruence];
destruct (try_reserve now bk kol).2; cbn [unwrap_or] in *; lia.
Qed.

Lemma entered_bnb w k0 tok amt f tx old :
bnb_in (entered_position w k0 tok amt f tx old) =
match old with Some p => sat_add 256 (bnb_in p) amt | None => amt end.
Proof. by destruct old. Qed.

(** The book after an entry. *)
Lemma enter_book_bnb w k0 tok amt f tx (b : gmap PositionKey OpenPosition) :
let k := {| key_portfolio := FastTip; key_kol_name := k0; key_token := tok |} in
(k0 = kol → open_bnb kol b + amt < 2 ^ 256) → 0 ≤ amt →
(∀ k p, b !! k = Some p → 0 ≤ bnb_in p) →
open_bnb kol (<[k := entered_position w k0 tok amt f tx (b !! k)]> b) =
open_bnb kol b + if String.eqb k0 kol then amt else 0.
Proof.
intros k Hb Ha Hs. rewrite open_bnb_insert. pose proof (share_le kol b k Hs) as Hsh.
revert Hsh. unfold share. rewrite entered_bnb. change (key_kol_name k) with k0.
destruct (String.eqb_spec k0 kol) as [Hk|]; destruct (b !! k); try lia.
specialize (Hb Hk). intros. rewrite sat_add_exact; lia.
Qed.

(** What an entry did to the sums. *)
Definition entry_added (k0 : string) (o : outcome) : Z :=
match o with Refused => 0 | Aborted a | Entered a => if String.eqb k0 kol then a else 0 end.

Lemma enter_signs w k0 token cd bnb tx s s' o cfg bk ts es :
handle_enter cfg w k0 token cd bnb tx s = (s', o) →
signs pct initial s bk ts es →
∃ bk', signs pct initial s' bk' ts (es ++ [(k0, o)]) ∧
(o = Refused ∧ bk' = bk ∨
bk' = (try_reserve (w_now w) bk k0).1 ∧
(try_reserve (w_now w) bk k0).2 = match o with Refused => None | Aborted a | Entered a => Some a end) ∧
(book s' = book s ∧ (∀ a, o ≠ Entered a) ∨ ∃ tok f tx amt, o = Entered amt ∧
let k := {| key_portfolio := FastTip; key_kol_name := k0; key_token := tok |} in
book s' = <[k := entered_position w k0 tok amt f tx (book s !! k)]> (book s)).
Proof.
intros E%handle_enter_spec [S1 S2 S3 S4 S5 S6 S7 S8].
destruct (try_reserve_book (w_now w) bk k0) as (F1 & F2 & _ & _).
destruct (try_reserve_signs (w_now w) bk k0) as [G1 G2]; [lia|lia|done|].
assert (∀ b, match o with Refused => True | Aborted a | Entered a => 0 ≤ a end →
Forall (λ e : string * outcome,
match e.2 with Aborted a | Entered a => 0 ≤ a | Refused => True end) (es ++ [(k0, o)])
∨ b) as S8'.
{ intros b Ha. left. apply Forall_app. split; [done|]. apply Forall_singleton. by destruct o. }
rewrite S1 in E. cbn [reserved] in E. destruct o as [|amt|amt].
- destruct E as (E1 & _ & [E2|[= E2 E3]]); [exists bk|exists (try_reserve (w_now w) bk k0).1];
(split; [split; rewrite ?E1, ?E2; try done; try congruence; by destruct (S8' False I)|auto]).
- destruct E as (E1 & _ & [= E2 E3]). rewrite <- E3 in G2.
exists (try_reserve (w_now w) bk k0).1. split; [|auto].
split; rewrite ?E1, ?E2; try done; try congruence. by destruct (S8' False G2).
- destruct E as (tok & f & m & _ & E1 & _ & [= E2 E3]). rewrite <- E3 in G2.
exists (try_reserve (w_now w) bk k0).1. split; [|split; [auto|right; eauto 8]].
split; rewrite ?E1, ?E2; try done; try congruence; [| |by destruct (S8' False G2)].
+ rewrite <- open_mode_insert. unfold open_mode.
apply PositionBook.set_entry_mcaps_keyed. by apply PositionBook.open_or_add_keyed.
+ intros k p [[<- <-]|[_ Hk]]%lookup_insert_Some; [|by eapply S6].
rewrite entered_bnb. destruct (book s !! _) eqn:Ek; [|done].
specialize (S6 _ _ Ek). unfold sat_add. apply Z.min_glb; [lia|by vm_compute].
Qed.
Lemma enter_sums w k0 s s' o amt0 ts es bk :
signs pct initial s bk ts es →
(k0 = kol → open_bnb kol (book s) + amt0 < 2 ^ 256) → 0 ≤ amt0 →
match o with Refused => True | Aborted a | Entered a => a = amt0 end →
(book s' = book s ∧ (∀ a, o ≠ Entered a) ∨ ∃ tok f tx amt, o = Entered amt ∧
let k := {| key_portfolio := FastTip; key_kol_name := k0; key_token := tok |} in
book s' = <[k := entered_position w k0 tok amt f tx (book s !! k)]> (book s)) →
open_bnb kol (book s') + leaked kol (es ++ [(k0, o)]) =
open_bnb kol (book s) + leaked kol es + entry_added k0 o.
Proof.
intros [_ _ _ _ _ S6 _ _] Hb Ha Ho Hbook. rewrite leaked_snoc. unfold entry_added.
destruct Hbook as [[-> Hne]|(tok & f & tx & amt & -> & ->)].
- destruct o; [lia|lia|by destruct (Hne amt)].
- cbn in Ho. subst amt0. rewrite enter_book_bnb; [lia|done..].
Qed.

Lemma balance_enter w k0 token cd bnb tx s s' o cfg ts es :
handle_enter cfg w k0 token cd bnb tx s = (s', o) →
books_balance s ts es → books_balance s' ts (es ++ [(k0, o)]).
Proof.
intros He (bk & Hs & Hpot).
destruct (enter_signs _ _ _ _ _ _ _ _ _ _ _ _ _ He Hs) as (bk' & Hs' & Hbk & Hbook).
exists bk'. split; [exact Hs'|]. intros Hm. specialize (Hpot Hm).
destruct (pot_bounds _ _ _ _ Hs Hm Hpot) as (B1 & B2 & B3 & B4 & B5 & B6).
unfold money_bounded in Hm. pose proof (sg_entries _ _ _ _ _ _ Hs') as Hes.
rewrite Forall_app, Forall_singleton in Hes. destruct Hes as [_ Ho]. cbn in Ho.
pose proof (sg_initial _ _ _ _ _ _ Hs) as Hi. pose proof (sg_pct _ _ _ _ _ _ Hs) as Hq.
destruct (try_reserve_book (w_now w) bk k0) as (_ & T2 & _ & T4).
set (amt0 := match o with Refused => 0 | Aborted a | Entered a => a end).
assert (0 ≤ amt0) as Ha by (subst amt0; by destruct o).
assert (k0 = kol → amt0 ≤ cash_wei (entry_or_new bk kol)) as Hc.
{ intros ->. subst amt0. destruct Hbk as [[-> _]|[_ Hr]]; [apply Hpot|].
destruct (try_reserve_exact (w_now w) bk kol) as (? & _ & _ & _ & X); [lia|apply Hpot|lia|lia|].
rewrite Hr in X. destruct o; [apply Hpot|apply X|apply X]. }
assert (open_bnb kol (book s') + leaked kol (es ++ [(k0, o)]) =
open_bnb kol (book s) + leaked kol es + entry_added k0 o) as Hsum.
{ apply (enter_sums w k0 s s' o amt0 ts es bk); [done| |done|by destruct o|done].
intros Hk. specialize (Hc Hk). destruct Hpot. lia. }
destruct (decide (k0 = kol)) as [->|Hne].
- destruct Hbk as [[-> ->]|[-> Hr]].
+ cbn [entry_added] in Hsum. apply (pot_same bk bk (book s) _ ts _ es _); try done; [|lia].
destruct Hbook as [[-> _]|(? & ? & ? & ? & ? & _)]; [by eauto|done].
+ apply (pot_reserve (w_now w) bk (book s) (book s') ts es); [done..|lia|].
rewrite Hsum, Hr. unfold entry_added. rewrite String.eqb_refl. by destruct o.
- assert (entry_added k0 o = 0) as Hz.
{ unfold entry_added. destruct (String.eqb_spec k0 kol); [done|by destruct o]. }
assert (inner bk' !! kol = inner bk !! kol ∧ book_initial_wei bk' = book_initial_wei bk)
as [X1 X2] by (destruct Hbk as [[_ ->]|[-> _]]; [done|by rewrite T4, T2 by done]).
apply (pot_same bk bk' (book s) _ ts _ es _); try done; [|lia].
intros k p Hk Hkol. destruct Hbook as [[Hb _]|(? & ? & ? & ? & _ & Hb)]; rewrite Hb in Hk; [eauto|].
apply lookup_insert_Some in Hk as [[<- _]|[_ Hk]]; [done|eauto].
Qed.

Lemma balance_run cfg s es :
books_balance s [] [] →
let h := paper_run cfg s es in books_balance (final h) (closed h) (entries h).
Proof.
apply (paper_run_invariant cfg books_balance).
- intros w k reason tx fr s1 s2 o ts es0 E%close_one_spec H. destruct o as [t|]; cbn.
+ destruct E as (p & Hk & _ & He). by eapply balance_close.
+ destruct E as [(E1 & E2 & _) _]. rewrite app_nil_r.
destruct H as (bk & [S1 S2 S3 S4 S5 S6 S7 S8] & Hp). exists bk. rewrite E1. split; [|done].
split; rewrite ?E1, ?E2; done.
- intros. by eapply balance_enter.
Qed.
End Accounting.

(** *** A batch of closes *)

(** What a close leaves of a position. *)
Definition left_of (p : OpenPosition) (fr : f64) : option OpenPosition :=
  let sl := slice_of p fr in
  if sell_tokens sl =? 0 then Some p
  else if is_full_close sl then None
  else PositionBook.shrink {[ key p := p ]} (key p) (remaining_tokens sl) (remaining_bnb_in sl) !! key p.

Lemma shrink_lookup (b : gmap PositionKey OpenPosition) k p t i :
  b !! k = Some p →
  PositionBook.shrink b k t i !! k = PositionBook.shrink {[ key p := p ]} (key p) t i !! key p.
Proof.
  intros Hk. unfold PositionBook.shrink. by rewrite !lookup_alter_eq, Hk, lookup_singleton_eq.
Qed.

Lemma close_one_book cfg w k reason tx fr s s' o :
  close_one cfg w k reason tx fr s = (s', o) →
  book s' !! k = (p ← book s !! k; left_of p fr) ∧
  ∀ k', k' ≠ k → book s' !! k' = book s !! k'.
Proof.
  intros E%close_one_spec. destruct o as [t|].
  - destruct E as (p & Hk & Hz & [_ _ _ _ _ Hb _ _]). rewrite Hb, Hk. cbn [mbind option_bind].
    unfold left_of. apply Z.eqb_neq in Hz. rewrite Hz. destruct (is_full_close _).
    + rewrite lookup_delete_eq. split; [done|]. intros. by rewrite lookup_delete_ne.
    + rewrite (shrink_lookup _ _ _ _ _ Hk). split; [done|].
      intros. unfold PositionBook.shrink. by rewrite lookup_alter_ne.
  - destruct E as [(-> & _ & _) Hz]. split; [|done]. destruct (book s !! k) as [p|]; [|done].
    cbn. unfold left_of. by rewrite (Hz p eq_refl).
Qed.

Lemma close_all_book cfg ws ks reason tx fr s k :
  NoDup ks →
  book (close_all cfg ws ks reason tx fr s).1 !! k =
    if bool_decide (k ∈ ks) then p ← book s !! k; left_of p fr else book s !! k.
Proof.
  intros Hnd. unfold close_all. generalize (@nil ClosedTrade) as acc. revert s.
  induction Hnd as [|k0 ks Hk0 Hnd IH]; intros s acc; cbn [foldl]; [done|].
  destruct (close_one cfg (ws k0) k0 reason tx fr s) as [s1 o] eqn:E.
  apply close_one_book in E as [E1 E2]. rewrite IH.
  destruct (decide (k = k0)) as [->|Hne].
  - rewrite bool_decide_eq_false_2, bool_decide_eq_true_2 by set_solver. done.
  - rewrite E2 by done. destruct (decide (k ∈ ks)).
    + by rewrite !bool_decide_eq_true_2 by set_solver.
    + by rewrite !bool_decide_eq_false_2 by set_solver.
Qed.

Lemma keys_filter (P : PositionKey * OpenPosition → Prop) `{∀ x, base.Decision (P x)}
    (b : gmap PositionKey OpenPosition) k :
  NoDup (map_to_list (filter P b)).*1 ∧
  (k ∈ (map_to_list (filter P b)).*1 ↔ ∃ p, b !! k = Some p ∧ P (k, p)).
Proof.
  split; [apply NoDup_fst_map_to_list|]. rewrite list_elem_of_fmap. split.
  - intros ([k' p] & -> & Hin). apply elem_of_map_to_list, map_lookup_filter_Some in Hin. eauto.
  - intros (p & Hk & Hp). exists (k, p). split; [done|].
    apply elem_of_map_to_list, map_lookup_filter_Some. done.
Qed.

Lemma slice_tokens p fr :
  0 ≤ tokens_held p →
  let sl := slice_of p fr in
  0 ≤ sell_tokens sl ∧ 0 ≤ remaining_tokens sl ∧
  sell_tokens sl + remaining_tokens sl = tokens_held p.
Proof.
  intros Hp. cbv zeta. unfold slice_of.
  destruct (fge _ _); cbn [sell_tokens remaining_tokens]; [lia|].
  pose proof (scale_u256_le (tokens_held p) (fclamp fr f0 f1) Hp).
  unfold saturating_sub_u256. case_scrut; zbool; lia.
Qed.

Lemma left_of_spec p fr :
  0 ≤ tokens_held p → 0 ≤ bnb_in p →
  let sl := slice_of p fr in
  match left_of p fr with
  | None => is_full_close sl = true ∧ sell_tokens sl = tokens_held p ∧ tokens_held p ≠ 0
  | Some q => key q = key p ∧
      (q = p ∧ sell_tokens sl = 0 ∨
       sell_tokens sl ≠ 0 ∧ is_full_close sl = false ∧
       tokens_held q = tokens_held p - sell_tokens sl ∧ bnb_in q = bnb_in p - sell_bnb_in sl)
  end.
Proof.
  intros Ht Hi. cbv zeta. unfold left_of.
  destruct (slice_tokens p fr Ht) as (_ & _ & Hs). destruct (slice_bnb p fr Hi) as [_ Hr].
  assert (is_full_close (slice_of p fr) = true → sell_tokens (slice_of p fr) = tokens_held p) as Hf
    by (unfold slice_of; destruct (fge _ _); [reflexivity|discriminate]).
  destruct (slice_of p fr) as [t i rt ri full].
  cbn [sell_tokens sell_bnb_in remaining_tokens remaining_bnb_in is_full_close] in *.
  destruct (Z.eqb_spec t 0) as [|Hz]; [auto|]. destruct full.
  - specialize (Hf eq_refl). lia.
  - unfold PositionBook.shrink. rewrite lookup_alter_eq, lookup_singleton_eq. cbn.
    split; [done|]. right. split_and!; try done; lia.
Qed.

Lemma left_of_full p : left_of p f1 = if tokens_held p =? 0 then Some p else None.
Proof.
  unfold left_of, slice_of.
  replace (fge (fclamp f1 f0 f1) (f64_lit 99 100)) with true by by vm_compute. done.
Qed.

(** *** Two closes of the same position *)

(** A full close commits: the budget is credited and the position is gone. *)
Lemma close_commit_full w k sl t s bk :
  kol_budgets s = Some bk → is_full_close sl = true →
  let s' := close_commit w k {| pl_slice := sl; pl_trade := t |} s in
  kol_budgets s' =
    Some (credit_close (w_now w) bk (ct_kol_name t) (ct_bnb_in_wei t) (ct_bnb_out_wei t)) ∧
  book s' = delete k (book s).
Proof.
  intros Hbk Hf. unfold close_commit. cbn [pl_slice pl_trade]. rewrite Hbk, Hf. cbv zeta.
  unfold save_book, append_trade, save_budgets.
  destruct (w_saves w 0), (w_saves w 1), (w_saves w 2); cbn;
    destruct (token_held _ _); done.
Qed.

Lemma close_plan_full cfg w k reason tx fr s pl a p :
  close_plan cfg w k reason tx fr s = (Some pl, a) → book s !! k = Some p →
  is_full_close (slice_of p fr) = true →
  is_full_close (pl_slice pl) = true ∧ ct_kol_name (pl_trade pl) = kol_name p ∧
  ct_bnb_in_wei (pl_trade pl) = bnb_in p.
Proof.
  intros Hp Hk Hf. revert Hp. unfold close_plan, PositionBook.get. rewrite Hk.
  destruct (sell_tokens _ =? 0); [done|].
  destruct (exit_fill _ _ _ _ _ _ _) as [[out why] a1].
  destruct (exit_mcaps _ _ _ _ _ _ _) as [m a2]. intros [= <- <-]. cbn.
  split_and!; [done..|]. by apply slice_full.
Qed.

Lemma credit_twice now1 now2 bk kol e i o1 o2 :
  inner bk !! kol = Some e → 0 ≤ i ≤ committed_wei e → 0 ≤ o1 → 0 ≤ o2 → 0 ≤ cash_wei e →
  cash_wei e + o1 + o2 < 2 ^ 128 → i < 2 ^ 128 →
  ∃ e', inner (credit_close now2 (credit_close now1 bk kol i o1) kol i o2) !! kol = Some e' ∧
    cash_wei e' = cash_wei e + o1 + o2 ∧
    committed_wei e' = Z.max (committed_wei e - 2 * i) 0.
Proof.
  intros He Hi H1 H2 Hc Hb Hw. unfold credit_close. rewrite He. cbn [inner set_inner].
  rewrite lookup_insert_eq. cbn [inner set_inner]. rewrite lookup_insert_eq.
  eexists. split; [done|]. cbn [cash_wei committed_wei].
  rewrite !try_from_small by (unfold in_width; lia). cbn [unwrap_or].
  rewrite !sat_add_exact by (rewrite ?sat_add_exact; lia).
  split; [done|]. unfold sat_sub. lia.
Qed.

(** The pot of one KOL, over any history. *)
Lemma pot_is_exact cfg now archive0 disk0 initial bps dust kol es :
  0 ≤ bps ≤ 10000 → 0 ≤ initial →
  let s := PaperExecutor_new now Ledger.Missing (Some (load_or_new None initial bps dust))
             archive0 disk0 in
  let h := paper_run cfg s es in
  initial + paid kol (closed h) < 2 ^ 127 →
  ∃ bk, kol_budgets (final h) = Some bk ∧
    let e := entry_or_new bk kol in
    committed_wei e = open_bnb kol (book (final h)) + leaked kol (entries h) ∧
    cash_wei e + committed_wei e = initial + paid kol (closed h) - spent kol (closed h) ∧
    0 ≤ cash_wei e ∧
    (book (final h) = ∅ → committed_wei e = leaked kol (entries h)).
Proof.
  intros Hb Hi s h Hm.
  destruct (balance_run kol bps initial Hb Hi cfg s es) as (bk & [S1 _ S3 _ _ _ _ _] & Hp).
  - exists (load_or_new None initial bps dust). split; [|intros _; by split].
    by split.
  - specialize (Hp Hm). destruct Hp as [_ _ P3 P4 P5 P6]. exists bk. split; [exact S1|].
    cbv zeta. fold h in P4, P6. split_and!; [done|lia|done|].
    intros He. rewrite P4, He. done.
Qed.

(** ** Properties *)

(** [C16] The paper books balance.  Start with an empty book and fresh budgets of
    at most 100% per trade, and run any hits and sweeps, whatever the nodes,
    the prices and the clock answer.  As long as the KOL's starting capital and
    proceeds stay below 2^127 wei, its pot is exact: what is committed is the
    cost basis of its open positions plus the reservations of entries that
    aborted after reserving (no metadata, no price), cash plus committed is the
    starting capital plus the booked profit, and cash is never negative.  In
    particular aborted reservations stay committed when nothing is open. *)
Theorem paper_books_balance cfg now archive0 disk0 initial bps dust kol es :
  0 ≤ bps ≤ 10000 → 0 ≤ initial →
  let s := PaperExecutor_new now Ledger.Missing (Some (load_or_new None initial bps dust))
             archive0 disk0 in
  let h := paper_run cfg s es in
  initial + paid kol (closed h) < 2 ^ 127 →
  ∃ bk, kol_budgets (final h) = Some bk ∧
    let e := entry_or_new bk kol in
    committed_wei e = open_bnb kol (book (final h)) + leaked kol (entries h) ∧
    cash_wei e + committed_wei e = initial + paid kol (closed h) - spent kol (closed h) ∧
    0 ≤ cash_wei e ∧
    (book (final h) = ∅ → committed_wei e = leaked kol (entries h)).
Proof. apply pot_is_exact. Qed.

(** The held set is the book.  From any loaded ledger, through any hits
    and sweeps run one after the other, a token is in the shared held set
    exactly when some open position is on it. *)
Theorem held_set_is_the_book cfg now file budgets archive0 disk0 es :
  let h := paper_run cfg (PaperExecutor_new now file budgets archive0 disk0) es in
  ∀ t, is_Some (held (final h) !! t) ↔
    ∃ k p, book (final h) !! k = Some p ∧ key_token k = t.
Proof. intros h. apply held_exact_run, held_exact_new. Qed.



(** [C34] Racing closes are paid twice.  The consumer and the sweeper close
    positions concurrently.  When both read the same position before either
    removes it, both credit the budget: the position is gone once, the pot
    receives both proceeds and loses the cost basis twice. *)
Theorem racing_closes_credit_twice cfg w1 w2 k p reason1 reason2 tx1 tx2 s pl1 pl2 a1 a2 bk e :
  book s !! k = Some p → kol_budgets s = Some bk → inner bk !! kol_name p = Some e →
  close_plan cfg w1 k reason1 tx1 f1 s = (Some pl1, a1) →
  close_plan cfg w2 k reason2 tx2 f1 s = (Some pl2, a2) →
  0 ≤ bnb_in p ≤ committed_wei e → bnb_in p < 2 ^ 128 → 0 ≤ cash_wei e →
  0 ≤ ct_bnb_out_wei (pl_trade pl1) → 0 ≤ ct_bnb_out_wei (pl_trade pl2) →
  cash_wei e + ct_bnb_out_wei (pl_trade pl1) + ct_bnb_out_wei (pl_trade pl2) < 2 ^ 128 →
  let s' := close_commit w2 k pl2 (close_commit w1 k pl1 s) in
  book s' = delete k (book s) ∧
  ∃ bk' e', kol_budgets s' = Some bk' ∧ inner bk' !! kol_name p = Some e' ∧
    cash_wei e' = cash_wei e + ct_bnb_out_wei (pl_trade pl1) + ct_bnb_out_wei (pl_trade pl2) ∧
    committed_wei e' = Z.max (committed_wei e - 2 * bnb_in p) 0.
Proof.
  intros Hk Hbk He H1 H2 Hi Hw Hc Ho1 Ho2 Hb s'.
  assert (is_full_close (slice_of p f1) = true) as Hf.
  { unfold slice_of. by replace (fge (fclamp f1 f0 f1) (f64_lit 99 100)) with true by by vm_compute. }
  destruct (close_plan_full _ _ _ _ _ _ _ _ _ _ H1 Hk Hf) as (F1 & G1 & I1).
  destruct (close_plan_full _ _ _ _ _ _ _ _ _ _ H2 Hk Hf) as (F2 & G2 & I2).
  destruct pl1 as [sl1 t1], pl2 as [sl2 t2]. cbn [pl_slice pl_trade] in *.
  destruct (close_commit_full w1 k sl1 t1 s bk Hbk F1) as [B1 K1].
  destruct (close_commit_full w2 k sl2 t2 _ _ B1 F2) as [B2 K2].
  fold s' in B2, K2. rewrite G1, I1, G2, I2 in B2. split; [by rewrite K2, K1, delete_delete_eq|].
  destruct (credit_twice (w_now w1) (w_now w2) bk (kol_name p) e (bnb_in p)
    (ct_bnb_out_wei t1) (ct_bnb_out_wei t2)) as (e' & E1 & E2 & E3); try done.
  eexists _, e'. by split_and!.
Qed.

(** ** Examples *)

Module Example.
(** A node whose V2 router quotes [out] for anything. *)
Definition router (out : Z) (to : Address) (data : text) (blk : block_tag) : rpc_reply :=
Reply true None
(Some (("0" :: "x" :: Hex.hex_encode (word 32 ++ word 2 ++ word 1 ++ word out))%char)).

Definition no_tx : TxEnv :=
{| tx_receipt := λ _, None; tx_value := None; tx_from := None; local_balance := λ _, None;
archive_reply := λ _, None; tx_clock := λ _, 0 |}.
Definition no_after : AfterEnv :=
{| kol_tx := no_tx; local_node := λ _ _ _, TransportErr; archive_node := λ _ _ _, TransportErr;
archive_clock := 0; archive_logs := λ _ _, None; parse_b256 := λ _, None; tx_env := λ _, no_tx |}.

(** Token 7 has metadata; every trade is quoted at [out]; the KOL's balances
of a sell at block 9 are 100 before and [post] after. *)
Definition world (now out post : Z) : World :=
{| w_resolver := λ t, if t =? 7 then Some {| symbol := "T"; decimals := 18 |} else None;
w_node := router out; w_after := no_after; w_chain := no_after; w_price := λ _, no_tx;
w_bnb_usd := None; w_pool := λ _ _, None; w_supply := λ _ _, None; w_head := Some 9;
w_now := now;
w_balance := λ _ _ _ b,
Some (if b =? 9 then list_ascii_of_string "0xpost" else list_ascii_of_string "0xpre");
w_parse_u256 := λ s, Some (if bool_decide (s = list_ascii_of_string "post") then post else 100);
w_saves := λ _, true |}.

Definition config : PaperConfig :=
{| costs := {| slip_v2_bps := 150; slip_bonding_bps := 300; gas_per_trade_usd := f0 |};
archive_on := false |}.

Definition start : PaperExecutor :=
PaperExecutor_new 0 Ledger.Missing (Some (load_or_new None 1000000 1000 1000))
{| calls := 0; last_ns := 0 |}
{| open_positions := ∅; budgets_json := None; closed_rows := [] |}.

Definition buy (now out : Z) (token : Address) : event :=
Hit (world now out 0) (λ _, world now 0 0) (Enter "D" token 5 5 0 1) [].
Definition sell (now out post : Z) : event :=
Hit (world now out post) (λ _, world now out post) (Exit "D" 7 9 2 3) [].

(** A buy of 100000 wei, an entry without metadata, a sell of half, and the
sweep of the rest. *)
Definition day : list event :=
[buy 10 2000 7; buy 20 2000 8; sell 30 70000 50; Sweep 50 20 (λ _, world 50 60000 0)].

Definition one_position : PaperExecutor := final (paper_run config start [buy 10 2000 7]).
Definition example_key : PositionKey :=
{| key_portfolio := FastTip; key_kol_name := "D"; key_token := 7 |}.
Definition example_position : OpenPosition :=
{| portfolio := FastTip; kol_name := "D"; token_address := 7; token_symbol := "T";
token_decimals := 18; bnb_in := 100000; tokens_held := 1970; opened_at_block := 9;
opened_at_unix_ns := 10; last_added_block := 9; buy_tx_hashes := [1];
d_mcap_usd := f0; our_entry_mcap_usd := f0 |}.
End Example.

Lemma paper_books_balance_witness :
  let h := paper_run Example.config Example.start Example.day in
  book (final h) = ∅ ∧ ∃ bk, kol_budgets (final h) = Some bk ∧
    committed_wei (entry_or_new bk "D") = 90000 ∧
    cash_wei (entry_or_new bk "D") + committed_wei (entry_or_new bk "D") = 1028050.
Proof.
  assert (book (final (paper_run Example.config Example.start Example.day)) = ∅) as He
    by by vm_compute.
  destruct (paper_books_balance Example.config 0 {| calls := 0; last_ns := 0 |}
    {| open_positions := ∅; budgets_json := None; closed_rows := [] |} 1000000 1000 1000 "D"
    Example.day) as (bk & Hbk & _ & H2 & _ & H4).
  - lia.
  - lia.
  - vm_compute. reflexivity.
  - split; [exact He|]. exists bk. split; [exact Hbk|]. split.
    + etransitivity; [exact (H4 He)|]. vm_compute. reflexivity.
    + etransitivity; [exact H2|]. vm_compute. reflexivity.
Defined.


Lemma racing_closes_credit_twice_witness :
  match close_plan Example.config (Example.world 30 70000 0) Example.example_key KolSell (Some 2) f1
          Example.one_position,
        close_plan Example.config (Example.world 31 60000 0) Example.example_key CloseTimeout None f1
          Example.one_position with
  | (Some pl1, _), (Some pl2, _) =>
      let s' := close_commit (Example.world 31 60000 0) Example.example_key pl2
                  (close_commit (Example.world 30 70000 0) Example.example_key pl1
                     Example.one_position) in
      book s' = delete Example.example_key (book Example.one_position) ∧
      ∃ bk e, kol_budgets s' = Some bk ∧ inner bk !! "D"%string = Some e ∧
        cash_wei e = 900000 + 68950 + 59100
  | _, _ => False
  end.
Proof.
  destruct (close_plan Example.config (Example.world 30 70000 0) Example.example_key KolSell (Some 2)
    f1 Example.one_position) as [[pl1|] a1] eqn:H1; [|vm_compute in H1; discriminate].
  destruct (close_plan Example.config (Example.world 31 60000 0) Example.example_key CloseTimeout None
    f1 Example.one_position) as [[pl2|] a2] eqn:H2; [|vm_compute in H2; discriminate].
  assert (ct_bnb_out_wei (pl_trade pl1) = 68950) as O1
    by (vm_compute in H1; injection H1 as <- _; reflexivity).
  assert (ct_bnb_out_wei (pl_trade pl2) = 59100) as O2
    by (vm_compute in H2; injection H2 as <- _; reflexivity).
  pose (bk := (try_reserve 10 (load_or_new None 1000000 1000 1000) "D").1).
  destruct (racing_closes_credit_twice Example.config (Example.world 30 70000 0)
    (Example.world 31 60000 0) Example.example_key Example.example_position KolSell CloseTimeout
    (Some 2) None Example.one_position pl1 pl2 a1 a2 bk (entry_or_new bk "D"))
    as (Hb & bk' & e' & Hbk & He & Hc & _).
  - vm_compute. reflexivity.
  - vm_compute. reflexivity.
  - vm_compute. reflexivity.
  - exact H1.
  - exact H2.
  - vm_compute. split; discriminate.
  - vm_compute. reflexivity.
  - vm_compute. discriminate.
  - rewrite O1. discriminate.
  - rewrite O2. discriminate.
  - rewrite O1, O2. vm_compute. reflexivity.
  - split; [exact Hb|]. exists bk', e'. split; [exact Hbk|]. split; [exact He|].
    rewrite Hc, O1, O2. vm_compute. reflexivity.
Defined.
