(* ===== verification/Csv.v ===== *)
(** * trader/ledger.rs and trader/live_ledger.rs: the CSV files

    The text of the rows that the two ledgers append, Rust's number formatting
    they use, and the header rule of the live log.  The adaptive trail reads
    the live log back with [split(',')] ([Trail.buy_row]); what it finds is
    stated here against the rows that were written. *)

From Stdlib Require Import ZArith Lia Floats.SpecFloat Ascii String.
From S2P Require Import Prelude F64 Bytes Dex Types ExecMath Trail Paper.

Local Abbreviation text := (list ascii) (only parsing).

Definition str (s : string) : text := list_ascii_of_string s.

Definition comma : ascii := ","%char.
Definition dquote : ascii := ascii_of_N 34.
Definition newline : ascii := ascii_of_N 10.
Definition creturn : ascii := ascii_of_N 13.

(** ** Formatting *)

(** [U256] and [u128] in decimal: 78 digits are enough for 256 bits. *)
Definition uint_text (n : Z) : text := decimal 78 n.
Definition int_text (n : Z) : text := if n <? 0 then "-"%char :: uint_text (- n) else uint_text n.
Definition bool_text (b : bool) : text := str (if b then "true" else "false").
(** [{:#x}] of a 32-byte hash. *)
Definition hash_hex (h : B256) : text := "0"%char :: "x"%char :: Hex.hex_encode (to_be 32 h).

(** [n / d] rounded to nearest, ties to even. *)
Definition div_even (n d : Z) : Z :=
  let q := n / d in
  let r := n mod d in
  if 2 * r <? d then q else if d <? 2 * r then q + 1 else if Z.even q then q else q + 1.

(** [{:.prec}] of an [f64]: the exact value rounded to [prec] decimals, ties
    to even; 309 digits hold the largest double. *)
Definition fixed_digits (prec : nat) (n : Z) : text :=
  let p := 10 ^ Z.of_nat prec in
  let frac := decimal prec (n mod p) in
  decimal 310 (n / p) ++
  match prec with
  | O => []
  | _ => "."%char :: replicate (prec - length frac) "0"%char ++ frac
  end.
Definition signed (s : bool) (t : text) : text := if s then "-"%char :: t else t.
Definition fmt_fixed (prec : nat) (x : f64) : text :=
  match x with
  | S754_nan => str "NaN"
  | S754_infinity s => signed s (str "inf")
  | S754_zero s => signed s (fixed_digits prec 0)
  | S754_finite s m e =>
      let n := Zpos m * 10 ^ Z.of_nat prec in
      signed s (fixed_digits prec (if 0 <=? e then n * 2 ^ e else div_even n (2 ^ (- e))))
  end.

Example fmt_half_even : fmt_fixed 0 (f64_lit 5 2) = str "2".
Proof. vm_compute. reflexivity. Qed.
Example fmt_six : fmt_fixed 6 (f64_lit (-1) 8) = str "-0.125000".
Proof. vm_compute. reflexivity. Qed.
Example fmt_carry : fmt_fixed 2 (f64_lit 9999 1000) = str "10.00".
Proof. vm_compute. reflexivity. Qed.

(** ** Rows *)

Definition csv_escape (s : text) : text :=
  if existsb (λ c, Ascii.eqb c comma || Ascii.eqb c dquote || Ascii.eqb c newline) s
  then dquote :: (s ≫= λ c, if Ascii.eqb c dquote then [dquote; dquote] else [c]) ++ [dquote]
  else s.

(** Fields joined by commas. *)
Fixpoint join (fs : list text) : text :=
  match fs with
  | [] => []
  | [f] => f
  | f :: fs => f ++ comma :: join fs
  end.

(** The fields of a row before escaping. *)
Definition closed_fields (t : ClosedTrade) : list text :=
  let pnl_bnb := fdiv (f64_of_Z (pnl_wei t)) f1e18 in
  let pnl_usd := fmul pnl_bnb (bnb_usd_at_close t) in
  [ uint_text (ct_opened_at_unix_ns t); str (portfolio_label (ct_portfolio t));
    str (ct_kol_name t); address_hex (ct_token_address t); str (ct_token_symbol t);
    uint_text (ct_bnb_in_wei t); uint_text (ct_bnb_out_wei t); int_text (pnl_wei t);
    fmt_fixed 6 pnl_bnb; fmt_fixed 2 pnl_usd; fmt_fixed 6 (pnl_pct t);
    fmt_fixed 0 (ct_d_mcap_usd t); fmt_fixed 0 (ct_our_entry_mcap_usd t);
    fmt_fixed 2 (bnb_usd_at_close t); uint_text (ct_opened_at_block t);
    uint_text (closed_at_block t); uint_text (held_secs t); uint_text (buy_tx_count t);
    str (close_label (close_reason t)); unwrap_or (hash_hex <$> trigger_sell_tx t) [];
    uint_text (kol_exit_count t); fmt_fixed 0 (kol_exit_mcap_first_usd t);
    fmt_fixed 0 (kol_exit_mcap_last_usd t); fmt_fixed 0 (our_avg_exit_mcap_usd t) ].

(** The columns of [CSV_HEADER]. *)
Definition CSV_HEADER_FIELDS : list string :=
  [ "ts_unix_ns"; "portfolio"; "kol_name"; "token_address"; "token_symbol"; "bnb_in_wei";
    "bnb_out_wei"; "pnl_wei"; "pnl_bnb"; "pnl_usd"; "pnl_pct"; "d_mcap_usd"; "our_entry_mcap_usd";
    "bnb_usd_close"; "opened_at_block"; "closed_at_block"; "held_secs"; "buy_tx_count";
    "close_reason"; "trigger_sell_tx"; "kol_exit_count"; "kol_exit_mcap_first_usd";
    "kol_exit_mcap_last_usd"; "our_avg_exit_mcap_usd" ]%string.
Definition CSV_HEADER : text := join (str <$> CSV_HEADER_FIELDS) ++ [newline].

(** [format_csv_row]: the name and the symbol, fields 2 and 4, are escaped. *)
Definition format_csv_row (t : ClosedTrade) : text :=
  join (imap (λ i f, if (i =? 2)%nat || (i =? 4)%nat then csv_escape f else f) (closed_fields t))
    ++ [newline].

Definition live_fields (now : Z) (e : LiveEntry) : list text :=
  [ uint_text now; str (le_phase e); csv_escape (str (le_kol_name e)); str (le_visibility e);
    address_hex (le_token_address e); csv_escape (str (le_token_symbol e));
    uint_text (le_bnb_in_wei e); uint_text (le_gas_gwei e); uint_text (le_nonce e);
    hash_hex (le_tx_hash e); fmt_fixed 6 (le_wallet_bnb e); bool_text (le_broadcast e);
    str (unwrap_or (le_skip e) EmptyString) ].
Definition live_row (now : Z) (e : LiveEntry) : text := join (live_fields now e) ++ [newline].

(** ** The live log file *)

Definition LIVE_HEADER_FIELDS : list string :=
  [ "ts_unix_ns"; "phase"; "kol_name"; "visibility"; "token_address"; "token_symbol"; "bnb_in_wei";
    "gas_gwei"; "nonce"; "tx_hash"; "wallet_bnb"; "broadcast"; "limit_skip_reason" ]%string.
Definition LIVE_HEADER : text := join (str <$> LIVE_HEADER_FIELDS) ++ [newline].

(** The file [LiveLedger::new] finds: none, one that [read_to_string] refuses
    (an I/O error, bytes that are not UTF-8), or its text. *)
Inductive found_file : Type :=
  | NoFile
  | Unreadable
  | FoundText (f : text).

(** The file [LiveLedger::new] leaves: a file without the header is created
    again, with what could be read of it after the header. *)
Definition needs_header (found : found_file) : bool :=
  match found with
  | FoundText f => negb (starts_with LIVE_HEADER f)
  | NoFile | Unreadable => true
  end.
Definition live_file_new (found : found_file) : text :=
  let existing := match found with FoundText f => f | NoFile | Unreadable => [] end in
  if needs_header found then
    LIVE_HEADER ++
      (if negb (bool_decide (existing = [])) && negb (starts_with LIVE_HEADER existing)
       then existing else [])
  else existing.
Definition live_file_append (f : text) (now : Z) (e : LiveEntry) : text := f ++ live_row now e.

(** [BufRead::lines]: the text between newlines, without a final carriage
    return; what follows the last newline is a line if it is not empty. *)
Definition strip_cr (l : text) : text :=
  match rev l with
  | c :: r => if Ascii.eqb c creturn then rev r else l
  | [] => []
  end.
Fixpoint lines_from (cur s : text) : list text :=
  match s with
  | [] => match cur with [] => [] | _ => [cur] end
  | c :: r =>
      if Ascii.eqb c newline then strip_cr cur :: lines_from [] r else lines_from (cur ++ [c]) r
  end.
Definition lines (s : text) : list text := lines_from [] s.

(** ** A reader of CSV records *)

(** The fields of one record (RFC 4180): a field that starts with a quote runs
    to the closing quote, and two quotes inside stand for one. *)
Inductive csv_state : Type := AtStart | Plain | Quoted | QuoteSeen.
Fixpoint csv_read (st : csv_state) (cur : text) (s : text) : list text :=
  match s with
  | [] => [cur]
  | c :: r =>
      match st with
      | Quoted => if Ascii.eqb c dquote then csv_read QuoteSeen cur r else csv_read Quoted (cur ++ [c]) r
      | QuoteSeen =>
          if Ascii.eqb c dquote then csv_read Quoted (cur ++ [c]) r
          else if Ascii.eqb c comma then cur :: csv_read AtStart [] r
          else csv_read Plain (cur ++ [c]) r
      | AtStart =>
          if Ascii.eqb c dquote then csv_read Quoted [] r
          else if Ascii.eqb c comma then cur :: csv_read AtStart [] r
          else csv_read Plain (cur ++ [c]) r
      | Plain =>
          if Ascii.eqb c comma then cur :: csv_read AtStart [] r else csv_read Plain (cur ++ [c]) r
      end
  end.
Definition csv_fields (s : text) : list text := csv_read AtStart [] s.

(** ** Plain text: no comma, quote or line break *)

Definition plain_char (c : ascii) : bool :=
  negb (Ascii.eqb c comma || Ascii.eqb c dquote || Ascii.eqb c newline || Ascii.eqb c creturn).
Definition plain (s : text) : bool := forallb plain_char s.

Create HintDb plain.

Lemma plain_cons c s : plain_char c = true → plain s = true → plain (c :: s) = true.
Proof. intros Hc Hs. cbn. by rewrite Hc. Qed.

Lemma plain_char_spec c :
  plain_char c = true → c ≠ comma ∧ c ≠ dquote ∧ c ≠ newline ∧ c ≠ creturn.
Proof.
  unfold plain_char. rewrite negb_true_iff, !orb_false_iff, !Ascii.eqb_neq. tauto.
Qed.

Lemma hex_digit_all (P : ascii → Prop) :
  Forall P (hex_digit <$> seqZ 0 16) → ∀ n, 0 ≤ n < 16 → P (hex_digit n).
Proof.
  intros H n Hn. rewrite Forall_forall in H. apply H, list_elem_of_fmap.
  exists n. split; [done|]. apply elem_of_seqZ. lia.
Qed.

Lemma plain_hex_digit n : 0 ≤ n < 16 → plain_char (hex_digit n) = true.
Proof. apply (hex_digit_all (λ c, plain_char c = true)). by repeat constructor. Qed.

Lemma lower_hex_digit n : 0 ≤ n < 16 → to_lower (hex_digit n) = hex_digit n.
Proof. apply (hex_digit_all (λ c, to_lower c = c)). by repeat constructor. Qed.

Lemma div_even_nonneg n d : 0 ≤ n → 0 < d → 0 ≤ div_even n d.
Proof.
  intros Hn Hd. pose proof (Z.div_pos n d Hn Hd). unfold div_even. cbv zeta. repeat case_scrut; lia.
Qed.

(** The characters of a formatted number: digits, a sign, a point, three letters. *)
Section Chars.
Context (P : ascii → Prop) (Hdigit : ∀ n, 0 ≤ n < 16 → P (hex_digit n)).
Context (Hminus : P "-"%char) (Hpoint : P "."%char).
Context (Hnan : Forall P (str "NaN")) (Hinf : Forall P (str "inf")).

Lemma decimal_chars fuel n : 0 ≤ n → Forall P (decimal fuel n).
Proof.
intros Hn. eapply Forall_impl; [by apply decimal_digits|]. intros c (d & ? & ->). apply Hdigit. lia.
Qed.

Lemma fixed_chars prec n : 0 ≤ n → Forall P (fixed_digits prec n).
Proof.
intros Hn. assert (0 < 10 ^ Z.of_nat prec) by lia.
pose proof (Z.mod_pos_bound n (10 ^ Z.of_nat prec)). unfold fixed_digits. apply Forall_app.
split; [by apply decimal_chars, Z.div_pos|]. destruct prec; [constructor|].
constructor; [done|]. apply Forall_app. split; [|apply decimal_chars; lia].
apply Forall_replicate, (Hdigit 0). lia.
Qed.

Lemma fmt_chars prec x : Forall P (fmt_fixed prec x).
Proof.
assert (∀ s t, Forall P t → Forall P (signed s t)) as Hs by (intros [] t Ht; [by constructor|done]).
destruct x as [s|s| |s m e]; cbn [fmt_fixed]; [|by apply Hs|done|]; apply Hs, fixed_chars; [done|].
assert (0 < 10 ^ Z.of_nat prec) by lia. destruct (Z.leb_spec 0 e).
- assert (0 < 2 ^ e) by lia. nia.
- apply div_even_nonneg; [nia|lia].
Qed.
End Chars.

Lemma plain_Forall s : plain s = true ↔ Forall (λ c, plain_char c = true) s.
Proof. unfold plain. by rewrite forallb_forall, List.Forall_forall. Qed.

Lemma plain_decimal fuel n : 0 ≤ n → plain (decimal fuel n) = true.
Proof. intros. apply plain_Forall, decimal_chars; [apply plain_hex_digit|done]. Qed.

Lemma hex_nibbles b : 0 ≤ byte_val b / 16 < 16 ∧ 0 ≤ byte_val b mod 16 < 16.
Proof.
  pose proof (byte_val_bound b). pose proof (Z.mod_pos_bound (byte_val b) 16 ltac:(lia)).
  split; [split; [apply Z.div_pos|apply Z.div_lt_upper_bound]; lia|done].
Qed.

Lemma plain_hex_encode bs : plain (Hex.hex_encode bs) = true.
Proof.
  induction bs as [|b bs IH]; [done|]. rewrite Hex.hex_encode_cons. destruct (hex_nibbles b).
  by repeat (apply plain_cons; [by apply plain_hex_digit|]).
Qed.

Lemma lower_hex_encode bs : to_lowercase (Hex.hex_encode bs) = Hex.hex_encode bs.
Proof.
  induction bs as [|b bs IH]; [done|]. rewrite Hex.hex_encode_cons. destruct (hex_nibbles b).
  unfold to_lowercase in *. rewrite !fmap_cons, !lower_hex_digit by done. by rewrite IH.
Qed.

Lemma plain_uint n : 0 ≤ n → plain (uint_text n) = true.
Proof. apply plain_decimal. Qed.
Lemma plain_address a : plain (address_hex a) = true.
Proof. unfold address_hex. do 2 (apply plain_cons; [done|]). apply plain_hex_encode. Qed.
Lemma plain_hash h : plain (hash_hex h) = true.
Proof. unfold hash_hex. do 2 (apply plain_cons; [done|]). apply plain_hex_encode. Qed.
Lemma plain_bool b : plain (bool_text b) = true.
Proof. by destruct b. Qed.

Lemma plain_int n : plain (int_text n) = true.
Proof.
  unfold int_text. case_scrut; zbool; [apply plain_cons; [done|]|]; apply plain_uint; lia.
Qed.

Lemma plain_fmt prec x : plain (fmt_fixed prec x) = true.
Proof. apply plain_Forall, fmt_chars; [apply plain_hex_digit|done|done|..]; by repeat constructor. Qed.

#[export] Hint Resolve plain_uint plain_int plain_address plain_hash plain_bool plain_fmt : plain.

Lemma csv_escape_plain s : plain s = true → csv_escape s = s.
Proof.
  intros Hs. unfold csv_escape. case_scrut; [|done]. exfalso.
  apply existsb_exists in E as (c & Hc & Hb). unfold plain in Hs. rewrite forallb_forall in Hs.
  destruct (plain_char_spec c (Hs c Hc)) as (? & ? & ? & _).
  rewrite !orb_true_iff, !Ascii.eqb_eq in Hb. tauto.
Qed.

(** ** Joining and splitting *)

Definition no_comma (s : text) : Prop := comma ∉ s.

Lemma plain_notin s : plain s = true → (comma ∉ s) ∧ (newline ∉ s) ∧ (creturn ∉ s).
Proof.
  unfold plain. rewrite forallb_forall. intros Hs.
  split_and!; intros Hc%list_elem_of_In; by destruct (plain_char_spec _ (Hs _ Hc)) as (? & ? & ? & ?).
Qed.

Lemma split_comma_app s r :
  no_comma s → split_comma (s ++ comma :: r) = s :: split_comma r.
Proof.
  unfold no_comma. induction s as [|c s IH]; intros Hs; [done|]. cbn.
  destruct (Ascii.eqb_spec c ","%char) as [->|]; [by destruct Hs; left|].
  rewrite IH by set_solver. done.
Qed.

Lemma split_comma_none s : no_comma s → split_comma s = [s].
Proof.
  unfold no_comma. induction s as [|c s IH]; intros Hs; [done|]. cbn.
  destruct (Ascii.eqb_spec c ","%char) as [->|]; [by destruct Hs; left|].
  by rewrite IH by set_solver.
Qed.

Lemma split_join fs : fs ≠ [] → Forall no_comma fs → split_comma (join fs) = fs.
Proof.
  intros Hne Hfs. induction Hfs as [|f fs Hf Hfs IH]; [done|].
  destruct fs as [|g fs]; [by apply split_comma_none|].
  change (join (f :: g :: fs)) with (f ++ comma :: join (g :: fs)).
  rewrite split_comma_app, IH by done. done.
Qed.

Lemma plain_join fs c : c ≠ comma → Forall (λ f, c ∉ f) fs → c ∉ join fs.
Proof.
  intros Hc Hfs. induction Hfs as [|f fs Hf Hfs IH]; [apply not_elem_of_nil|].
  destruct fs as [|g fs]; [done|].
  change (join (f :: g :: fs)) with (f ++ comma :: join (g :: fs)). set_solver.
Qed.

Lemma strip_cr_none l : creturn ∉ l → strip_cr l = l.
Proof.
  intros Hl. unfold strip_cr. destruct (rev l) as [|c r] eqn:E.
  - by rewrite <- (rev_involutive l), E.
  - destruct (Ascii.eqb_spec c creturn) as [->|]; [|done]. destruct Hl.
    rewrite <- (rev_involutive l), E. cbn. set_solver.
Qed.

Lemma lines_from_row cur r rest :
  newline ∉ r → lines_from cur (r ++ newline :: rest) = strip_cr (cur ++ r) :: lines_from [] rest.
Proof.
  revert cur. induction r as [|c r IH]; intros cur Hr; cbn [app lines_from].
  { rewrite Ascii.eqb_refl. by rewrite app_nil_r. }
  destruct (Ascii.eqb_spec c newline) as [->|]; [by destruct Hr; left|].
  rewrite IH by set_solver. by rewrite <- app_assoc.
Qed.

Lemma lines_row r rest :
  newline ∉ r → creturn ∉ r → lines ((r ++ [newline]) ++ rest) = r :: lines rest.
Proof.
  intros Hn Hc. unfold lines. rewrite <- app_assoc. cbn [app].
  rewrite lines_from_row by done. by rewrite app_nil_l, strip_cr_none.
Qed.

(** ** The live log, read back *)

Definition plain_str (s : string) : Prop := plain (str s) = true.

(** A row all of whose texts are plain and whose numbers are in range. *)
Record plain_entry (now : Z) (e : LiveEntry) : Prop := {
  pe_now : 0 ≤ now;
  pe_phase : plain_str (le_phase e);
  pe_name : plain_str (le_kol_name e);
  pe_vis : plain_str (le_visibility e);
  pe_token : in_width 160 (le_token_address e);
  pe_symbol : plain_str (le_token_symbol e);
  pe_bnb : in_width 128 (le_bnb_in_wei e);
  pe_gas : 0 ≤ le_gas_gwei e;
  pe_nonce : 0 ≤ le_nonce e;
  pe_skip : plain_str (unwrap_or (le_skip e) EmptyString);
}.

Lemma live_fields_plain now e : plain_entry now e → Forall (λ f, plain f = true) (live_fields now e).
Proof.
  intros [? ? Hname ? ? Hsym [? ?] ? ? ?]. unfold live_fields.
  rewrite (csv_escape_plain _ Hname), (csv_escape_plain _ Hsym).
  repeat (constructor; [auto with plain|]). constructor.
Qed.

Lemma live_row_fields now e :
  plain_entry now e → split_comma (join (live_fields now e)) = live_fields now e.
Proof.
  intros He%live_fields_plain. apply split_join; [done|].
  eapply Forall_impl; [exact He|]. intros f Hf. by apply plain_notin.
Qed.

Lemma live_row_clean now e :
  plain_entry now e →
  (newline ∉ join (live_fields now e)) ∧ (creturn ∉ join (live_fields now e)).
Proof.
  intros He%live_fields_plain.
  split; (apply plain_join; [done|]; eapply Forall_impl; [exact He|]; intros f Hf; by apply plain_notin).
Qed.

Lemma starts_with_app p s r : starts_with p s = true → starts_with p (s ++ r) = true.
Proof.
  revert s. induction p as [|a p IH]; intros [|b s]; cbn; try done.
  rewrite !andb_true_iff. intros [? ?]. split; [done|by apply IH].
Qed.
Lemma starts_with_length p s : starts_with p s = true → (length p ≤ length s)%nat.
Proof.
  revert s. induction p as [|a p IH]; intros [|b s]; cbn; try done; try lia.
  rewrite andb_true_iff. intros [_ H%IH]. lia.
Qed.
Lemma starts_with_refl p : starts_with p p = true.
Proof. induction p as [|a p IH]; [done|]. cbn. by rewrite Ascii.eqb_refl. Qed.
Lemma starts_with_eq p s : starts_with p s = true → length p = length s → p = s.
Proof.
  revert s. induction p as [|a p IH]; intros [|b s]; cbn; try done.
  rewrite andb_true_iff, Ascii.eqb_eq. intros [-> H] [= Hl]. by rewrite (IH _ H Hl).
Qed.

Lemma contains_length p s : contains p s = true → (length p ≤ length s)%nat.
Proof.
  induction s as [|c s IH]; cbn; rewrite orb_true_iff.
  - intros [H%starts_with_length|]; [done|done].
  - intros [H%starts_with_length|H%IH]; cbn in *; lia.
Qed.
Lemma contains_same p s : length p = length s → contains p s = true ↔ p = s.
Proof.
  intros Hl. split; [|intros ->; destruct s; cbn; [done|by rewrite Ascii.eqb_refl, starts_with_refl]].
  destruct s as [|c s]; cbn; rewrite orb_true_iff.
  - intros _. by destruct p.
  - intros [H|H%contains_length]; [by apply starts_with_eq|cbn in *; lia].
Qed.

Lemma address_hex_length a : length (address_hex a) = 42%nat.
Proof. unfold address_hex. cbn [length]. by rewrite Hex.length_hex_encode, length_to_be. Qed.
Lemma address_hex_lower a : to_lowercase (address_hex a) = address_hex a.
Proof.
  unfold address_hex. change (to_lowercase (?x :: ?y :: ?r)) with (to_lower x :: to_lower y :: to_lowercase r).
  by rewrite lower_hex_encode.
Qed.
Lemma address_hex_inj a b : in_width 160 a → in_width 160 b → address_hex a = address_hex b → a = b.
Proof.
  intros Ha Hb H. 
  assert (Hex.hex_encode (to_be 20 a) = Hex.hex_encode (to_be 20 b)) as H'
    by exact (f_equal (λ s, List.tl (List.tl s)) H).
  clear H. rename H' into H. apply (f_equal Hex.hex_decode) in H. rewrite !Hex.decode_encode in H.
  apply (f_equal (λ r, match r with Ok x => x | Err _ => [] end)) in H. cbv beta iota in H.
  apply (f_equal from_be) in H. rewrite !from_be_to_be in H.
  change (256 ^ Z.of_nat 20) with (2 ^ 160) in H. unfold in_width in *.
  by rewrite !Z.mod_small in H by done.
Qed.

(** What the trail looks for: a row of the token that is no exit and spent
    BNB. *)
Definition buy_of (token : Address) (e : LiveEntry) : bool :=
  (le_token_address e =? token) && negb (String.eqb (le_visibility e) "exit") &&
  (0 <? le_bnb_in_wei e).

Lemma parse_uint_text n : in_width 128 n → parse_u128 (uint_text n) = Some n.
Proof.
  intros [? ?]. apply parse_decimal; [lia| |done]. split; [done|].
  apply Z.lt_trans with (2 ^ 128); [done|by vm_compute].
Qed.

Lemma str_inj a b : str a = str b → a = b.
Proof. intros H. by rewrite <- (string_of_list_ascii_of_string a), <- (string_of_list_ascii_of_string b), <- H at 1. Qed.

Lemma buy_row_of_entry token acc now e :
  in_width 160 token → plain_entry now e →
  buy_row (to_lowercase (address_hex token)) acc (join (live_fields now e)) =
    if buy_of token e then Some (live_fields now e) else acc.
Proof.
  intros Ht He. unfold buy_row. rewrite (live_row_fields _ _ He).
  change ((length (live_fields now e) <? 13)%nat) with false. cbv iota.
  change (live_fields now e !! 3%nat) with (Some (str (le_visibility e))).
  change (live_fields now e !! 4%nat) with (Some (address_hex (le_token_address e))).
  change (live_fields now e !! 6%nat) with (Some (uint_text (le_bnb_in_wei e))).
  cbn [unwrap_or]. rewrite !address_hex_lower. destruct He as [_ _ _ _ Hw _ Hb _ _ _].
  unfold buy_of. rewrite parse_uint_text by done. cbn [unwrap_or].
  assert (contains (address_hex token) (address_hex (le_token_address e)) =
    (le_token_address e =? token)) as ->.
  { destruct (Z.eqb_spec (le_token_address e) token) as [->|Hne].
    - by apply contains_same.
    - apply not_true_is_false. rewrite contains_same by (by rewrite !address_hex_length).
      intros Heq. apply Hne. symmetry. by apply address_hex_inj. }
  destruct (le_token_address e =? token); [|done]. cbn [negb andb].
  destruct (String.eqb_spec (le_visibility e) "exit") as [Hv|Hv].
  - rewrite bool_decide_eq_true_2; [done|]. by rewrite Hv.
  - rewrite bool_decide_eq_false_2 by (intros Heq%(str_inj _ "exit"); done).
    unfold in_width in Hb. destruct (Z.eqb_spec (le_bnb_in_wei e) 0), (Z.ltb_spec 0 (le_bnb_in_wei e));
      cbn; done || lia.
Qed.

Lemma header_line_ignored token acc :
  buy_row (to_lowercase (address_hex token)) acc (join (str <$> LIVE_HEADER_FIELDS)) = acc.
Proof.
  unfold buy_row. rewrite split_join.
  2: { done. }
  2: { repeat (constructor; [apply plain_notin; reflexivity|]). constructor. }
  change ((length (str <$> LIVE_HEADER_FIELDS) <? 13)%nat) with false. cbv iota.
  change ((str <$> LIVE_HEADER_FIELDS) !! 4%nat) with (Some (str "token_address")). cbn [unwrap_or].
  destruct (contains _ _) eqn:E; [|done]. apply contains_length in E.
  rewrite address_hex_lower, address_hex_length in E. cbn in E. lia.
Qed.

(** The file after a sequence of appends. *)
Definition live_log (es : list (Z * LiveEntry)) : text :=
  foldl (λ f '(now, e), live_file_append f now e) (live_file_new NoFile) es.

Lemma live_log_lines es :
  Forall (λ '(now, e), plain_entry now e) es →
  lines (live_log es) =
    join (str <$> LIVE_HEADER_FIELDS) :: ((λ '(now, e), join (live_fields now e)) <$> es).
Proof.
  intros Hes. assert (live_log es = LIVE_HEADER ++ (es ≫= λ '(now, e), live_row now e)) as ->.
  { unfold live_log. change (live_file_new NoFile) with LIVE_HEADER.
    generalize LIVE_HEADER as f.
    induction es as [|[now e] es IH]; intros f; [by rewrite app_nil_r|].
    cbn [foldl mbind list_bind].
    apply Forall_cons in Hes as [_ Hes]. rewrite (IH Hes). unfold live_file_append.
    by rewrite <- app_assoc. }
  unfold LIVE_HEADER. rewrite lines_row.
  2, 3: (intros Hin; apply list_elem_of_In in Hin; revert Hin; vm_compute; intuition discriminate).
  f_equal. induction Hes as [|[now e] es He Hes IH]; [done|].
  cbn [mbind list_bind fmap list_fmap]. unfold live_row at 1.
  destruct (live_row_clean now e He). rewrite lines_row by done. f_equal. exact IH.
Qed.

Lemma foldl_buy_row token acc es :
  in_width 160 token → Forall (λ '(now, e), plain_entry now e) es → acc = None →
  foldl (buy_row (to_lowercase (address_hex token))) acc
    ((λ '(now, e), join (live_fields now e)) <$> es) =
  (λ '(now, e), live_fields now e) <$> last (filter (λ ne, buy_of token ne.2 = true) es).
Proof.
  intros Ht Hes ->. induction es as [|[now e] es IH] using rev_ind; [done|].
  apply Forall_app in Hes as [Hes He]. apply Forall_inv in He.
  rewrite fmap_app, foldl_app, IH by done. cbn [fmap list_fmap foldl].
  rewrite buy_row_of_entry by done. rewrite filter_app, filter_cons, filter_nil. cbn [snd].
  destruct (buy_of token e); case_decide; try done.
  - by rewrite last_snoc.
  - by rewrite app_nil_r.
Qed.

(** ** Reading an escaped record *)

Lemma read_plain cur f r :
  no_comma f →
  csv_read Plain cur (f ++ comma :: r) = (cur ++ f) :: csv_read AtStart [] r ∧
  csv_read Plain cur f = [cur ++ f].
Proof.
  unfold no_comma. revert cur. induction f as [|c f IH]; intros cur Hf; cbn [app csv_read].
  { by rewrite Ascii.eqb_refl, app_nil_r. }
  destruct (Ascii.eqb_spec c comma) as [->|]; [by destruct Hf; left|].
  destruct (IH (cur ++ [c])) as [-> ->]; [set_solver|]. by rewrite <- !app_assoc.
Qed.

Lemma read_quoted cur f s :
  csv_read Quoted cur ((f ≫= λ c, if Ascii.eqb c dquote then [dquote; dquote] else [c]) ++ dquote :: s) =
    csv_read QuoteSeen (cur ++ f) s.
Proof.
  revert cur. induction f as [|c f IH]; intros cur; cbn [mbind list_bind app csv_read].
  { rewrite Ascii.eqb_refl. by rewrite app_nil_r. }
  assert (∀ s, cur ++ c :: s = (cur ++ [c]) ++ s) as Hs by (intros; by rewrite <- app_assoc).
  rewrite Hs, <- IH. destruct (Ascii.eqb_spec c dquote) as [->|Hc]; cbn [app csv_read].
  - by rewrite !Ascii.eqb_refl.
  - by destruct (Ascii.eqb_spec c dquote).
Qed.

Lemma read_field f r :
  csv_read AtStart [] (csv_escape f ++ comma :: r) = f :: csv_read AtStart [] r ∧
  csv_read AtStart [] (csv_escape f) = [f].
Proof.
  unfold csv_escape. destruct (existsb _ f) eqn:E.
  - cbn [app csv_read]. rewrite Ascii.eqb_refl, <- app_assoc. cbn [app].
    rewrite !read_quoted. by cbn.
  - assert (no_comma f ∧ dquote ∉ f) as [Hc Hq].
    { unfold no_comma. split; intros Hin%list_elem_of_In; apply not_true_iff_false in E; apply E;
        apply existsb_exists; eexists; (split; [exact Hin|done]). }
    destruct f as [|c f]; cbn [app csv_read]; [done|].
    destruct (Ascii.eqb_spec c dquote) as [->|]; [by destruct Hq; left|].
    destruct (Ascii.eqb_spec c comma) as [->|]; [by destruct Hc; left|].
    apply (read_plain [c]). unfold no_comma in *. set_solver.
Qed.

Lemma csv_fields_join fs : fs ≠ [] → csv_fields (join (csv_escape <$> fs)) = fs.
Proof.
  unfold csv_fields. induction fs as [|f [|g fs] IH]; intros Hne; [done|apply (read_field f [])|].
  change (join (csv_escape <$> (f :: g :: fs)))
    with (csv_escape f ++ comma :: join (csv_escape <$> (g :: fs))).
  rewrite (proj1 (read_field _ _)), IH by done. done.
Qed.

(** The numbers of a row are unsigned. *)
Record unsigned_trade (t : ClosedTrade) : Prop := {
  ut_opened : 0 ≤ ct_opened_at_unix_ns t;
  ut_in : 0 ≤ ct_bnb_in_wei t;
  ut_out : 0 ≤ ct_bnb_out_wei t;
  ut_open_block : 0 ≤ ct_opened_at_block t;
  ut_close_block : 0 ≤ closed_at_block t;
  ut_held : 0 ≤ held_secs t;
  ut_count : 0 ≤ buy_tx_count t;
  ut_exits : 0 ≤ kol_exit_count t;
}.

Lemma closed_row_escaped t :
  unsigned_trade t → format_csv_row t = join (csv_escape <$> closed_fields t) ++ [newline].
Proof.
  intros [? ? ? ? ? ? ? ?]. unfold format_csv_row, closed_fields. cbv zeta.
  assert (plain (unwrap_or (hash_hex <$> trigger_sell_tx t) []) = true)
    by (destruct (trigger_sell_tx t); [apply plain_hash|done]).
  assert (plain (str (portfolio_label (ct_portfolio t))) = true) by by destruct (ct_portfolio t).
  assert (plain (str (close_label (close_reason t))) = true) by by destruct (close_reason t).
  cbn [imap compose Nat.eqb orb fmap list_fmap].
  do 2 f_equal. repeat (apply (f_equal2 cons);
    [first [reflexivity | symmetry; apply csv_escape_plain; auto with plain]|]). done.
Qed.

(** The rest of the row is not reached. *)
Lemma split_prefix fs r n :
  Forall no_comma fs → (n < length fs)%nat →
  split_comma (foldr (λ f s, f ++ comma :: s) r fs) !! n = fs !! n.
Proof.
  intros Hfs. revert n. induction Hfs as [|f fs Hf Hfs IH]; intros n Hn; cbn in Hn; [lia|].
  cbn [foldr]. rewrite split_comma_app by done. destruct n as [|n]; [done|].
  cbn [lookup list_lookup]. apply IH. lia.
Qed.

Lemma str_app a b : str (a ++ b)%string = str a ++ str b.
Proof. induction a as [|c a IH]; [done|]. exact (f_equal (cons c) IH). Qed.

Lemma csv_escape_comma a b :
  plain a = true → plain b = true →
  csv_escape (a ++ comma :: b) = dquote :: a ++ comma :: b ++ [dquote].
Proof.
  intros Ha Hb. unfold csv_escape. case_scrut.
  - assert (∀ s, plain s = true →
      (s ≫= λ c, if Ascii.eqb c dquote then [dquote; dquote] else [c]) = s) as Hid.
    { induction s as [|c s IH]; [done|]. intros Hs. cbn in Hs. apply andb_true_iff in Hs as [Hc Hs].
      destruct (plain_char_spec _ Hc) as (_ & Hq & _). cbn [mbind list_bind].
      destruct (Ascii.eqb_spec c dquote); [done|]. cbn [app]. f_equal. by apply IH. }
    rewrite bind_app. cbn [mbind list_bind]. rewrite (Hid a Ha).
    change (Ascii.eqb comma dquote) with false. cbv iota. cbn [app].
    rewrite <- app_assoc. cbn [app]. do 3 f_equal. f_equal. exact (Hid b Hb).
  - exfalso. apply not_true_iff_false in E. apply E, existsb_exists. exists comma.
    split; [|done]. apply in_or_app. right. by left.
Qed.

(** ** Properties *)

(** A closed-trade row is a CSV record of the 24 columns whatever the
    KOL name and the token symbol hold: commas, quotes and line breaks
    included, a CSV reader gets back exactly the trade's fields. *)
Theorem closed_row_roundtrip t :
  unsigned_trade t →
  ∃ row, format_csv_row t = row ++ [newline] ∧ csv_fields row = closed_fields t ∧
    length (closed_fields t) = length CSV_HEADER_FIELDS.
Proof.
  intros Ht. exists (join (csv_escape <$> closed_fields t)).
  split; [by apply closed_row_escaped|]. split; [by apply csv_fields_join|done].
Qed.

(** What the trail finds in the live log is the last row that was
    appended for the token with a positive amount and a visibility other than
    "exit": its amount and its transaction hash are those of that entry. *)
Theorem trail_reads_the_last_buy token es :
  in_width 160 token → Forall (λ '(now, e), plain_entry now e) es →
  let found := foldl (buy_row (to_lowercase (address_hex token))) None (lines (live_log es)) in
  found = (λ '(now, e), live_fields now e) <$> last (filter (λ ne, buy_of token ne.2 = true) es) ∧
  ∀ row, found = Some row →
    ∃ now e, (now, e) ∈ es ∧ le_token_address e = token ∧ le_visibility e ≠ "exit"%string ∧
      row !! 9%nat = Some (hash_hex (le_tx_hash e)) ∧
      row !! 6%nat = Some (uint_text (le_bnb_in_wei e)) ∧
      parse_u128 (uint_text (le_bnb_in_wei e)) = Some (le_bnb_in_wei e) ∧ 0 < le_bnb_in_wei e.
Proof.
  intros Ht Hes found.
  assert (found = (λ '(now, e), live_fields now e) <$>
    last (filter (λ ne, buy_of token ne.2 = true) es)) as Hf.
  { unfold found. rewrite live_log_lines by done. cbn [foldl]. rewrite header_line_ignored.
    by apply foldl_buy_row. }
  split; [exact Hf|]. intros row Hrow. rewrite Hf in Hrow. clear found Hf.
  destruct (last _) as [[now e]|] eqn:El; [|done]. injection Hrow as <-.
  apply last_Some_elem_of in El. apply list_elem_of_filter in El as [Hb Hin].
  exists now, e. rewrite Forall_forall in Hes. pose proof (pe_bnb _ _ (Hes _ Hin)) as Hw.
  cbn [snd] in Hb. unfold buy_of in Hb. rewrite !andb_true_iff, negb_true_iff in Hb.
  destruct Hb as [[Hk Hv] Hp]. apply String.eqb_neq in Hv.
  split_and!; try done; [lia|by apply parse_uint_text|lia].
Qed.

(** The trail splits rows at every comma: the row of a buy whose KOL
    name contains one is not recognised, so that position is never tracked. *)
Theorem comma_in_name_hides_the_buy token acc now e a b :
  plain_str a → plain_str b → 0 ≤ now → plain_str (le_phase e) →
  le_kol_name e = (a ++ "," ++ b)%string →
  le_visibility e ∈ ["public"; "private"]%string →
  buy_row (to_lowercase (address_hex token)) acc (join (live_fields now e)) = acc.
Proof.
  intros Ha Hb Hnow Hph Hname Hvis.
  assert (csv_escape (str (le_kol_name e)) = (dquote :: str a) ++ comma :: str b ++ [dquote]) as Hn.
  { rewrite Hname, !str_app. by apply csv_escape_comma. }
  set (fs := [uint_text now; str (le_phase e); dquote :: str a; str b ++ [dquote];
              str (le_visibility e)]).
  assert (∃ r, join (live_fields now e) = foldr (λ f s, f ++ comma :: s) r fs) as [r Hr].
  { unfold live_fields. rewrite Hn. eexists. cbn [join foldr fs].
    rewrite <- !app_assoc. cbn [app]. rewrite <- !app_assoc. reflexivity. }
  assert (plain (str (le_visibility e)) = true ∧ (length (str (le_visibility e)) < 42)%nat)
    as [Hvp Hvl].
  { rewrite !elem_of_cons, elem_of_nil in Hvis.
    destruct Hvis as [->|[->|[]]]; (split; [done|cbn; lia]). }
  unfold buy_row. case_scrut; [done|].
  assert (split_comma (join (live_fields now e)) !! 4%nat = Some (str (le_visibility e))) as ->.
  { rewrite Hr. apply (split_prefix fs); [|cbn; lia]. unfold fs, no_comma.
    pose proof (proj1 (plain_notin _ (plain_uint _ Hnow))).
    pose proof (proj1 (plain_notin _ Hph)). pose proof (proj1 (plain_notin _ Ha)).
    pose proof (proj1 (plain_notin _ Hb)). pose proof (proj1 (plain_notin _ Hvp)).
    assert (comma ∉ dquote :: str a) by (apply not_elem_of_cons; by split).
    assert (comma ∉ str b ++ [dquote]) by (apply not_elem_of_app; split; [done|by intros ?%list_elem_of_singleton]).
    by repeat apply Forall_cons_2. }
  cbn [unwrap_or]. destruct (contains _ _) eqn:Ec; [|done].
  apply contains_length in Ec. rewrite address_hex_lower, address_hex_length in Ec.
  unfold to_lowercase in Ec. rewrite length_fmap in Ec. lia.
Qed.

(** Opening the live log leaves a file that starts with the header,
    keeps every row of a file that can be read, does nothing the second time,
    and empties a file it cannot read. *)
Theorem live_header_rule found :
  starts_with LIVE_HEADER (live_file_new found) = true ∧
  live_file_new (FoundText (live_file_new found)) = live_file_new found ∧
  live_file_new Unreadable = LIVE_HEADER ∧
  ∀ f, found = FoundText f → live_file_new found = f ∨ live_file_new found = LIVE_HEADER ++ f.
Proof.
  assert (∀ fd, starts_with LIVE_HEADER (live_file_new fd) = true) as Hst.
  { intros fd. unfold live_file_new. cbv zeta. destruct (needs_header fd) eqn:En.
    - apply starts_with_app, starts_with_refl.
    - destruct fd as [| |f]; [done|done|]. cbn [needs_header] in En. by apply negb_false_iff in En. }
  split_and!; [done| |by vm_compute|].
  - unfold live_file_new at 1. cbn [needs_header]. by rewrite Hst.
  - intros f ->. unfold live_file_new. cbn [needs_header].
    destruct (starts_with LIVE_HEADER f); cbn [negb]; [by left|right].
    rewrite andb_true_r. case_bool_decide as Hf; [by rewrite Hf|done].
Qed.

(** ** Instances *)

Module Example.
Definition trade : ClosedTrade :=
{| ct_portfolio := NormalTip; ct_kol_name := "Big, Whale"; ct_token_address := 7;
ct_token_symbol := "PEPE"; ct_bnb_in_wei := 500000000000000000;
ct_bnb_out_wei := 250000000000000000; tokens_traded := 1000000;
pnl_wei := -250000000000000000; pnl_pct := f64_lit (-5) 10; ct_opened_at_block := 100;
ct_opened_at_unix_ns := 1700000000; closed_at_block := 105;
closed_at_unix_ns := 1700000060; held_secs := 60; buy_tx_count := 1;
close_reason := KolSell; trigger_sell_tx := None; ct_d_mcap_usd := f1;
ct_our_entry_mcap_usd := f1; bnb_usd_at_close := f64_of_Z 600; kol_exit_count := 0;
kol_exit_mcap_first_usd := f1; kol_exit_mcap_last_usd := f1; our_avg_exit_mcap_usd := f1 |}.
Definition entry (name vis : string) (token bnb : Z) : LiveEntry :=
{| le_phase := "tiny"; le_kol_name := name; le_visibility := vis; le_token_address := token;
le_token_symbol := EmptyString; le_bnb_in_wei := bnb; le_gas_gwei := 3; le_nonce := 4;
le_tx_hash := bnb + 1; le_wallet_bnb := f1; le_broadcast := true; le_skip := None |}.
Definition log : list (Z * LiveEntry) :=
[(1, entry "A" "public" 7 50); (2, entry "B" "private" 8 60); (3, entry "C" "public" 7 70);
(4, entry "TRAIL" "exit" 7 0)].

Lemma entry_plain now name vis token bnb :
0 ≤ now → plain_str name → plain_str vis → in_width 160 token → in_width 128 bnb →
plain_entry now (entry name vis token bnb).
Proof. intros. split; cbn; (done || lia || by vm_compute). Qed.
End Example.

Lemma closed_row_roundtrip_witness :
  ∃ row, format_csv_row Example.trade = row ++ [newline] ∧ csv_fields row = closed_fields Example.trade ∧
    length (closed_fields Example.trade) = length CSV_HEADER_FIELDS.
Proof. apply (closed_row_roundtrip Example.trade). split; cbn; lia. Defined.

Lemma trail_reads_the_last_buy_witness :
  foldl (buy_row (to_lowercase (address_hex 7))) None (lines (live_log Example.log)) =
    Some (live_fields 3 (Example.entry "C" "public" 7 70)).
Proof.
  refine (proj1 (trail_reads_the_last_buy 7 Example.log _ _)); [split; lia|].
  repeat constructor; cbn; lia.
Defined.

Lemma comma_in_name_hides_the_buy_witness :
  buy_row (to_lowercase (address_hex 7)) None
    (join (live_fields 1 (Example.entry "Big, Whale" "public" 7 50))) = None.
Proof.
  apply (comma_in_name_hides_the_buy 7 None 1 (Example.entry "Big, Whale" "public" 7 50)
           "Big" " Whale"); try (reflexivity || lia). by left.
Defined.

Lemma live_header_rule_witness :
  live_file_new (FoundText (live_file_new (FoundText [newline]))) = live_file_new (FoundText [newline]).
Proof. apply (live_header_rule (FoundText [newline])). Defined.
