(* ===== verification/Ledger.v ===== *)
(** * trader/ledger.rs: the file of closed trades

    [Ledger::new] writes the header of a file that does not exist and
    [append_trade] adds a row, across any number of restarts.  [csv_table]
    reads a whole CSV text into records; the file is proved against it. *)

From Stdlib Require Import ZArith Lia Ascii String.
From S2P Require Import Prelude F64 Bytes Types Paper Csv.

Local Abbreviation text := (list ascii) (only parsing).

(** ** The file *)

(** The file after [Ledger::new]; [None] while there is none. *)
Definition ledger_new (found : option text) : text :=
  match found with None => CSV_HEADER | Some f => f end.

(** [append_trade] fails when the file is gone. *)
Definition append_trade (f : option text) (t : ClosedTrade) : option text :=
  f ← f; Some (f ++ format_csv_row t).

Inductive ledger_event : Type := Start | Append (t : ClosedTrade).

Definition ledger_step (f : option text) (e : ledger_event) : option text :=
  match e with
  | Start => Some (ledger_new f)
  | Append t => append_trade f t
  end.

Definition ledger_file (es : list ledger_event) : option text := foldl ledger_step None es.

(** ** A reader of CSV files *)

(** The records of a text (RFC 4180, with a newline at the end of each
    record); a last record without its newline counts too. *)
Fixpoint csv_table (st : csv_state) (row : list text) (cur : text) (s : text) : list (list text) :=
  match s with
  | [] => if bool_decide (row = []) && bool_decide (cur = []) then [] else [row ++ [cur]]
  | c :: r =>
      let field st :=
        if Ascii.eqb c comma then csv_table AtStart (row ++ [cur]) [] r
        else if Ascii.eqb c newline then (row ++ [cur]) :: csv_table AtStart [] [] r
        else csv_table st row (cur ++ [c]) r in
      match st with
      | Quoted =>
          if Ascii.eqb c dquote then csv_table QuoteSeen row cur r
          else csv_table Quoted row (cur ++ [c]) r
      | QuoteSeen => if Ascii.eqb c dquote then csv_table Quoted row (cur ++ [c]) r else field Plain
      | AtStart => if Ascii.eqb c dquote then csv_table Quoted row [] r else field Plain
      | Plain => field Plain
      end
  end.
Definition csv_records (s : text) : list (list text) := csv_table AtStart [] [] s.

(** ** Lemmas *)

(** What a separator ends. *)
Definition ends (sep : ascii) (row : list text) (cur : text) (r : text) : list (list text) :=
  if Ascii.eqb sep comma then csv_table AtStart (row ++ [cur]) [] r
  else (row ++ [cur]) :: csv_table AtStart [] [] r.
Definition separator (c : ascii) : Prop := c = comma ∨ c = newline.

Lemma table_plain row cur f sep r :
  separator sep → (∀ c, c ∈ f → c ≠ comma ∧ c ≠ newline) →
  csv_table Plain row cur (f ++ sep :: r) = ends sep row (cur ++ f) r.
Proof.
  intros Hsep. revert cur. induction f as [|c f IH]; intros cur Hf; cbn [app csv_table].
  { rewrite app_nil_r. unfold ends. destruct Hsep as [->| ->]; by cbn. }
  destruct (Hf c (list_elem_of_here _ _)) as [H1 H2].
  rewrite (proj2 (Ascii.eqb_neq c comma) H1), (proj2 (Ascii.eqb_neq c newline) H2).
  rewrite IH by (intros; apply Hf; by right). by rewrite <- app_assoc.
Qed.

Lemma table_quoted row cur f s :
  csv_table Quoted row cur
    ((f ≫= λ c, if Ascii.eqb c dquote then [dquote; dquote] else [c]) ++ dquote :: s) =
  csv_table QuoteSeen row (cur ++ f) s.
Proof.
  revert cur. induction f as [|c f IH]; intros cur; cbn [mbind list_bind app csv_table].
  { rewrite Ascii.eqb_refl. by rewrite app_nil_r. }
  assert (∀ s, cur ++ c :: s = (cur ++ [c]) ++ s) as Hs by (intros; by rewrite <- app_assoc).
  rewrite Hs, <- IH. destruct (Ascii.eqb_spec c dquote) as [->|Hc]; cbn [app csv_table].
  - by rewrite !Ascii.eqb_refl.
  - by destruct (Ascii.eqb_spec c dquote).
Qed.

Lemma unescaped_chars f :
  existsb (λ c, Ascii.eqb c comma || Ascii.eqb c dquote || Ascii.eqb c newline) f = false →
  ∀ c, c ∈ f → c ≠ comma ∧ c ≠ dquote ∧ c ≠ newline.
Proof.
  intros E c Hc%list_elem_of_In. apply not_true_iff_false in E. split_and!; intros ->; apply E;
    apply existsb_exists; eexists; (split; [exact Hc|done]).
Qed.

Lemma table_field row f sep r :
  separator sep → csv_table AtStart row [] (csv_escape f ++ sep :: r) = ends sep row f r.
Proof.
  intros Hsep. unfold csv_escape. destruct (existsb _ f) eqn:E.
  - cbn [app csv_table]. rewrite Ascii.eqb_refl, <- app_assoc. cbn [app]. rewrite table_quoted.
    unfold ends. destruct Hsep as [->| ->]; by cbn.
  - pose proof (unescaped_chars f E) as Hf. destruct f as [|c f]; cbn [app csv_table].
    { unfold ends. destruct Hsep as [->| ->]; by cbn. }
    destruct (Hf c (list_elem_of_here _ _)) as (H1 & H2 & H3).
    rewrite (proj2 (Ascii.eqb_neq c comma) H1), (proj2 (Ascii.eqb_neq c dquote) H2),
      (proj2 (Ascii.eqb_neq c newline) H3).
    apply (table_plain row [c]); [done|]. intros c' Hc'. destruct (Hf c') as (? & ? & ?); [by right|done].
Qed.

Lemma table_record row fs r :
  fs ≠ [] →
  csv_table AtStart row [] (join (csv_escape <$> fs) ++ newline :: r) = (row ++ fs) :: csv_records r.
Proof.
  revert row. induction fs as [|f [|g fs] IH]; intros row Hne; [done|apply table_field; by right|].
  change (join (csv_escape <$> (f :: g :: fs)) ++ newline :: r)
    with ((csv_escape f ++ comma :: join (csv_escape <$> (g :: fs))) ++ newline :: r).
  rewrite <- app_assoc. cbn [app]. rewrite table_field by by left. unfold ends.
  rewrite Ascii.eqb_refl, IH by done. by rewrite <- app_assoc.
Qed.

Lemma records_of_row t r :
  unsigned_trade t → csv_records (format_csv_row t ++ r) = closed_fields t :: csv_records r.
Proof.
  intros Ht. rewrite closed_row_escaped by done. rewrite <- app_assoc. by apply (table_record []).
Qed.

Lemma records_of_header r : csv_records (CSV_HEADER ++ r) = (str <$> CSV_HEADER_FIELDS) :: csv_records r.
Proof.
  unfold CSV_HEADER. rewrite <- app_assoc.
  replace (join (str <$> CSV_HEADER_FIELDS)) with (join (csv_escape <$> (str <$> CSV_HEADER_FIELDS)))
    by (vm_compute; reflexivity).
  by apply (table_record []).
Qed.

Lemma records_of_rows ts :
  Forall unsigned_trade ts → csv_records (ts ≫= format_csv_row) = closed_fields <$> ts.
Proof.
  induction 1 as [|t ts Ht Hts IH]; [done|]. cbn [mbind list_bind]. by rewrite records_of_row, IH.
Qed.

Definition appended (es : list ledger_event) : list ClosedTrade :=
  omap (λ e, match e with Append t => Some t | Start => None end) es.

Lemma ledger_file_started f es :
  foldl ledger_step (Some f) es = Some (f ++ (appended es ≫= format_csv_row)).
Proof.
  revert f. induction es as [|[|t] es IH]; intros f; cbn; [by rewrite app_nil_r|apply IH|].
  rewrite IH. by rewrite <- app_assoc.
Qed.

(** ** Properties *)

(** The ledger of closed trades keeps everything.  From no file, after any
    number of starts and appended trades in any order, the first a start, the
    file read as CSV is the header and then one record for each trade, in the
    order they were closed, with exactly its fields, whatever the names and
    symbols contain; no start changes what is there. *)
Theorem closed_ledger_roundtrip es :
  Forall unsigned_trade (appended es) →
  ∃ f, ledger_file (Start :: es) = Some f ∧
    csv_records f = (str <$> CSV_HEADER_FIELDS) :: (closed_fields <$> appended es).
Proof.
  intros Hes. exists (CSV_HEADER ++ (appended es ≫= format_csv_row)).
  split; [apply ledger_file_started|]. by rewrite records_of_header, records_of_rows.
Qed.

(** ** Instances *)

Module Book.
Definition symbol_of (s : string) : ClosedTrade :=
{| ct_portfolio := NormalTip; ct_kol_name := "Big, Whale"; ct_token_address := 7;
ct_token_symbol := s; ct_bnb_in_wei := 5; ct_bnb_out_wei := 2; tokens_traded := 10;
pnl_wei := -3; pnl_pct := f1; ct_opened_at_block := 100; ct_opened_at_unix_ns := 1700000000;
closed_at_block := 105; closed_at_unix_ns := 1700000060; held_secs := 60; buy_tx_count := 1;
close_reason := KolSell; trigger_sell_tx := None; ct_d_mcap_usd := f1;
ct_our_entry_mcap_usd := f1; bnb_usd_at_close := f64_of_Z 600; kol_exit_count := 0;
kol_exit_mcap_first_usd := f1; kol_exit_mcap_last_usd := f1; our_avg_exit_mcap_usd := f1 |}.
(** The second symbol contains a line break. *)
Definition events : list ledger_event :=
[Append (symbol_of "PEPE"); Start; Append (symbol_of (String (ascii_of_nat 10) "X"))].
End Book.

Lemma closed_ledger_roundtrip_witness :
  ∃ f, ledger_file (Start :: Book.events) = Some f ∧ length (csv_records f) = 3%nat.
Proof.
  destruct (closed_ledger_roundtrip Book.events) as (f & Hf & Hr); [by repeat constructor|].
  exists f. split; [exact Hf|]. by rewrite Hr.
Defined.
