(* ===== verification/Capture.v ===== *)
(** * bsc-telemetry: the capture sink, its janitor, the replay reader

    capture.rs writes every published transaction as a length-prefixed bincode
    record into zstd segments that rotate by the clock; replay.rs reads a
    segment back; the janitor deletes old segments.  bincode is a parameter
    ([encode], [decode]); a zstd stream is the bytes written to it and the way
    it ends. *)

From Stdlib Require Import ZArith Lia Ascii String.
From stdpp Require Import sorting.
From S2P Require Import Prelude Bytes Bus.

Import Core.

(** ** Records *)

Record CaptureRecord : Type := {
  cr_first_seen_ns : Z;
  cr_source_seen : list (Z * Z);
  cr_hash : B256;
  cr_from : Address;
  rlp : option bytes;
  cr_block_number : Z;
  cr_parent_block_hash : B256;
  cr_ms_into_block : Z;
}.

#[global] Instance CaptureRecord_eq_dec : EqDecision CaptureRecord.
Proof. solve_decision. Defined.

(** [From<&PendingTx>]. *)
Definition record_of {Tx : Type} (p : PendingTx Tx) : CaptureRecord :=
  let '(n, h, ms) :=
    match block_context p with
    | Some c => (bc_block_number c, bc_parent_block_hash c, ms_into_block c)
    | None => (0, 0, 0)
    end in
  {| cr_first_seen_ns := first_seen_ns p; cr_source_seen := source_seen p; cr_hash := p_hash p;
     cr_from := p_from p; rlp := p_raw p; cr_block_number := n; cr_parent_block_hash := h;
     cr_ms_into_block := ms |}.

(** ** Segments and the files of the directory *)

Definition pad6 (t : list ascii) : list ascii := replicate (6 - length t) "0"%char ++ t.
Definition segment_path (unix_secs n : Z) : list ascii :=
  list_ascii_of_string "bsc-mempool-" ++ decimal 20 unix_secs ++ "-"%char :: pad6 (decimal 20 n) ++
  list_ascii_of_string ".bincode.zst".

(** [Path::extension] of a file name: what follows the last dot, unless the
    only dot is the first character. *)
Fixpoint after_last_dot (s : list ascii) : option (list ascii) :=
  match s with
  | [] => None
  | c :: r =>
      match after_last_dot r with
      | Some e => Some e
      | None => if Ascii.eqb c "."%char then Some r else None
      end
  end.
Definition extension (name : list ascii) : option (list ascii) :=
  match name with [] => None | _ :: r => after_last_dot r end.
Definition is_zst (name : list ascii) : bool :=
  bool_decide (extension name = Some (list_ascii_of_string "zst")).

(** What was written to a segment's encoder, and whether its frame was
    finished. *)
Record Segment : Type := {
  seg_path : list ascii;
  seg_n : Z;
  content : bytes;
  finished : bool;
}.

Record WriterState : Type := {
  encoder : Segment;
  bytes_written : Z;
  rotate_at_unix : Z;
}.

(** The writer, the process-wide [COUNTER], the segments it has left and the
    three counters it exports. *)
Record CaptureWriter : Type := {
  rotate_secs : Z;
  counter : Z;
  state : WriterState;
  left_segments : list Segment;
  files_rotated : Z;
  bytes_total : Z;
  records_written : Z;
}.

Inductive CaptureError : Type := Io | EncodeSerde.

(** What the environment does during a call: the clock at the rotation test;
    the clock when a segment is created, or no segment; whether finishing the
    old frame succeeds; how much of a failing write is accepted. *)
Record WriteIo : Type := {
  at_check : Z;
  opened_at : option Z;
  finish_ok : bool;
  len_write : option nat;
  payload_write : option nat;
}.

Definition open_segment (secs cnt : Z) (opened : option Z) : Z * option WriterState :=
  (wrap 64 (cnt + 1),
   now ← opened;
   Some {| encoder := {| seg_path := segment_path now cnt; seg_n := cnt; content := [];
                         finished := false |};
           bytes_written := 0; rotate_at_unix := wrap 64 (now + secs) |}).

Definition write_all (s : Segment) (bs : bytes) (accepted : option nat) : Segment * bool :=
  let n := unwrap_or accepted (length bs) in
  ({| seg_path := seg_path s; seg_n := seg_n s; content := content s ++ take n bs;
      finished := finished s |}, bool_decide (accepted = None)).

Definition finish (s : Segment) (ok : bool) : Segment :=
  {| seg_path := seg_path s; seg_n := seg_n s; content := content s; finished := ok |}.

Definition to_le (n : nat) (z : Z) : bytes := rev (to_be n z).
Definition from_le (bs : bytes) : Z := from_be (rev bs).

Definition set_state (w : CaptureWriter) (s : WriterState) : CaptureWriter :=
  {| rotate_secs := rotate_secs w; counter := counter w; state := s;
     left_segments := left_segments w; files_rotated := files_rotated w;
     bytes_total := bytes_total w; records_written := records_written w |}.
Definition set_encoder (s : WriterState) (e : Segment) : WriterState :=
  {| encoder := e; bytes_written := bytes_written s; rotate_at_unix := rotate_at_unix s |}.

(** Replace the active segment and finish the old one: the common part of a
    rotation and of [finalize]. *)
Definition replace_segment (w : CaptureWriter) (opened : option Z) (fin_ok : bool) :
    CaptureWriter * result unit CaptureError :=
  let '(cnt, s) := open_segment (rotate_secs w) (counter w) opened in
  match s with
  | None =>
      ({| rotate_secs := rotate_secs w; counter := cnt; state := state w;
          left_segments := left_segments w; files_rotated := files_rotated w;
          bytes_total := bytes_total w; records_written := records_written w |}, Err Io)
  | Some new =>
      ({| rotate_secs := rotate_secs w; counter := cnt; state := new;
          left_segments := left_segments w ++ [finish (encoder (state w)) fin_ok];
          files_rotated := files_rotated w;
          bytes_total := bytes_total w; records_written := records_written w |},
       if fin_ok then Ok tt else Err Io)
  end.

Definition rotated (w : CaptureWriter) : CaptureWriter :=
  {| rotate_secs := rotate_secs w; counter := counter w; state := state w;
     left_segments := left_segments w; files_rotated := files_rotated w + 1;
     bytes_total := bytes_total w; records_written := records_written w |}.

Definition rotate_if_due (w : CaptureWriter) (io : WriteIo) :
    CaptureWriter * result unit CaptureError :=
  if rotate_at_unix (state w) <=? at_check io then
    match replace_segment w (opened_at io) (finish_ok io) with
    | (w', Ok _) => (rotated w', Ok tt)
    | (w', Err e) => (w', Err e)
    end
  else (w, Ok tt).

(** [CaptureWriter::open]: the counter is the process's. *)
Definition open_writer (secs cnt : Z) (opened : option Z) : option CaptureWriter :=
  let '(cnt', s) := open_segment secs cnt opened in
  st ← s;
  Some {| rotate_secs := secs; counter := cnt'; state := st; left_segments := [];
          files_rotated := 0; bytes_total := 0; records_written := 0 |}.

(** [CaptureWriter::finalize]. *)
Definition finalize (w : CaptureWriter) (opened : option Z) (fin_ok : bool) :
    CaptureWriter * result unit CaptureError := replace_segment w opened fin_ok.

(** ** The reader *)

Inductive ErrorKind : Type := UnexpectedEof | OtherKind.

(** How the decompressed stream goes on after its bytes: it ends, or reading
    fails, with the kind of the error. *)
Inductive stream_end : Type := EndOfStream | ReadFails (k : ErrorKind).

Record ReplayedRecord : Type := { record : CaptureRecord; index : Z }.

Inductive ReplayError : Type :=
| ReplayIo (k : ErrorKind)
| DecodeSerde
| TruncatedHeader (offset : Z)
| TruncatedPayload (wanted got idx : Z).

Record ReplayReader : Type := { inner : bytes; ending : stream_end; next_index : Z }.

Definition open_reader (bs : bytes) (e : stream_end) : ReplayReader :=
  {| inner := bs; ending := e; next_index := 0 |}.

(** [Read::read_exact] of [n] bytes. *)
Definition read_exact (n : nat) (r : ReplayReader) : result bytes ErrorKind * ReplayReader :=
  if (n <=? length (inner r))%nat then
    (Ok (take n (inner r)),
     {| inner := drop n (inner r); ending := ending r; next_index := next_index r |})
  else
    (Err match ending r with EndOfStream => UnexpectedEof | ReadFails k => k end,
     {| inner := []; ending := ending r; next_index := next_index r |}).

(** ** The part that uses bincode *)

Section Codec.
Context (encode : CaptureRecord → option bytes) (decode : bytes → option CaptureRecord).

Definition write_record (w : CaptureWriter) (rec : CaptureRecord) (io : WriteIo) :
CaptureWriter * result unit CaptureError :=
match encode rec with
| None => (w, Err EncodeSerde)
| Some payload =>
let plen := Z.of_nat (length payload) in
let len_bytes := to_le 4 (unwrap_or (try_from_width 32 plen) (umax 32)) in
match rotate_if_due w io with
| (w, Err e) => (w, Err e)
| (w, Ok _) =>
let '(s1, ok1) := write_all (encoder (state w)) len_bytes (len_write io) in
if negb ok1 then (set_state w (set_encoder (state w) s1), Err Io) else
let '(s2, ok2) := write_all s1 payload (payload_write io) in
if negb ok2 then (set_state w (set_encoder (state w) s2), Err Io) else
let added := 4 + plen in
({| rotate_secs := rotate_secs w; counter := counter w;
state := {| encoder := s2;
            bytes_written := sat_add 64 (bytes_written (state w)) added;
            rotate_at_unix := rotate_at_unix (state w) |};
left_segments := left_segments w; files_rotated := files_rotated w;
bytes_total := bytes_total w + added;
records_written := records_written w + 1 |}, Ok tt)
end
end.

(** What the subscription yields, or the shutdown signal. *)
Inductive capture_event {Tx : Type} : Type :=
| Recv (tx : PendingTx Tx) (io : WriteIo)
| Lagged (skipped : Z)
| BusClosed
| Shutdown.
Arguments capture_event : clear implicits.

(** [CaptureWriter::run]: write errors are logged; the loop ends at the
shutdown or when the bus closes, and the segment is finalised. *)
Fixpoint run {Tx : Type} (w : CaptureWriter) (es : list (capture_event Tx))
(fin : option Z * bool) : CaptureWriter :=
match es with
| Recv tx io :: es => run (write_record w (record_of tx) io).1 es fin
| Lagged _ :: es => run w es fin
| BusClosed :: _ | Shutdown :: _ | [] => (finalize w fin.1 fin.2).1
end.

Definition next_record (r : ReplayReader) :
result (option ReplayedRecord) ReplayError * ReplayReader :=
match read_exact 4 r with
| (Err UnexpectedEof, r) => (Ok None, r)
| (Err k, r) => (Err (ReplayIo k), r)
| (Ok len_bytes, r) =>
let len := from_le len_bytes in
match read_exact (Z.to_nat len) r with
| (Err _, r) => (Err (TruncatedPayload len 0 (next_index r)), r)
| (Ok buf, r) =>
match decode buf with
| None => (Err DecodeSerde, r)
| Some rec =>
(Ok (Some {| record := rec; index := next_index r |}),
 {| inner := inner r; ending := ending r;
    next_index := sat_add 64 (next_index r) 1 |})
end
end
end.

(** [read_all]: an error drops what was read before it. *)
Fixpoint read_all (fuel : nat) (out : list ReplayedRecord) (r : ReplayReader) :
option (result (list ReplayedRecord) ReplayError) :=
match fuel with
| O => None
| S fuel =>
match next_record r with
| (Ok (Some x), r) => read_all fuel (out ++ [x]) r
| (Ok None, _) => Some (Ok out)
| (Err e, _) => Some (Err e)
end
end.

(** [bsc-runner replay]: the number of records of a file. *)
Definition replay (bs : bytes) (e : stream_end) : option (result nat ReplayError) :=
res ← read_all (S (length bs)) [] (open_reader bs e);
Some (xs <-? res;; Ok (length xs)).

End Codec.
Arguments capture_event : clear implicits.

(** ** The janitor *)

Record File : Type := { path : list ascii; size_bytes : Z; mtime : Z }.
#[global] Instance File_eq_dec : EqDecision File.
Proof. solve_decision. Defined.

Definition remove_file (removable : list ascii → bool) (p : list ascii) (dir : list File) :
    list File :=
  if removable p then filter (λ f, path f ≠ p) dir else dir.

Definition aged (now max_age : Z) (f : File) : bool :=
  (mtime f <=? now) && (max_age <? now - mtime f).

(** The first pass over the entries: old files go, the others are counted. *)
Fixpoint drop_aged (removable : list ascii → bool) (now max_age : Z) (entries : list File)
    (dir : list File) (total : Z) : list File * Z :=
  match entries with
  | [] => (dir, total)
  | e :: es =>
      if aged now max_age e
      then drop_aged removable now max_age es (remove_file removable (path e) dir) total
      else drop_aged removable now max_age es dir (sat_add 64 total (size_bytes e))
  end.

(** [sort_by_key(mtime)], which is stable. *)
Fixpoint insert_by_mtime (f : File) (l : list File) : list File :=
  match l with
  | [] => [f]
  | g :: l' => if mtime f <=? mtime g then f :: l else g :: insert_by_mtime f l'
  end.
Definition sort_by_mtime (l : list File) : list File := foldr insert_by_mtime [] l.

Fixpoint evict (removable : list ascii → bool) (retention : Z) (oldest : list File)
    (dir : list File) (total : Z) : list File :=
  match oldest with
  | [] => dir
  | e :: es =>
      if total <=? retention then dir
      else evict removable retention es (remove_file removable (path e) dir)
             (sat_sub total (size_bytes e))
  end.

(** [sweep_directory] on the files of the directory, in [read_dir]'s order. *)
Definition sweep_directory (removable : list ascii → bool) (now retention max_age : Z)
    (dir : list File) : list File :=
  let entries := filter (λ f, is_zst (path f) = true) dir in
  let '(dir', total) := drop_aged removable now max_age entries dir 0 in
  if retention <? total then
    let surviving := filter (λ e, existsb (λ f, bool_decide (path f = path e)) dir' = true) entries in
    evict removable retention (sort_by_mtime surviving) dir' total
  else dir'.

Definition total_size (l : list File) : Z := sum_by size_bytes l.

(** ** Lemmas: writing and reading *)

Lemma from_to_le n z : 0 ≤ z < 256 ^ Z.of_nat n → from_le (to_le n z) = z.
Proof. intros. unfold from_le, to_le. rewrite rev_involutive. by apply from_be_to_be_id. Qed.

Lemma length_to_le n z : length (to_le n z) = n.
Proof. unfold to_le. by rewrite length_rev, length_to_be. Qed.

Lemma read_exact_app bs rest e i :
  read_exact (length bs) {| inner := bs ++ rest; ending := e; next_index := i |} =
    (Ok bs, {| inner := rest; ending := e; next_index := i |}).
Proof.
  unfold read_exact. cbn [inner ending next_index].
  destruct (Nat.leb_spec (length bs) (length (bs ++ rest))) as [_|H];
    [|rewrite length_app in H; lia].
  by rewrite take_app_length, drop_app_length.
Qed.

Lemma read_exact_short n r :
  (length (inner r) < n)%nat →
  read_exact n r =
    (Err match ending r with EndOfStream => UnexpectedEof | ReadFails k => k end,
     {| inner := []; ending := ending r; next_index := next_index r |}).
Proof. intros H. unfold read_exact. by destruct (Nat.leb_spec n (length (inner r))); [lia|]. Qed.

Lemma read_exact_ok n r bs r' :
  read_exact n r = (Ok bs, r') →
  (n ≤ length (inner r))%nat ∧ length (inner r') = (length (inner r) - n)%nat.
Proof.
  unfold read_exact. destruct (Nat.leb_spec n (length (inner r))); [|done].
  intros [= <- <-]. cbn. by rewrite length_drop.
Qed.

Section Proofs.
Context (encode : CaptureRecord → option bytes) (decode : bytes → option CaptureRecord).

(** The bytes of one record. *)
Definition frame (payload : bytes) : bytes := to_le 4 (Z.of_nat (length payload)) ++ payload.

(** The bytes of the records that can be encoded. *)
Definition frames (rs : list CaptureRecord) : bytes := omap encode rs ≫= frame.

Definition small (rec : CaptureRecord) : Prop :=
∀ p, encode rec = Some p → Z.of_nat (length p) < 2 ^ 32.

(** What replay makes of records from index [i] on. *)
Fixpoint replayed (i : Z) (rs : list CaptureRecord) : list ReplayedRecord :=
match rs with
| [] => []
| r :: rs => {| record := r; index := i |} :: replayed (sat_add 64 i 1) rs
end.

Lemma replayed_records i rs : record <$> replayed i rs = rs.
Proof. revert i. induction rs as [|r rs IH]; intros i; [done|]. cbn. by rewrite IH. Qed.

Lemma next_frame payload rec rest e i :
Z.of_nat (length payload) < 2 ^ 32 → decode payload = Some rec →
next_record decode {| inner := frame payload ++ rest; ending := e; next_index := i |} =
(Ok (Some {| record := rec; index := i |}),
{| inner := rest; ending := e; next_index := sat_add 64 i 1 |}).
Proof.
intros Hl Hd. unfold next_record, frame. rewrite <- app_assoc.
rewrite <- (length_to_le 4 (Z.of_nat (length payload))) at 1. rewrite read_exact_app.
rewrite from_to_le by lia. cbv zeta. rewrite Nat2Z.id, read_exact_app. by rewrite Hd.
Qed.

Lemma next_consumes r x r' :
next_record decode r = (Ok (Some x), r') → (length (inner r') + 4 ≤ length (inner r))%nat.
Proof.
unfold next_record. destruct (read_exact 4 r) as [[b4|[]] r1] eqn:E1; try done.
apply read_exact_ok in E1 as [? ?]. cbv zeta.
destruct (read_exact _ r1) as [[buf|?] r2] eqn:E2; [|done].
apply read_exact_ok in E2 as [? ?]. destruct (decode buf); [|done].
intros [= _ <-]. cbn. lia.
Qed.

(** Enough fuel gives a result, and more fuel the same one. *)
Lemma read_all_total fuel out r :
(length (inner r) < fuel)%nat → ∃ res, read_all decode fuel out r = Some res.
Proof.
revert out r. induction fuel as [|fuel IH]; intros out r Hf; [lia|]. cbn [read_all].
destruct (next_record decode r) as [[[x|]|e] r'] eqn:E; [|by eexists|by eexists].
apply next_consumes in E. apply IH. lia.
Qed.

Lemma read_all_more fuel fuel' out r res :
read_all decode fuel out r = Some res → (fuel ≤ fuel')%nat →
read_all decode fuel' out r = Some res.
Proof.
revert fuel' out r. induction fuel as [|fuel IH]; intros fuel' out r H Hf; [done|].
destruct fuel' as [|fuel']; [lia|]. cbn [read_all] in *.
destruct (next_record decode r) as [[[x|]|e] r']; [|done|done]. apply IH; [done|lia].
Qed.

Lemma read_all_count fuel out r xs :
read_all decode fuel out r = Some (Ok xs) →
(4 * length xs ≤ 4 * length out + length (inner r))%nat.
Proof.
revert out r. induction fuel as [|fuel IH]; intros out r; [done|]. cbn [read_all].
destruct (next_record decode r) as [[[x|]|e] r'] eqn:E; [|intros [= <-]; lia|done].
apply next_consumes in E. intros H%IH. rewrite length_app in H. cbn in H. lia.
Qed.

Hypothesis decode_encode : ∀ rec p, encode rec = Some p → decode p = Some rec.

Definition encodable (rec : CaptureRecord) : bool :=
match encode rec with Some _ => true | None => false end.
Definition kept (rs : list CaptureRecord) : list CaptureRecord :=
filter (λ rec, encodable rec = true) rs.
Lemma kept_cons rec rs : kept (rec :: rs) = (if encodable rec then [rec] else []) ++ kept rs.
Proof. unfold kept, encodable. rewrite filter_cons. by destruct (encode rec). Qed.

(** Reading past the frames of records. *)
Lemma read_all_frames rs fuel out rest e i :
Forall small rs →
read_all decode (length (kept rs) + fuel) out
{| inner := frames rs ++ rest; ending := e; next_index := i |} =
read_all decode fuel (out ++ replayed i (kept rs))
{| inner := rest; ending := e;
next_index := foldl (λ j _, sat_add 64 j 1) i (kept rs) |}.
Proof.
intros Hs. revert out i. induction Hs as [|rec rs Hr Hs IH]; intros out i.
{ cbn. by rewrite app_nil_r. }
unfold frames. rewrite kept_cons. unfold encodable. cbn [omap list_omap].
destruct (encode rec) as [p|] eqn:Ep; cbn [app].
- cbn [mbind list_bind length plus read_all].
rewrite <- app_assoc, (next_frame p rec) by eauto. cbn [replayed foldl].
pose proof (IH (out ++ [{| record := rec; index := i |}]) (sat_add 64 i 1)) as H.
rewrite <- (app_assoc out) in H. exact H.
- apply IH.
Qed.

Lemma read_all_written rs e :
Forall small rs →
e = EndOfStream ∨ e = ReadFails UnexpectedEof →
read_all decode (S (length (frames rs))) [] (open_reader (frames rs) e) =
Some (Ok (replayed 0 (kept rs))).
Proof.
intros Hs He. destruct (read_all_total (S (length (frames rs))) [] (open_reader (frames rs) e))
as [res Hres]; [cbn; lia|].
eapply (read_all_more _ (length (kept rs) + S (length (frames rs)))) in Hres as Hm;
[|lia].
rewrite Hres. rewrite <- Hm. unfold open_reader.
rewrite <- (app_nil_r (frames rs)) at 2. rewrite read_all_frames by done.
cbn [read_all]. unfold next_record. rewrite read_exact_short by (cbn; lia). cbn [ending].
by destruct He as [-> | ->].
Qed.

Lemma frames_app rs1 rs2 : frames (rs1 ++ rs2) = frames rs1 ++ frames rs2.
Proof. unfold frames. by rewrite omap_app, bind_app. Qed.

(** *** The writer *)

Definition good_io (io : WriteIo) : Prop :=
is_Some (opened_at io) ∧ finish_ok io = true ∧ len_write io = None ∧ payload_write io = None.

(** The segments hold exactly the records [rs], each record in one segment. *)
Definition holds (w : CaptureWriter) (rs : list CaptureRecord) : Prop :=
∃ groups last,
Forall2 (λ seg g, finished seg = true ∧ content seg = frames g) (left_segments w) groups ∧
content (encoder (state w)) = frames last ∧ concat groups ++ last = rs.

Lemma replace_segment_holds w rs t :
holds w rs →
∃ w', replace_segment w (Some t) true = (w', Ok tt) ∧ content (encoder (state w')) = [] ∧
holds w' rs ∧
∃ groups, Forall2 (λ seg g, finished seg = true ∧ content seg = frames g) (left_segments w') groups ∧
concat groups = rs.
Proof.
intros (groups & last & Hg & Hl & <-). unfold replace_segment, open_segment. cbn.
eexists. split_and!; [done|done| |].
- exists (groups ++ [last]), []. cbn. split_and!.
+ apply Forall2_app; [done|]. by repeat constructor.
+ done.
+ rewrite concat_app. cbn. by rewrite !app_nil_r.
- exists (groups ++ [last]). cbn. split; [apply Forall2_app; [done|by repeat constructor]|].
rewrite concat_app. cbn. by rewrite app_nil_r.
Qed.

Lemma holds_rotated w rs : holds w rs → holds (rotated w) rs.
Proof. done. Qed.

Lemma rotate_if_due_holds w rs io :
good_io io → holds w rs → ∃ w', rotate_if_due w io = (w', Ok tt) ∧ holds w' rs.
Proof.
intros ([t Ht] & Hf & _) Hw. unfold rotate_if_due. case_scrut; [|by eauto].
rewrite Ht, Hf. destruct (replace_segment_holds w rs t Hw) as (w' & -> & _ & ? & _).
eexists. split; [done|]. by apply holds_rotated.
Qed.

Lemma write_record_holds w rs rec io :
good_io io → small rec → holds w rs →
holds (write_record encode w rec io).1 (rs ++ [rec]) ∧
(write_record encode w rec io).2 = (if encodable rec then Ok tt else Err EncodeSerde).
Proof.
intros Hio Hs Hw. unfold write_record, encodable. unfold small in Hs.
destruct (encode rec) as [p|] eqn:Ep.
- specialize (Hs p eq_refl).
destruct (rotate_if_due_holds w rs io Hio Hw) as (w' & -> & groups & last & Hg & Hl & <-).
destruct Hio as (_ & _ & Hlw & Hpw). unfold write_all. rewrite Hlw, Hpw.
rewrite !bool_decide_eq_true_2 by done. cbn. split; [|done].
exists groups, (last ++ [rec]). split_and!; [done| |by rewrite app_assoc].
cbn. rewrite frames_app, Hl, <- app_assoc. f_equal. unfold frames. cbn.
rewrite Ep. cbn. rewrite app_nil_r. unfold frame, try_from_width.
destruct (Z.leb_spec 0 (Z.of_nat (length p))); [|lia].
destruct (Z.ltb_spec (Z.of_nat (length p)) (2 ^ 32)); [|lia].
cbn [andb unwrap_or]. rewrite !take_ge; done.
- split; [|done].
destruct Hw as (groups & last & Hg & Hl & <-). exists groups, (last ++ [rec]).
split_and!; [done| |by rewrite app_assoc].
cbn [fst]. rewrite frames_app, Hl. unfold frames at 3. cbn. by rewrite Ep, app_nil_r.
Qed.

(** The records the loop takes from the bus before it stops. *)
Fixpoint received {Tx : Type} (es : list (capture_event Tx)) : list CaptureRecord :=
match es with
| Recv tx _ :: es => record_of tx :: received es
| Lagged _ :: es => received es
| _ => []
end.

Definition good_event {Tx : Type} (e : capture_event Tx) : Prop :=
match e with Recv tx io => good_io io ∧ small (record_of tx) | _ => True end.

Lemma run_holds {Tx : Type} w rs (es : list (capture_event Tx)) t :
Forall good_event es → holds w rs →
∃ groups,
Forall2 (λ seg g, finished seg = true ∧ content seg = frames g)
(left_segments (run encode w es (Some t, true))) groups ∧
concat groups = rs ++ received es ∧
content (encoder (state (run encode w es (Some t, true)))) = [].
Proof.
intros Hes. revert w rs. induction Hes as [|e es He Hes IH]; intros w rs Hw.
2: destruct e as [tx io|n| |].
1, 4, 5: cbn [run received fst snd]; unfold finalize; rewrite app_nil_r;
destruct (replace_segment_holds w rs t Hw) as (w' & -> & ? & _ & groups & ? & ?); by exists groups.
- destruct He as [Hio Hs]. cbn [run received].
destruct (IH (write_record encode w (record_of tx) io).1 (rs ++ [record_of tx]))
as (groups & ? & Hc & ?); [by apply write_record_holds|].
exists groups. by rewrite <- app_assoc in Hc.
- cbn [run received]. by apply IH.
Qed.

End Proofs.

(** ** Lemmas: the janitor *)

Lemma remove_file_filter removable p dir :
  (∀ q, removable q = true) → remove_file removable p dir = filter (λ f, path f ≠ p) dir.
Proof. intros Hr. unfold remove_file. by rewrite Hr. Qed.

(** Removing a list of paths. *)
Definition without (ps : list (list ascii)) (dir : list File) : list File :=
  filter (λ f, path f ∉ ps) dir.

Lemma without_nil dir : without [] dir = dir.
Proof. apply filter_all. intros. apply not_elem_of_nil. Qed.

Lemma without_cons p ps dir : without ps (filter (λ f, path f ≠ p) dir) = without (p :: ps) dir.
Proof.
  unfold without. rewrite list_filter_filter. apply list_filter_iff.
  intros f. rewrite not_elem_of_cons. tauto.
Qed.

Lemma total_size_cons f l : total_size (f :: l) = size_bytes f + total_size l.
Proof. done. Qed.

Lemma drop_aged_spec removable now max_age es dir total :
  (∀ q, removable q = true) → 0 ≤ total → Forall (λ f, 0 ≤ size_bytes f) es →
  total + total_size (filter (λ f, aged now max_age f = false) es) < 2 ^ 64 →
  drop_aged removable now max_age es dir total =
    (without (path <$> filter (λ f, aged now max_age f = true) es) dir,
     total + total_size (filter (λ f, aged now max_age f = false) es)).
Proof.
  intros Hr. revert dir total. induction es as [|e es IH]; intros dir total Ht Hs Hb.
  { cbn. by rewrite Z.add_0_r, without_nil. }
  apply Forall_cons in Hs as [He Hs]. cbn [drop_aged]. rewrite !filter_cons in *.
  assert (0 ≤ total_size (filter (λ f, aged now max_age f = false) es)).
  { apply sum_by_nonneg. intros f [_ Hf]%list_elem_of_filter.
    rewrite Forall_forall in Hs. by apply Hs. }
  destruct (aged now max_age e) eqn:Ea; repeat case_decide; try done.
  - rewrite IH by done. by rewrite remove_file_filter, without_cons.
  - rewrite total_size_cons in Hb |- *.
    rewrite sat_add_exact by lia. rewrite IH by (done || lia). f_equal. lia.
Qed.

Lemma insert_by_mtime_perm f l : insert_by_mtime f l ≡ₚ f :: l.
Proof.
  induction l as [|g l IH]; [done|]. cbn. case_scrut; [done|]. rewrite IH. apply perm_swap.
Qed.

Lemma sort_by_mtime_perm l : sort_by_mtime l ≡ₚ l.
Proof. induction l as [|f l IH]; [done|]. cbn. by rewrite insert_by_mtime_perm, IH. Qed.

Lemma sort_by_mtime_sorted l : StronglySorted (λ f g, mtime f ≤ mtime g) (sort_by_mtime l).
Proof.
  induction l as [|f l IH]; [constructor|]. revert IH.
  change (sort_by_mtime (f :: l)) with (insert_by_mtime f (sort_by_mtime l)).
  generalize (sort_by_mtime l) as s. intros s. induction s as [|g s IHs]; intros Hs.
  { cbn. constructor; constructor. }
  apply StronglySorted_inv in Hs as [Hs Hg]. cbn. destruct (Z.leb_spec (mtime f) (mtime g)).
  - constructor; [by constructor|]. constructor; [done|].
    eapply Forall_impl; [exact Hg|]. cbn. lia.
  - constructor; [by apply IHs|].
    rewrite insert_by_mtime_perm. constructor; [lia|done].
Qed.

(** Eviction removes a prefix of the sorted list, no longer than needed. *)
Lemma evict_spec removable retention s dir :
  (∀ q, removable q = true) → 0 ≤ retention → Forall (λ f, 0 ≤ size_bytes f) s →
  ∃ pre post, s = pre ++ post ∧
    evict removable retention s dir (total_size s) = without (path <$> pre) dir ∧
    total_size post ≤ retention ∧
    (pre = [] ∨ ∃ pre' x, pre = pre' ++ [x] ∧ retention < total_size (x :: post)).
Proof.
  intros Hr H0 Hs. revert dir. induction Hs as [|f s Hf Hs IH]; intros dir.
  { exists [], []. cbn [app fmap list_fmap evict]. by rewrite without_nil; split_and!; [| | |left]. }
  cbn [evict]. destruct (Z.leb_spec (total_size (f :: s)) retention) as [Hle|Hgt].
  - exists [], (f :: s). by rewrite without_nil; split_and!; [| | |left].
  - assert (0 ≤ total_size s).
    { apply sum_by_nonneg. intros g Hg. rewrite Forall_forall in Hs. by apply Hs. }
    replace (sat_sub (total_size (f :: s)) (size_bytes f)) with (total_size s)
      by (rewrite total_size_cons; unfold sat_sub; lia).
    destruct (IH (remove_file removable (path f) dir)) as (pre & post & -> & -> & Hp & Hpre).
    exists (f :: pre), post. split_and!; [done| |done|right].
    + by rewrite remove_file_filter, without_cons.
    + destruct Hpre as [->|(pre' & x & -> & ?)]; [by exists [], f|by exists (f :: pre'), x].
Qed.

Lemma total_size_perm l k : l ≡ₚ k → total_size l = total_size k.
Proof.
  induction 1; rewrite ?total_size_cons; lia || done.
Qed.

Lemma path_inj dir f g :
  NoDup (path <$> dir) → f ∈ dir → g ∈ dir → path f = path g → f = g.
Proof.
  induction dir as [|h dir IH]; [set_solver|]. cbn. intros [Hn Hd]%NoDup_cons Hf Hg Hp.
  apply elem_of_cons in Hf as [->|Hf], Hg as [->|Hg]; [done| | |by apply IH].
  - destruct Hn. rewrite Hp. by apply list_elem_of_fmap_2.
  - destruct Hn. rewrite <- Hp. by apply list_elem_of_fmap_2.
Qed.

Lemma elem_of_without dir l f :
  NoDup (path <$> dir) → (∀ x, x ∈ l → x ∈ dir) →
  f ∈ without (path <$> l) dir ↔ f ∈ dir ∧ (f ∉ l).
Proof.
  intros Hd Hl. unfold without. rewrite list_elem_of_filter. split.
  - intros [Hp Hf]. split; [done|]. intros Hin. apply Hp. by apply list_elem_of_fmap_2.
  - intros [Hf Hn]. split; [|done]. intros (g & Hp & Hg)%list_elem_of_fmap.
    apply Hn. by rewrite (path_inj dir f g) by auto.
Qed.

Lemma filter_ext_in {A} (P Q : A → Prop) `{∀ x, Decision (P x)} `{∀ x, Decision (Q x)} (l : list A) :
  (∀ x, x ∈ l → P x ↔ Q x) → filter P l = filter Q l.
Proof.
  induction l as [|x l IH]; intros Hpq; [done|]. rewrite !filter_cons, IH by set_solver.
  pose proof (Hpq x ltac:(set_solver)). repeat case_decide; tauto.
Qed.

Definition zst_of (l : list File) : list File := filter (λ f, is_zst (path f) = true) l.

Lemma elem_of_zst f l : f ∈ zst_of l ↔ is_zst (path f) = true ∧ f ∈ l.
Proof. unfold zst_of. by rewrite list_elem_of_filter. Qed.

Section Sweep.
Context (now retention max_age : Z) (dir : list File).
Hypothesis Hpaths : NoDup (path <$> dir).
Hypothesis Hsizes : Forall (λ f, 0 ≤ size_bytes f) dir.
Hypothesis Htotal : total_size (zst_of dir) < 2 ^ 64.
Hypothesis Hret : 0 ≤ retention.

Let old := filter (λ f, aged now max_age f = true) (zst_of dir).
Let young := filter (λ f, aged now max_age f = false) (zst_of dir).

Lemma elem_of_old f : f ∈ old ↔ aged now max_age f = true ∧ is_zst (path f) = true ∧ f ∈ dir.
Proof. unfold old. by rewrite list_elem_of_filter, elem_of_zst. Qed.
Lemma elem_of_young f : f ∈ young ↔ aged now max_age f = false ∧ is_zst (path f) = true ∧ f ∈ dir.
Proof. unfold young. by rewrite list_elem_of_filter, elem_of_zst. Qed.

Lemma young_total : 0 ≤ total_size young ≤ total_size (zst_of dir).
Proof.
assert (∀ l, Forall (λ f, 0 ≤ size_bytes f) l →
0 ≤ total_size (filter (λ f, aged now max_age f = false) l) ≤ total_size l) as H.
{ induction 1 as [|f l Hf Hl IH]; [done|]. rewrite filter_cons, total_size_cons.
case_decide; rewrite ?total_size_cons; lia. }
apply H. rewrite Forall_forall in *. intros f [_ ?]%elem_of_zst. auto.
Qed.

(** What a sweep leaves: the old segments and a prefix of the young ones, by
age, are gone. *)
Lemma sweep_spec :
∃ pre post, sort_by_mtime young = pre ++ post ∧
sweep_directory (λ _, true) now retention max_age dir =
without (path <$> pre) (without (path <$> old) dir) ∧
total_size post ≤ retention ∧
(pre = [] ∨ ∃ pre' x, pre = pre' ++ [x] ∧ retention < total_size (x :: post)).
Proof.
pose proof young_total as Hy.
assert (Forall (λ f, 0 ≤ size_bytes f) (zst_of dir)) as Hz.
{ rewrite Forall_forall in *. intros f [_ ?]%elem_of_zst. auto. }
unfold sweep_directory. cbv zeta. fold (zst_of dir).
rewrite drop_aged_spec by (done || (fold young; lia)). fold old young. rewrite Z.add_0_l.
pose proof (total_size_perm _ _ (sort_by_mtime_perm young)) as Hsort.
destruct (Z.ltb_spec retention (total_size young)) as [Hgt|Hle].
- assert (filter (λ e, existsb (λ f, bool_decide (path f = path e))
(without (path <$> old) dir) = true) (zst_of dir) = young) as ->.
{ apply filter_ext_in. intros e [He Hin]%elem_of_zst. rewrite existsb_exists. split.
- intros (f & Hf%list_elem_of_In & Hp%bool_decide_eq_true).
apply elem_of_without in Hf as [Hf Hn]; [|done|intros x Hx%elem_of_old; tauto].
rewrite (path_inj dir f e Hpaths Hf Hin Hp) in Hn. apply not_true_is_false. intros Ha.
apply Hn, elem_of_old. auto.
- intros Ha. exists e. split; [|by apply bool_decide_eq_true].
apply list_elem_of_In, elem_of_without; [done|intros x Hx%elem_of_old; tauto|].
split; [done|]. intros [Ht _]%elem_of_old. congruence. }
rewrite <- Hsort. apply evict_spec; [done|done|].
rewrite sort_by_mtime_perm. rewrite Forall_forall in *. intros f Hf%elem_of_young. apply Hsizes, Hf.
- exists [], (sort_by_mtime young). split_and!; [done|by rewrite without_nil|by rewrite Hsort|by left].
Qed.

Lemma sweep_members :
let dir' := sweep_directory (λ _, true) now retention max_age dir in
∃ pre post,
StronglySorted (λ f g, mtime f ≤ mtime g) (pre ++ post) ∧
(∀ f, f ∈ dir' ↔ f ∈ dir ∧ (f ∉ old) ∧ (f ∉ pre)) ∧
(∀ f, f ∈ zst_of dir' ↔ f ∈ post) ∧
total_size (zst_of dir') = total_size post ∧
(∀ f, f ∈ pre → aged now max_age f = false ∧ is_zst (path f) = true ∧ f ∈ dir) ∧
total_size post ≤ retention ∧
(pre = [] ∨ ∃ pre' x, pre = pre' ++ [x] ∧ retention < total_size (x :: post)).
Proof.
intros dir'. destruct sweep_spec as (pre & post & Hsort & Hdir & Hpost & Hmin).
fold dir' in Hdir. pose proof (NoDup_fmap_1 _ _ Hpaths) as Hnodup. exists pre, post.
assert (∀ f, f ∈ young ↔ f ∈ pre ∨ f ∈ post) as Hyoung.
{ intros f. by rewrite <- elem_of_app, <- Hsort, sort_by_mtime_perm. }
assert (∀ f, f ∈ pre → f ∈ dir) as Hpre
by (intros f Hf; assert (f ∈ young) as H%elem_of_young by (apply Hyoung; auto); tauto).
assert (∀ f, f ∈ dir' ↔ f ∈ dir ∧ (f ∉ old) ∧ (f ∉ pre)) as Hin.
{ intros f. rewrite Hdir. unfold without. rewrite list_filter_filter, list_elem_of_filter.
pose proof (elem_of_without dir pre f Hpaths Hpre) as H1.
pose proof (elem_of_without dir old f Hpaths (λ x Hx, proj2 (proj2 (proj1 (elem_of_old x) Hx)))) as H2.
unfold without in H1, H2. rewrite list_elem_of_filter in H1, H2. tauto. }
assert (NoDup (pre ++ post)) as Hnd.
{ rewrite <- Hsort, sort_by_mtime_perm. by apply NoDup_filter, NoDup_filter. }
apply NoDup_app in Hnd as (_ & Hdisj & Hnd).
assert (∀ f, f ∈ zst_of dir' ↔ f ∈ post) as Hz.
{ intros f. rewrite elem_of_zst, Hin. split.
- intros (Hzst & Hf & Ho & Hp). destruct (aged now max_age f) eqn:Ea.
+ destruct Ho. apply elem_of_old. auto.
+ assert (f ∈ young) as [?|?]%Hyoung by (apply elem_of_young; auto); done.
- intros Hf. assert (f ∈ young) as (Ha & ? & ?)%elem_of_young by (apply Hyoung; auto).
split_and!; [done|done|intros [? _]%elem_of_old; congruence|intros Hp; by apply (Hdisj f)]. }
split_and!; try done.
- rewrite <- Hsort. apply sort_by_mtime_sorted.
- apply total_size_perm, NoDup_Permutation; [|done|done].
apply NoDup_filter. rewrite Hdir. by repeat apply NoDup_filter.
- intros f Hf. apply elem_of_young, Hyoung. by left.
Qed.
End Sweep.

Lemma sorted_app_le (pre post : list File) f g :
  StronglySorted (λ f g, mtime f ≤ mtime g) (pre ++ post) → f ∈ pre → g ∈ post → mtime f ≤ mtime g.
Proof. rewrite StronglySorted_app. intros (H & _ & _) Hf Hg. by apply H. Qed.

(** ** Properties *)

(** [C23] Replay gives back what was captured.  For a writer whose I/O
    succeeds, any sequence of bus events and any clock, the segments it leaves
    are finished and reading them one after the other yields exactly the
    records of the transactions received, in order, each segment indexed from
    0; records bincode refuses are the only ones missing; the segment opened
    by the final flush is empty. *)
Theorem capture_replay_roundtrip {Tx : Type} encode decode secs cnt opened w
    (es : list (capture_event Tx)) t :
  (∀ rec p, encode rec = Some p → decode p = Some rec) →
  open_writer secs cnt opened = Some w →
  Forall (good_event encode) es →
  let w' := run encode w es (Some t, true) in
  ∃ groups,
    concat groups = received es ∧
    Forall2 (λ seg g, finished seg = true ∧
      read_all decode (S (length (content seg))) [] (open_reader (content seg) EndOfStream) =
        Some (Ok (replayed 0 (kept encode g)))) (left_segments w') groups ∧
    content (encoder (state w')) = [].
Proof.
  intros Hcodec Hopen Hes w'. destruct opened as [t0|]; [|done]. injection Hopen as <-.
  revert w'. set (w0 := Build_CaptureWriter _ _ _ _ _ _ _).
  intros w'. destruct (run_holds encode w0 [] es t Hes) as (groups & Hg & Hc & He).
  { by exists [], []. }
  exists groups. split; [exact Hc|]. split; [|exact He].
  assert (Forall (small encode) (received es)) as Hs.
  { clear -Hes. induction Hes as [|[tx io|n| |] es He Hes IH]; cbn; try by constructor.
    - constructor; [apply He|done].
    - done. }
  rewrite app_nil_l in Hc. rewrite <- Hc in Hs. clear -Hcodec Hg Hs. fold w' in Hg.
  induction Hg as [|seg g segs groups [Hf Hcont] Hg IH]; constructor.
  - cbn in Hs. apply Forall_app in Hs as [Hs _]. split; [done|]. rewrite Hcont.
    apply read_all_written; [done|done|by left].
  - apply IH. cbn in Hs. by apply Forall_app in Hs as [_ ?].
Qed.

(** Draining a segment always ends, whatever its bytes, the way the
    stream ends and the decoder: fuel above the number of bytes gives a
    result that more fuel does not change, and at most a quarter as many
    records as bytes. *)
Theorem read_all_terminates decode bs e :
  ∃ res, (∀ fuel, (length bs < fuel)%nat → read_all decode fuel [] (open_reader bs e) = Some res) ∧
    ∀ xs, res = Ok xs → (4 * length xs ≤ length bs)%nat.
Proof.
  destruct (read_all_total decode (S (length bs)) [] (open_reader bs e)) as [res Hres];
    [cbn; lia|].
  exists res. split.
  - intros fuel Hf. apply (read_all_more decode _ _ _ _ _ Hres). lia.
  - intros xs ->. apply read_all_count in Hres. cbn in Hres. lia.
Qed.

(** A segment cut off by a crash.  Cut between records or inside a length
    prefix, replay reports a clean end with the records before the cut (a
    short length prefix is never an error); cut inside a payload it reports a
    short payload at the right index and returns none of the records before
    it. *)
Theorem torn_segment_replay encode decode pre rec p k e :
  (∀ rec p, encode rec = Some p → decode p = Some rec) →
  Forall (small encode) (pre ++ [rec]) → encode rec = Some p →
  (k < length (frame p))%nat → e = EndOfStream ∨ e = ReadFails UnexpectedEof →
  let bs := frames encode pre ++ take k (frame p) in
  read_all decode (S (length bs)) [] (open_reader bs e) =
    Some (if (k <? 4)%nat then Ok (replayed 0 (kept encode pre))
          else Err (TruncatedPayload (Z.of_nat (length p)) 0
                      (foldl (λ j _, sat_add 64 j 1) 0 (kept encode pre)))).
Proof.
  intros Hcodec Hs Hp Hk He bs. apply Forall_app in Hs as [Hs Hr].
  apply Forall_inv in Hr. specialize (Hr p Hp).
  destruct (read_all_total decode (S (length bs)) [] (open_reader bs e)) as [res Hres]; [cbn; lia|].
  eapply (read_all_more decode _ (length (kept encode pre) + S (length bs))) in Hres as Hm; [|lia].
  rewrite Hres, <- Hm. unfold open_reader, bs. rewrite (read_all_frames encode decode) by done.
  cbn [read_all app]. set (i := foldl _ _ _). unfold next_record.
  unfold frame in *. rewrite length_app, length_to_le in Hk. destruct (Nat.ltb_spec k 4).
  - rewrite read_exact_short by (cbn; rewrite length_take, length_app, length_to_le; lia).
    cbn [ending]. by destruct He as [-> | ->].
  - rewrite take_app_ge by (rewrite length_to_le; lia). rewrite length_to_le.
    rewrite <- (length_to_le 4 (Z.of_nat (length p))) at 1. rewrite read_exact_app.
    rewrite from_to_le by lia. cbv zeta. rewrite Nat2Z.id.
    rewrite read_exact_short by (cbn; rewrite length_take; lia). by cbn.
Qed.

(** A janitor sweep keeps the capture directory in bounds: afterwards the
    segments take at most [retention_bytes] and none is older than [max_age];
    only segments go, oldest first, and no more than needed. *)
Theorem sweep_bounds_the_directory now retention max_age dir :
  NoDup (path <$> dir) → Forall (λ f, 0 ≤ size_bytes f) dir →
  total_size (zst_of dir) < 2 ^ 64 → 0 ≤ retention →
  let dir' := sweep_directory (λ _, true) now retention max_age dir in
  let gone f := f ∈ dir ∧ (f ∉ dir') ∧ aged now max_age f = false in
  total_size (zst_of dir') ≤ retention ∧
  (∀ f, f ∈ dir' → f ∈ dir ∧ (is_zst (path f) = true → aged now max_age f = false)) ∧
  (∀ f, f ∈ dir → is_zst (path f) = false → f ∈ dir') ∧
  (∀ f g, gone f → g ∈ zst_of dir' → mtime f ≤ mtime g) ∧
  ((∃ f, gone f) → ∃ f, gone f ∧ retention < size_bytes f + total_size (zst_of dir')).
Proof.
  intros Hd Hs Ht Hr dir' gone.
  destruct (sweep_members now retention max_age dir Hd Hs Ht Hr)
    as (pre & post & Hsort & Hin & Hz & Hsize & Hyoung & Hpost & Hmin).
  fold dir' in Hin, Hz, Hsize.
  assert (∀ f, gone f ↔ f ∈ pre) as Hgone.
  { intros f. unfold gone. rewrite Hin. split.
    - intros (Hf & Hn & Ha). destruct (decide (f ∈ pre)) as [|Hp]; [done|]. destruct Hn.
      split_and!; [done|intros [? _]%elem_of_old; congruence|done].
    - intros Hf. destruct (Hyoung f Hf) as (Ha & ? & ?). split_and!; [done|tauto|done]. }
  split_and!.
  - by rewrite Hsize.
  - intros f (? & Ho & _)%Hin. split; [done|]. intros Hzst. apply not_true_is_false. intros Ha.
    apply Ho, elem_of_old. auto.
  - intros f Hf Hzst. apply Hin. split_and!; [done|intros (_ & ? & _)%elem_of_old; congruence|].
    intros Hp. destruct (Hyoung f Hp) as (_ & ? & _). congruence.
  - intros f g Hf%Hgone Hg%Hz. by apply (sorted_app_le pre post).
  - intros [f Hf%Hgone]. destruct Hmin as [->|(pre' & x & -> & Hx)]; [set_solver|].
    exists x. rewrite Hgone, Hsize, <- total_size_cons. split; [set_solver|done].
Qed.

(** A segment larger than the retention is deleted even when it is the only
    one, which is then the one being written. *)
Lemma lone_segment_evicted now retention max_age f :
  is_zst (path f) = true → 0 ≤ retention < size_bytes f → size_bytes f < 2 ^ 64 →
  sweep_directory (λ _, true) now retention max_age [f] = [].
Proof.
  intros Hz Hr Hf. unfold sweep_directory. rewrite filter_cons, decide_True by done.
  rewrite filter_nil. cbn [drop_aged]. destruct (aged now max_age f).
  - destruct (Z.ltb_spec retention 0); [lia|]. rewrite remove_file_filter by done.
    by rewrite filter_cons_False by (intros Hn; exact (Hn eq_refl)).
  - cbn [drop_aged]. rewrite sat_add_exact by lia. rewrite Z.add_0_l.
    destruct (Z.ltb_spec retention (size_bytes f)); [|lia].
    rewrite filter_cons, filter_nil. cbn [existsb]. rewrite bool_decide_eq_true_2, decide_True by done.
    cbn [sort_by_mtime foldr insert_by_mtime evict]. destruct (Z.leb_spec (size_bytes f) retention); [lia|].
    rewrite remove_file_filter by done. by rewrite filter_cons_False by (intros Hn; exact (Hn eq_refl)).
Qed.

(** The names the writer gives are names the janitor looks at. *)
Lemma segment_path_zst secs n : is_zst (segment_path secs n) = true.
Proof.
  assert (∀ s t e, after_last_dot t = Some e → after_last_dot (s ++ t) = Some e) as Happ.
  { induction s as [|c s IH]; intros t e Ht; [done|]. cbn. by rewrite (IH t e Ht). }
  unfold is_zst, segment_path. apply bool_decide_eq_true.
  change (list_ascii_of_string "bsc-mempool-") with ("b"%char :: list_ascii_of_string "sc-mempool-").
  cbn [app extension]. rewrite app_comm_cons, !app_assoc. by apply Happ.
Qed.

(** ** Instances *)

Module Example.
Definition canonical (n : Z) : CaptureRecord :=
{| cr_first_seen_ns := n; cr_source_seen := [(10, n)]; cr_hash := n; cr_from := 3; rlp := None;
cr_block_number := 0; cr_parent_block_hash := 0; cr_ms_into_block := 0 |}.
(** A codec for records of this shape. *)
Definition encode (rec : CaptureRecord) : option bytes :=
let n := cr_first_seen_ns rec in
if decide (rec = canonical n ∧ 0 ≤ n < 256 ^ Z.of_nat 8) then Some (to_be 8 n) else None.
Definition decode (bs : bytes) : option CaptureRecord := Some (canonical (from_be bs)).
Lemma example_codec rec p : encode rec = Some p → decode p = Some rec.
Proof.
unfold encode, decode. cbv zeta. case_decide as H; [|done]. intros [= <-].
rewrite from_be_to_be_id by apply H. f_equal. symmetry. apply H.
Qed.
Lemma small_encode rec : small encode rec.
Proof.
intros p. unfold encode. cbv zeta. case_decide; [|done]. intros [= <-].
by rewrite length_to_be.
Qed.
Definition tx (n : Z) : PendingTx unit :=
{| p_hash := n; p_from := 3; p_tx := tt; first_seen_ns := n; source_seen := [(10, n)];
p_raw := None; block_context := None |}.
(** The clock reads [t] throughout. *)
Definition io (t : Z) : WriteIo :=
{| at_check := t; opened_at := Some t; finish_ok := true; len_write := None;
payload_write := None |}.
Lemma good t : good_io (io t).
Proof. split_and!; [by eexists|done..]. Qed.
Definition events : list (capture_event unit) :=
[Recv (tx 1) (io 0); Recv (tx 2) (io 50); Lagged 4; Recv (tx 3) (io 120); Shutdown;
Recv (tx 4) (io 130)].
Definition file (name : string) (len t : Z) : File :=
{| path := list_ascii_of_string name; size_bytes := len; mtime := t |}.
Definition dir : list File :=
[file "b.zst" 40 60; file "notes.txt" 500 1; file "a.zst" 30 50; file "old.zst" 5 10;
file "c.zst" 50 70].
End Example.

Lemma capture_replay_roundtrip_witness :
  ∃ w groups, open_writer 100 0 (Some 0) = Some w ∧
    concat groups = [Example.canonical 1; Example.canonical 2; Example.canonical 3] ∧
    length (left_segments (run Example.encode w Example.events (Some 120, true))) = 2%nat ∧
    Forall2 (λ seg g, finished seg = true ∧
      read_all Example.decode (S (length (content seg))) [] (open_reader (content seg) EndOfStream) =
        Some (Ok (replayed 0 (kept Example.encode g))))
      (left_segments (run Example.encode w Example.events (Some 120, true))) groups.
Proof.
  destruct (capture_replay_roundtrip Example.encode Example.decode 100 0 (Some 0) _ Example.events 120
              Example.example_codec eq_refl) as (groups & Hc & Hg & _).
  { repeat constructor; (apply Example.small_encode || by eexists). }
  eexists _, groups. split; [reflexivity|]. split; [exact Hc|]. split; [vm_compute; reflexivity|].
  exact Hg.
Defined.

Lemma torn_segment_replay_witness :
  read_all Example.decode (S (12 + 9)) []
    (open_reader (frames Example.encode [Example.canonical 1] ++ take 9 (frame (to_be 8 2)))
       (ReadFails UnexpectedEof)) = Some (Err (TruncatedPayload 8 0 1)).
Proof.
  exact (torn_segment_replay Example.encode Example.decode [Example.canonical 1] (Example.canonical 2)
    (to_be 8 2) 9 (ReadFails UnexpectedEof) Example.example_codec
    ltac:(repeat constructor; apply Example.small_encode) eq_refl ltac:(vm_compute; lia) (or_intror eq_refl)).
Defined.

Lemma sweep_bounds_the_directory_witness :
  sweep_directory (λ _, true) 110 80 60 Example.dir =
    [Example.file "notes.txt" 500 1; Example.file "c.zst" 50 70] ∧
  total_size (zst_of (sweep_directory (λ _, true) 110 80 60 Example.dir)) ≤ 80.
Proof.
  split; [vm_compute; reflexivity|].
  refine (proj1 (sweep_bounds_the_directory 110 80 60 Example.dir _ _ _ _)).
  - apply (bool_decide_unpack _). vm_compute. exact I.
  - repeat (constructor; [cbn; lia|]). constructor.
  - vm_compute. reflexivity.
  - lia.
Defined.
