(* ===== verification/BlockOracle.v ===== *)
(** * bsc-telemetry/block_oracle.rs: block coverage

    For every new head the oracle counts how many of the block's transactions
    the deduplication table had seen before the block's timestamp, records
    their lead times by block phase, and keeps the running totals the coverage
    gauge is computed from. *)

From Stdlib Require Import ZArith Lia Floats.SpecFloat String.
From S2P Require Import Prelude F64 Bytes Bus.

(** [metric_names::block_phase_label]. *)
Definition block_phase_label (ms_into_block : Z) : string :=
  if ms_into_block <=? 112 then "0_113ms"
  else if ms_into_block <=? 224 then "113_225ms"
  else if ms_into_block <=? 336 then "225_337ms"
  else if ms_into_block <=? 449 then "337_450ms"
  else "past_450ms".

Definition ms_since_unix_ns (first_seen_ns block_ts_ns : Z) : Z :=
  let delta_ns := sat_sub block_ts_ns first_seen_ns in
  let total_ms := delta_ns / 1000000 in
  let mod_ms := total_ms mod 450 in
  unwrap_or (try_from_width 32 mod_ms) (umax 32).

Record AggregateState : Type := {
  blocks_seen : Z;
  txs_in_blocks : Z;
  txs_seen_in_mempool : Z;
}.
Definition default : AggregateState :=
  {| blocks_seen := 0; txs_in_blocks := 0; txs_seen_in_mempool := 0 |}.

(** What [process_block] uses of a block fetched with its hashes. *)
Record Block : Type := { timestamp : Z; hashes : list B256 }.

(** One sample of the two lead-time histograms. *)
Record LeadSample : Type := { lead : f64; phase : string }.

(** The part of the loop body for one hash. *)
Definition sample (d : Dedupe.Dedupe) (block_ts_ns : Z) (h : B256) : option LeadSample :=
  match Dedupe.first_seen_ns d h with
  | Some first =>
      if first <? block_ts_ns then
        Some {| lead := fdiv (f64_of_Z (block_ts_ns - first)) (f64_of_Z 1000000000);
                phase := block_phase_label (ms_since_unix_ns first block_ts_ns) |}
      else None
  | None => None
  end.

(** [process_block]: [None] when the block could not be fetched. *)
Definition process_block (d : Dedupe.Dedupe) (fetched : option Block) (agg : AggregateState) :
    AggregateState * list LeadSample :=
  match fetched with
  | None => (agg, [])
  | Some block =>
      let block_ts_ns := sat_mul 64 (timestamp block) 1000000000 in
      let total := Z.of_nat (length (hashes block)) in
      let samples := omap (sample d block_ts_ns) (hashes block) in
      let covered := Z.of_nat (length samples) in
      ({| blocks_seen := sat_add 64 (blocks_seen agg) 1;
          txs_in_blocks := sat_add 64 (txs_in_blocks agg) total;
          txs_seen_in_mempool := sat_add 64 (txs_seen_in_mempool agg) covered |}, samples)
  end.

(** The gauge the aggregate task sets, if it sets one. *)
Definition coverage_ratio (agg : AggregateState) : option f64 :=
  if 0 <? txs_in_blocks agg
  then Some (fdiv (f64_of_Z (txs_seen_in_mempool agg)) (f64_of_Z (txs_in_blocks agg)))
  else None.

(** The heads of a session, each processed against the table at that moment. *)
Definition oracle_run (agg : AggregateState) (heads : list (Dedupe.Dedupe * option Block)) :
    AggregateState := foldl (λ a '(d, b), (process_block d b a).1) agg heads.

(** ** Lemmas *)

Lemma ms_since_bound first ts : 0 ≤ ms_since_unix_ns first ts < 450.
Proof.
  unfold ms_since_unix_ns, try_from_width. cbv zeta.
  pose proof (Z.mod_pos_bound (sat_sub ts first / 1000000) 450 ltac:(lia)).
  set (m := _ mod 450) in *. destruct (Z.leb_spec 0 m); [|lia].
  destruct (Z.ltb_spec m (2 ^ 32)); cbn; lia.
Qed.

Lemma length_omap_le {A B} (f : A → option B) l : (length (omap f l) ≤ length l)%nat.
Proof. induction l as [|x l IH]; [done|]. cbn. destruct (f x); cbn; lia. Qed.

Lemma process_block_le d b agg :
  txs_seen_in_mempool agg ≤ txs_in_blocks agg →
  txs_seen_in_mempool (process_block d b agg).1 ≤ txs_in_blocks (process_block d b agg).1.
Proof.
  intros H. destruct b as [b|]; [|done]. cbn.
  pose proof (length_omap_le (sample d (sat_mul 64 (timestamp b) 1000000000)) (hashes b)).
  unfold sat_add. lia.
Qed.

Lemma sample_phase d ts h s : sample d ts h = Some s → phase s ≠ "past_450ms"%string.
Proof.
  unfold sample. destruct (Dedupe.first_seen_ns d h) as [first|]; [|done]. case_scrut; [|done].
  intros [= <-]. cbn. pose proof (ms_since_bound first ts). unfold block_phase_label.
  repeat case_scrut; zbool; (done || lia).
Qed.

Lemma omap_length_filter {A B} (f : A → option B) (P : A → Prop) `{∀ x, Decision (P x)} l :
  (∀ x, is_Some (f x) ↔ P x) → length (omap f l) = length (filter P l).
Proof.
  intros Hf. induction l as [|x l IH]; [done|]. rewrite filter_cons. cbn [omap list_omap].
  pose proof (Hf x) as Hx. destruct (f x) as [y|].
  - rewrite decide_True by (apply Hx; by eexists). cbn. by f_equal.
  - rewrite decide_False; [exact IH|]. intros Hp. apply Hx in Hp. by destruct Hp.
Qed.

(** ** Properties *)

(** The transactions of [hs] whose first sighting in [es] precedes [ts]. *)
Definition seen_before {Tx RlpError RecoveryError : Type}
    (dec : bytes → result Tx RlpError) (rec : Tx → result Address RecoveryError)
    (es : list (Pipeline.event (TxEnvelope := Tx))) (ts : Z) (h : B256) : bool :=
  match Pipeline.sightings_of dec rec h es with
  | (_, t) :: _ => t <? ts
  | [] => false
  end.

(** Coverage against the bus: with the table a pipeline run has built, a
    block adds to the coverage count exactly its transactions whose first
    sighting precedes the block's timestamp in whole seconds, to the total all
    of them, and records one lead time for each covered one, never in the
    tail bucket [past_450ms]. *)
Theorem coverage_counts_early_sightings {Tx RlpError RecoveryError : Type}
    (dec : bytes → result Tx RlpError) (rec : Tx → result Address RecoveryError) ttl es block agg :
  Forall (λ e, Pipeline.is_janitor e = false) es →
  timestamp block * 1000000000 < 2 ^ 64 →
  let p0 := {| Pipeline.dedupe := {| Dedupe.map := ∅; Dedupe.ttl_ns := ttl |};
               Pipeline.block_state := CurrentBlock.default; Pipeline.bus := [] |} in
  let d := Pipeline.dedupe (Pipeline.run dec rec p0 es) in
  let covered := filter (λ h, seen_before dec rec es (timestamp block * 1000000000) h = true)
                   (hashes block) in
  let '(agg', samples) := process_block d (Some block) agg in
  txs_seen_in_mempool agg' = sat_add 64 (txs_seen_in_mempool agg) (Z.of_nat (length covered)) ∧
  txs_in_blocks agg' = sat_add 64 (txs_in_blocks agg) (Z.of_nat (length (hashes block))) ∧
  length samples = length covered ∧
  Forall (λ s, phase s ≠ "past_450ms"%string) samples.
Proof.
  intros Hes Hts p0 d covered. unfold process_block.
  assert (sat_mul 64 (timestamp block) 1000000000 = timestamp block * 1000000000) as ->
    by (unfold sat_mul, umax; lia).
  set (ts := timestamp block * 1000000000) in *.
  assert (length (omap (sample d ts) (hashes block)) = length covered) as Hlen.
  { apply omap_length_filter. intros h. unfold sample, seen_before, Dedupe.first_seen_ns.
    pose proof (Pipeline.run_refines_sightings dec rec ttl es h Hes) as Hd.
    change (Dedupe.map d !! h = Pipeline.entry_of ttl (Pipeline.sightings_of dec rec h es)) in Hd. rewrite Hd.
    destruct (Pipeline.sightings_of dec rec h es) as [|[s t] seen]; cbn.
    - split; [by intros [? ?]|done].
    - destruct (t <? ts); split; (done || by intros [? ?] || by eexists). }
  cbv zeta. rewrite <- Hlen. split_and!; try done.
  apply Forall_forall. intros s (h & _ & Hs)%list_elem_of_omap. by apply (sample_phase d ts h).
Qed.

(** The coverage gauge is a fraction: over any session, whatever the
    tables and the blocks, and saturation included, the count of seen
    transactions never exceeds the count of mined ones; no gauge is set before
    a block with transactions. *)
Theorem coverage_is_a_fraction heads :
  let agg := oracle_run default heads in
  txs_seen_in_mempool agg ≤ txs_in_blocks agg ∧
  0 ≤ txs_seen_in_mempool agg ∧ in_width 64 (txs_in_blocks agg) ∧
  (coverage_ratio agg = None ↔ txs_in_blocks agg = 0).
Proof.
  intros agg. unfold coverage_ratio.
  assert (txs_seen_in_mempool agg ≤ txs_in_blocks agg ∧ 0 ≤ txs_seen_in_mempool agg ∧
    in_width 64 (txs_in_blocks agg)) as (? & ? & ?).
  { unfold agg. induction heads as [|[d b] heads IH] using rev_ind; [by vm_compute|].
    unfold oracle_run in *. rewrite foldl_app. cbn [foldl].
    set (a := foldl _ _ heads) in *. destruct IH as (H1 & H2 & H3).
    split; [by apply process_block_le|]. destruct b as [b|]; [|done]. cbn.
    unfold sat_add, in_width, umax in *. lia. }
  split_and!; try done. destruct (Z.ltb_spec 0 (txs_in_blocks agg)); split; (done || lia).
Qed.

(** ** Instances *)

Module Example.
Definition dec (_ : bytes) : result Z Z := Ok 0.
Definition rec (tx : Z) : result Address Z := Ok tx.
Definition raw (h t : Z) : Core.RawTx Z :=
{| Core.raw_source := Core.LOCAL_IPC; Core.raw_recv_ns := t; Core.raw_hash := h;
Core.raw_payload := Core.Decoded 7 None |}.
Definition events : list (Pipeline.event (TxEnvelope := Z)) :=
[Pipeline.Deliver (raw 1 4999000000); Pipeline.Deliver (raw 2 5100000000);
Pipeline.Deliver (raw 1 4999900000)].
Definition block : Block := {| timestamp := 5; hashes := [1; 2; 3] |}.
End Example.

(** Of three mined transactions one was seen before second 5, one during that
    second, which does not count, and one never. *)
Lemma coverage_counts_early_sightings_witness :
  let p0 := {| Pipeline.dedupe := {| Dedupe.map := ∅; Dedupe.ttl_ns := 60 |};
               Pipeline.block_state := CurrentBlock.default; Pipeline.bus := [] |} in
  let d := Pipeline.dedupe (Pipeline.run Example.dec Example.rec p0 Example.events) in
  txs_seen_in_mempool (process_block d (Some Example.block) default).1 = 1.
Proof.
  refine (proj1 (coverage_counts_early_sightings Example.dec Example.rec 60 Example.events
    Example.block default _ _)); [by repeat constructor|by vm_compute].
Defined.
