(* ===== verification/Sniper.v ===== *)
(** * bsc-runner/dev_sniper.rs: the launch sniper

    The handler of a launchpad [TokenCreate] log (the scan for the token's
    address, the whitelist, the size, the duplicate guard, the buy through the
    executor, the position) and the per-block tick of a sniped position, which
    runs the adaptive trail's state machine on it.

    The executor is used through the class [BuyHost]; the node's answers, the
    clock and the parsed whitelist are arguments. *)

From Stdlib Require Import ZArith Lia Floats.SpecFloat Strings.Byte Ascii String.
From S2P Require Import Prelude F64 Bytes Dex Types Limits FourMeme ExecMath Executor Trail.

(** ** State *)

Record SniperConfig : Type := {
  mode : string;
  trade_size_usd : f64;
  trade_size_bnb_wei : string;
}.

Record SnipePosition : Type := {
  sp_dev : Address;
  sp_bnb_in_wei : Z;
  sp_opened_block : Z;
  sp_trail : option TrailState;
}.

Record Sniper (H : Type) : Type := {
  sn_positions : gmap Address SnipePosition;
  sn_exec : option H;
}.
Arguments sn_positions {H} _.
Arguments sn_exec {H} _.

(** What the sniper asks of the live executor. *)
Class BuyHost (H : Type) : Type := {
  open_positions : H → Z;
  host_buy : Env → H → Decision → string → Z → H;
}.
#[export] Instance executor_buys : BuyHost LiveExecutor := {|
  open_positions s := open_count (ledger s);
  host_buy := execute;
|}.

(** A log of the subscription; [lc_signer] is the signer of the transaction it
    names, when the node returns that transaction. *)
Record CreateLog : Type := {
  lc_tx_hash : option B256;
  lc_signer : option Address;
  lc_data : bytes;
  lc_block : option Z;
}.

(** ** Sizing and the token's address *)

Definition parse_bnb_wei (s : string) : option Z :=
  let trimmed := trim (list_ascii_of_string s) in
  if bool_decide (trimmed = []) || bool_decide (trimmed = ["0"%char]) then None
  else
    v ← parse_u128 trimmed;
    if 0 <? v then Some v else None.

(** The closure of the [filter_map]: a word that looks like an address. *)
Definition address_word_of (chunk : bytes) : option Address :=
  if negb (all_zero (take 12 chunk)) then None
  else if all_zero (take 4 (drop 12 chunk)) then None
  else Some (from_be (drop 12 chunk)).

Definition find_token (data : bytes) (creator : Address) : option Address :=
  head (filter (λ a, a ≠ creator ∧ a ≠ FOURMEME_LAUNCHPAD)
          (omap address_word_of (chunks_exact32 data))).

(** The amount of a snipe: pinned, or from the price; [None] when there is no
    price. *)
Definition snipe_size (cfg : SniperConfig) (bnb_usd : option f64) : option Z :=
  match parse_bnb_wei (trade_size_bnb_wei cfg) with
  | Some pinned => Some pinned
  | None =>
      let bnb_usd := unwrap_or bnb_usd f0 in
      if fle bnb_usd f0 then None
      else Some (f64_to_uint 128 (fmul (fdiv (trade_size_usd cfg) bnb_usd) f1e18))
  end.

(** [format!("SNIPE_{}", &format!("{creator:#x}")[..10])]. *)
Definition snipe_name (creator : Address) : string :=
  String.append "SNIPE_" (string_of_list_ascii (take 10 (address_hex creator))).

(** ** The log handler *)

Inductive handler_error : Type :=
| NoTxHash | NoTransaction | DataTooShort | NoTokenAddress.

Section Handlers.
Context {H : Type} `{BuyHost H}.

Definition snipe_decision (log : CreateLog) (hash : B256) (creator token : Address) (wei : Z) :
Decision := Enter (snipe_name creator) token wei 0 (unwrap_or (lc_block log) 0) hash.

Definition open_position (s : Sniper H) (log : CreateLog) (creator token : Address) (wei : Z) :
Sniper H :=
{| sn_positions := <[token := {| sp_dev := creator; sp_bnb_in_wei := wei;
                     sp_opened_block := unwrap_or (lc_block log) 0;
                     sp_trail := None |}]> (sn_positions s);
sn_exec := sn_exec s |}.

Definition handle_log (cfg : SniperConfig) (devs : gset Address) (env : Env)
(bnb_usd : option f64) (s : Sniper H) (log : CreateLog) : Sniper H * result unit handler_error :=
match lc_tx_hash log with
| None => (s, Err NoTxHash)
| Some hash =>
match lc_signer log with
| None => (s, Err NoTransaction)
| Some creator =>
if (length (lc_data log) <? 32)%nat then (s, Err DataTooShort)
else
match find_token (lc_data log) creator with
| None => (s, Err NoTokenAddress)
| Some token =>
  if negb (bool_decide (creator ∈ devs)) then (s, Ok tt)
  else
    match snipe_size cfg bnb_usd with
    | None => (s, Ok tt)
    | Some wei =>
        if bool_decide (is_Some (sn_positions s !! token)) then (s, Ok tt)
        else if String.eqb (mode cfg) "live" then
          match sn_exec s with
          | None => (s, Ok tt)
          | Some h =>
              let h' := host_buy env h (snipe_decision log hash creator token wei)
                          "public" (open_positions h) in
              (open_position {| sn_positions := sn_positions s; sn_exec := Some h' |}
                 log creator token wei, Ok tt)
          end
        else (open_position s log creator token wei, Ok tt)
    end
end
end
end.

(** ** The per-block tick *)

(** What the outside answers during a tick of one position. *)
Record SnipeTick : Type := {
st_prices : gmap Address PricePoint;
st_v2 : option bytes;
st_logs : Z → Z → option (list TransferLog);
}.

Variable parse_u256_hex : list ascii → option U256.

Definition remove_position (s : Sniper H) (token : Address) : Sniper H :=
{| sn_positions := delete token (sn_positions s); sn_exec := sn_exec s |}.
Definition set_trail (s : Sniper H) (token : Address) (pos : SnipePosition) (t : TrailState) :
Sniper H :=
{| sn_positions := <[token := {| sp_dev := sp_dev pos; sp_bnb_in_wei := sp_bnb_in_wei pos;
                     sp_opened_block := sp_opened_block pos;
                     sp_trail := Some t |}]> (sn_positions s);
sn_exec := sn_exec s |}.

(** The state captured at the first price. *)
Definition captured (pos : SnipePosition) (p : f64) (block_n : Z) : TrailState :=
{| entry_price := p; peak_price := p; last_price := p; armed := false;
opened_block := Z.max (sp_opened_block pos) (sat_sub block_n 1);
last_observed_block := block_n; price_history := replicate PRICE_HISTORY_LEN f0;
history_count := 0; history_idx := 0; breakeven_ratcheted := false |}.

(** [process_sniper_position]; [None]: the price query panicked. *)
Definition process_sniper_position (tc : TrailConfig) (tick : SnipeTick) (s : Sniper H)
(token : Address) (pos : SnipePosition) (block_n : Z) : option (Sniper H) :=
let scan_floor := Z.max (sp_opened_block pos) (sat_sub block_n (max_hold_blocks tc)) in
let from := match sp_trail pos with Some _ => sat_sub block_n 4 | None => scan_floor end in
price ← get_latest_price_cached parse_u256_hex (st_prices tick) CACHE_MAX_STALE_BLOCKS
(st_v2 tick) (st_logs tick) token from block_n;
match sp_trail pos, price with
| None, None =>
if max_hold_blocks tc <=? sat_sub block_n (sp_opened_block pos)
then Some (remove_position s token) else Some s
| None, Some p => Some (set_trail s token pos (captured pos p block_n))
| Some state, _ =>
let current_price := unwrap_or price (last_price state) in
match step tc current_price block_n state with
| (_, Some _) => Some (remove_position s token)
| (state', None) => Some (set_trail s token pos state')
end
end.

(** A block of the trail loop: every position of the snapshot, each by its own
task, in some order. *)
Definition on_head (tc : TrailConfig) (tick : Address → SnipeTick)
(order : list (Address * SnipePosition) → list (Address * SnipePosition))
(s : Sniper H) (block_n : Z) : option (Sniper H) :=
foldl (λ s '(token, pos), s ← s; process_sniper_position tc (tick token) s token pos block_n)
(Some s) (order (map_to_list (sn_positions s))).

(** ** The sniper's run *)

Inductive event : Type :=
| Log (env : Env) (bnb_usd : option f64) (log : CreateLog)
| Head (tick : Address → SnipeTick)
(order : list (Address * SnipePosition) → list (Address * SnipePosition)) (block_n : Z).

Definition sniper_step (cfg : SniperConfig) (devs : gset Address) (tc : TrailConfig)
(s : Sniper H) (e : event) : option (Sniper H) :=
match e with
| Log env usd log => Some (handle_log cfg devs env usd s log).1
| Head tick order n => on_head tc tick order s n
end.

Definition sniper_run (cfg : SniperConfig) (devs : gset Address) (tc : TrailConfig)
(s : Sniper H) (es : list event) : option (Sniper H) :=
foldl (λ s e, s ← s; sniper_step cfg devs tc s e) (Some s) es.

End Handlers.

(** ** Lemmas *)

Section Proofs.
Context {H : Type} `{BuyHost H} (pu : list ascii → option U256).

(** A buy of the sniper, as the executor sees it. *)
Definition snipe_buy (h : H) (b : Env * Decision) : H :=
host_buy b.1 h b.2 "public" (open_positions h).

Definition trusted (devs : gset Address) (d : Decision) : Prop :=
∃ creator token wei block hash,
d = Enter (snipe_name creator) token wei 0 block hash ∧ creator ∈ devs ∧
token ≠ creator ∧ token ≠ FOURMEME_LAUNCHPAD.

Lemma find_token_spec data creator token :
find_token data creator = Some token →
token ≠ creator ∧ token ≠ FOURMEME_LAUNCHPAD ∧
∃ chunk, chunk ∈ chunks_exact32 data ∧ address_word_of chunk = Some token.
Proof.
unfold find_token. intros Hh%head_Some_elem_of. apply list_elem_of_filter in Hh as [[? ?] Hin].
apply list_elem_of_omap in Hin as (chunk & ? & ?). split_and!; [done..|by exists chunk].
Qed.

(** One log: nothing happens, or a trusted creator's new token is bought (in
live mode) and its position opened. *)
Lemma handle_log_cases cfg devs env usd (s : Sniper H) log :
(handle_log cfg devs env usd s log).1 = s ∨
∃ hash creator token wei,
lc_tx_hash log = Some hash ∧ lc_signer log = Some creator ∧ creator ∈ devs ∧
find_token (lc_data log) creator = Some token ∧ snipe_size cfg usd = Some wei ∧
sn_positions s !! token = None ∧
let d := snipe_decision log hash creator token wei in
let exec' := if String.eqb (mode cfg) "live" then (λ h, snipe_buy h (env, d)) <$> sn_exec s
   else sn_exec s in
(mode cfg = "live"%string → is_Some (sn_exec s)) ∧
(handle_log cfg devs env usd s log).1 =
open_position {| sn_positions := sn_positions s; sn_exec := exec' |} log creator token wei.
Proof.
unfold handle_log.
destruct (lc_tx_hash log) as [hash|] eqn:?; [|by left].
destruct (lc_signer log) as [creator|] eqn:?; [|by left].
destruct (length (lc_data log) <? 32)%nat; [by left|].
destruct (find_token (lc_data log) creator) as [token|] eqn:?; [|by left].
case_bool_decide as Hdev; cbn [negb]; [|by left].
destruct (snipe_size cfg usd) as [wei|] eqn:?; [|by left].
case_bool_decide as Hnew; [by left|]. apply eq_None_not_Some in Hnew.
destruct (String.eqb_spec (mode cfg) "live") as [Hm|Hm].
- destruct (sn_exec s) as [h|] eqn:?; [right|by left].
exists hash, creator, token, wei. rewrite Hm. by split_and!.
- right. exists hash, creator, token, wei. by split_and!; destruct s.
Qed.

(** A tick touches its own token only and never the executor. *)
Lemma process_frame tc tick (s s' : Sniper H) token pos n :
process_sniper_position pu tc tick s token pos n = Some s' →
sn_exec s' = sn_exec s ∧ ∀ k, k ≠ token → sn_positions s' !! k = sn_positions s !! k.
Proof.
unfold process_sniper_position. cbv zeta. destruct (get_latest_price_cached _ _ _ _ _ _ _ _) as [price|];
[|done]. cbn [mbind option_bind].
assert (∀ k, k ≠ token → sn_positions (remove_position s token) !! k = sn_positions s !! k) as Hr
by (intros; cbn; by rewrite lookup_delete_ne).
assert (∀ t k, k ≠ token → sn_positions (set_trail s token pos t) !! k = sn_positions s !! k) as Ht
by (intros; cbn; by rewrite lookup_insert_ne).
destruct (sp_trail pos) as [st|]; [|destruct price as [p|]].
- destruct (step tc _ n st) as [st' [r|]]; intros [= <-]; auto.
- intros [= <-]; auto.
- destruct (_ <=? _); intros [= <-]; auto.
Qed.

(** The age of a position, from its opening, or from its first price once it
has one. *)
Definition age_blocks (pos : SnipePosition) (n : Z) : Z :=
sat_sub n match sp_trail pos with Some st => opened_block st | None => sp_opened_block pos end.

Lemma process_age tc tick (s s' : Sniper H) token pos n :
1 < max_hold_blocks tc →
process_sniper_position pu tc tick s token pos n = Some s' →
sn_positions s !! token = Some pos →
∀ pos', sn_positions s' !! token = Some pos' → age_blocks pos' n < max_hold_blocks tc.
Proof.
intros Hm. unfold process_sniper_position. cbv zeta.
destruct (get_latest_price_cached _ _ _ _ _ _ _ _) as [price|]; [|done]. cbn [mbind option_bind].
assert (∀ pos', sn_positions (remove_position s token) !! token = Some pos' → False) as Hr
by (intros pos'; cbn; by rewrite lookup_delete_eq).
intros Hp Hs pos' Hpos'. destruct (sp_trail pos) as [st|] eqn:Est; [|destruct price as [p|]].
- unfold step in Hp. destruct (exit_reason tc _ n _) as [r|] eqn:Er; injection Hp as <-.
{ by apply Hr in Hpos'. }
cbn in Hpos'. rewrite lookup_insert_eq in Hpos'. injection Hpos' as <-.
unfold age_blocks. cbn [sp_trail].
destruct (Z.ltb_spec (sat_sub n (opened_block (observe tc (unwrap_or price (last_price st)) n st)))
  (max_hold_blocks tc)) as [?|Hge]; [done|].
destruct (exit_reason_timeout tc (unwrap_or price (last_price st)) n _ Hge) as [r Hr']. congruence.
- injection Hp as <-. cbn in Hpos'. rewrite lookup_insert_eq in Hpos'. injection Hpos' as <-.
unfold age_blocks. cbn [sp_trail captured opened_block]. unfold sat_sub. lia.
- destruct (Z.leb_spec (max_hold_blocks tc) (sat_sub n (sp_opened_block pos))); injection Hp as <-.
+ by apply Hr in Hpos'.
+ rewrite Hs in Hpos'. injection Hpos' as <-. unfold age_blocks. by rewrite Est.
Qed.

Lemma foldl_None {A B} (f : A → B → option A) l :
foldl (λ s x, s ← s; f s x) None l = None.
Proof. by induction l. Qed.

Lemma on_head_exec tc tick (l : list (Address * SnipePosition)) (s s' : Sniper H) n :
foldl (λ s '(token, pos), s ← s; process_sniper_position pu tc (tick token) s token pos n)
(Some s) l = Some s' →
sn_exec s' = sn_exec s ∧ ∀ k, k ∉ l.*1 → sn_positions s' !! k = sn_positions s !! k.
Proof.
revert s. induction l as [|[token pos] l IH]; intros s Hs; [by injection Hs as <-|].
cbn [foldl mbind option_bind] in Hs.
destruct (process_sniper_position pu tc (tick token) s token pos n) as [s1|] eqn:E1.
- apply process_frame in E1 as [He Hk]. apply IH in Hs as [He' Hk']. split; [congruence|].
cbn. intros k [? ?]%not_elem_of_cons. rewrite Hk' by done. by apply Hk.
- exfalso. clear -Hs. induction l as [|[? ?] l IH]; [done|]. by apply IH.
Qed.

Lemma on_head_age tc tick (l : list (Address * SnipePosition)) (s s' : Sniper H) n :
1 < max_hold_blocks tc → NoDup l.*1 →
(∀ token pos, (token, pos) ∈ l → sn_positions s !! token = Some pos) →
foldl (λ s '(token, pos), s ← s; process_sniper_position pu tc (tick token) s token pos n)
(Some s) l = Some s' →
∀ token pos', token ∈ l.*1 → sn_positions s' !! token = Some pos' →
age_blocks pos' n < max_hold_blocks tc.
Proof.
intros Hm. revert s. induction l as [|[t pos] l IH]; intros s Hnd Hl Hs token pos' Hin Hpos'.
{ by apply elem_of_nil in Hin. }
cbn [foldl mbind option_bind] in Hs. cbn in Hnd, Hin. apply NoDup_cons in Hnd as [Hnt Hnd].
destruct (process_sniper_position pu tc (tick t) s t pos n) as [s1|] eqn:E1.
2: { exfalso. clear -Hs. induction l as [|[? ?] l IH]; [done|]. by apply IH. }
apply elem_of_cons in Hin as [->|Hin].
- apply on_head_exec in Hs as [_ Hk]. rewrite Hk in Hpos' by done.
eapply process_age; [done|exact E1|apply Hl; by left|done].
- eapply (IH s1); [done| |exact Hs|exact Hin|exact Hpos'].
intros token' p' Hin'. destruct (process_frame _ _ _ _ _ _ _ E1) as [_ Hk].
rewrite Hk; [apply Hl; by right|]. intros ->. apply Hnt, list_elem_of_fmap.
by exists (t, p').
Qed.

End Proofs.

#[local] Instance call_eq_dec : EqDecision call.
Proof. solve_decision. Defined.
#[local] Instance Tx_eq_dec : EqDecision Tx.
Proof. solve_decision. Defined.

(** A name outside the whitelist sends nothing. *)
Lemma execute_not_whitelisted env (h : LiveExecutor) kol token wei kin blk hash vis n :
  kol ∉ whitelist (limits_rt h) →
  wire (execute env h (Enter kol token wei kin blk hash) vis n) = wire h.
Proof.
  intros Hwl. unfold execute. destruct (dup_guard h token) as [h1|] eqn:Ed; [|done].
  apply dup_guard_spec in Ed as (_ & p & ->). set (h1 := set_positions _ _ _ _).
  destruct (size_buy _ _ _ _) as [sized|]; [|done].
  destruct (check_blacklisted _ _); [done|]. destruct (clamp_buy _ _) as [f amount].
  destruct (decide (wire (gated_buy env h1 kol vis token f amount n) = wire h1)) as [->|Hne]; [done|].
  destruct (gated_buy_sends _ _ _ _ _ _ _ _ Hne) as (t & ok & _ & _ & [_ [gwei Hc] _ _ _ _ _]).
  unfold check in Hc. cbn [snd] in Hc. apply gate_ok in Hc as (_ & _ & Hin & _).
  cbn [t_kol_name] in Hin. destruct Hwl. clear -Hin. unfold maybe_reset_day in Hin.
  cbv zeta in Hin. by destruct (_ =? _) in Hin.
Qed.

(** ** Properties *)


(** A live snipe goes through the copy trader's gate: when the name
    ["SNIPE_0x…"] of its developer is not in the KOL whitelist nothing is sent,
    yet the sniper opens a position as if it had bought. *)
Theorem live_snipe_stops_at_the_whitelist cfg devs env usd (s : Sniper LiveExecutor) log h
    hash creator token wei :
  mode cfg = "live"%string → sn_exec s = Some h →
  lc_tx_hash log = Some hash → lc_signer log = Some creator → creator ∈ devs →
  (32 ≤ length (lc_data log))%nat → find_token (lc_data log) creator = Some token →
  snipe_size cfg usd = Some wei → sn_positions s !! token = None →
  snipe_name creator ∉ whitelist (limits_rt h) →
  let s' := (handle_log cfg devs env usd s log).1 in
  (wire <$> sn_exec s') = Some (wire h) ∧ is_Some (sn_positions s' !! token).
Proof.
  intros Hm Hh H1 H2 Hd Hl Ht Hw Hn Hwl. unfold handle_log. rewrite H1, H2, Ht, Hw, Hn, Hm, Hh.
  destruct (Nat.ltb_spec (length (lc_data log)) 32); [lia|].
  rewrite bool_decide_eq_true_2 by done. cbn [negb].
  rewrite bool_decide_eq_false_2 by (by intros [? ?]). cbn.
  split; [|rewrite lookup_insert_eq; by eexists]. f_equal.
  by apply (execute_not_whitelisted env h (snipe_name creator) token wei 0
             (unwrap_or (lc_block log) 0) hash).
Qed.

(** No sniped position outlives its limit: after every block, in
    whatever order the positions are evaluated and whatever the prices, a
    position still tracked has been open for less than [max_hold_blocks]
    blocks, counted from its first price once it has one. *)
Theorem sniper_positions_expire {H : Type} `{BuyHost H} pu tc tick order (s s' : Sniper H) n :
  1 < max_hold_blocks tc → (∀ l, order l ≡ₚ l) →
  on_head pu tc tick order s n = Some s' →
  ∀ token pos, sn_positions s' !! token = Some pos → age_blocks pos n < max_hold_blocks tc.
Proof.
  intros Hm Hord Hs token pos Hpos. unfold on_head in Hs.
  set (l := order (map_to_list (sn_positions s))) in *.
  assert (l ≡ₚ map_to_list (sn_positions s)) as Hl by apply Hord.
  destruct (decide (token ∈ l.*1)) as [Hin|Hnin].
  - eapply on_head_age; [done| | |exact Hs|exact Hin|exact Hpos].
    + rewrite Hl. apply NoDup_fst_map_to_list.
    + intros k p. rewrite Hl. by rewrite elem_of_map_to_list.
  - apply on_head_exec in Hs as [_ Hk]. rewrite (Hk token Hnin) in Hpos. destruct Hnin.
    apply list_elem_of_fmap. exists (token, pos). split; [done|]. rewrite Hl.
    by apply elem_of_map_to_list.
Qed.

(** ** Instances *)

Module Example.
Definition meme : Address := 0xa0431c1800000000000000000000000000000001.
Definition dev : Address := 0xbb00000000000000000000000000000000000002.
Definition cfg (m : string) : SniperConfig :=
{| mode := m; trade_size_usd := f64_of_Z 10; trade_size_bnb_wei := " 27100000000000000" |}.
(** The event names its creator, then the token, then a small number. *)
Definition log : CreateLog :=
{| lc_tx_hash := Some 5; lc_signer := Some dev;
lc_data := address_word dev ++ address_word meme ++ word 3; lc_block := Some 100 |}.
(** An executor whose whitelist has the sniper's name for that developer. *)
Definition snipes_allowed : LiveExecutor :=
let h := Executor.Example.funded in
let r := limits_rt h in
set_limits h {| Limits.cfg := Limits.cfg r; Limits.whitelist := {[ snipe_name dev ]};
      Limits.state := Limits.state r |}.
Definition idle : Sniper LiveExecutor :=
{| sn_positions := ∅; sn_exec := Some snipes_allowed |}.
Definition quiet (_ : Address) : SnipeTick :=
{| st_prices := ∅; st_v2 := None; st_logs := λ _ _, None |}.
Definition priced (p n : Z) (_ : Address) : SnipeTick :=
{| st_prices := {[ meme := {| pp_block := n; price := f64_of_Z p |} ]}; st_v2 := None;
st_logs := λ _ _, None |}.
Definition events : list event :=
[Log (Executor.Example.env None) None log; Log (Executor.Example.env None) None log;
Head (priced 10 101) id 101; Head (priced 5 102) id 102].
Definition pu := from_str_radix16 256.
Definition session : option (Sniper LiveExecutor) :=
sniper_run pu (cfg "live") {[ dev ]} default_trail idle events.
Lemma forgotten : (λ s, sn_positions s !! meme) <$> session = Some None.
Proof. vm_compute. reflexivity. Qed.
End Example.


Lemma live_snipe_stops_at_the_whitelist_witness :
  ∃ s', (handle_log (Example.cfg "live") {[ Example.dev ]} (Executor.Example.env None) None
      {| sn_positions := ∅; sn_exec := Some Executor.Example.funded |} Example.log).1 = s' ∧
    (wire <$> sn_exec s') = Some (wire Executor.Example.funded) ∧
    is_Some (sn_positions s' !! Example.meme).
Proof.
  eexists. split; [reflexivity|].
  apply (live_snipe_stops_at_the_whitelist (Example.cfg "live") {[ Example.dev ]}
    (Executor.Example.env None) None
    {| sn_positions := ∅; sn_exec := Some Executor.Example.funded |} Example.log
    Executor.Example.funded 5 Example.dev Example.meme 27100000000000000);
    try reflexivity; try (vm_compute; reflexivity); try (vm_compute; exact I).
  - vm_compute. lia.
  - apply (bool_decide_unpack _). vm_compute. exact I.
Defined.

Lemma sniper_positions_expire_witness :
  ∃ s s', (handle_log (Example.cfg "paper") {[ Example.dev ]} (Executor.Example.env None) None
      Example.idle Example.log).1 = s ∧
    on_head Example.pu default_trail Example.quiet id s 4099 = Some s' ∧
    ∀ token pos, sn_positions s' !! token = Some pos → age_blocks pos 4099 < 4000.
Proof.
  set (s := (handle_log (Example.cfg "paper") {[ Example.dev ]} (Executor.Example.env None) None
      Example.idle Example.log).1).
  destruct (on_head Example.pu default_trail Example.quiet id s 4099) as [s'|] eqn:E;
    [|vm_compute in E; discriminate E].
  exists s, s'. split; [reflexivity|]. split; [exact E|].
  apply (sniper_positions_expire Example.pu default_trail Example.quiet id s s' 4099);
    [vm_compute; reflexivity|done|exact E].
Defined.
