(* ===== verification/Services.v ===== *)
(** * bsc-runner: the market services

    Module [Flow] is token_flow.rs, the watcher of pending transactions that
    touch a held token.  Module [BnbPrice] is bnb_price.rs, the cached price of
    BNB.  Module [Resolver] is token_resolver.rs, the cached token metadata and
    the formatting of amounts.  Module [Mcap] is mcap.rs, the pool price and
    supply.  Module [Oracle] is price_oracle.rs, the liquidity poller.

    A node's answers to [eth_call] and the clock are arguments. *)

From Stdlib Require Import ZArith Lia Floats.SpecFloat Strings.Byte Ascii String.
From S2P Require Import Prelude F64 Bytes Dex Bus Types Trail PaperPrice Kol Paper.
From S2P Require Fanout.

Local Abbreviation text := (list ascii) (only parsing).

(** ** token_flow.rs *)

Module Flow.

(** A 32-byte word that is a held address. *)
Definition held_word (held : gmap Address HeldMeta) (w : bytes) : option Address :=
if all_zero (take 12 w) && negb (all_zero (take 4 (drop 12 w))) then
let a := from_be (drop 12 w) in
if bool_decide (is_Some (held !! a)) then Some a else None
else None.

Definition body (input : bytes) : bytes :=
if (4 <? length input)%nat then drop 4 input else input.

Definition referenced_held (held : gmap Address HeldMeta) (input : bytes) (value : U256)
: option (Address * option string) :=
let generic := (λ a, (a, None)) <$> head (omap (held_word held) (chunks_exact32 (body input))) in
match Gmgn.decode input value with
| Some g =>
if bool_decide (is_Some (held !! Gmgn.token g))
then Some (Gmgn.token g, Some (Gmgn.as_str (Gmgn.side g)))
else generic
| None => generic
end.

(** What [process] reports. *)
Record FlowReport : Type := {
fr_symbol : string;
fr_token : Address;
fr_held_kol : string;
fr_from : Address;
fr_side : string;
fr_value_bnb : f64;
fr_hash : B256;
}.

(** [wei_to_bnb]: the decimal digits parsed back as a double. *)
Definition wei_to_bnb (v : U256) : f64 := fdiv (f64_of_Z v) f1e18.

Definition process {Tx : Type} (view : Tx → Watch.TxView) (held : gmap Address HeldMeta)
(p : Core.PendingTx Tx) : option FlowReport :=
if bool_decide (held = ∅) then None
else
let tx := view (Core.p_tx p) in
ts ← referenced_held held (Watch.v_input tx) (Watch.v_value tx);
meta ← held !! ts.1;
let bnb := wei_to_bnb (Watch.v_value tx) in
Some {| fr_symbol := hm_symbol meta; fr_token := ts.1; fr_held_kol := hm_kol_name meta;
fr_from := Core.p_from p;
fr_side := unwrap_or ts.2 (if fgt bnb f0 then "BUY?" else "?")%string;
fr_value_bnb := bnb; fr_hash := Core.p_hash p |}.

(** The loop of [token_flow::start] on its subscription, the held set being
what it is at that moment; the reports so far. *)
Definition start {Tx : Type} `{!Fanout.Broadcast (Core.PendingTx Tx)} (view : Tx → Watch.TxView)
(held : gmap Address HeldMeta) (b : Fanout.Bus (Core.PendingTx Tx)) (n : nat)
(sub : Fanout.Subscription (Core.PendingTx Tx)) (reports : list FlowReport) :
Fanout.Subscription (Core.PendingTx Tx) * list FlowReport * bool :=
Fanout.turns (λ rs p, rs ++ option_list (process view held p)) b n sub reports.

(** The calldata names the address: the GMGN decoder finds it, or a word of
the body is that address with a non-zero top quarter. *)
Definition names (held : gmap Address HeldMeta) (input : bytes) (value : U256) (a : Address) : Prop :=
(∃ g, Gmgn.decode input value = Some g ∧ Gmgn.token g = a) ∨
(∃ w, w ∈ chunks_exact32 (body input) ∧ all_zero (take 12 w) = true ∧
all_zero (take 4 (drop 12 w)) = false ∧ from_be (drop 12 w) = a).

Lemma held_word_spec held w a :
held_word held w = Some a ↔
is_Some (held !! a) ∧ all_zero (take 12 w) = true ∧ all_zero (take 4 (drop 12 w)) = false ∧
from_be (drop 12 w) = a.
Proof.
unfold held_word. destruct (all_zero (take 12 w)), (all_zero (take 4 (drop 12 w))); cbn [andb negb];
try (split; [done|by intros (_ & ? & ? & _)]).
case_bool_decide as Hh; split.
- intros [= <-]. by split_and!.
- intros (_ & _ & _ & <-). done.
- done.
- intros (Ha & _ & _ & <-). done.
Qed.

Lemma head_omap_Some {A B} (f : A → option B) l :
is_Some (head (omap f l)) ↔ ∃ x, x ∈ l ∧ is_Some (f x).
Proof.
split.
- intros [y Hy%head_Some_elem_of]. apply list_elem_of_omap in Hy as (x & ? & ?). by eauto.
- intros (x & Hx & y & Hy). assert (y ∈ omap f l) as Hin by (apply list_elem_of_omap; eauto).
destruct (omap f l); [by apply elem_of_nil in Hin|by eexists].
Qed.

Lemma referenced_held_sound held input value a side :
referenced_held held input value = Some (a, side) →
is_Some (held !! a) ∧ names held input value a.
Proof.
unfold referenced_held. cbv zeta.
assert (∀ side, (λ a, (a, @None string)) <$> head (omap (held_word held) (chunks_exact32 (body input))) =
Some (a, side) → is_Some (held !! a) ∧ names held input value a) as Hgen.
{ intros sd (a' & Ha & [= -> _])%fmap_Some. apply head_Some_elem_of in Ha.
apply list_elem_of_omap in Ha as (w & Hw & Hh%held_word_spec).
destruct Hh as (? & ? & ? & ?). split; [done|]. right. exists w. by split_and!. }
destruct (Gmgn.decode input value) as [g|] eqn:Eg; [|apply Hgen].
case_bool_decide; [|apply Hgen]. intros [= <- _]. split; [done|]. left. by exists g.
Qed.

Lemma referenced_held_complete held input value a :
is_Some (held !! a) → names held input value a → is_Some (referenced_held held input value).
Proof.
unfold referenced_held. cbv zeta. intros Ha Hn.
assert ((∃ w, w ∈ chunks_exact32 (body input) ∧ all_zero (take 12 w) = true ∧
all_zero (take 4 (drop 12 w)) = false ∧ from_be (drop 12 w) = a) →
is_Some ((λ a, (a, @None string)) <$> head (omap (held_word held) (chunks_exact32 (body input)))))
as Hgen.
{ intros (w & Hw & ? & ? & ?). apply fmap_is_Some, head_omap_Some. exists w. split; [done|].
exists a. by apply held_word_spec. }
destruct Hn as [(g & Hg & <-)|Hw].
- rewrite Hg. rewrite bool_decide_eq_true_2 by done. by eexists.
- destruct (Gmgn.decode input value) as [g|]; [|by apply Hgen].
case_bool_decide; [by eexists|by apply Hgen].
Qed.
Lemma reports_of {Tx} (view : Tx → Watch.TxView) held ps rs :
foldl (λ rs p, rs ++ option_list (process view held p)) rs ps = rs ++ omap (process view held) ps.
Proof.
revert rs. induction ps as [|p ps IH]; intros rs; cbn; [by rewrite app_nil_r|].
rewrite IH, <- app_assoc. by destruct (process view held p).
Qed.

(** When the bus is dropped, the watcher has reported on everything that was
left for it, in order, and stops. *)
Lemma flow_reports_what_is_left {Tx} `{!Fanout.BroadcastLaws (Core.PendingTx Tx)}
(view : Tx → Watch.TxView) held b log n sub :
Fanout.holds (Fanout.tx b) log → Fanout.hung (Fanout.tx b) = true →
(Fanout.seen (Fanout.rx sub) + n = length log)%nat → (n ≤ Fanout.room (Fanout.tx b))%nat →
(start view held b (S n) sub []).1.2 =
omap (process view held) (drop (Fanout.seen (Fanout.rx sub)) log) ∧
(start view held b (S n) sub []).2 = false.
Proof.
intros Hh Hg Hn Hr. unfold start.
destruct (Fanout.drains_then_returns (λ rs p, rs ++ option_list (process view held p))
b log n sub [] Hh Hg Hn Hr) as [H1 H2].
split; [|exact H2]. by rewrite H1, reports_of.
Qed.
End Flow.

(** ** bnb_price.rs *)

Module BnbPrice.

Definition TTL_ns : Z := 30 * 10 ^ 9.

(** [i128::from_str_radix(_, 16)]: a sign, then digits whose value fits. *)
Definition signed_step (neg : bool) (acc : option Z) (c : ascii) : option Z :=
match acc, to_digit16 c with
| Some a, Some d =>
let r := if neg then a * 16 - d else a * 16 + d in
if (imin 128 <=? r) && (r <=? imax 128) then Some r else None
| _, _ => None
end.
Definition parse_i128_hex (s : text) : option Z :=
match s with
| [] | ["+"%char] | ["-"%char] => None
| "+"%char :: r => foldl (signed_step false) (Some 0) r
| "-"%char :: r => foldl (signed_step true) (Some 0) r
| _ => foldl (signed_step false) (Some 0) s
end.

(** [BnbPrice::fetch]: the reply's ["result"] text, if the node answered with one. *)
Definition fetch_price (reply : option text) : option f64 :=
hex ← reply;
raw ← parse_i128_hex (trim_0x hex);
if raw <=? 0 then None else Some (fdiv (f64_of_Z raw) (f64_of_Z (10 ^ 8))).

Definition Cache : Type := option (f64 * Z).

(** One call: the clock when the cache is read and when it is written. *)
Record Call : Type := { c_now : Z; c_reply : option text; c_done : Z }.

Definition get (cache : Cache) (c : Call) : Cache * option f64 :=
let fresh :=
match cache with
| Some (p, at_) => if sat_sub (c_now c) at_ <? TTL_ns then Some p else None
| None => None
end in
match fresh with
| Some p => (cache, Some p)
| None =>
match fetch_price (c_reply c) with
| Some p => (Some (p, c_done c), Some p)
| None => (cache, fst <$> cache)
end
end.

Fixpoint gets (cache : Cache) (cs : list Call) : Cache * list (option f64) :=
match cs with
| [] => (cache, [])
| c :: cs =>
let '(cache, r) := get cache c in
let '(cache, rs) := gets cache cs in (cache, r :: rs)
end.

(** The node answered a call with this price. *)
Definition answered (cs : list Call) (p : f64) : Prop := ∃ c, c ∈ cs ∧ fetch_price (c_reply c) = Some p.

Lemma get_cases cache c :
let '(cache', r) := get cache c in
r = fst <$> cache' ∧
(cache' = cache ∨ ∃ p, fetch_price (c_reply c) = Some p ∧ cache' = Some (p, c_done c)) ∧
(∀ p at_, cache = Some (p, at_) → sat_sub (c_now c) at_ < TTL_ns → cache' = cache).
Proof.
unfold get. destruct cache as [[p at_]|].
- destruct (Z.ltb_spec (sat_sub (c_now c) at_) TTL_ns).
+ split_and!; [done|by left|done].
+ destruct (fetch_price (c_reply c)) as [q|] eqn:Eq; split_and!; try done.
* right. by exists q.
* intros ? ? [= <- <-]. lia.
* by left.
- destruct (fetch_price (c_reply c)) as [q|] eqn:Eq; split_and!; try done; [right; by exists q|by left].
Qed.
Lemma gets_inv cs cache0 :
(∀ p at_, (gets cache0 cs).1 = Some (p, at_) →
cache0 = Some (p, at_) ∨ answered cs p) ∧
((gets cache0 cs).1 = None → cache0 = None ∧ ∀ p, ¬ answered cs p).
Proof.
revert cache0. induction cs as [|c cs IH]; intros cache0.
{ split; [by left|]. intros H. split; [exact H|]. intros p (c & Hc & _). by apply elem_of_nil in Hc. }
cbn [gets]. pose proof (get_cases cache0 c) as Hg.
assert (cache0 = None → (get cache0 c).1 = None → fetch_price (c_reply c) = None)
as Hnone by (intros ->; unfold get; by destruct (fetch_price _)).
destruct (get cache0 c) as [cache1 r]. destruct Hg as (_ & Hc & _). cbn [fst] in Hnone.
destruct (IH cache1) as [H1 H2]. destruct (gets cache1 cs) as [cache2 rs]. cbn [fst] in *.
split.
- intros p at_ Hp. destruct (H1 p at_ Hp) as [->|(c' & Hin & Hf)].
+ destruct Hc as [<-|(q & Hq & [= <- _])]; [by left|right]. exists c. split; [by left|done].
+ right. exists c'. split; [by right|done].
- intros Hn. destruct (H2 Hn) as [-> Hna]. destruct Hc as [<-|(q & _ & [=])]. split; [done|].
intros p (c' & [->|Hin]%elem_of_cons & Hf); [by rewrite Hnone in Hf|].
apply (Hna p). by exists c'.
Qed.
End BnbPrice.

(** ** token_resolver.rs *)

Module Resolver.

Definition FAILED_TTL_ns : Z := 120 * 10 ^ 9.

(** [String::from_utf8_lossy]: the longest prefix of a character that can
still be valid is replaced by U+FFFD. *)
Definition in_range (b : option Byte.byte) (lo hi : Z) : bool :=
match b with Some b => (lo <=? byte_val b) && (byte_val b <=? hi) | None => false end.
Definition continuation (b : option Byte.byte) : bool := in_range b 128 191.

(** The number of bytes the first character takes, and whether it is valid. *)
Definition utf8_char (bs : bytes) : nat * bool :=
match bs with
| [] => (0%nat, false)
| b0 :: r =>
let b := byte_val b0 in
let second :=
if b =? 0xE0 then in_range (r !! 0%nat) 0xA0 0xBF
else if b =? 0xED then in_range (r !! 0%nat) 0x80 0x9F
else if b =? 0xF0 then in_range (r !! 0%nat) 0x90 0xBF
else if b =? 0xF4 then in_range (r !! 0%nat) 0x80 0x8F
else continuation (r !! 0%nat) in
if b <? 0x80 then (1%nat, true)
else if (0xC2 <=? b) && (b <=? 0xDF) then
if second then (2%nat, true) else (1%nat, false)
else if (0xE0 <=? b) && (b <=? 0xEF) then
if negb second then (1%nat, false)
else if continuation (r !! 1%nat) then (3%nat, true) else (2%nat, false)
else if (0xF0 <=? b) && (b <=? 0xF4) then
if negb second then (1%nat, false)
else if negb (continuation (r !! 1%nat)) then (2%nat, false)
else if continuation (r !! 2%nat) then (4%nat, true) else (3%nat, false)
else (1%nat, false)
end.
Definition REPLACEMENT : bytes := [Byte.xef; Byte.xbf; Byte.xbd].
Fixpoint lossy (fuel : nat) (bs : bytes) : bytes :=
match fuel, bs with
| S fuel, _ :: _ =>
let '(n, ok) := utf8_char bs in
(if ok then take n bs else REPLACEMENT) ++ lossy fuel (drop n bs)
| _, _ => []
end.
Definition from_utf8_lossy (bs : bytes) : bytes := lossy (length bs) bs.

(** [trim_end_matches('\0')]. *)
Fixpoint drop_zeros (bs : bytes) : bytes :=
match bs with
| b :: r => if byte_val b =? 0 then drop_zeros r else bs
| [] => []
end.
Definition trim_end_nul (bs : bytes) : bytes := rev (drop_zeros (rev bs)).

(** [strip_prefix("0x")]. *)
Definition strip_0x (s : text) : option text :=
match s with
| "0"%char :: "x"%char :: r => Some r
| _ => None
end.

Fixpoint hex_pairs (n : nat) (h : text) : option bytes :=
match n with
| O => Some []
| S n =>
b ← from_str_radix16 8 (take 2 h);
bs ← hex_pairs n (drop 2 h);
Some (byte_of b :: bs)
end.

(** [eth_call_string] on the reply's text. *)
Definition eth_call_string (reply : option text) : option bytes :=
r ← reply;
h ← strip_0x r;
if (length h <? 128)%nat then None
else
len ← from_str_radix16 64 (take 64 (drop 64 h));
if (len =? 0) || (256 <? len) then None
else if Z.of_nat (length h) <? 128 + len * 2 then None
else
bs ← hex_pairs (Z.to_nat len) (drop 128 h);
let s := trim_end_nul (from_utf8_lossy bs) in
if bool_decide (s = []) || (64 <? length s)%nat then None else Some s.

(** [eth_call_u8]: the last two digits. *)
Definition eth_call_u8 (reply : option text) : option Z :=
r ← reply;
h ← strip_0x r;
match h with
| [] => None
| _ => from_str_radix16 8 (drop (length h - 2) h)
end.

Record TokenInfo : Type := { ti_address : Address; ti_symbol : bytes; ti_name : bytes; ti_decimals : Z }.

(** The node's replies to the three selectors. *)
Record Replies : Type := { symbol_reply : option text; name_reply : option text; decimals_reply : option text }.

Definition fetch (addr : Address) (rs : Replies) : option TokenInfo :=
sym ← eth_call_string (symbol_reply rs);
Some {| ti_address := addr; ti_symbol := sym;
ti_name := unwrap_or (eth_call_string (name_reply rs)) sym;
ti_decimals := unwrap_or (eth_call_u8 (decimals_reply rs)) 18 |}.

Inductive CacheEntry : Type :=
| Known (info : TokenInfo)
| Failed (at_ : Z).

(** [lookup]: the clock when the entry is read, and when a failure is noted. *)
Definition lookup (cache : gmap Address CacheEntry) (addr : Address) (now : Z) (rs : Replies) (done_at : Z)
: gmap Address CacheEntry * option TokenInfo :=
let ask :=
match fetch addr rs with
| Some info => (<[addr := Known info]> cache, Some info)
| None => (<[addr := Failed done_at]> cache, None)
end in
match cache !! addr with
| Some (Known info) => (cache, Some info)
| Some (Failed at_) => if sat_sub now at_ <? FAILED_TTL_ns then (cache, None) else ask
| None => ask
end.

(** A sequence of lookups. *)
Record Lookup : Type := { l_addr : Address; l_now : Z; l_replies : Replies; l_done : Z }.
Definition run (cache : gmap Address CacheEntry) (ls : list Lookup) : gmap Address CacheEntry :=
foldl (λ c l, (lookup c (l_addr l) (l_now l) (l_replies l) (l_done l)).1) cache ls.

(** *** Amounts *)

(** A comma before every digit whose distance from the end is a multiple of
three, the first excepted. *)
Fixpoint thousands_from (first : bool) (n : text) : text :=
match n with
| [] => []
| b :: r =>
(if negb first && (length n mod 3 =? 0)%nat then [","%char] else []) ++
b :: thousands_from false r
end.
Definition thousands (n : text) : text := thousands_from true n.

Definition trim_end_zeros (s : text) : text :=
rev ((fix go (s : text) : text :=
match s with
| c :: r => if Ascii.eqb c "0"%char then go r else s
| [] => []
end) (rev s)).

(** The whole and the fractional digits of an amount. *)
Definition split_amount (s : text) (dec : nat) : text * text :=
if (length s <=? dec)%nat then (["0"%char], replicate (dec - length s) "0"%char ++ s)
else (take (length s - dec) s, drop (length s - dec) s).

(** [parse::<f64>] of decimal digits. *)
Definition digits_value (s : text) : Z :=
foldl (λ acc c, acc * 10 + unwrap_or (to_digit10 c) 0) 0 s.

Definition format_amount (raw : U256) (decimals : Z) : text :=
if raw =? 0 then ["0"%char]
else
let s := decimal 78 raw in
let dec := Z.to_nat decimals in
if (dec =? 0)%nat then s
else
let '(whole, frac) := split_amount s dec in
let frac_trim := trim_end_zeros frac in
let whole_num := f64_of_Z (digits_value whole) in
let frac_digits :=
if fge whole_num (f64_of_Z 1000000) then 0%nat
else if fge whole_num (f64_of_Z 1000) then 1%nat
else if fge whole_num f1 then 3%nat
else if bool_decide (frac_trim = []) then 0%nat
else 6%nat in
if (frac_digits =? 0)%nat || bool_decide (frac_trim = []) then thousands whole
else
let frac_show :=
if (frac_digits <? length frac_trim)%nat then take frac_digits frac_trim else frac_trim in
thousands whole ++ "."%char :: frac_show.

Example amount_one_and_half :
format_amount 1500000000000000000 18 = list_ascii_of_string "1.5".
Proof. vm_compute. reflexivity. Qed.
Example amount_millions :
format_amount (12500000 * 10 ^ 18 + 1) 18 = list_ascii_of_string "12,500,000".
Proof. vm_compute. reflexivity. Qed.
Example amount_dust : format_amount 1 18 = list_ascii_of_string "0.000000".
Proof. vm_compute. reflexivity. Qed.

End Resolver.

(** ** mcap.rs *)

Module Mcap.

Definition GET_PAIR : text := list_ascii_of_string "0xe6a43905".
Definition GET_RESERVES : text := list_ascii_of_string "0x0902f1ac".
Definition TOKEN0 : text := list_ascii_of_string "0x0dfe1681".
Definition TOTAL_SUPPLY : text := list_ascii_of_string "0x18160ddd".
Definition PANCAKE_V2_FACTORY : Address := 0xcA143Ce32Fe78f1f7019d7d551a6402fC5350c73.

(** [{:0>64}] of the 40 digits. *)
Definition addr_arg (a : Address) : text := replicate 24 "0"%char ++ Hex.hex_encode (to_be 20 a).

(** [addr_from_tail]: the last 40 digits. *)
Definition addr_from_tail (h : text) : option Address :=
if (length h <? 40)%nat then None
else
bs ← Resolver.hex_pairs 20 (drop (length h - 40) h);
Some (from_be bs).

(** The node: what [eth_call] of the data to the address answers. *)
Definition Node : Type := Address → text → option text.

Definition pool_spot_and_supply (node : Node) (token : Address) (decimals : Z) : option (f64 * f64) :=
pair_hex ← node PANCAKE_V2_FACTORY (GET_PAIR ++ addr_arg WBNB ++ addr_arg token);
if (length pair_hex <? 66)%nat then None
else
pr ← addr_from_tail pair_hex;
if pr =? 0 then None
else
t0_hex ← node pr TOKEN0;
if (length t0_hex <? 66)%nat then None
else
t0 ← addr_from_tail t0_hex;
res ← node pr GET_RESERVES;
if (length res <? 130)%nat then None
else
let r0 := u_hex (take 64 (drop 2 res)) in
let r1 := u_hex (take 64 (drop 66 res)) in
let '(wbnb_raw, tok_raw) := if t0 =? WBNB then (r0, r1) else (r1, r0) in
if feq wbnb_raw f0 || feq tok_raw f0 then None
else
sup_hex ← node token TOTAL_SUPPLY;
let supply_raw := u_hex (Bytes.trim sup_hex) in
if feq supply_raw f0 then None
else
let wbnb := fdiv wbnb_raw f1e18 in
let dscale := powi10 decimals in
let tok := fdiv tok_raw dscale in
let supply_whole := fdiv supply_raw dscale in
Some (fdiv wbnb tok, supply_whole).

Definition total_supply_whole (node : Node) (token : Address) (decimals : Z) : option f64 :=
h ← node token TOTAL_SUPPLY;
let raw := u_hex (Bytes.trim h) in
if feq raw f0 then None else Some (fdiv raw (powi10 decimals)).

End Mcap.

(** ** price_oracle.rs *)

Module Oracle.

Definition RUG_DROP : f64 := f64_lit 1 2.

(** [hex_to_bytes]. *)
Definition hex_to_bytes (h : text) : option bytes :=
let h := unwrap_or (Resolver.strip_0x h) h in
if (Nat.odd (length h)) then None else Resolver.hex_pairs (length h / 2) h.

(** [Address::from_slice(&hex_to_bytes(tail).unwrap_or_default())]: [None] is
the panic on a slice that is not 20 bytes long. *)
Definition address_of_tail (h : text) : option Address :=
let bs := unwrap_or (hex_to_bytes (drop (length h - 40) h)) [] in
if (length bs =? 20)%nat then Some (from_be bs) else None.

Inductive outcome : Type :=
| NoReading
| Tick (wbnb_res price_bnb : f64) (alert : bool)
| Panic.

(** [poll_one], with the map of previous readings. *)
Definition poll_one (node : Mcap.Node) (held : gmap Address HeldMeta) (token : Address)
(prev_liq : gmap Address f64) : gmap Address f64 * outcome :=
match held !! token with
| None => (prev_liq, NoReading)
| Some _ =>
match node Mcap.PANCAKE_V2_FACTORY (Mcap.GET_PAIR ++ Mcap.addr_arg WBNB ++ Mcap.addr_arg token) with
| Some h =>
if (length h <? 66)%nat then (prev_liq, NoReading)
else
match address_of_tail h with
| None => (prev_liq, Panic)
| Some pr =>
  if pr =? 0 then (prev_liq, NoReading)
  else
    match node pr Mcap.TOKEN0 with
    | Some h0 =>
        if (length h0 <? 66)%nat then (prev_liq, NoReading)
        else
          match address_of_tail h0 with
          | None => (prev_liq, Panic)
          | Some t0 =>
              match node pr Mcap.GET_RESERVES with
              | Some res =>
                  if (length res <? 130)%nat then (prev_liq, NoReading)
                  else
                    let r0 := u_hex (take 64 (drop 2 res)) in
                    let r1 := u_hex (take 64 (drop 66 res)) in
                    let '(wbnb_res, tok_res) :=
                      if t0 =? WBNB then (r0, r1) else (r1, r0) in
                    if feq wbnb_res f0 || feq tok_res f0 then (prev_liq, NoReading)
                    else
                      let drop_ :=
                        (λ p, if fgt p f0 then fdiv (fsub p wbnb_res) p else f0)
                          <$> prev_liq !! token in
                      (<[token := wbnb_res]> prev_liq,
                       Tick wbnb_res (fdiv wbnb_res tok_res)
                         match drop_ with Some d => fge d RUG_DROP | None => false end)
              | None => (prev_liq, NoReading)
              end
          end
    | None => (prev_liq, NoReading)
    end
end
| None => (prev_liq, NoReading)
end
end.

(** The polls of one token, with the held set of each. *)
Fixpoint polls (token : Address) (prev_liq : gmap Address f64)
(ps : list (Mcap.Node * gmap Address HeldMeta)) : list outcome :=
match ps with
| [] => []
| (node, held) :: ps =>
let '(prev_liq, o) := poll_one node held token prev_liq in o :: polls token prev_liq ps
end.

End Oracle.

(** ** Lemmas *)

Module ResolverFacts.
Import Resolver.

Lemma try_from_width_Some w z v : try_from_width w z = Some v → v = z ∧ in_width w v.
Proof. unfold try_from_width. case_scrut; [|done]. intros [= <-]. zbool. by split. Qed.

Lemma parse_radix_fold radix w digit s v :
parse_radix radix w digit s = Some v →
∃ t, foldl (radix_step radix w digit) (Some 0) t = Some v.
Proof.
unfold parse_radix. intros H. repeat (case_scrut_in H; try done); eauto.
Qed.

Lemma from_str_radix16_width w s v :
from_str_radix16 w s = Some v → in_width w v ∨ v = 0.
Proof.
intros (t & Ht)%parse_radix_fold. revert Ht.
assert (∀ a, in_width w a ∨ a = 0 →
foldl (radix_step 16 w to_digit16) (Some a) t = Some v → in_width w v ∨ v = 0) as H;
[|apply H; by right].
assert (∀ t, foldl (radix_step 16 w to_digit16) None t = None) as Hnone by (by induction t0).
induction t as [|c t IH]; intros a Ha; [by intros [= <-]|]. cbn [foldl].
unfold radix_step at 2. destruct (to_digit16 c) as [d|]; [|by rewrite Hnone].
destruct (try_from_width w (a * 16 + d)) as [b|] eqn:Eb; [|by rewrite Hnone].
apply try_from_width_Some in Eb as [_ Hb]. apply IH. by left.
Qed.

Lemma eth_call_string_length reply s :
eth_call_string reply = Some s → (0 < length s ≤ 64)%nat.
Proof.
unfold eth_call_string. intros H.
destruct reply as [r|]; [|done]. cbn [mbind option_bind] in H.
destruct (strip_0x r) as [h|]; [|done]. cbn [mbind option_bind] in H.
destruct (length h <? 128)%nat; [done|].
destruct (from_str_radix16 64 _) as [len|]; [|done]. cbn [mbind option_bind] in H.
destruct ((len =? 0) || _); [done|]. destruct (_ <? _); [done|].
destruct (hex_pairs _ _) as [bs|]; [|done]. cbn [mbind option_bind] in H. cbv zeta in H.
set (t := trim_end_nul _) in *. case_bool_decide; [done|]. cbn [orb] in H.
destruct (Nat.ltb_spec 64 (length t)); [done|]. injection H as <-.
destruct t; [done|cbn in *; lia].
Qed.

(** What the cache may hold for an address. *)
Definition well_formed (addr : Address) (i : TokenInfo) : Prop :=
ti_address i = addr ∧ (0 < length (ti_symbol i) ≤ 64)%nat ∧ (0 < length (ti_name i) ≤ 64)%nat ∧
in_width 8 (ti_decimals i).

Lemma fetch_well_formed addr rs i : fetch addr rs = Some i → well_formed addr i.
Proof.
unfold fetch. destruct (eth_call_string (symbol_reply rs)) as [sym|] eqn:Es; [|done].
intros [= <-]. apply eth_call_string_length in Es. split_and!; cbn; try lia; try done.
- destruct (eth_call_string (name_reply rs)) as [n|] eqn:En; cbn; [|lia].
apply eth_call_string_length in En. lia.
- destruct (eth_call_string (name_reply rs)) as [n|] eqn:En; cbn; [|lia].
apply eth_call_string_length in En. lia.
- destruct (eth_call_u8 (decimals_reply rs)) as [d|] eqn:Ed; [|by vm_compute].
cbn. unfold eth_call_u8 in Ed. destruct (decimals_reply rs) as [r|]; [|done].
cbn [mbind option_bind] in Ed. destruct (strip_0x r) as [[|c h]|]; [done| |done].
cbn [mbind option_bind] in Ed. apply from_str_radix16_width in Ed as [? | ->]; [done|by vm_compute].
Qed.

(** Every known entry is well formed. *)
Definition cache_ok (cache : gmap Address CacheEntry) : Prop :=
∀ addr i, cache !! addr = Some (Known i) → well_formed addr i.

Lemma lookup_cases cache addr now rs done_at :
let '(cache', r) := lookup cache addr now rs done_at in
(cache' = cache ∧ (r = None ∨ ∃ i, r = Some i ∧ cache !! addr = Some (Known i))) ∨
((∀ i, cache !! addr ≠ Some (Known i)) ∧ r = fetch addr rs ∧
cache' = <[addr := match fetch addr rs with Some i => Known i | None => Failed done_at end]> cache).
Proof.
unfold lookup. cbv zeta. destruct (cache !! addr) as [[i|at_]|] eqn:E.
- left. split; [done|right]. by exists i.
- destruct (_ <? _); [left; split; [done|by left]|].
destruct (fetch addr rs); right; by split_and!.
- destruct (fetch addr rs); right; by split_and!.
Qed.

Lemma lookup_keeps cache addr now rs done_at k i :
cache !! k = Some (Known i) → (lookup cache addr now rs done_at).1 !! k = Some (Known i).
Proof.
intros Hk. pose proof (lookup_cases cache addr now rs done_at) as H.
destruct (lookup cache addr now rs done_at) as [c' r]. cbn.
destruct H as [[-> _]|(Hn & _ & ->)]; [done|].
destruct (decide (k = addr)) as [->|]; [by destruct (Hn i)|by rewrite lookup_insert_ne].
Qed.

Lemma lookup_ok cache addr now rs done_at :
cache_ok cache → cache_ok (lookup cache addr now rs done_at).1.
Proof.
intros Hc k i. pose proof (lookup_cases cache addr now rs done_at) as H.
destruct (lookup cache addr now rs done_at) as [c' r]. cbn.
destruct H as [[-> _]|(Hn & _ & ->)]; [apply Hc|].
destruct (decide (k = addr)) as [->|]; [|rewrite lookup_insert_ne by done; apply Hc].
rewrite lookup_insert_eq. destruct (fetch addr rs) as [j|] eqn:Ef; [|done].
intros [= <-]. by apply fetch_well_formed in Ef.
Qed.

Lemma run_ok ls cache : cache_ok cache → cache_ok (run cache ls).
Proof. revert cache. induction ls as [|l ls IH]; intros c Hc; [done|]. apply IH, lookup_ok, Hc. Qed.

Lemma run_keeps ls cache k i : cache !! k = Some (Known i) → run cache ls !! k = Some (Known i).
Proof. revert cache. induction ls as [|l ls IH]; intros c Hc; [done|]. apply IH, lookup_keeps, Hc. Qed.

(** *** Amounts *)

Definition strip_commas (s : text) : text := filter (λ c, c ≠ ","%char) s.

Definition digit (c : ascii) : Prop := ∃ d, 0 ≤ d < 10 ∧ c = hex_digit d.

Lemma digit_not_comma c : digit c → c ≠ ","%char.
Proof.
intros (d & Hd & ->) H. pose proof (digit10_hex_digit d Hd) as [Hx _]. rewrite H in Hx. done.
Qed.

Lemma strip_thousands n : Forall digit n → strip_commas (thousands n) = n.
Proof.
intros Hn. unfold thousands. generalize true as first.
induction Hn as [|c n Hc Hn IH]; intros first; [done|]. cbn [thousands_from].
unfold strip_commas in *. rewrite filter_app, filter_cons_True by (by apply digit_not_comma).
rewrite IH. by destruct (_ && _).
Qed.

Lemma digits_value_snoc a c :
digits_value (a ++ [c]) = digits_value a * 10 + unwrap_or (to_digit10 c) 0.
Proof. unfold digits_value. by rewrite foldl_app. Qed.

Lemma digits_value_app a b :
digits_value (a ++ b) = digits_value a * 10 ^ Z.of_nat (length b) + digits_value b.
Proof.
induction b as [|c b IH] using rev_ind.
- rewrite app_nil_r. cbn. lia.
- rewrite app_assoc, !digits_value_snoc, IH, length_app, Nat2Z.inj_add, Z.pow_add_r by lia.
cbn. lia.
Qed.

Lemma digits_value_decimal fuel n : 0 ≤ n < 10 ^ Z.of_nat fuel → digits_value (decimal fuel n) = n.
Proof.
revert n. induction fuel as [|f IH]; intros n Hn; [cbn in *; lia|]. cbn [decimal].
rewrite Nat2Z.inj_succ, Z.pow_succ_r in Hn by lia. case_scrut; zbool.
- unfold digits_value. cbn. by rewrite (proj1 (digit10_hex_digit n ltac:(lia))).
- pose proof (Z.mod_pos_bound n 10). rewrite digits_value_app, IH.
+ unfold digits_value. cbn. rewrite (proj1 (digit10_hex_digit (n mod 10) ltac:(lia))). cbn.
pose proof (Z.div_mod n 10 ltac:(lia)). lia.
+ split; [apply Z.div_pos; lia|apply Z.div_lt_upper_bound; lia].
Qed.

Lemma digits_value_zeros n s : digits_value (replicate n "0"%char ++ s) = digits_value s.
Proof.
rewrite digits_value_app. assert (digits_value (replicate n "0"%char) = 0) as ->; [|lia].
induction n as [|n IH]; [done|]. cbn [replicate]. exact IH.
Qed.

Lemma split_amount_value s dec :
let '(whole, frac) := split_amount s dec in
digits_value whole * 10 ^ Z.of_nat dec + digits_value frac = digits_value s ∧
length frac = dec ∧ (Forall digit s → Forall digit whole ∧ Forall digit frac).
Proof.
unfold split_amount. destruct (Nat.leb_spec (length s) dec).
- rewrite digits_value_zeros. split_and!; [done| |].
+ rewrite length_app, length_replicate. lia.
+ intros Hs. assert (digit "0"%char) by (exists 0; split; [lia|done]).
split; [by repeat constructor|]. apply Forall_app. split; [by apply Forall_replicate|done].
- split_and!.
+ transitivity (digits_value (take (length s - dec) s ++ drop (length s - dec) s));
[|by rewrite take_drop].
rewrite digits_value_app, length_drop. do 3 f_equal. lia.
+ rewrite length_drop. lia.
+ intros. split; [by apply Forall_take|by apply Forall_drop].
Qed.

Lemma trim_end_zeros_prefix s : trim_end_zeros s `prefix_of` s.
Proof.
unfold trim_end_zeros. match goal with |- rev (?f (rev s)) `prefix_of` _ => set (go := f) end.
assert (∀ t, ∃ z, t = z ++ go t) as H.
{ induction t as [|c t [z Hz]]; [by exists []|]. cbn. destruct (Ascii.eqb c "0"%char).
- exists (c :: z). cbn. by f_equal.
- by exists []. }
destruct (H (rev s)) as [z Hz]. exists (rev z). rewrite <- rev_app_distr, <- Hz. by rewrite rev_involutive.
Qed.

End ResolverFacts.

Module OracleFacts.
Import Oracle.

(** The liquidity of the latest reading. *)
Definition last_reading (os : list outcome) : option f64 :=
last (omap (λ o, match o with Tick w _ _ => Some w | _ => None end) os).

(** What a poll does to the readings. *)
Lemma poll_one_cases node held token prev :
let '(prev', o) := poll_one node held token prev in
match o with
| Tick w _ alert =>
prev' = <[token := w]> prev ∧
alert = match prev !! token with
| Some p => fge (if fgt p f0 then fdiv (fsub p w) p else f0) RUG_DROP
| None => false
end
| _ => prev' = prev
end.
Proof.
unfold poll_one. destruct (held !! token) as [meta|]; [|done].
destruct (node Mcap.PANCAKE_V2_FACTORY _) as [h|]; [|done]. destruct (length h <? 66)%nat; [done|].
destruct (address_of_tail h) as [pr|]; [|done]. destruct (pr =? 0); [done|].
destruct (node pr Mcap.TOKEN0) as [h0|]; [|done]. destruct (length h0 <? 66)%nat; [done|].
destruct (address_of_tail h0) as [t0|]; [|done].
destruct (node pr Mcap.GET_RESERVES) as [res|]; [|done]. destruct (length res <? 130)%nat; [done|].
destruct (if t0 =? WBNB then _ else _) as [w t]. cbv zeta. destruct (feq w f0 || feq t f0); [done|].
split; [done|]. by destruct (prev !! token).
Qed.

Fixpoint prev_after (token : Address) (prev : gmap Address f64)
(ps : list (Mcap.Node * gmap Address HeldMeta)) : gmap Address f64 :=
match ps with
| [] => prev
| (node, held) :: ps => prev_after token (poll_one node held token prev).1 ps
end.

Lemma polls_app token prev ps qs :
polls token prev (ps ++ qs) = polls token prev ps ++ polls token (prev_after token prev ps) qs.
Proof.
revert prev. induction ps as [|[node held] ps IH]; intros prev; [done|]. cbn.
destruct (poll_one node held token prev) as [p o]. cbn. by rewrite IH.
Qed.

Lemma prev_after_last token prev ps :
prev_after token prev ps !! token =
match last_reading (polls token prev ps) with Some w => Some w | None => prev !! token end.
Proof.
induction ps as [|[node held] ps IH] using rev_ind; [done|].
assert (prev_after token prev (ps ++ [(node, held)]) =
(poll_one node held token (prev_after token prev ps)).1) as ->.
{ clear. revert prev. induction ps as [|[n h] ps IH]; intros prev; [done|]. cbn. apply IH. }
rewrite polls_app. pose proof (poll_one_cases node held token (prev_after token prev ps)) as Hc.
cbn [polls]. destruct (poll_one node held token (prev_after token prev ps)) as [p o]. cbn [fst].
unfold last_reading in *. rewrite omap_app. destruct o; cbn [omap list_omap].
- subst p. by rewrite app_nil_r.
- destruct Hc as [-> _]. by rewrite last_snoc, lookup_insert_eq.
- subst p. by rewrite app_nil_r.
Qed.

(** A tail that is not hexadecimal. *)
Lemma bad_tail h :
(66 ≤ length h)%nat → Resolver.hex_pairs 20 (drop (length h - 40) h) = None →
Resolver.strip_0x (drop (length h - 40) h) = None → address_of_tail h = None.
Proof.
intros Hl Hh Hs. unfold address_of_tail, hex_to_bytes. rewrite Hs. cbn [unwrap_or].
assert (length (drop (length h - 40) h) = 40%nat) as -> by (rewrite length_drop; lia).
change (Nat.odd 40) with false. change (40 / 2)%nat with 20%nat. by rewrite Hh.
Qed.
End OracleFacts.

(** ** Properties *)

(** The flow tape is exact: a pending transaction is reported if and only
    if its calldata names a held token (through the GMGN decoder, or as a word
    of the body with a non-zero top quarter), and the token reported is held
    and named by it. *)
Theorem flow_reports_held_tokens {Tx : Type} (view : Tx → Watch.TxView) held (p : Core.PendingTx Tx) :
  let input := Watch.v_input (view (Core.p_tx p)) in
  let value := Watch.v_value (view (Core.p_tx p)) in
  (is_Some (Flow.process view held p) ↔ ∃ a, is_Some (held !! a) ∧ Flow.names held input value a) ∧
  ∀ r, Flow.process view held p = Some r →
    Flow.names held input value (Flow.fr_token r) ∧
    ∃ meta, held !! Flow.fr_token r = Some meta ∧ Flow.fr_symbol r = hm_symbol meta ∧
      Flow.fr_held_kol r = hm_kol_name meta.
Proof.
  intros input value. unfold Flow.process. cbv zeta. fold input value.
  case_bool_decide as He.
  { subst held. split; [|done]. split; [by intros [? ?]|]. intros (a & [m Hm] & _). done. }
  destruct (Flow.referenced_held held input value) as [[a side]|] eqn:E; cbn [mbind option_bind fst].
  - apply Flow.referenced_held_sound in E as [[meta Hm] Hn]. rewrite Hm. cbn. split.
    + split; [|by eexists]. intros _. exists a. split; [by exists meta|done].
    + intros r [= <-]. cbn. split; [done|]. by exists meta.
  - split; [|done]. split; [by intros [? ?]|]. intros (a & Ha & Hn).
    destruct (Flow.referenced_held_complete _ _ _ _ Ha Hn) as [? Hs]. congruence.
Qed.

(** The BNB price is never invented and never forgotten: after any calls,
    what a call returns was answered by the node to this or an earlier call;
    it returns nothing only while the node has never answered; and once the
    cached price is 30 seconds old a successful answer replaces it. *)
Theorem bnb_price_is_an_answer cs c :
  let cache := (BnbPrice.gets None cs).1 in
  let r := (BnbPrice.get cache c).2 in
  (∀ p, r = Some p → BnbPrice.answered (cs ++ [c]) p) ∧
  (r = None → ∀ p, ¬ BnbPrice.answered (cs ++ [c]) p) ∧
  (∀ p at_ q, cache = Some (p, at_) → BnbPrice.TTL_ns ≤ sat_sub (BnbPrice.c_now c) at_ →
    BnbPrice.fetch_price (BnbPrice.c_reply c) = Some q → r = Some q).
Proof.
  intros cache r. destruct (BnbPrice.gets_inv cs None) as [H1 H2]. fold cache in H1, H2.
  assert (∀ p, BnbPrice.answered cs p → BnbPrice.answered (cs ++ [c]) p) as Hl
    by (intros p (c' & ? & ?); exists c'; split; [set_solver|done]).
  assert (∀ p, BnbPrice.fetch_price (BnbPrice.c_reply c) = Some p → BnbPrice.answered (cs ++ [c]) p) as Hc
    by (intros p ?; exists c; split; [set_solver|done]).
  clearbody cache. subst r. unfold BnbPrice.get. destruct cache as [[p at_]|].
  - destruct (H1 p at_ eq_refl) as [|Hp]; [done|].
    destruct (Z.ltb_spec (sat_sub (BnbPrice.c_now c) at_) BnbPrice.TTL_ns).
    + cbn. split_and!; [intros ? [= <-]; auto|done|]. intros ? ? ? [= <- <-] ?. lia.
    + destruct (BnbPrice.fetch_price _) as [q|] eqn:Eq; cbn.
      * split_and!; [intros ? [= <-]; auto|done|by intros ? ? ? _ _ [= <-]].
      * split_and!; [intros ? [= <-]; auto|done|done].
  - destruct (H2 eq_refl) as [_ Hn]. destruct (BnbPrice.fetch_price _) as [q|] eqn:Eq; cbn.
    { split_and!; [intros ? [= <-]; auto|done|done]. }
    split_and!; [done| |done].
    intros _ p (c' & [Hin|[->|[]%elem_of_nil]%elem_of_cons]%elem_of_app & Hf); [|congruence].
    apply (Hn p). by exists c'.
Qed.

(** The token cache is sound and sticky: whatever was looked up before, a
    lookup that returns metadata returns that of the address asked, with a
    symbol and a name of 1 to 64 bytes and decimals of a byte, and every later
    lookup of it returns the same, whatever the node answers then. *)
Theorem resolver_cache_is_sticky ls addr now rs done_at i :
  let cache := Resolver.run ∅ ls in
  (Resolver.lookup cache addr now rs done_at).2 = Some i →
  ResolverFacts.well_formed addr i ∧
  ∀ ls' now' rs' done', 
    (Resolver.lookup (Resolver.run (Resolver.lookup cache addr now rs done_at).1 ls') addr now' rs' done').2 =
      Some i.
Proof.
  intros cache Hi. assert (ResolverFacts.cache_ok cache) as Hok by by apply ResolverFacts.run_ok.
  assert ((Resolver.lookup cache addr now rs done_at).1 !! addr = Some (Resolver.Known i)) as Hk.
  { pose proof (ResolverFacts.lookup_cases cache addr now rs done_at) as H.
    destruct (Resolver.lookup cache addr now rs done_at) as [c r]. cbn in Hi |- *. subst r.
    destruct H as [[-> [?|(j & [= <-] & Hj)]]|(_ & Hf & ->)]; [done|done|].
    rewrite lookup_insert_eq. by rewrite <- Hf. }
  split.
  - apply (ResolverFacts.lookup_ok cache addr now rs done_at Hok addr i Hk).
  - intros ls' now' rs' done'. unfold Resolver.lookup at 1.
    by rewrite (ResolverFacts.run_keeps ls' _ addr i Hk).
Qed.

(** Formatting an amount truncates and never rounds up: the digits shown
    before the point are the whole part of the amount, those after it a prefix
    of at most six of its decimals, and the two parts together are the exact
    amount. *)
Theorem format_amount_truncates raw decimals :
  0 < raw < 2 ^ 256 → 0 < decimals < 256 →
  ∃ whole frac shown,
    ResolverFacts.strip_commas (Resolver.format_amount raw decimals) =
      whole ++ match shown with [] => [] | _ => "."%char :: shown end ∧
    Resolver.digits_value whole * 10 ^ decimals + Resolver.digits_value frac = raw ∧
    length frac = Z.to_nat decimals ∧ shown `prefix_of` frac ∧ (length shown ≤ 6)%nat.
Proof.
  intros Hr Hd. unfold Resolver.format_amount. destruct (Z.eqb_spec raw 0) as [|_]; [lia|]. cbv zeta.
  destruct (Nat.eqb_spec (Z.to_nat decimals) 0) as [|_]; [lia|].
  pose proof (ResolverFacts.split_amount_value (decimal 78 raw) (Z.to_nat decimals)) as Hs.
  assert (0 ≤ raw < 10 ^ Z.of_nat 78) as Hr78.
  { split; [lia|]. apply Z.lt_trans with (2 ^ 256); [lia|by vm_compute]. }
  rewrite (ResolverFacts.digits_value_decimal 78 raw Hr78), Z2Nat.id in Hs by lia.
  pose proof (decimal_digits 78 raw ltac:(lia)) as Hdig.
  destruct (Resolver.split_amount _ _) as [whole frac]. destruct Hs as (Hv & Hf & Hw).
  destruct (Hw Hdig) as [Hwd Hfd]. set (n := if fge _ _ then _ else _).
  assert (n ≤ 6)%nat as Hn by (unfold n; repeat case_match; lia).
  set (shown := if (n <? length (Resolver.trim_end_zeros frac))%nat
                then take n (Resolver.trim_end_zeros frac) else Resolver.trim_end_zeros frac).
  assert (shown `prefix_of` frac ∧ (length shown ≤ 6 ∨ n = 0)%nat) as [Hp Hl].
  { unfold shown. destruct (Nat.ltb_spec n (length (Resolver.trim_end_zeros frac))).
    - split; [|left; rewrite length_take; lia]. etrans; [|apply ResolverFacts.trim_end_zeros_prefix].
      apply prefix_take.
    - split; [apply ResolverFacts.trim_end_zeros_prefix|left; lia]. }
  assert (∀ t, (∀ c, c ∈ t → c ≠ ","%char) → ResolverFacts.strip_commas (Resolver.thousands whole ++ t) =
    whole ++ t) as Hstrip.
  { intros t Ht. unfold ResolverFacts.strip_commas. rewrite filter_app. f_equal.
    - by apply ResolverFacts.strip_thousands.
    - by apply filter_all. }
  destruct (Nat.eqb_spec n 0) as [Hn0|Hn0]; cbn [orb]; [|case_bool_decide as Ht].
  1, 2: exists whole, frac, []; split_and!; [|done|done|apply prefix_nil|cbn; lia];
    rewrite <- (app_nil_r (Resolver.thousands whole)); apply Hstrip; intros c []%elem_of_nil.
  assert (∃ c t, shown = c :: t) as (c & t & Hsh).
  { unfold shown. destruct (Resolver.trim_end_zeros frac) as [|c t]; [done|].
    destruct n as [|n']; [done|]. case_match; eauto. }
  exists whole, frac, shown. split_and!; [|done|done|done|lia].
  rewrite Hstrip; [by rewrite Hsh|]. intros c' [->|Hc']%elem_of_cons; [done|].
  apply ResolverFacts.digit_not_comma. destruct Hp as [z Hz].
  rewrite Hz in Hfd. apply Forall_app in Hfd as [Hfd _]. rewrite Forall_forall in Hfd. by apply Hfd.
Qed.

(** The liquidity alarm: over any polls of a token, a reading raises the
    alarm exactly when the pool lost at least half of the BNB the latest
    earlier reading saw, even if the token was sold and bought again in
    between; a first reading never does. *)
Theorem rug_alarm_compares_readings token ps node held w pr alert :
  last (Oracle.polls token ∅ (ps ++ [(node, held)])) = Some (Oracle.Tick w pr alert) →
  alert = match OracleFacts.last_reading (Oracle.polls token ∅ ps) with
          | Some p => fge (if fgt p f0 then fdiv (fsub p w) p else f0) Oracle.RUG_DROP
          | None => false
          end.
Proof.
  rewrite OracleFacts.polls_app. pose proof (OracleFacts.prev_after_last token ∅ ps) as Hp.
  rewrite lookup_empty in Hp. cbn [Oracle.polls].
  pose proof (OracleFacts.poll_one_cases node held token (OracleFacts.prev_after token ∅ ps)) as Hc.
  destruct (Oracle.poll_one node held token _) as [prev o]. rewrite last_snoc. intros [= ->].
  destruct Hc as [_ ->]. rewrite Hp. by destruct (OracleFacts.last_reading _).
Qed.

(** The same malformed [getPair] reply that the market-cap service treats
    as no pool makes the liquidity oracle panic, which aborts the program. *)
Theorem bad_pair_reply_panics node held token h prev decimals meta :
  held !! token = Some meta →
  node Mcap.PANCAKE_V2_FACTORY (Mcap.GET_PAIR ++ Mcap.addr_arg WBNB ++ Mcap.addr_arg token) = Some h →
  (66 ≤ length h)%nat → Resolver.hex_pairs 20 (drop (length h - 40) h) = None →
  Resolver.strip_0x (drop (length h - 40) h) = None →
  Oracle.poll_one node held token prev = (prev, Oracle.Panic) ∧
  Mcap.pool_spot_and_supply node token decimals = None.
Proof.
  intros Hm Hn Hl Hh Hs. unfold Oracle.poll_one, Mcap.pool_spot_and_supply. rewrite Hm, Hn.
  cbn [mbind option_bind]. destruct (Nat.ltb_spec (length h) 66); [lia|].
  rewrite (OracleFacts.bad_tail h Hl Hh Hs). split; [done|].
  unfold Mcap.addr_from_tail. destruct (Nat.ltb_spec (length h) 40); [lia|]. by rewrite Hh.
Qed.

(** ** Instances *)

Module Example.
Definition str := list_ascii_of_string.
Definition meme : Address := 0xa0431c1800000000000000000000000000000001.
Definition meta : HeldMeta :=
{| hm_kol_name := "D"; hm_symbol := "PEPE"; entered_block := 1; entered_unix_ns := 1; bnb_in_wei := 0 |}.
Definition held : gmap Address HeldMeta := {[ meme := meta ]}.
Definition word_hex (n : Z) : text := Hex.hex_encode (word n).
(** A node whose pool holds [bnb] and 500 tokens. *)
Definition node (bnb : Z) : Mcap.Node := λ _ data,
if bool_decide (data = Mcap.GET_RESERVES)
then Some (str "0x" ++ word_hex bnb ++ word_hex 500 ++ word_hex 0)
else Some (str "0x" ++ word_hex WBNB).
Definition bad_node : Mcap.Node := λ _ _, Some (replicate 66 "z"%char).
Definition replies : Resolver.Replies :=
{| Resolver.symbol_reply := Some (str "0x" ++ word_hex 32 ++ word_hex 2 ++
Hex.hex_encode ([Byte.x41; Byte.x42] ++ replicate 30 Byte.x00));
Resolver.name_reply := None; Resolver.decimals_reply := Some (str "0x09") |}.
Definition none : Resolver.Replies :=
{| Resolver.symbol_reply := None; Resolver.name_reply := None; Resolver.decimals_reply := None |}.
Definition info : Resolver.TokenInfo :=
{| Resolver.ti_address := 7; Resolver.ti_symbol := [Byte.x41; Byte.x42];
Resolver.ti_name := [Byte.x41; Byte.x42]; Resolver.ti_decimals := 9 |}.
(** A failure at 0 is remembered for two minutes. *)
Definition lookups : list Resolver.Lookup :=
[{| Resolver.l_addr := 7; Resolver.l_now := 0; Resolver.l_replies := none; Resolver.l_done := 0 |};
{| Resolver.l_addr := 7; Resolver.l_now := 60 * 10 ^ 9; Resolver.l_replies := replies;
Resolver.l_done := 0 |}].
End Example.

Lemma resolver_cache_is_sticky_witness :
  Resolver.run ∅ Example.lookups !! 7 = Some (Resolver.Failed 0) ∧
  (Resolver.lookup (Resolver.run (Resolver.lookup (Resolver.run ∅ Example.lookups) 7 (120 * 10 ^ 9)
      Example.replies 0).1 []) 7 (900 * 10 ^ 9) Example.none 0).2 = Some Example.info.
Proof.
  split; [vm_compute; reflexivity|].
  refine (proj2 (resolver_cache_is_sticky Example.lookups 7 (120 * 10 ^ 9) Example.replies 0 Example.info _)
    [] (900 * 10 ^ 9) Example.none 0).
  vm_compute. reflexivity.
Defined.

Lemma format_amount_truncates_witness :
  ∃ whole frac shown,
    ResolverFacts.strip_commas (Resolver.format_amount 1234999999 6) =
      whole ++ match shown with [] => [] | _ => "."%char :: shown end ∧
    Resolver.digits_value whole * 10 ^ 6 + Resolver.digits_value frac = 1234999999 ∧
    length frac = Z.to_nat 6 ∧ shown `prefix_of` frac ∧ (length shown ≤ 6)%nat.
Proof. apply (format_amount_truncates 1234999999 6); lia. Defined.

(** The token is not held at the second poll. *)
Lemma rug_alarm_compares_readings_witness :
  let ps := [(Example.node 1000, Example.held); (Example.node 1000, ∅)] in
  true = match OracleFacts.last_reading (Oracle.polls Example.meme ∅ ps) with
         | Some p => fge (if fgt p f0 then fdiv (fsub p (f64_of_Z 400)) p else f0) Oracle.RUG_DROP
         | None => false
         end.
Proof.
  intros ps.
  assert (last (Oracle.polls Example.meme ∅ (ps ++ [(Example.node 400, Example.held)])) =
    Some (Oracle.Tick (f64_of_Z 400) (fdiv (f64_of_Z 400) (f64_of_Z 500)) true)) as H
    by (vm_compute; reflexivity).
  exact (rug_alarm_compares_readings Example.meme ps (Example.node 400) Example.held _ _ _ H).
Defined.

Lemma bad_pair_reply_panics_witness :
  Oracle.poll_one Example.bad_node Example.held Example.meme ∅ = (∅, Oracle.Panic) ∧
  Mcap.pool_spot_and_supply Example.bad_node Example.meme 18 = None.
Proof.
  apply (bad_pair_reply_panics Example.bad_node Example.held Example.meme (replicate 66 "z"%char) ∅ 18
    Example.meta); try (vm_compute; reflexivity); vm_compute; lia.
Defined.
