(* ===== verification/Multicall.v ===== *)
(** * bsc-dex/multicall.rs: Multicall3 batches

    The encoder of [aggregate3] calldata, the decoder of its result, and the
    call.  Both are compared with the Solidity ABI of the deployed contract,
    [aggregate3((address,bool,bytes)[]) returns ((bool,bytes)[])], whose
    encoding of an array of dynamic tuples is defined here as the reference. *)

From Stdlib Require Import ZArith Lia Strings.Byte Ascii String.
From S2P Require Import Prelude Bytes Dex.

Import Hex.

(** ** Data *)

Definition AGGREGATE3 : bytes := [Byte.x82; Byte.xad; Byte.x56; Byte.xcb].

Record Multicall3Call : Type := { target : Address; allow_failure : bool; call_data : bytes }.
Record Multicall3Result : Type := { success : bool; return_data : bytes }.

Inductive MulticallError : Type :=
| Http
| Rpc (m : V2.rpc_message)
| Short.

(** ** Encoding *)

Definition bool_word (b : bool) : bytes := word (if b then 1 else 0).

(** Zero bytes up to a multiple of 32. *)
Definition padding (len : nat) : nat := ((32 - len mod 32) mod 32)%nat.
Definition padded (bs : bytes) : bytes := bs ++ replicate (padding (length bs)) Byte.x00.

Definition encode_call (c : Multicall3Call) : bytes :=
  address_word (target c) ++ bool_word (allow_failure c) ++ word 0x60 ++
  word (Z.of_nat (length (call_data c))) ++ padded (call_data c).

Definition encode_aggregate3 (calls : list Multicall3Call) : bytes :=
  AGGREGATE3 ++ word 0x20 ++ word (Z.of_nat (length calls)) ++ (calls ≫= encode_call).

(** ** Decoding *)

(** [usize::try_from(u64::try_from(w).unwrap_or(0)).unwrap_or(0)]. *)
Definition word_usize (w : bytes) : Z := unwrap_or (try_from_width 64 (from_be w)) 0.

(** The loop over the heads from index [i] on; sums of machine words wrap and
    a slice out of range panics ([None]). *)
Fixpoint decode_heads (raw : bytes) (n : nat) (i : nat)
  : option (result (list Multicall3Result) MulticallError) :=
  match n with
  | O => Some (Ok [])
  | S n =>
      head ← slice (64 + i * 64) (64 + (i + 1) * 64) raw;
      last_byte ← head !! 31%nat;
      offset ← slice 32 64 head;
      let abs_tail := wrap 64 (Z.of_nat (64 + i * 64) + word_usize offset) in
      if Z.of_nat (length raw) <? wrap 64 (abs_tail + 32) then Some (Err Short)
      else
        lenw ← slice (Z.to_nat abs_tail) (Z.to_nat (wrap 64 (abs_tail + 32))) raw;
        let blen := word_usize lenw in
        if Z.of_nat (length raw) <? wrap 64 (wrap 64 (abs_tail + 32) + blen) then Some (Err Short)
        else
          data ← slice (Z.to_nat (wrap 64 (abs_tail + 32)))
                   (Z.to_nat (wrap 64 (wrap 64 (abs_tail + 32) + blen))) raw;
          rest ← decode_heads raw n (S i);
          Some (rs <-? rest;;
                Ok ({| success := negb (byte_val last_byte =? 0); return_data := data |} :: rs))
  end.

Definition decode_aggregate3_results (raw : bytes) (expected_len : nat)
  : option (result (list Multicall3Result) MulticallError) :=
  if (length raw <? 64)%nat then Some (Err Short)
  else
    lenw ← slice 32 64 raw;
    let returned_len := from_be lenw in
    if negb (returned_len =? Z.of_nat expected_len)
    then Some (Err (Rpc (V2.UnexpectedLength returned_len (Z.of_nat expected_len))))
    else if (length raw <? 64 + expected_len * 64)%nat then Some (Err Short)
    else decode_heads raw expected_len 0.

(** ** The call *)

Definition eth_call_reply (r : rpc_reply) : result bytes MulticallError :=
  match r with
  | TransportErr => Err Http
  | Reply ok error res =>
      if negb ok then Err (Rpc V2.HttpStatus)
      else
        match error with
        | Some e => Err (Rpc (V2.JsonError e))
        | None =>
            match res with
            | None => Err (Rpc V2.MissingResult)
            | Some s =>
                match hex_decode (strip_0x s) with
                | Ok b => Ok b
                | Err e => Err (Rpc (V2.HexDecodeFailed e))
                end
            end
        end
  end.

Definition aggregate3 (node : Address → list ascii → block_tag → rpc_reply)
    (calls : list Multicall3Call) (block : option Z)
  : option (result (list Multicall3Result) MulticallError) :=
  let data := encode_aggregate3 calls in
  match eth_call_reply (node MULTICALL3 ("0"%char :: "x"%char :: hex_encode data) (tag_of block)) with
  | Err e => Some (Err e)
  | Ok raw => decode_aggregate3_results raw (length calls)
  end.

(** ** The contract's ABI *)

(** The encoding of a [(bool, bytes)] tuple. *)
Definition abi_result (r : Multicall3Result) : bytes :=
  bool_word (success r) ++ word 0x40 ++ word (Z.of_nat (length (return_data r))) ++
  padded (return_data r).

(** An array of dynamic tuples: its length, the offset of each tuple from the
    end of the length word, the tuples. *)
Fixpoint abi_offsets (at_ : Z) (tuples : list bytes) : bytes :=
  match tuples with
  | [] => []
  | t :: ts => word at_ ++ abi_offsets (at_ + Z.of_nat (length t)) ts
  end.
Definition abi_array (tuples : list bytes) : bytes :=
  word (Z.of_nat (length tuples)) ++ abi_offsets (32 * Z.of_nat (length tuples)) tuples ++
  concat tuples.

(** What [aggregate3] returns, as [eth_call] delivers it. *)
Definition abi_results (rs : list Multicall3Result) : bytes :=
  word 0x20 ++ abi_array (abi_result <$> rs).

(** The contract's reading of its calldata: [None] is the revert of the ABI
    decoder.  Reading a word past the end reverts. *)
Definition word_at (bs : bytes) (at_ : Z) : option Z :=
  if (at_ <? 0) || (Z.of_nat (length bs) <? at_ + 32) then None
  else from_be <$> slice (Z.to_nat at_) (Z.to_nat at_ + 32) bs.

Definition abi_call (bs : bytes) (tuple : Z) : option Multicall3Call :=
  t ← word_at bs tuple;
  f ← word_at bs (tuple + 32);
  off ← word_at bs (tuple + 64);
  len ← word_at bs (tuple + off);
  if (2 ^ 160 <=? t) || (1 <? f) then None
  else
    let start := tuple + off + 32 in
    if Z.of_nat (length bs) <? start + len then None
    else
      data ← slice (Z.to_nat start) (Z.to_nat (start + len)) bs;
      Some {| target := t; allow_failure := f =? 1; call_data := data |}.

Fixpoint abi_calls_from (bs : bytes) (base : Z) (i : Z) (n : nat) : option (list Multicall3Call) :=
  match n with
  | O => Some []
  | S n =>
      off ← word_at bs (base + 32 * i);
      c ← abi_call bs (base + off);
      cs ← abi_calls_from bs base (i + 1) n;
      Some (c :: cs)
  end.

Definition abi_read_calls (calldata : bytes) : option (list Multicall3Call) :=
  if negb (bool_decide (take 4 calldata = AGGREGATE3)) then None
  else
    let bs := drop 4 calldata in
    off ← word_at bs 0;
    n ← word_at bs off;
    abi_calls_from bs (off + 32) 0 (Z.to_nat n).

(** The ABI encoding of the calls, and a check that the reference reader
    accepts it. *)
Definition abi_call_tuple (c : Multicall3Call) : bytes :=
  address_word (target c) ++ bool_word (allow_failure c) ++ word 0x60 ++
  word (Z.of_nat (length (call_data c))) ++ padded (call_data c).
Definition abi_calls (cs : list Multicall3Call) : bytes :=
  AGGREGATE3 ++ word 0x20 ++ abi_array (abi_call_tuple <$> cs).

Definition example_calls : list Multicall3Call :=
  [{| target := WBNB; allow_failure := true; call_data := [Byte.xde; Byte.xad] |};
   {| target := MULTICALL3; allow_failure := false; call_data := [] |}].
Example abi_reads_abi : abi_read_calls (abi_calls example_calls) = Some example_calls.
Proof. vm_compute. reflexivity. Qed.

(** ** The decoder's own format *)

(** Heads of two words laid out in place, each offset counted from its head. *)
Fixpoint inline_heads (at_ : Z) (rs : list Multicall3Result) : bytes :=
  match rs with
  | [] => []
  | r :: rs =>
      bool_word (success r) ++ word at_ ++
      inline_heads (at_ - 64 + 32 + Z.of_nat (length (return_data r))) rs
  end.
Definition inline_tail (r : Multicall3Result) : bytes :=
  word (Z.of_nat (length (return_data r))) ++ return_data r.
Definition inline_results (rs : list Multicall3Result) : bytes :=
  word 0x20 ++ word (Z.of_nat (length rs)) ++ inline_heads (64 * Z.of_nat (length rs)) rs ++
  (rs ≫= inline_tail).

(** ** Lemmas *)

Lemma length_bool_word b : length (bool_word b) = 32%nat.
Proof. apply length_word. Qed.

Lemma from_be_word_small z : 0 ≤ z < 2 ^ 64 → from_be (word z) = z.
Proof. intros. apply from_be_word. unfold in_width. assert (2 ^ 64 < 2 ^ 256) by by vm_compute. lia. Qed.

Lemma word_usize_small z : 0 ≤ z < 2 ^ 64 → word_usize (word z) = z.
Proof.
  intros Hz. unfold word_usize. rewrite from_be_word_small by done. unfold try_from_width.
  destruct (Z.leb_spec 0 z); [|lia]. destruct (Z.ltb_spec z (2 ^ 64)); [done|lia].
Qed.

Lemma length_inline_heads at_ rs : length (inline_heads at_ rs) = (64 * length rs)%nat.
Proof.
  revert at_. induction rs as [|r rs IH]; intros; cbn [inline_heads length]; [lia|].
  rewrite !length_app, length_bool_word, length_word, IH. lia.
Qed.

Lemma bool_word_last b : bool_word b !! 31%nat = Some (byte_of (if b then 1 else 0)).
Proof. by destruct b. Qed.

(** A slice of a concatenation, by the lengths around it. *)
Lemma slice_mid pre mid post lo hi :
  length pre = lo → (lo + length mid)%nat = hi → slice lo hi (pre ++ mid ++ post) = Some mid.
Proof. intros ? ?. apply slice_app; lia. Qed.

Lemma slice_prefix lo hi a b : (hi ≤ length a)%nat → slice lo hi (a ++ b) = slice lo hi a.
Proof.
  intros H. unfold slice. rewrite length_app. destruct (decide (lo ≤ hi ∧ hi ≤ length a)%nat) as [Hd|Hd].
  - rewrite decide_True by lia. f_equal. rewrite drop_app_le by lia.
    rewrite take_app_le; [done|]. rewrite length_drop. lia.
  - rewrite decide_False by lia. done.
Qed.

Lemma wrap_id z : 0 ≤ z < 2 ^ 64 → wrap 64 z = z.
Proof. apply wrap_small. Qed.

(** One head of the decoder's own format and its tail. *)
Lemma decode_head raw n i r off a b p q :
  raw = a ++ (bool_word (success r) ++ word off) ++ b → length a = (64 + i * 64)%nat →
  raw = p ++ inline_tail r ++ q → Z.of_nat (length p) = Z.of_nat (64 + i * 64) + off →
  0 ≤ off → Z.of_nat (length raw) < 2 ^ 64 →
  decode_heads raw (S n) i =
    (rest ← decode_heads raw n (S i); Some (rs <-? rest;; Ok (r :: rs))).
Proof.
  intros Ha Hla Hp Hlp Hoff Hraw.
  pose proof (f_equal length Hp) as Hlen. unfold inline_tail in Hlen.
  rewrite !length_app, length_word in Hlen.
  cbn [decode_heads].
  assert (slice (64 + i * 64) (64 + (i + 1) * 64) raw = Some (bool_word (success r) ++ word off)) as ->.
  { rewrite Ha. apply slice_mid; [done|]. rewrite length_app, length_bool_word, length_word. lia. }
  cbn [mbind option_bind].
  rewrite lookup_app_l by (rewrite length_bool_word; lia). rewrite bool_word_last.
  cbn [mbind option_bind].
  assert (slice 32 64 (bool_word (success r) ++ word off) = Some (word off)) as ->.
  { pose proof (slice_mid (bool_word (success r)) (word off) [] 32 64) as Hs.
    rewrite app_nil_r in Hs. apply Hs; by rewrite ?length_bool_word, ?length_word. }
  cbn [mbind option_bind]. rewrite word_usize_small by lia. rewrite <- Hlp.
  set (k := Z.of_nat (length (return_data r))) in *.
  rewrite !(wrap_id (Z.of_nat (length p))) by lia. cbv zeta.
  rewrite !(wrap_id (Z.of_nat (length p) + 32)) by lia.
  destruct (Z.ltb_spec (Z.of_nat (length raw)) (Z.of_nat (length p) + 32)); [lia|].
  assert (slice (Z.to_nat (Z.of_nat (length p))) (Z.to_nat (Z.of_nat (length p) + 32)) raw =
    Some (word k)) as ->.
  { rewrite Hp. unfold inline_tail. rewrite <- (app_assoc (word _)). apply slice_mid; [lia|].
    rewrite length_word. lia. }
  cbn [mbind option_bind]. rewrite word_usize_small by lia.
  rewrite !(wrap_id (Z.of_nat (length p) + 32 + k)) by lia.
  destruct (Z.ltb_spec (Z.of_nat (length raw)) (Z.of_nat (length p) + 32 + k)); [lia|].
  assert (slice (Z.to_nat (Z.of_nat (length p) + 32)) (Z.to_nat (Z.of_nat (length p) + 32 + k)) raw =
    Some (return_data r)) as ->.
  { rewrite Hp. unfold inline_tail. rewrite <- (app_assoc (word _)), (app_assoc p). apply slice_mid; [|lia].
    rewrite length_app, length_word. lia. }
  cbn [mbind option_bind]. by destruct r as [[] d].
Qed.

Lemma decode_inline raw rs i a m :
  raw = a ++ inline_heads (64 * Z.of_nat (length rs) + Z.of_nat (length m)) rs ++ m ++ (rs ≫= inline_tail) →
  length a = (64 + i * 64)%nat → Z.of_nat (length raw) < 2 ^ 64 →
  decode_heads raw (length rs) i = Some (Ok rs).
Proof.
  revert i a m. induction rs as [|r rs IH]; intros i a m Hraw Ha Hlen; [done|].
  cbn [inline_heads mbind list_bind] in Hraw. set (off := 64 * _ + _) in Hraw.
  set (off' := off - 64 + 32 + _) in Hraw.
  assert (off' = 64 * Z.of_nat (length rs) + Z.of_nat (length (m ++ inline_tail r))) as Hoff.
  { unfold off', off, inline_tail. rewrite !length_app, length_word. cbn [length]. lia. }
  cbn [length]. rewrite (decode_head raw (length rs) i r off a
    (inline_heads off' rs ++ m ++ inline_tail r ++ (rs ≫= inline_tail))
    (a ++ bool_word (success r) ++ word off ++ inline_heads off' rs ++ m) (rs ≫= inline_tail)).
  - rewrite (IH (S i) (a ++ bool_word (success r) ++ word off) (m ++ inline_tail r)); [done| | |done].
    + rewrite <- Hoff, Hraw. by rewrite <- !app_assoc.
    + rewrite !length_app, length_bool_word, length_word. lia.
  - rewrite Hraw. by rewrite <- !app_assoc.
  - done.
  - rewrite Hraw. by rewrite <- !app_assoc.
  - rewrite !length_app, length_bool_word, length_word, length_inline_heads. unfold off. cbn [length]. lia.
  - unfold off. lia.
  - done.
Qed.

(** A word read at a word boundary. *)
Lemma word_at_word a z b at_ :
  Z.of_nat (length a) = at_ → 0 ≤ z < 2 ^ 256 → word_at (a ++ word z ++ b) at_ = Some z.
Proof.
  intros <- Hz. unfold word_at. rewrite !length_app, length_word.
  destruct (Z.ltb_spec (Z.of_nat (length a)) 0); [lia|]. cbn [orb].
  destruct (Z.ltb_spec (Z.of_nat (length a + (32 + length b))) (Z.of_nat (length a) + 32)); [lia|].
  rewrite Nat2Z.id. rewrite (slice_mid a (word z) b) by (done || by rewrite length_word).
  cbn. by rewrite from_be_word.
Qed.

Lemma word_at_past bs at_ : Z.of_nat (length bs) < at_ + 32 → word_at bs at_ = None.
Proof.
  intros H. unfold word_at. destruct (Z.ltb_spec (Z.of_nat (length bs)) (at_ + 32)); [|lia].
  by rewrite orb_true_r.
Qed.

Lemma address_word_is_word a : in_width 160 a → address_word a = word a.
Proof.
  intros Ha. assert (from_be (address_word a) = a) as Hf.
  { unfold address_word. rewrite from_be_app, from_be_address by done.
    change (from_be (replicate 12 Byte.x00)) with 0. lia. }
  assert (length (address_word a) = 32%nat) as Hl
    by (unfold address_word; by rewrite length_app, length_replicate, length_to_be).
  unfold word. rewrite <- Hf at 2. rewrite <- Hl. by rewrite to_be_from_be.
Qed.

(** ** Properties *)

(** The decoder gives back, in order and unchanged, the results of a
    reply laid out the way it expects: heads of a flag and an offset counted
    from the head, then the data. *)
Theorem inline_results_roundtrip rs :
  Z.of_nat (length (inline_results rs)) < 2 ^ 64 →
  decode_aggregate3_results (inline_results rs) (length rs) = Some (Ok rs).
Proof.
  intros Hlen.
  assert (64 + length rs * 64 ≤ length (inline_results rs))%nat as Hge.
  { unfold inline_results. rewrite !length_app, !length_word, length_inline_heads. lia. }
  unfold decode_aggregate3_results. destruct (Nat.ltb_spec (length (inline_results rs)) 64); [lia|].
  assert (slice 32 64 (inline_results rs) = Some (word (Z.of_nat (length rs)))) as ->.
  { unfold inline_results. apply slice_mid; [apply length_word|by rewrite length_word]. }
  cbn [mbind option_bind]. rewrite from_be_word_small by lia. rewrite Z.eqb_refl. cbn [negb].
  destruct (Nat.ltb_spec (length (inline_results rs)) (64 + length rs * 64)); [lia|].
  apply (decode_inline _ rs 0 (word 0x20 ++ word (Z.of_nat (length rs))) []); [|done|done].
  unfold inline_results. cbn [length]. rewrite Z.add_0_r. by rewrite <- !app_assoc.
Qed.

(** The first 128 bytes of the contract's reply to one call, and what the
    decoder takes for its head. *)
Definition abi_front (ok : bool) : bytes := word 0x20 ++ word 1 ++ word 0x20 ++ bool_word ok.

Lemma length_abi_front ok : length (abi_front ok) = 128%nat.
Proof. by destruct ok. Qed.

Lemma abi_single_reply ok data :
  (length data ≤ 4000)%nat →
  ∃ tail, abi_results [{| success := ok; return_data := data |}] = abi_front ok ++ tail ∧
    (64 ≤ length tail ≤ 4096)%nat.
Proof.
  intros Hd. exists (word 0x40 ++ word (Z.of_nat (length data)) ++ padded data). split.
  - unfold abi_results, abi_array, abi_result, abi_front.
    cbn [fmap list_fmap length abi_offsets concat]. by rewrite !app_nil_r, <- !app_assoc.
  - assert (length (padded data) ≤ 4032)%nat.
    { unfold padded, padding. rewrite length_app, length_replicate.
      pose proof (Nat.mod_upper_bound (32 - length data mod 32) 32). lia. }
    rewrite !length_app, !length_word. lia.
Qed.

(** The head is the offset table: its word is taken for the flag, the flag for
    the offset. *)
Lemma front_reads_head ok tail :
  (64 ≤ length tail)%nat →
  decode_aggregate3_results (abi_front ok ++ tail) 1 = decode_heads (abi_front ok ++ tail) 1 0 ∧
  slice (64 + 0 * 64) (64 + (0 + 1) * 64) (abi_front ok ++ tail) = Some (word 32 ++ bool_word ok).
Proof.
  intros Ht. unfold decode_aggregate3_results. rewrite length_app, length_abi_front.
  destruct (Nat.ltb_spec (128 + length tail) 64); [lia|].
  rewrite (slice_prefix 32), (slice_prefix (64 + 0 * 64)) by (rewrite length_abi_front; lia).
  change (slice 32 64 (abi_front ok)) with (Some (word 1)). cbn [mbind option_bind].
  change (from_be (word 1) =? Z.of_nat 1) with true. cbn [negb].
  destruct (Nat.ltb_spec (128 + length tail) (64 + 1 * 64)); [lia|]. by destruct ok.
Qed.

(** The contract's real reply is misread.  A single failed call is
    reported as a success that returned a zero word, whatever its revert data;
    a single successful call with at most 4000 bytes of data is an error. *)
Theorem abi_reply_misread data :
  (length data ≤ 4000)%nat →
  decode_aggregate3_results (abi_results [{| success := false; return_data := data |}]) 1 =
    Some (Ok [{| success := true; return_data := word 0 |}]) ∧
  decode_aggregate3_results (abi_results [{| success := true; return_data := data |}]) 1 =
    Some (Err Short).
Proof.
  intros Hd. split.
  - destruct (abi_single_reply false data Hd) as (tail & -> & Ht).
    destruct (front_reads_head false tail) as [-> Hs]; [lia|]. cbn [decode_heads].
    rewrite Hs, length_app, length_abi_front. cbn [mbind option_bind].
    change ((word 32 ++ bool_word false) !! 31%nat) with (Some Byte.x20). cbn [mbind option_bind].
    change (slice 32 64 (word 32 ++ bool_word false)) with (Some (word 0)). cbn [mbind option_bind].
    change (wrap 64 (Z.of_nat (64 + 0 * 64) + word_usize (word 0))) with 64. cbv zeta.
    change (wrap 64 (64 + 32)) with 96.
    destruct (Z.ltb_spec (Z.of_nat (128 + length tail)) 96); [lia|].
    rewrite (slice_prefix (Z.to_nat 64)) by (vm_compute; lia).
    change (slice (Z.to_nat 64) (Z.to_nat 96) (abi_front false)) with (Some (word 32)).
    cbn [mbind option_bind]. change (wrap 64 (96 + word_usize (word 32))) with 128.
    destruct (Z.ltb_spec (Z.of_nat (128 + length tail)) 128); [lia|].
    rewrite (slice_prefix (Z.to_nat 96)) by (vm_compute; lia). reflexivity.
  - destruct (abi_single_reply true data Hd) as (tail & -> & Ht).
    destruct (front_reads_head true tail) as [-> Hs]; [lia|]. cbn [decode_heads].
    rewrite Hs, length_app, length_abi_front. cbn [mbind option_bind].
    change ((word 32 ++ bool_word true) !! 31%nat) with (Some Byte.x20). cbn [mbind option_bind].
    change (slice 32 64 (word 32 ++ bool_word true)) with (Some (word 1)). cbn [mbind option_bind].
    change (wrap 64 (Z.of_nat (64 + 0 * 64) + word_usize (word 1))) with 65. cbv zeta.
    change (wrap 64 (65 + 32)) with 97.
    destruct (Z.ltb_spec (Z.of_nat (128 + length tail)) 97); [lia|].
    rewrite (slice_prefix (Z.to_nat 65)) by (vm_compute; lia).
    change (slice (Z.to_nat 65) (Z.to_nat 97) (abi_front true)) with (Some (to_be 32 8192)).
    cbn [mbind option_bind]. change (wrap 64 (97 + word_usize (to_be 32 8192))) with 8289.
    destruct (Z.ltb_spec (Z.of_nat (128 + length tail)) 8289); [done|lia].
Qed.

(** The calldata is not the ABI encoding: the offsets of the tuples are
    missing, so for any batch whose first target, read as an offset, lies past
    the calldata, which every real address does, the contract's decoder reads
    the target as an offset and reverts. *)
Theorem encoded_calls_revert c cs :
  in_width 160 (target c) → Z.of_nat (length (encode_aggregate3 (c :: cs))) ≤ target c →
  abi_read_calls (encode_aggregate3 (c :: cs)) = None.
Proof.
  intros Ht Hlen. unfold abi_read_calls. unfold encode_aggregate3 at 1.
  rewrite bool_decide_eq_true_2 by done. cbn [negb].
  set (body := (c :: cs) ≫= encode_call).
  set (n := Z.of_nat (length (c :: cs))).
  assert (drop 4 (encode_aggregate3 (c :: cs)) = word 0x20 ++ word n ++ body) as -> by done.
  assert (length (encode_aggregate3 (c :: cs)) = 4 + (32 + (32 + length body)))%nat as He
    by (unfold encode_aggregate3; by rewrite !length_app, !length_word).
  assert (∀ l, length l ≤ length (l ≫= encode_call))%nat as Hle.
  { induction l as [|x l IH]; [done|]. cbn [mbind list_bind length].
    unfold encode_call at 1. rewrite !length_app, !length_word. lia. }
  specialize (Hle (c :: cs)). fold body in Hle.
  assert (2 ^ 160 < 2 ^ 256) by by vm_compute. unfold in_width in Ht.
  pose proof (word_at_word [] 32 (word n ++ body) 0 eq_refl) as H0. cbn [app] in H0.
  rewrite H0 by lia. cbn [mbind option_bind].
  rewrite (word_at_word (word 32) n body 32) by (rewrite ?length_word; lia).
  cbn [mbind option_bind]. replace (Z.to_nat n) with (S (length cs)) by (unfold n; cbn [length]; lia).
  cbn [abi_calls_from].
  assert (body = word (target c) ++ drop 32 body) as Hb.
  { unfold body. cbn [mbind list_bind]. unfold encode_call at 1 2.
    by rewrite address_word_is_word, <- !app_assoc. }
  assert (word_at (word 32 ++ word n ++ body) (32 + 32 + 32 * 0) = Some (target c)) as ->.
  { rewrite Hb, app_assoc. apply word_at_word; [by rewrite length_app, !length_word|lia]. }
  cbn [mbind option_bind]. unfold abi_call.
  rewrite (word_at_past _ (32 + 32 + target c)) by (rewrite !length_app, !length_word; lia).
  reflexivity.
Qed.

(** ** Instances *)

Lemma inline_results_roundtrip_witness :
  let rs := [{| success := true; return_data := [Byte.x01; Byte.x02] |};
             {| success := false; return_data := [] |}] in
  decode_aggregate3_results (inline_results rs) 2 = Some (Ok rs).
Proof.
  apply (inline_results_roundtrip [{| success := true; return_data := [Byte.x01; Byte.x02] |};
             {| success := false; return_data := [] |}]). vm_compute. reflexivity.
Defined.

Lemma abi_reply_misread_witness :
  decode_aggregate3_results (abi_results [{| success := false; return_data := [Byte.xff] |}]) 1 =
    Some (Ok [{| success := true; return_data := word 0 |}]).
Proof. refine (proj1 (abi_reply_misread [Byte.xff] _)). cbn. lia. Defined.

Lemma encoded_calls_revert_witness :
  abi_read_calls (encode_aggregate3 example_calls) = None ∧
  abi_read_calls (abi_calls example_calls) = Some example_calls.
Proof.
  split; [|vm_compute; reflexivity].
  apply (encoded_calls_revert {| target := WBNB; allow_failure := true;
    call_data := [Byte.xde; Byte.xad] |}); vm_compute; [split|]; discriminate || reflexivity.
Defined.
