(* ===== verification/NodeReads.v ===== *)
(** * trader/executor_live.rs: what the live executor reads of its node

    The requests of the hot path and of the background task, and how each
    reply is read: balances, allowances, the pair of the factory, router
    quotes, the gas price, the dry runs on the bonding curve, receipts.
    [with_node] makes the executor's environment ([Executor.Env]) out of a
    node, so the theorems about the executor apply to one. *)

From Stdlib Require Import ZArith Lia Ascii String.
From S2P Require Import Prelude F64 Bytes Rpc Types Dex Limits ExecMath Executor Trail.

Local Abbreviation text := (list ascii) (only parsing).

Definition INVALID_TOKEN : text := list_ascii_of_string "Invalid token".
Definition STATUS_OK : text := list_ascii_of_string "0x1".

(** ** Requests *)

Inductive request : Type :=
| GetPair (token : Address)
| DryBuy (token : Address) (amount : U256)
| DrySell (token : Address) (probe : U256)
| GetAmountsOut (amount_in : U256) (path : list Address)
| GasPrice
| WalletBalance
| BlockNumber
| BalanceOf (token who : Address) (at_ : block_tag)
| AllowanceOf (token spender : Address)
| ReceiptOf (hash : B256).

(** ** Replies

    [None] is a transport failure or a body that is not JSON.  [parse_u256] is
    [U256::from_str_radix(_, 16)] and [hex_bytes] is [hex::decode]. *)

Section Replies.
Context (parse_u256 : text → option U256) (hex_bytes : text → option bytes).

(** [LiveExecutor::eth_call_u256]. *)
Definition eth_call_u256 (r : option json) : option U256 :=
v ← r; hex_s ← result_str v;
match strip_0x hex_s with [] => Some 0 | s => parse_u256 s end.

Definition balance_of_at (r : option json) : option U256 :=
v ← r; hex_s ← result_str v;
match trim_0x hex_s with [] => Some 0 | s => parse_u256 s end.

(** [BgPrep::token_balance]: no case for an empty result. *)
Definition bg_token_balance (r : option json) : option U256 :=
v ← r; h ← result_str v; parse_u256 (trim_0x h).

Definition gas_price_wei (r : option json) : option Z :=
v ← r; hex ← result_str v; from_str_radix16 128 (trim_0x hex).

Definition wallet_balance_bnb (r : option json) : option f64 :=
n ← gas_price_wei r; Some (fdiv (f64_of_Z n) f1e18).

Definition head_block (r : option json) : option Z :=
v ← r; hex ← result_str v; from_str_radix16 64 (trim_0x hex).

(** The paper trader's reader strips one prefix only. *)
Definition current_head_block (r : option json) : option Z :=
v ← r; hex ← result_str v; from_str_radix16 64 (strip_0x hex).

Definition get_amounts_out_v2 (r : option json) : option U256 :=
v ← r; h ← result_str v; raw ← hex_bytes (trim_0x h); amounts_out_last raw.

Definition v2_pair_lookup (r : option json) : option Address :=
v ← r; h ← result_str v;
let hex_s := trim_0x h in
if forallb (Ascii.eqb "0") hex_s then None
else
bs ← hex_bytes hex_s;
if (length bs <? 20)%nat then None
else
let addr := from_be (drop (length bs - 20) bs) in
if addr =? 0 then None else Some addr.

(** [v2_pair_exists]: a reply too short for a word is no pair. *)
Definition v2_pair_exists (r : option json) : bool :=
match (v ← r; result_str v) with
| None => false
| Some h =>
if (length h <? 66)%nat then false
else negb (forallb (Ascii.eqb "0") (drop (length h - 40) h))
end.

Definition eth_call_succeeds (r : option json) : bool :=
match r with
| Some v => bool_decide (is_Some (get "result" v)) && negb (bool_decide (is_Some (get "error" v)))
| None => false
end.

Definition error_message (v : json) : text :=
unwrap_or (e ← get "error" v; m ← get "message" e; as_str m) [].

(** The dry run of a sale: only a definite no is a no. *)
Definition fourmeme_would_accept_sell (r : option json) : bool :=
match r with
| None => false
| Some v =>
if eth_call_succeeds r then true else negb (contains INVALID_TOKEN (error_message v))
end.

Definition receipt_status (r : option json) : option bool :=
v ← r; x ← get "result" v;
match x with
| JNull => None
| _ => st ← get "status" x; s ← as_str st; Some (bool_decide (s = STATUS_OK))
end.
End Replies.

(** ** The executor's environment on a node *)

Section Env.
Context (parse_u256 : text → option U256) (hex_bytes : text → option bytes).
Context (node : request → option json).

(** [base] gives the clocks, the price feed, the signer and the relays; the
dry run before a resale is for [resell] tokens. *)
Definition with_node (base : Env) (me : Address) (resell : U256) : Env :=
let balance t := eth_call_u256 parse_u256 (node (BalanceOf t me Latest)) in
let quote a p := get_amounts_out_v2 hex_bytes (node (GetAmountsOut a p)) in
let sells t a := fourmeme_would_accept_sell (node (DrySell t a)) in
{| now_ms := now_ms base; instant_ms := instant_ms base; bnb_usd := bnb_usd base;
gas_price := gas_price_wei (node GasPrice);
get_pair := λ t, v2_pair_lookup hex_bytes (node (GetPair t));
accepts_buy := λ t a, eth_call_succeeds (node (DryBuy t a));
accepts_sell := λ t, sells t (unwrap_or (balance t) 0);
accepts_resell := λ t, sells t resell;
tax_quote := quote; amounts_out := quote;
sign := sign base; send_ok := send_ok base; chain_nonce := chain_nonce base;
token_balance := balance;
token_allowance := λ t sp, eth_call_u256 parse_u256 (node (AllowanceOf t sp));
Executor.balance_of_at := λ who t blk,
balance_of_at parse_u256 (node (BalanceOf t who (AtBlock blk))) |}.
End Env.

(** ** A node that answers from the state of the chain *)

Record Chain : Type := {
  c_pair : Address → Address;
  c_balance : Address → Address → block_tag → U256;
  c_allowance : Address → Address → U256;
  c_amounts : U256 → list Address → list U256;
  c_gas : Z;
  c_head : Z;
  c_wallet : Z;
  c_curve : Address → bool;
  c_receipt : B256 → option bool;
}.

Definition hex_result (bs : bytes) : option json :=
  Some (result_reply (JString ("0"%char :: "x"%char :: Hex.hex_encode bs))).
Definition quantity_result (n : Z) : option json := Some (result_reply (JString (quantity n))).
Definition revert_reply (why : text) : option json :=
  Some (error_reply (JObject [(list_ascii_of_string "message", JString why)])).

Definition chain_node (c : Chain) (q : request) : option json :=
  match q with
  | GetPair t => hex_result (word (c_pair c t))
  | DryBuy t _ => if c_curve c t then hex_result [] else revert_reply INVALID_TOKEN
  | DrySell t _ =>
      revert_reply (if c_curve c t then list_ascii_of_string "ERC20: insufficient allowance"
                    else INVALID_TOKEN)
  | GetAmountsOut a p => hex_result (V2.abi_amounts (c_amounts c a p))
  | GasPrice => quantity_result (c_gas c)
  | WalletBalance => quantity_result (c_wallet c)
  | BlockNumber => quantity_result (c_head c)
  | BalanceOf t who at_ => hex_result (word (c_balance c t who at_))
  | AllowanceOf t sp => hex_result (word (c_allowance c t sp))
  | ReceiptOf h =>
      Some (result_reply match c_receipt c h with
            | None => JNull
            | Some ok => JObject [(list_ascii_of_string "status",
                JString (if ok then STATUS_OK else list_ascii_of_string "0x0"))]
            end)
  end.

(** ** Lemmas *)

Lemma hex_encode_digits bs : Forall is_hex (Hex.hex_encode bs).
Proof.
  induction bs as [|b bs IH]; [constructor|]. rewrite Hex.hex_encode_cons.
  pose proof (byte_val_bound b).
  repeat constructor; [| |done]; apply hex_digit_is_hex.
  - split; [apply Z.div_pos; lia|apply Z.div_lt_upper_bound; lia].
  - apply Z.mod_pos_bound. lia.
Qed.

Lemma trim_0x_encode bs : trim_0x ("0"%char :: "x"%char :: Hex.hex_encode bs) = Hex.hex_encode bs.
Proof. apply (trim_0x_digits (Hex.hex_encode bs)), hex_encode_digits. Qed.

Lemma amounts_last_abi am last :
  Forall (in_width 256) (am ++ [last]) → Z.of_nat (length am + 1) < 2 ^ 32 →
  amounts_out_last (V2.abi_amounts (am ++ [last])) = Some last.
Proof.
  intros Hw Hn. unfold amounts_out_last, V2.abi_amounts.
  assert (length (word 0x20 ++ word (Z.of_nat (length (am ++ [last]))) ++ ((am ++ [last]) ≫= word)) =
    (64 + (length am + 1) * 32)%nat) as Hl.
  { rewrite !length_app, !length_word, V2.length_words, length_app. cbn [length]. lia. }
  rewrite Hl. destruct (Nat.ltb_spec (64 + (length am + 1) * 32) 96); [lia|].
  rewrite (slice_app (word 0x20)) by (rewrite ?length_word; lia).
  assert (2 ^ 32 < 2 ^ 256) by (apply Z.pow_lt_mono_r; lia).
  rewrite length_app. cbn [length]. rewrite from_be_word by (unfold in_width; lia).
  unfold try_from_width. destruct (Z.leb_spec 0 (Z.of_nat (length am + 1))); [|lia].
  destruct (Z.ltb_spec (Z.of_nat (length am + 1)) (2 ^ 32)); [|lia]. cbn [andb].
  destruct (Z.eqb_spec (Z.of_nat (length am + 1)) 0); [lia|]. cbn [orb].
  destruct (Z.ltb_spec (Z.of_nat (64 + (length am + 1) * 32)) (64 + Z.of_nat (length am + 1) * 32));
    [lia|].
  rewrite Nat2Z.id. replace (length am + 1 - 1)%nat with (length am) by lia.
  rewrite bind_app. cbn [mbind list_bind]. rewrite app_nil_r.
  rewrite !(app_assoc (word 0x20)), app_assoc. rewrite <- (app_nil_r (word last)).
  rewrite slice_app; cbn; rewrite ?length_app, ?length_word, ?V2.length_words; try lia.
  f_equal. apply from_be_word. apply Forall_app in Hw as [_ Hw]. by inversion Hw.
Qed.

Lemma zeros_encode bs : forallb (Ascii.eqb "0") (Hex.hex_encode bs) = all_zero bs.
Proof.
  induction bs as [|b bs IH]; [done|]. rewrite Hex.hex_encode_cons.
  unfold all_zero in *. cbn [forallb]. rewrite IH, andb_assoc. f_equal. by destruct b.
Qed.

Lemma hex_encode_app a b : Hex.hex_encode (a ++ b) = Hex.hex_encode a ++ Hex.hex_encode b.
Proof. apply bind_app. Qed.

(** The word of an address is its twenty bytes after twelve of zero. *)
Lemma word_address a : in_width 160 a → word a = address_word a.
Proof.
  intros Ha. rewrite <- (to_be_from_be (address_word a)), length_address_word. unfold address_word.
  rewrite from_be_app, from_be_address by done. by rewrite length_to_be.
Qed.

(** The two readers of [getPair] agree on what the factory answers. *)
Lemma pair_exists_word p : in_width 160 p → v2_pair_exists (hex_result (word p)) = negb (p =? 0).
Proof.
  intros Hp. unfold v2_pair_exists, hex_result. cbn [mbind option_bind].
  rewrite result_str_reply. cbn [length]. rewrite Hex.length_hex_encode, length_word.
  change (S (S (2 * 32)) <? 66)%nat with false. change (S (S (2 * 32)) - 40)%nat with 26%nat. cbv iota.
  f_equal. cbn [drop]. rewrite word_address by done. unfold address_word. rewrite hex_encode_app.
  rewrite (drop_app_length' (Hex.hex_encode (replicate 12 Byte.x00))) by done.
  rewrite zeros_encode. apply eq_true_iff_eq. rewrite all_zero_spec, from_be_address by done.
  by rewrite Z.eqb_eq.
Qed.

Section Reads.
Context (parse_u256 : text → option U256) (hex_bytes : text → option bytes).
Hypothesis parse_word : ∀ z, in_width 256 z → parse_u256 (Hex.hex_encode (word z)) = Some z.
Hypothesis hex_roundtrip : ∀ bs, hex_bytes (Hex.hex_encode bs) = Some bs.

Lemma read_word z : in_width 256 z → eth_call_u256 parse_u256 (hex_result (word z)) = Some z.
Proof. intros Hz. by apply parse_word. Qed.

Lemma read_word_trim z : in_width 256 z → balance_of_at parse_u256 (hex_result (word z)) = Some z.
Proof.
intros Hz. unfold balance_of_at, hex_result. cbn [mbind option_bind].
rewrite result_str_reply. cbn [mbind option_bind]. rewrite trim_0x_encode. by apply parse_word.
Qed.

Lemma read_pair p : in_width 160 p →
v2_pair_lookup hex_bytes (hex_result (word p)) = if p =? 0 then None else Some p.
Proof.
intros Hp. assert (2 ^ 160 < 2 ^ 256) by (apply Z.pow_lt_mono_r; lia).
unfold v2_pair_lookup, hex_result. cbn [mbind option_bind].
rewrite result_str_reply. cbn [mbind option_bind]. rewrite trim_0x_encode, zeros_encode, hex_roundtrip.
destruct (all_zero (word p)) eqn:Ez.
- apply all_zero_spec in Ez. rewrite from_be_word in Ez by (unfold in_width in *; lia). by subst.
- cbn [mbind option_bind]. rewrite length_word. cbn [Nat.ltb Nat.leb Nat.sub].
unfold in_width in Hp.
rewrite word_address by done. unfold address_word. rewrite drop_app_length' by done. rewrite from_be_address by done. done.
Qed.

Lemma read_quantity n : 0 ≤ n < 2 ^ 128 → gas_price_wei (quantity_result n) = Some n.
Proof.
intros Hn. unfold gas_price_wei, quantity_result. cbn [mbind option_bind].
rewrite result_str_reply. cbn [mbind option_bind]. by apply parse_quantity.
Qed.

Lemma read_amounts am last :
Forall (in_width 256) (am ++ [last]) → Z.of_nat (length am + 1) < 2 ^ 32 →
get_amounts_out_v2 hex_bytes (hex_result (V2.abi_amounts (am ++ [last]))) = Some last.
Proof.
intros Hw Hn. unfold get_amounts_out_v2, hex_result. cbn [mbind option_bind].
rewrite result_str_reply. cbn [mbind option_bind]. rewrite trim_0x_encode, hex_roundtrip.
by apply amounts_last_abi.
Qed.

Lemma read_head n : 0 ≤ n < 2 ^ 64 →
head_block (quantity_result n) = Some n ∧ current_head_block (quantity_result n) = Some n.
Proof.
intros Hn. unfold head_block, current_head_block, quantity_result. cbn [mbind option_bind].
rewrite result_str_reply. cbn [mbind option_bind]. split; [by apply parse_quantity|].
pose proof (parse_quantity 64 n Hn ltac:(lia)) as Hp. change (trim_0x (quantity n)) with (trim_0x (hex_of n)) in Hp.
by rewrite trim_0x_digits in Hp by (apply hexadecimal_digits; lia).
Qed.

(** ** Properties *)

End Reads.

(** *** A node that does not answer *)

Definition silent : request → option json := λ _, None.

Lemma silent_route env s token r s' :
  (∀ t, get_pair env t = None) → pick_route env false s token = (s', Some r) →
  r = PancakeV2 ∧ ∃ e p, v2_pair_cache s !! token = Some e ∧ pair e = Some p.
Proof.
  intros Hnone. unfold pick_route, v2_pair_cached.
  destruct (v2_pair_cache s !! token) as [e|]; [|by rewrite Hnone].
  destruct (pair e) as [p|] eqn:Ep; [intros [= _ <-]; eauto|].
  destruct (_ <? _); [done|]. by rewrite Hnone.
Qed.

(** The gas price after a failed read is the cached one. *)
Lemma silent_gas env s : gas_price env = None →
  ∃ g, gas_wei env s = (s, g) ∧ (g = None ∨ g = Some (gas_cache s).1).
Proof.
  intros Hg. unfold gas_wei. destruct (gas_cache s) as [wei at_]. rewrite Hg.
  destruct (_ && _); eauto.
Qed.

(** With a node that does not answer, a buy can only be one of a token whose
    pair is cached, and it goes out with a minimum output of zero: without
    quotes neither the sell-tax check nor the slippage bound protects it. *)
Theorem silent_node_buy_is_unprotected pu hb base me resell s d vis n :
  let env := with_node pu hb silent base me resell in
  wire (execute env s d vis n) ≠ wire s →
  ∃ kol token amt kin blk h t ok e p, d = Enter kol token amt kin blk h ∧
    wire (execute env s d vis n) = wire s ++ [(t, ok)] ∧
    v2_pair_cache s !! token = Some e ∧ pair e = Some p ∧
    tx_to t = PANCAKE_V2_ROUTER ∧
    tx_call t = swapExactETHForTokens 0 [WBNB; token] (wallet s) (now_ms base / 1000 + DEADLINE_SECS).
Proof.
  intros env. unfold execute. destruct d as [| kol token amt kin blk h |]; try done.
  destruct (dup_guard s token) as [s0|] eqn:Ed; [|done].
  apply dup_guard_spec in Ed as [_ [q ->]]. set (s0 := set_positions s q _ _).
  destruct (size_buy _ _ _ _) as [sized|]; [|done].
  destruct (check_blacklisted _ _); [done|]. destruct (clamp_buy _ _) as [f amount].
  unfold gated_buy. destruct (silent_gas env s0 eq_refl) as (g & -> & _). cbv zeta.
  set (fee := Z.max _ BUY_GAS_FLOOR).
  destruct (check _ _ _) as [l [[]|why]]; [|done]. set (s2 := set_limits s0 l).
  change (accepts_buy env token amount) with false.
  destruct (pick_route env false s2 token) as [s3 [r|]] eqn:Er.
  2: { pose proof (pick_route_caches env false s2 token) as Hp. rewrite Er in Hp. cbn [fst] in Hp.
       destruct Hp as (gc & v & ->). done. }
  pose proof (pick_route_caches env false s2 token) as Hp. rewrite Er in Hp. cbn [fst] in Hp.
  apply silent_route in Er as (-> & e & p & He & Hpair); [|done].
  destruct Hp as (gc & v & ->). set (s4 := set_caches s2 gc v).
  change (sell_tax_refuses env s4 PancakeV2 token amount) with (@None Z). cbv iota.
  destruct (send_buy_wire env s4 PancakeV2 kol vis token amount fee) as [->|[_ ->]]; [done|].
  intros _. exists kol, token, amt, kin, blk, h, (buy_tx env s4 PancakeV2 token amount fee),
    (send_ok env (buy_tx env s4 PancakeV2 token amount fee)), e, p.
  split_and!; try done. cbn. f_equal. unfold apply_slippage. by rewrite orb_true_r.
Qed.

(** ** Instances *)

Module Chains.
Definition token : Address := 9.
Definition graduated : Chain :=
{| c_pair := λ _, 0xAA; c_balance := λ _ _ _, 500; c_allowance := λ _ _, 0;
c_amounts := λ a _, [a mod 2 ^ 256; 2 * (a mod 1000)]; c_gas := 50000000; c_head := 100; c_wallet := 10 ^ 18;
c_curve := λ _, false; c_receipt := λ h, if h =? 1 then Some true else None |}.
Definition parse : text → option U256 := from_str_radix16 256.
Definition unhex (s : text) : option bytes :=
match Hex.hex_decode s with Ok b => Some b | Err _ => None end.
(** The pair and the gas price are cached. *)
Definition warm : LiveExecutor :=
set_caches Executor.Example.funded (50000000, 100000)
{[ token := {| pair := Some 0xAA; cached_at := 0 |} ]}.
End Chains.

(** The digits of bytes, folded, are the bytes' value. *)
Lemma fold_encode w bs acc :
  0 ≤ acc → acc * 256 ^ Z.of_nat (length bs) + from_be bs < 2 ^ w →
  foldl (radix_step 16 w to_digit16) (Some acc) (Hex.hex_encode bs) =
    Some (acc * 256 ^ Z.of_nat (length bs) + from_be bs).
Proof.
  revert acc. induction bs as [|b bs IH]; intros acc Ha Hlt.
  { cbn. f_equal. unfold from_be. cbn. lia. }
  rewrite Hex.hex_encode_cons. pose proof (byte_val_bound b) as Hb.
  change (b :: bs) with ([b] ++ bs) in *. rewrite from_be_app, length_app in *.
  change (length [b]) with 1%nat in *. replace (from_be [b]) with (byte_val b) in * by (unfold from_be; cbn; lia).
  rewrite Nat2Z.inj_add, Z.pow_add_r in * by lia. change (256 ^ Z.of_nat 1) with 256 in *.
  pose proof (from_be_bound bs) as Hf. assert (0 < 256 ^ Z.of_nat (length bs)) by (apply Z.pow_pos_nonneg; lia).
  set (d := 256 ^ Z.of_nat (length bs)) in *.
  set (m := byte_val b) in *. clearbody m.
  pose proof (Z.mod_pos_bound m 16 ltac:(lia)).
  assert (0 ≤ m / 16 < 16) by (split; [apply Z.div_pos|apply Z.div_lt_upper_bound]; lia).
  pose proof (Z.div_mod m 16 ltac:(lia)).
  assert ((acc * 16 + m / 16) * 16 + m mod 16 = acc * 256 + m) as Hv by lia.
  assert (acc * (256 * d) + (m * d + from_be bs) = (acc * 256 + m) * d + from_be bs) as Hr by ring.
  rewrite Hr in *. clear Hr.
  assert (acc * 256 + m < 2 ^ w) by (clearbody d; nia).
  assert (∀ z, 0 ≤ z < 2 ^ w → try_from_width w z = Some z) as Hfit.
  { intros z ?. unfold try_from_width. destruct (Z.leb_spec 0 z); [|lia].
    by destruct (Z.ltb_spec z (2 ^ w)); [|lia]. }
  cbn [foldl]. unfold radix_step at 2 3. rewrite !to_digit16_hex_digit by done.
  rewrite (Hfit (acc * 16 + m / 16)) by lia. rewrite Hv, Hfit by lia.
  apply IH; lia.
Qed.

Lemma parse_encoded_word z : in_width 256 z → Chains.parse (Hex.hex_encode (word z)) = Some z.
Proof.
  intros Hz. unfold Chains.parse. rewrite parse_hex_digits.
  - pose proof (fold_encode 256 (word z) 0 ltac:(lia)) as Hf. rewrite from_be_word in Hf by done.
    apply Hf. unfold in_width in Hz. lia.
  - apply hex_encode_digits.
  - intros H. apply (f_equal length) in H. by rewrite Hex.length_hex_encode, length_word in H.
Qed.

Lemma unhex_encode bs : Chains.unhex (Hex.hex_encode bs) = Some bs.
Proof. unfold Chains.unhex. by rewrite Hex.decode_encode. Qed.


Lemma silent_node_buy_is_unprotected_witness :
  let env := with_node Chains.parse Chains.unhex silent (Executor.Example.env None) 0x77 0 in
  ∃ t ok, wire (execute env Chains.warm Executor.Example.entry "public" 0) = wire Chains.warm ++ [(t, ok)] ∧
    tx_to t = PANCAKE_V2_ROUTER.
Proof.
  destruct (silent_node_buy_is_unprotected Chains.parse Chains.unhex (Executor.Example.env None) 0x77 0
    Chains.warm Executor.Example.entry "public" 0)
    as (kol & token & amt & kin & blk & h & t & ok & e & p & _ & Hw & _ & _ & Ht & _).
  - vm_compute. discriminate.
  - exists t, ok. exact (conj Hw Ht).
Defined.
