(* ===== verification/Relay.v ===== *)
(** * trader/executor_live.rs: submission to the node and the relays

    [submit_raw] with its retry and its idempotency rule, [submit_bundle],
    [submit_puissant], and [broadcast], which runs the three and answers with
    the first.  The endpoints are state machines behind a network that loses
    requests and replies; [TxPool] states what the program relies on of the
    node, and [Geth] is a node that has it. *)

From Stdlib Require Import ZArith Lia Ascii String.
From S2P Require Import Prelude F64 Bytes Rpc Types Dex Limits ExecMath Executor Trail.

Local Abbreviation text := (list ascii) (only parsing).

(** What comes back of an HTTP request: [send] failed, the body was not JSON,
    or a value. *)
Inductive http : Type := SendErr | BadBody | Body (v : json).

Inductive submit_error : Type := DecodeResponse | RpcError (err : json) | SendAfterRetry.

Definition ALREADY_KNOWN : text := list_ascii_of_string "already known".
Definition KNOWN_TRANSACTION : text := list_ascii_of_string "known transaction".
Definition ALREADYKNOWN : text := list_ascii_of_string "alreadyknown".

(** ** One transaction to one endpoint *)

Section Raw.
(** [show] is the JSON text of a value; [post] one request to the endpoint. *)
Context (show : json → text) {G : Type} (post : G → text → G * http).

Definition says_known (err : json) : bool :=
let s := to_lowercase (show err) in
contains ALREADY_KNOWN s || contains KNOWN_TRANSACTION s || contains ALREADYKNOWN s.

(** The loop over the attempts; [None] is its [unreachable!]. *)
Fixpoint submit_attempts (attempts : list Z) (g : G) (raw : text)
: G * option (result unit submit_error) :=
match attempts with
| [] => (g, None)
| attempt :: rest =>
let '(g, r) := post g raw in
match r with
| Body v =>
match get "error" v with
| Some err => (g, Some (if says_known err then Ok tt else Err (RpcError err)))
| None => (g, Some (Ok tt))
end
| BadBody => (g, Some (Err DecodeResponse))
| SendErr =>
if attempt =? 0 then submit_attempts rest g raw else (g, Some (Err SendAfterRetry))
end
end.

Definition submit_raw (g : G) (raw : text) : G * option (result unit submit_error) :=
submit_attempts [0; 1] g raw.
End Raw.

(** ** Bundles *)

Record Bundle : Type := {
  b_txs : list text;
  b_blockNumber : text;
  b_minTimestamp : Z;
  b_maxTimestamp : Z;
  b_revertingTxHashes : list text;
}.

Record Puissant : Type := {
  p_txs : list text;
  p_maxTimestamp : Z;
  p_acceptReverting : list text;
}.

Inductive bundle_error : Type := HttpFailed | NoResult | BadNumber | Rejected (err : json).

Definition bundle_verdict {A : Type} (r : http) (a : A) : result A bundle_error :=
  match r with
  | Body v => match get "error" v with Some err => Err (Rejected err) | None => Ok a end
  | _ => Err HttpFailed
  end.

Section Bundles.
Context {B P : Type} (post_bundle : B → Bundle → B * http) (post_puissant : P → Puissant → P * http).

(** [head] is the node's reply to [eth_blockNumber]. *)
Definition submit_bundle (b : B) (head : http) (raw : text) : B * result Z bundle_error :=
match head with
| Body v =>
match result_str v with
| None => (b, Err NoResult)
| Some bn_hex =>
match from_str_radix16 64 (trim_0x bn_hex) with
| None => (b, Err BadNumber)
| Some current =>
    let target := wrap 64 (current + 1) in
    let '(b, r) := post_bundle b
      {| b_txs := [raw]; b_blockNumber := quantity target; b_minTimestamp := 0;
         b_maxTimestamp := 0; b_revertingTxHashes := [] |} in
    (b, bundle_verdict r target)
end
end
| _ => (b, Err HttpFailed)
end.

Definition submit_puissant (p : P) (now_secs : Z) (raw : text) : P * result unit bundle_error :=
let max_ts := wrap 64 (now_secs + 30) in
let '(p, r) := post_puissant p
{| p_txs := [raw]; p_maxTimestamp := max_ts; p_acceptReverting := [] |} in
(p, bundle_verdict r tt).
End Bundles.

(** ** The three legs *)

Record Endpoints (G B P : Type) : Type := { geth : G; blockrazor : B; puissant : P }.
Arguments geth {G B P}. Arguments blockrazor {G B P}. Arguments puissant {G B P}.

Section Broadcast.
Context (show : json → text) {G B P : Type}.
Context (post : G → text → G * http) (post_bundle : B → Bundle → B * http).
Context (post_puissant : P → Puissant → P * http).

(** [broadcast]: the legs run in parallel on endpoints of their own; only the
node's leg reports on the channel, so its result is the verdict. *)
Definition broadcast (w : Endpoints G B P) (head : http) (now_secs : Z) (raw : text)
: Endpoints G B P * bool :=
let '(g, res) := submit_raw show post (geth w) raw in
let '(b, _) := submit_bundle post_bundle (blockrazor w) head raw in
let '(p, _) := submit_puissant post_puissant (puissant w) now_secs raw in
({| geth := g; blockrazor := b; puissant := p |},
match res with Some (Ok _) => true | _ => false end).
End Broadcast.

(** ** What the node promises *)

(** A pool keeps what it has taken; a reply without an error, or with the
    "already known" error, means the transaction is in it; an admissible
    transaction is never answered otherwise. *)
Class TxPool (show : json → text) {G : Type} (post : G → text → G * http) : Type := {
  pooled : G → text → Prop;
  admissible : G → text → Prop;
  post_keeps g raw x : pooled g x → pooled (post g raw).1 x;
  post_still g raw : admissible g raw → admissible (post g raw).1 raw;
  post_accepts g raw v :
    (post g raw).2 = Body v → get "error" v = None → pooled (post g raw).1 raw;
  post_known g raw v e :
    (post g raw).2 = Body v → get "error" v = Some e → says_known show e = true →
    pooled (post g raw).1 raw;
  post_answers g raw v e :
    admissible g raw → (post g raw).2 = Body v → get "error" v = Some e → says_known show e = true;
}.

(** ** A node behind a faulty line *)

Module Geth.
Inductive fault : Type := RequestLost | ReplyLost | Garbled.

Record Node : Type := { pool : gset text; valid : text → bool; line : list (option fault) }.

Definition message (s : string) : json :=
JObject [(list_ascii_of_string "message", JString (list_ascii_of_string s))].
Definition show (v : json) : text :=
match get "message" v with Some (JString s) => s | _ => [] end.

Definition answer (n : Node) (raw : text) : json :=
if bool_decide (raw ∈ pool n) then error_reply (message "Already Known")
else if valid n raw then result_reply (JString raw)
else error_reply (message "invalid sender").

Definition take_in (n : Node) (raw : text) : gset text :=
if valid n raw then {[raw]} ∪ pool n else pool n.

Definition post (n : Node) (raw : text) : Node * http :=
let after p := {| pool := p; valid := valid n; line := tail (line n) |} in
match line n with
| Some RequestLost :: _ => (after (pool n), SendErr)
| Some ReplyLost :: _ => (after (take_in n raw), SendErr)
| Some Garbled :: _ => (after (take_in n raw), BadBody)
| _ => (after (take_in n raw), Body (answer n raw))
end.

Definition in_pool (n : Node) (raw : text) : Prop := raw ∈ pool n.

Lemma take_in_keeps n raw x : x ∈ pool n → x ∈ take_in n raw.
Proof. intros H. unfold take_in. destruct (valid n raw); set_solver. Qed.

Lemma post_pool n raw : pool (post n raw).1 = pool n ∨ pool (post n raw).1 = take_in n raw.
Proof. unfold post. destruct (line n) as [|[[]|] ?]; auto. Qed.

Lemma post_body n raw v : (post n raw).2 = Body v →
v = answer n raw ∧ pool (post n raw).1 = take_in n raw.
Proof. unfold post. destruct (line n) as [|[[]|] ?]; by intros [= <-]. Qed.

Lemma post_valid n raw : valid (post n raw).1 = valid n.
Proof. unfold post. by destruct (line n) as [|[[]|] ?]. Qed.

#[global] Instance geth_pool : TxPool show post.
Proof.
refine {| pooled := in_pool; admissible := λ n raw, valid n raw = true |}.
- intros n raw x Hx. unfold in_pool in *. destruct (post_pool n raw) as [-> | ->]; [done|].
by apply take_in_keeps.
- intros n raw H. by rewrite post_valid.
- intros n raw v [-> Hp]%post_body Hn. unfold in_pool. rewrite Hp. unfold answer, take_in in *.
case_bool_decide; [done|]. destruct (valid n raw); [set_solver|done].
- intros n raw v e [-> Hp]%post_body Hg Hk. unfold in_pool. rewrite Hp. unfold answer, take_in in *.
case_bool_decide; [destruct (valid n raw); set_solver|].
destruct (valid n raw); [set_solver|]. injection Hg as <-. done.
- intros n raw v e Hv [-> Hp]%post_body Hg. unfold answer in Hg. rewrite Hv in Hg.
case_bool_decide; [|done]. by injection Hg as <-.
Defined.
End Geth.

(** ** Properties *)

Section Node.
Context (show : json → text) {G : Type} (post : G → text → G * http) {TP : TxPool show post}.


(** A buy whose acceptance cannot be read is orphaned.  When the node takes
the transaction and its reply does not parse, [broadcast] reports a
failure, and the buy pipeline records nothing: the transaction is in the
pool, and no position, no ledger row and no open-position count exist for
the tokens it buys. *)
Theorem unread_acceptance_orphans_the_buy {B P : Type} (pb : B → Bundle → B * http)
(pp : P → Puissant → P * http) w head now raw env s r kol vis token amount fee h :
sign env (buy_tx env s r token amount fee) = Some h → broadcast_enabled (limits_rt s) = true →
(post (geth w) raw).2 = BadBody → pooled (post (geth w) raw).1 raw →
send_ok env (buy_tx env s r token amount fee) =
(broadcast show post pb pp w head now raw).2 →
let s' := send_buy env s r kol vis token amount fee in
pooled (geth (broadcast show post pb pp w head now raw).1) raw ∧
wire s' = wire s ++ [(buy_tx env s r token amount fee, false)] ∧
positions s' = positions s ∧ heap s' = heap s ∧ ledger s' = ledger s.
Proof.
intros Hsign Hen Hbad Hpool Hok s'.
assert ((broadcast show post pb pp w head now raw).2 = false ∧
geth (broadcast show post pb pp w head now raw).1 = (post (geth w) raw).1) as [Hv Hg].
{ unfold broadcast, submit_raw. cbn [submit_attempts].
destruct (post (geth w) raw) as [g r1]. cbn in Hbad. subst r1.
destruct (submit_bundle _ _ _ _) as [b rb]. by destruct (submit_puissant _ _ _ _). }
rewrite Hv in Hok. rewrite Hg. split; [done|].
subst s'. destruct (send_buy_cases env s r kol vis token amount fee)
as [[Hn _]|(h' & _ & [(_ & _ & ->)|[(_ & Hk & _)|(Hd & _)]])]; try congruence.
destruct (resync_nonce_of env (push_wire (bump s) (buy_tx env s r token amount fee) false))
as (m & -> & _). done.
Qed.
End Node.

(** Whatever the node says to the transaction, both relays are asked to land
    it: the bundle names the block after the node's head, allows no revert,
    and Puissant has thirty seconds. *)
Theorem bundles_target_the_next_block {G B P : Type} show (post : G → text → G * http)
    (pb : B → Bundle → B * http) (pp : P → Puissant → P * http) w h now raw :
  0 ≤ h → h + 1 < 2 ^ 64 → 0 ≤ now → now + 30 < 2 ^ 64 →
  let w' := (broadcast show post pb pp w (Body (result_reply (JString (quantity h)))) now raw).1 in
  ∃ bundle p, blockrazor w' = (pb (blockrazor w) bundle).1 ∧ puissant w' = (pp (puissant w) p).1 ∧
    b_txs bundle = [raw] ∧ from_str_radix16 64 (trim_0x (b_blockNumber bundle)) = Some (h + 1) ∧
    b_revertingTxHashes bundle = [] ∧
    p_txs p = [raw] ∧ p_maxTimestamp p = now + 30 ∧ p_acceptReverting p = [].
Proof.
  intros H0 Hh Hn0 Hn. unfold broadcast.
  destruct (submit_raw show post (geth w) raw) as [g res].
  unfold submit_bundle. rewrite result_str_reply, parse_quantity by lia.
  rewrite wrap_small by (unfold in_width; lia).
  unfold submit_puissant. rewrite (wrap_small 64 (now + 30)) by (unfold in_width; lia).
  set (bundle := {| b_txs := [raw] |}). set (p := {| p_txs := [raw] |}).
  exists bundle, p. destruct (pb _ bundle) as [b rb]. destruct (pp _ p) as [q rq]. cbn.
  split_and!; try done. apply parse_quantity; lia.
Qed.

(** ** Instances *)

Module Lines.
Import Geth.
Definition raw : text := list_ascii_of_string "0xf8".
Definition node (faults : list (option fault)) : Node :=
{| pool := ∅; valid := λ r, bool_decide (r = raw); line := faults |}.
Definition accept {R : Type} (l : list R) (r : R) : list R * http :=
(l ++ [r], Body (result_reply JNull)).
Definition world (faults : list (option fault)) : Endpoints Node (list Bundle) (list Puissant) :=
{| geth := node faults; blockrazor := []; puissant := [] |}.
Definition head : http := Body (result_reply (JString (quantity 99))).
(** The executor's environment when the node's reply is garbled. *)
Definition garbled : Endpoints Node (list Bundle) (list Puissant) := world [Some Garbled].
Definition env : Env :=
let e := Executor.Example.env None in
{| now_ms := now_ms e; instant_ms := instant_ms e; bnb_usd := bnb_usd e; gas_price := gas_price e;
get_pair := get_pair e; accepts_buy := accepts_buy e; accepts_sell := accepts_sell e;
accepts_resell := accepts_resell e; tax_quote := tax_quote e; amounts_out := amounts_out e;
sign := sign e;
send_ok := λ _, (broadcast show post accept accept garbled head 1000 raw).2;
chain_nonce := chain_nonce e; token_balance := token_balance e;
token_allowance := token_allowance e; balance_of_at := balance_of_at e |}.
Definition s : LiveExecutor := Executor.Example.funded.
End Lines.


Lemma unread_acceptance_orphans_the_buy_witness :
  Geth.in_pool (geth (broadcast Geth.show Geth.post Lines.accept Lines.accept Lines.garbled Lines.head
    1000 Lines.raw).1) Lines.raw ∧
  positions (send_buy Lines.env Lines.s FourMeme "D" "public" 9 100 10000000000) = positions Lines.s.
Proof.
  destruct (unread_acceptance_orphans_the_buy Geth.show Geth.post Lines.accept Lines.accept Lines.garbled
    Lines.head 1000 Lines.raw Lines.env Lines.s FourMeme "D" "public" 9 100 10000000000 7)
    as (Hp & _ & Hpos & _).
  - vm_compute. reflexivity.
  - vm_compute. reflexivity.
  - vm_compute. reflexivity.
  - assert (bool_decide (Lines.raw ∈ Geth.pool (Geth.post (geth Lines.garbled) Lines.raw).1) = true) as H
      by (vm_compute; reflexivity).
    exact (bool_decide_eq_true_1 _ H).
  - vm_compute. reflexivity.
  - split; [exact Hp|exact Hpos].
Defined.

Lemma bundles_target_the_next_block_witness :
  let w' := (broadcast Geth.show Geth.post Lines.accept Lines.accept
    (Lines.world [Some Geth.RequestLost; Some Geth.RequestLost]) Lines.head 1000 Lines.raw).1 in
  ∃ bundle, blockrazor w' = [bundle] ∧ b_txs bundle = [Lines.raw].
Proof.
  destruct (bundles_target_the_next_block Geth.show Geth.post Lines.accept Lines.accept
    (Lines.world [Some Geth.RequestLost; Some Geth.RequestLost]) 99 1000 Lines.raw)
    as (bundle & p & Hb & _ & Ht & _); [lia| lia|lia|lia|].
  exists bundle. split; [exact Hb|exact Ht].
Defined.
