(* ===== verification/Venus.v ===== *)
(** * venus.rs: the liquidation health watcher

    The market list, the seeding of the borrower set from a window of Borrow
    events, the incremental scan and the health poll.  The node is a function
    from requests to the ["result"] of its reply; each poll has its own.  The
    borrower set's iteration order is the hash set's: an argument. *)

From Stdlib Require Import ZArith Lia Floats.SpecFloat Strings.Byte Ascii String.
From S2P Require Import Prelude F64 Bytes Rpc Dex NodeReads PaperPrice Services.

Local Abbreviation text := (list ascii) (only parsing).

(** ** Replies *)

Definition u256_hex (h : text) : f64 := u_hex h.

(** [addr_from_word]: the last forty digits. *)
Definition addr_from_word (w : text) : option Address :=
  let s := strip_0x w in
  if (length s <? 40)%nat then None
  else bs ← Resolver.hex_pairs 20 (drop (length s - 40) s); Some (from_be bs).

Inductive request : Type :=
| ChainId
| AllMarkets
| LiquidationIncentive
| CloseFactor
| BlockNumber
| BorrowLogs (markets : list Address) (from to : Z)
| AccountLiquidity (acct : Address).

Definition Node : Type := request → option json.

(** [Rpc::eth_call] and [Rpc::block_number]. *)
Definition eth_call (node : Node) (q : request) : option text := r ← node q; as_str r.
Definition block_number (node : Node) : option Z :=
  s ← eth_call node BlockNumber; from_str_radix16 64 (trim_0x s).

(** The reply of [getAllMarkets]; [None] is the error of [run]. *)
Definition parse_markets (reply : option text) : option (list Address) :=
  h ← reply;
  if (length h <=? 130)%nat then None
  else
    let body := drop 2 h in
    let n := Z.to_nat (unwrap_or (from_str_radix16 64 (take 64 (drop 64 body))) 0) in
    Some (omap (λ i, let w := take 64 (drop (128 + i * 64) body) in
                     if (length w =? 64)%nat then addr_from_word w else None) (seq 0 n)).

(** ** Scanning *)

(** One log of [scan_borrows]: its first data word, unless it is zero. *)
Definition borrower_of (lg : json) : option Address :=
  d ← get "data" lg; d ← as_str d;
  let body := strip_0x d in
  if (length body <? 64)%nat then None
  else a ← addr_from_word (take 64 body); if a =? 0 then None else Some a.

Definition scan_borrows (node : Node) (markets : list Address) (from to : Z) (out : gset Address)
  : gset Address :=
  match (l ← node (BorrowLogs markets from to); as_array l) with
  | Some arr => out ∪ list_to_set (omap borrower_of arr)
  | None => out
  end.

Definition seed_blocks : Z := 100000.
Definition chunk : Z := 5000.

(** The windows of the two loops: seeding runs while [from < head], a poll
    while [f <= h].  [fuel] bounds the turns. *)
Fixpoint windows (strict : bool) (fuel : nat) (from head : Z) : list (Z * Z) :=
  match fuel with
  | O => []
  | S fuel =>
      if (if strict then from <? head else from <=? head) then
        let to := Z.min (wrap 64 (from + chunk)) head in
        (from, to) :: windows strict fuel (wrap 64 (to + 1)) head
      else []
  end.

(** Turns that are enough: each window but the last holds [chunk + 1] blocks. *)
Definition turns (from head : Z) : nat := S (Z.to_nat ((head - from + 1) / (chunk + 1))).

Definition scan_windows (node : Node) (markets : list Address) (ws : list (Z * Z))
    (out : gset Address) : gset Address :=
  foldl (λ out w, scan_borrows node markets w.1 w.2 out) out ws.

(** ** The watcher *)

Record Watcher : Type := {
  markets : list Address;
  borrowers : gset Address;
  last_scanned : Z;
  liq_incentive : f64;
}.

Definition mantissa (reply : option text) (default : f64) : f64 :=
  match reply with Some h => fdiv (u256_hex h) f1e18 | None => default end.

Inductive refusal : Type := WrongChain (n : Z) | MarketsFailed.

(** [run] up to its loop. *)
Definition run_start (node : Node) : result Watcher refusal :=
  let chain := cid ← eth_call node ChainId; Some (unwrap_or (from_str_radix16 64 (trim_0x cid)) 0) in
  if (match chain with Some n => negb (n =? 56) | None => false end)
  then Err (WrongChain (unwrap_or chain 0))
  else
    match parse_markets (eth_call node AllMarkets) with
    | None => Err MarketsFailed
    | Some ms =>
        let incentive := mantissa (eth_call node LiquidationIncentive) (f64_lit 11 10) in
        let head := unwrap_or (block_number node) 0 in
        let from := sat_sub head seed_blocks in
        let seeded := scan_windows node ms (windows true (turns from head) from head) ∅ in
        Ok {| markets := ms; borrowers := seeded; last_scanned := head; liq_incentive := incentive |}
    end.

(** The incremental discovery of one poll. *)
Definition discover (node : Node) (w : Watcher) : Watcher :=
  match block_number node with
  | Some h =>
      if last_scanned w <? h then
        let f := wrap 64 (last_scanned w + 1) in
        {| markets := markets w;
           borrowers := scan_windows node (markets w) (windows false (turns f h) f h) (borrowers w);
           last_scanned := h; liq_incentive := liq_incentive w |}
      else w
  | None => w
  end.

(** The shortfall, in USD, of an account that can be liquidated. *)
Definition shortfall_of (node : Node) (acct : Address) : option f64 :=
  h ← eth_call node (AccountLiquidity acct);
  let b := trim_0x h in
  if (length b <? 192)%nat then None
  else
    let err := u256_hex (take 64 b) in
    let shortfall := fdiv (u256_hex (take 64 (drop 128 b))) f1e18 in
    if feq err f0 && fgt shortfall f0 then Some shortfall else None.

Record Health : Type := { liquidatable : Z; best : option (Address * f64); alerts : list (Address * f64) }.

(** One account of the health poll. *)
Definition check_account (node : Node) (incentive min_alert : f64) (r : Health) (acct : Address) : Health :=
  match shortfall_of node acct with
  | None => r
  | Some shortfall =>
      let bounty := fmul shortfall (fsub incentive f1) in
      let better := match best r with Some (_, x) => fgt bounty x | None => true end in
      {| liquidatable := liquidatable r + 1;
         best := if better then Some (acct, bounty) else best r;
         alerts := if fge bounty min_alert then alerts r ++ [(acct, bounty)] else alerts r |}
  end.

Definition health (node : Node) (incentive min_alert : f64) (order : list Address) : Health :=
  foldl (check_account node incentive min_alert)
    {| liquidatable := 0; best := None; alerts := [] |} order.

(** One turn of the loop; [order] lists the borrowers. *)
Definition poll (node : Node) (min_alert : f64) (order : gset Address → list Address) (w : Watcher)
  : Watcher * Health :=
  let w := discover node w in (w, health node (liq_incentive w) min_alert (order (borrowers w))).

Definition polls (nodes : list Node) (w : Watcher) : Watcher := foldl (λ w n, discover n w) w nodes.

(** ** The chain's Borrow events *)

Definition borrow_log (a : Address) (rest : bytes) : json :=
  JObject [(list_ascii_of_string "data",
    JString ("0"%char :: "x"%char :: Hex.hex_encode (word a ++ rest)))].

(** The logs of the blocks from [f] to [t]; [borrows b] lists the borrowers of
    block [b] with the other data words. *)
Definition chain_logs (borrows : Z → list (Address * bytes)) (f t : Z) : json :=
  JArray (seqZ f (t - f + 1) ≫= λ b, (λ x, borrow_log x.1 x.2) <$> borrows b).

Definition answers_logs (borrows : Z → list (Address * bytes)) (node : Node) : Prop :=
  ∀ ms f t, node (BorrowLogs ms f t) = Some (chain_logs borrows f t).

Definition blocks (ws : list (Z * Z)) : list Z := ws ≫= λ w, seqZ w.1 (w.2 - w.1 + 1).

(** ** Lemmas *)

Lemma hex_pairs_encode bs rest :
  Resolver.hex_pairs (length bs) (Hex.hex_encode bs ++ rest) = Some bs.
Proof.
  induction bs as [|b bs IH]; [done|].
  rewrite Hex.hex_encode_cons. cbn [Resolver.hex_pairs length app take drop firstn skipn].
  rewrite take_0, drop_0, IH. pose proof (byte_val_bound b) as Hb.
  assert (from_str_radix16 8 [hex_digit (byte_val b / 16); hex_digit (byte_val b mod 16)] =
    Some (byte_val b)) as ->.
  { rewrite parse_hex_digits; [|apply (hex_encode_digits [b])|done].
    pose proof (fold_encode 8 [b] 0 ltac:(lia)) as Hf. unfold from_be in Hf. cbn [foldl length] in Hf.
    apply Hf. cbn. lia. }
  cbn [mbind option_bind]. by rewrite byte_of_val.
Qed.

Lemma strip_0x_encode bs : strip_0x (Hex.hex_encode bs) = Hex.hex_encode bs.
Proof.
  pose proof (hex_encode_digits bs) as H. destruct (Hex.hex_encode bs) as [|a [|b r]]; [done|..].
  - by destruct a as [[] [] [] [] [] [] [] []].
  - inversion H as [|? ? _ H2]; subst. inversion H2 as [|? ? Hb _]; subst.
    destruct a as [[] [] [] [] [] [] [] []]; try done.
    destruct b as [[] [] [] [] [] [] [] []]; try done. by destruct Hb.
Qed.

Lemma borrower_of_log a rest : in_width 160 a →
  borrower_of (borrow_log a rest) = if a =? 0 then None else Some a.
Proof.
  intros Ha. unfold borrower_of, borrow_log. cbn [get field]. rewrite bool_decide_eq_true_2 by done.
  cbn [mbind option_bind as_str]. change (strip_0x ("0"%char :: "x"%char :: ?s)) with s.
  rewrite hex_encode_app, length_app, !Hex.length_hex_encode, length_word.
  destruct (Nat.ltb_spec (2 * 32 + 2 * length rest) 64); [lia|].
  rewrite take_app_length' by (by rewrite Hex.length_hex_encode, length_word).
  unfold addr_from_word. rewrite strip_0x_encode, Hex.length_hex_encode, length_word.
  rewrite word_address by done.
  unfold address_word. rewrite hex_encode_app.
  change (2 * 32 <? 40)%nat with false. cbv iota.
  rewrite drop_app_length' by done.
  pose proof (hex_pairs_encode (to_be 20 a) []) as Hp. rewrite length_to_be, app_nil_r in Hp.
  rewrite Hp. cbn [mbind option_bind]. by rewrite from_be_address.
Qed.

Section Scanning.
Context (borrows : Z → list (Address * bytes)).
Hypothesis borrowers_are_addresses : ∀ b x, x ∈ borrows b → in_width 160 x.1.

(** [a] borrowed in one of those blocks. *)
Definition borrowed_in (bs : list Z) (a : Address) : Prop :=
a ≠ 0 ∧ ∃ b r, b ∈ bs ∧ (a, r) ∈ borrows b.

Lemma scan_spec node ms f t out a : answers_logs borrows node →
a ∈ scan_borrows node ms f t out ↔ a ∈ out ∨ borrowed_in (seqZ f (t - f + 1)) a.
Proof.
intros Hn. unfold scan_borrows. rewrite Hn. cbn [mbind option_bind as_array chain_logs].
rewrite elem_of_union, elem_of_list_to_set, list_elem_of_omap.
apply or_iff_compat_l. split.
- intros (lg & Hlg & Hb). apply list_elem_of_bind in Hlg as (b & Hlg & Hbl).
apply list_elem_of_fmap in Hlg as ([a' r] & -> & Hin). cbn [fst snd] in Hb.
rewrite borrower_of_log in Hb by exact (borrowers_are_addresses _ _ Hin).
destruct (Z.eqb_spec a' 0); [done|]. injection Hb as ->. split; [done|]. by exists b, r.
- intros (Ha & b & r & Hb & Hin). exists (borrow_log a r). split.
+ apply list_elem_of_bind. exists b. split; [|done]. apply list_elem_of_fmap. by exists (a, r).
+ rewrite borrower_of_log by exact (borrowers_are_addresses _ _ Hin).
by destruct (Z.eqb_spec a 0).
Qed.

Lemma borrowed_in_app l1 l2 a : borrowed_in (l1 ++ l2) a ↔ borrowed_in l1 a ∨ borrowed_in l2 a.
Proof. unfold borrowed_in. setoid_rewrite elem_of_app. naive_solver. Qed.

Lemma scan_windows_spec node ms ws out a : answers_logs borrows node →
a ∈ scan_windows node ms ws out ↔ a ∈ out ∨ borrowed_in (blocks ws) a.
Proof.
intros Hn. revert out. induction ws as [|[f t] ws IH]; intros out; cbn.
- split; [by left|]. intros [?|(_ & b & r & Hb & _)]; [done|]. by apply elem_of_nil in Hb.
- unfold scan_windows in IH. rewrite IH, scan_spec by done.
change (blocks ((f, t) :: ws)) with (seqZ f (t - f + 1) ++ blocks ws).
rewrite borrowed_in_app. tauto.
Qed.
End Scanning.

(** One turn of either loop. *)
Lemma windows_turn strict fuel from head :
  0 ≤ from ≤ head → head + chunk + 1 < 2 ^ 64 → (strict = true → from < head) →
  let to := Z.min (from + chunk) head in
  windows strict (S fuel) from head = (from, to) :: windows strict fuel (to + 1) head.
Proof.
  intros Hf Hh Hs to. unfold chunk in *. cbn [windows].
  assert ((if strict then from <? head else from <=? head) = true) as ->.
  { destruct strict; [apply Z.ltb_lt; auto|apply Z.leb_le; lia]. }
  unfold chunk. rewrite (wrap_small 64 (from + 5000)) by (unfold in_width; lia).
  fold to. assert (to ≤ head ∧ from ≤ to) by lia.
  by rewrite wrap_small by (unfold in_width; lia).
Qed.

Lemma windows_done (strict : bool) fuel from head :
  (if strict then head ≤ from else head < from) → windows strict fuel from head = [].
Proof.
  intros H. destruct fuel; [done|]. cbn [windows].
  destruct strict; [destruct (Z.ltb_spec from head)|destruct (Z.leb_spec from head)]; done || lia.
Qed.

(** What the windows cover: every block up to the head, except the head itself
    when the seeding loop arrives exactly at it. *)
Definition left_out (strict : bool) (from head : Z) : Z :=
  if strict && (from <=? head) && ((head - from) mod (chunk + 1) =? 0) then 1 else 0.

Lemma left_out_bounds strict from head : 0 ≤ left_out strict from head ≤ Z.max 0 (head - from + 1).
Proof.
  unfold left_out. destruct strict; cbn [andb]; [|lia].
  destruct (Z.leb_spec from head); cbn [andb]; [|lia]. destruct (_ =? 0); lia.
Qed.

Lemma left_out_end (strict : bool) from head :
  (if strict then head ≤ from else head < from) → head - from + 1 - left_out strict from head ≤ 0.
Proof.
  intros H. pose proof (left_out_bounds strict from head). destruct strict; [|lia].
  destruct (decide (head = from)) as [->|]; [|lia].
  assert (left_out true from from = 1) as ->; [|lia].
  unfold left_out. by rewrite Z.leb_refl, Z.sub_diag.
Qed.

(** A window changes nothing of what is left out. *)
Lemma left_out_turn (strict : bool) from head :
  from ≤ head → (strict = true → from < head) →
  left_out strict from head = left_out strict (Z.min (from + chunk) head + 1) head.
Proof.
  intros Hle Hlt. unfold left_out, chunk. destruct strict; [|done]. specialize (Hlt eq_refl).
  cbn [andb]. destruct (Z.leb_spec from head); [|lia]. cbn [andb].
  destruct (Z.leb_spec (Z.min (from + 5000) head + 1) head) as [Ht|Ht]; cbn [andb].
  - replace (Z.min (from + 5000) head) with (from + 5000) by lia.
    replace (head - from) with (head - (from + 5000 + 1) + 1 * (5000 + 1)) by lia.
    by rewrite Z.mod_add by lia.
  - destruct (Z.eqb_spec ((head - from) mod (5000 + 1)) 0) as [Hm|]; [|done].
    rewrite Z.mod_small in Hm by lia. lia.
Qed.

Lemma turns_turn from head :
  from + chunk < head → turns from head = S (turns (from + chunk + 1) head).
Proof.
  intros H. unfold turns, chunk in *.
  replace (head - (from + 5000 + 1) + 1) with ((head - from + 1) + (-1) * (5000 + 1)) by lia.
  rewrite Z.div_add by lia.
  assert (1 ≤ (head - from + 1) / (5000 + 1)) by (apply Z.div_le_lower_bound; lia). lia.
Qed.

Lemma windows_end (strict : bool) fuel from head :
  (if strict then head ≤ from else head < from) →
  blocks (windows strict fuel from head) = seqZ from (head - from + 1 - left_out strict from head) ∧
  Forall (λ w, from ≤ w.1 ≤ w.2 ∧ w.2 ≤ head ∧ w.2 - w.1 ≤ chunk) (windows strict fuel from head).
Proof.
  intros Hd. rewrite (windows_done strict fuel from head Hd). split; [|constructor].
  pose proof (left_out_end strict from head Hd). by rewrite seqZ_nil by lia.
Qed.

Lemma windows_blocks strict fuel from head :
  0 ≤ from → head + chunk + 1 < 2 ^ 64 → (turns from head ≤ fuel)%nat →
  blocks (windows strict fuel from head) = seqZ from (head - from + 1 - left_out strict from head) ∧
  Forall (λ w, from ≤ w.1 ≤ w.2 ∧ w.2 ≤ head ∧ w.2 - w.1 ≤ chunk) (windows strict fuel from head).
Proof.
  intros Hf Hh. revert from Hf. induction fuel as [|fuel IH]; intros from Hf Hfuel.
  { unfold turns in Hfuel. lia. }
  assert ((if strict then head ≤ from else head < from) ∨
    (from ≤ head ∧ (strict = true → from < head))) as [Hd|[Hle Hlt]].
  { destruct strict; [destruct (decide (head ≤ from))|destruct (decide (head < from))];
      [by left|right|by left|right]; (split; [lia|intros; lia || done]). }
  { by apply windows_end. }
  rewrite windows_turn; [|lia|done|done]. rewrite left_out_turn by done.
  set (to := Z.min (from + chunk) head).
  assert (from ≤ to ≤ head ∧ to ≤ from + chunk) as (Hto & Hc) by (unfold chunk in *; lia).
  assert (blocks (windows strict fuel (to + 1) head) =
      seqZ (to + 1) (head - (to + 1) + 1 - left_out strict (to + 1) head) ∧
    Forall (λ w, to + 1 ≤ w.1 ≤ w.2 ∧ w.2 ≤ head ∧ w.2 - w.1 ≤ chunk)
      (windows strict fuel (to + 1) head)) as [Hb Hw].
  { destruct (decide (to = head)) as [->|Hne].
    - apply windows_end. destruct strict; lia.
    - assert (to = from + chunk) as Heq by lia. rewrite Heq in *. apply IH; [lia|].
      rewrite turns_turn in Hfuel by lia. lia. }
  pose proof (left_out_bounds strict (to + 1) head). split.
  - change (blocks ((from, to) :: ?ws)) with (seqZ from (to - from + 1) ++ blocks ws).
    rewrite Hb. replace (head - from + 1 - left_out strict (to + 1) head) with
      ((to - from + 1) + (head - (to + 1) + 1 - left_out strict (to + 1) head)) by lia.
    rewrite (seqZ_app from (to - from + 1)) by lia. by replace (from + (to - from + 1)) with (to + 1) by lia.
  - constructor; [cbn; lia|]. eapply Forall_impl; [exact Hw|]. cbn. intros [x y]. cbn. lia.
Qed.

(** Enough turns are enough. *)
Lemma windows_more strict fuel from head :
  0 ≤ from → head + chunk + 1 < 2 ^ 64 → (turns from head ≤ fuel)%nat →
  windows strict (S fuel) from head = windows strict fuel from head.
Proof.
  intros Hf Hh. revert from Hf. induction fuel as [|fuel IH]; intros from Hf Hfuel.
  { unfold turns in Hfuel. lia. }
  destruct (decide (head < from)).
  { by rewrite !windows_done by (destruct strict; lia). }
  destruct (decide (from = head)) as [->|Hne]; [destruct strict|].
  - by rewrite !windows_done by lia.
  - rewrite (windows_turn false (S fuel) head head), (windows_turn false fuel head head) by (done || lia).
    f_equal. unfold chunk in *. replace (Z.min (head + 5000) head) with head by lia.
    by rewrite !windows_done by lia.
  - rewrite (windows_turn strict (S fuel) from head), (windows_turn strict fuel from head) by (done || (intros; lia)).
    f_equal. unfold chunk in *. destruct (decide (from + 5000 < head)).
    + replace (Z.min (from + 5000) head) with (from + 5000) by lia. apply IH; [lia|].
      unfold turns, chunk in *.
      replace (head - (from + 5000 + 1) + 1) with ((head - from + 1) + (-1) * (5000 + 1)) by lia.
      rewrite Z.div_add by lia.
      assert (1 ≤ (head - from + 1) / (5000 + 1)) by (apply Z.div_le_lower_bound; lia). lia.
    + replace (Z.min (from + 5000) head) with head by lia.
      by rewrite !windows_done by (destruct strict; lia).
Qed.

(** ** Properties *)

(** The scanning loops end and cover the chain exactly once.  Within
    [turns] turns the windows up to [head] are all there, more fuel adds
    none, none asks for more than 5001 blocks, and laid end to end they are
    the blocks from [from] to [head] in order; only the seeding loop, when its
    windows end one block short of the head, leaves the head out. *)
Theorem windows_cover_each_block_once strict from head k :
  0 ≤ from → head + chunk + 1 < 2 ^ 64 →
  let ws := windows strict (turns from head) from head in
  windows strict (turns from head + k) from head = ws ∧
  blocks ws = seqZ from (head - from + 1 - left_out strict from head) ∧
  Forall (λ w, w.1 ≤ w.2 ∧ w.2 - w.1 ≤ 5000) ws.
Proof.
  intros Hf Hh ws. destruct (windows_blocks strict (turns from head) from head Hf Hh) as [Hb Hw]; [lia|].
  split_and!; [|done|eapply Forall_impl; [exact Hw|intros [x y]; unfold chunk; cbn; lia]].
  unfold ws. induction k as [|k IH]; [by rewrite Nat.add_0_r|].
  rewrite Nat.add_succ_r, windows_more by (done || lia). exact IH.
Qed.

Section Tracking.
Context (borrows : Z → list (Address * bytes)).
Hypothesis borrowers_are_addresses : ∀ b x, x ∈ borrows b → in_width 160 x.1.

(** Heads stay clear of the end of 64 bits. *)
Definition small_head (node : Node) : Prop :=
∀ h, block_number node = Some h → 0 ≤ h ∧ h + chunk + 1 < 2 ^ 64.

Lemma discover_spec node w : answers_logs borrows node → small_head node → 0 ≤ last_scanned w →
last_scanned w ≤ last_scanned (discover node w) ∧
∀ a, a ∈ borrowers (discover node w) ↔ a ∈ borrowers w ∨
(a ≠ 0 ∧ ∃ b r, last_scanned w < b ≤ last_scanned (discover node w) ∧ (a, r) ∈ borrows b).
Proof.
intros Hn Hs H0. unfold discover.
assert (∀ a, a ∈ borrowers w ↔ a ∈ borrowers w ∨
(a ≠ 0 ∧ ∃ b r, last_scanned w < b ≤ last_scanned w ∧ (a, r) ∈ borrows b)) as Hsame.
{ intros a. split; [by left|]. intros [?|(_ & b & r & ? & _)]; [done|lia]. }
destruct (block_number node) as [h|] eqn:Eh; [|by split].
destruct (Hs h Eh) as [Hh0 Hh]. destruct (Z.ltb_spec (last_scanned w) h); [|by split].
cbn [borrowers last_scanned]. split; [lia|]. intros a.
rewrite wrap_small by (unfold in_width, chunk in *; lia).
rewrite (scan_windows_spec borrows) by done.
destruct (windows_blocks false (turns (last_scanned w + 1) h) (last_scanned w + 1) h) as [-> _];
[lia|done|done|].
unfold left_out, borrowed_in. cbn [andb]. setoid_rewrite elem_of_seqZ.
apply or_iff_compat_l, and_iff_compat_l. split; intros (b & r & Hb & Hin); exists b, r; (split; [lia|done]).
Qed.

Lemma polls_spec ns w : Forall (answers_logs borrows) ns → Forall small_head ns → 0 ≤ last_scanned w →
last_scanned w ≤ last_scanned (polls ns w) ∧
∀ a, a ∈ borrowers (polls ns w) ↔ a ∈ borrowers w ∨
(a ≠ 0 ∧ ∃ b r, last_scanned w < b ≤ last_scanned (polls ns w) ∧ (a, r) ∈ borrows b).
Proof.
revert w. induction ns as [|n ns IH]; intros w Hn Hs H0.
- split; [done|]. intros a. cbn. split; [by left|]. intros [?|(_ & b & r & ? & _)]; [done|lia].
- apply Forall_cons in Hn as [Hn Hns]. apply Forall_cons in Hs as [Hs Hss].
destruct (discover_spec n w Hn Hs H0) as [Hle Hd].
destruct (IH (discover n w) Hns Hss ltac:(lia)) as [Hle' Hd'].
change (polls (n :: ns) w) with (polls ns (discover n w)). split; [lia|]. intros a.
rewrite Hd', Hd. split.
+ intros [[?|(Ha & b & r & ? & ?)]|(Ha & b & r & ? & ?)]; [by left| |];
(right; split; [done|]; exists b, r; split; [lia|done]).
+ intros [?|(Ha & b & r & Hb & ?)]; [by left; left|].
destruct (decide (b ≤ last_scanned (discover n w))).
* left; right. split; [done|]. exists b, r. split; [lia|done].
* right. split; [done|]. exists b, r. split; [lia|done].
Qed.

(** [C24] Every borrower since the seed is tracked.  When the watcher has started
and its nodes answer, the tracked set is exactly the addresses that
borrowed in a block from 100000 before the first head up to the last one
scanned, over any number of polls and whatever the heads they saw. *)
Theorem every_borrower_is_tracked node ns w :
run_start node = Ok w → is_Some (block_number node) → seed_blocks ≤ last_scanned w →
Forall (answers_logs borrows) (node :: ns) → Forall small_head (node :: ns) →
∀ a, a ∈ borrowers (polls ns w) ↔
a ≠ 0 ∧ ∃ b r, last_scanned w - seed_blocks ≤ b ≤ last_scanned (polls ns w) ∧ (a, r) ∈ borrows b.
Proof.
intros Hrun [h Eh] Hseed Hall Hsm a.
apply Forall_cons in Hall as [Hn Hns]. apply Forall_cons in Hsm as [Hs Hss].
destruct (Hs h Eh) as [Hh0 Hh].
unfold run_start in Hrun. rewrite Eh in Hrun. cbn [unwrap_or] in Hrun.
destruct (match _ with Some n => _ | None => _ end); [done|].
destruct (parse_markets _) as [ms|]; [|done].
remember (windows true (turns (sat_sub h seed_blocks) h) (sat_sub h seed_blocks) h) as ws eqn:Ews in Hrun.
injection Hrun as <-. cbn [last_scanned] in *. set (w := {| markets := ms |}). unfold seed_blocks, sat_sub in *.
destruct (polls_spec ns w Hns Hss ltac:(cbn; lia)) as [Hle Hp]. cbn [last_scanned w] in Hle.
rewrite Hp. cbn [borrowers last_scanned w]. rewrite (scan_windows_spec borrows) by done.
rewrite Ews. replace (Z.max (h - 100000) 0) with (h - 100000) by lia.
destruct (windows_blocks true (turns (h - 100000) h) (h - 100000) h) as [-> _]; [lia|done|done|].
assert (left_out true (h - 100000) h = 0) as ->.
{ unfold left_out, chunk. replace (h - (h - 100000)) with 100000 by lia.
change (100000 mod (5000 + 1) =? 0) with false. by rewrite andb_false_r. }
unfold borrowed_in. setoid_rewrite elem_of_seqZ. split.
- intros [[[]%not_elem_of_empty|(Ha & b & r & ? & ?)]|(Ha & b & r & ? & ?)];
(split; [done|]; exists b, r; split; [lia|done]).
- intros (Ha & b & r & Hb & ?). destruct (decide (b ≤ h)).
+ left; right. split; [done|]. exists b, r. split; [lia|done].
+ right. split; [done|]. exists b, r. split; [lia|done].
Qed.

(** A scan that fails is never repeated.  When the node gives the head but
not the logs, the poll moves past those blocks: whatever later polls see,
an account that borrowed only there is not tracked. *)
Theorem failed_scan_is_skipped node h ns w :
block_number node = Some h → last_scanned w < h → (∀ ms f t, node (BorrowLogs ms f t) = None) →
0 ≤ last_scanned w → Forall (answers_logs borrows) ns → Forall small_head ns →
∀ a, a ∈ borrowers (polls (node :: ns) w) ↔ a ∈ borrowers w ∨
(a ≠ 0 ∧ ∃ b r, h < b ≤ last_scanned (polls (node :: ns) w) ∧ (a, r) ∈ borrows b).
Proof.
intros Eh Hlt Hnone H0 Hns Hss a.
change (polls (node :: ns) w) with (polls ns (discover node w)).
assert (borrowers (discover node w) = borrowers w ∧ last_scanned (discover node w) = h) as [Hb Hl].
{ unfold discover. rewrite Eh. destruct (Z.ltb_spec (last_scanned w) h); [|lia].
cbn [borrowers last_scanned]. split; [|done]. unfold scan_windows.
generalize (windows false (turns (wrap 64 (last_scanned w + 1)) h) (wrap 64 (last_scanned w + 1)) h).
intros ws. induction ws as [|[f t] ws IH]; [done|]. cbn [foldl fst snd]. unfold scan_borrows at 2.
rewrite Hnone. exact IH. }
destruct (polls_spec ns (discover node w) Hns Hss ltac:(lia)) as [_ ->]. by rewrite Hb, Hl.
Qed.
End Tracking.

(** The accounts found liquidatable, with their bounties. *)
Definition bounties (node : Node) (incentive : f64) (order : list Address) : list (Address * f64) :=
  omap (λ a, (λ s, (a, fmul s (fsub incentive f1))) <$> shortfall_of node a) order.

(** Not above, on floats: what a running maximum by [>] leaves behind. *)
Lemma not_above_trans a x y : fgt a x = false → fgt y x = true → fgt a y = false.
Proof.
  unfold fgt. change SFltb with flt. intros Ha Hy. destruct (flt y a) eqn:E; [|done].
  pose proof (flt_trans _ _ _ Hy E). congruence.
Qed.

(** The health poll reports what it found: the count is the number of
    liquidatable accounts, the alerts are those whose bounty reaches the
    threshold, and the best one is an account none of the others exceeds,
    whatever the order of the set and whatever floats the node's numbers
    give. *)
Theorem health_reports_the_best node incentive min_alert order :
  let r := health node incentive min_alert order in
  let bs := bounties node incentive order in
  liquidatable r = Z.of_nat (length bs) ∧
  alerts r = filter (λ x, fge x.2 min_alert = true) bs ∧
  match best r with
  | None => bs = []
  | Some x => x ∈ bs ∧ ∀ y, y ∈ bs → fgt y.2 x.2 = false
  end.
Proof.
  induction order as [|a order IH] using rev_ind; [done|].
  unfold health, bounties in *. rewrite foldl_snoc, omap_app. cbv zeta in IH.
  set (r := foldl _ _ order) in *. set (bs := omap _ order) in *.
  cbn [omap list_omap]. unfold check_account. destruct (shortfall_of node a) as [s|]; cbn [fmap option_fmap option_map].
  2: { rewrite app_nil_r. exact IH. }
  set (b := fmul s (fsub incentive f1)). destruct IH as (Hl & Ha & Hb). cbn [liquidatable alerts best].
  split_and!.
  - rewrite Hl, length_app. cbn. lia.
  - rewrite filter_app, Ha. cbn [filter list_filter]. destruct (fge b min_alert) eqn:Eb.
    + by rewrite decide_True by done.
    + rewrite decide_False by (cbn; congruence). by rewrite app_nil_r.
  - destruct (best r) as [[a' x]|] eqn:Ebest.
    + destruct Hb as [Hin Hmax]. destruct (fgt b x) eqn:Eg.
      * split; [apply elem_of_app; right; by apply list_elem_of_singleton|].
        intros y [Hy|Hy]%elem_of_app.
        -- eapply not_above_trans; [exact (Hmax y Hy)|exact Eg].
        -- apply list_elem_of_singleton in Hy as ->. apply flt_irrefl.
      * split; [apply elem_of_app; by left|]. intros y [Hy|Hy]%elem_of_app; [by apply Hmax|].
        by apply list_elem_of_singleton in Hy as ->.
    + rewrite Hb. split; [by apply list_elem_of_singleton|].
      intros y Hy%list_elem_of_singleton. subst y. apply flt_irrefl.
Qed.

(** ** Instances *)

Module Sample.
(** Account 5 borrowed in block 150000, account 9 in block 150007. *)
Definition borrows (b : Z) : list (Address * bytes) :=
if b =? 150000 then [(5, [])] else if b =? 150007 then [(9, [])] else [].
Definition markets_reply : text :=
"0"%char :: "x"%char :: Hex.hex_encode (word 0x20 ++ word 1 ++ word 0xAB).
Definition at_ (head : Z) (logs : bool) (q : request) : option json :=
match q with
| BlockNumber => Some (JString (quantity head))
| AllMarkets => Some (JString markets_reply)
| BorrowLogs _ f t => if logs then Some (chain_logs borrows f t) else None
| _ => None
end.
Definition seed_windows : list (Z * Z) := windows true (turns 0 100000) 0 100000.
Definition started : Watcher :=
{| markets := [0xAB]; borrowers := scan_windows (at_ 100000 true) [0xAB] seed_windows ∅;
last_scanned := 100000; liq_incentive := f64_lit 11 10 |}.
(** Long after the start. *)
Definition later : Watcher :=
{| markets := [0xAB]; borrowers := ∅; last_scanned := 150000; liq_incentive := f64_lit 11 10 |}.
End Sample.

Lemma sample_width b x : x ∈ Sample.borrows b → in_width 160 x.1.
Proof.
  unfold Sample.borrows. destruct (b =? 150000); [|destruct (b =? 150007)];
    intros H; [apply list_elem_of_singleton in H as ->|apply list_elem_of_singleton in H as ->|
               by apply elem_of_nil in H]; split; by vm_compute.
Qed.

Lemma sample_head h : 0 ≤ h < 2 ^ 63 → small_head (Sample.at_ h true).
Proof.
  intros Hh h' Eh. unfold block_number, eth_call, Sample.at_ in Eh. cbn [mbind option_bind as_str] in Eh.
  rewrite parse_quantity in Eh by lia. injection Eh as <-. unfold chunk. lia.
Qed.

Lemma windows_cover_each_block_once_witness :
  windows true (turns 0 10002) 0 10002 = [(0, 5000); (5001, 10001)] ∧
  blocks (windows true (turns 0 10002) 0 10002) = seqZ 0 10002.
Proof.
  split; [vm_compute; reflexivity|].
  destruct (windows_cover_each_block_once true 0 10002 0) as (_ & Hb & _); [lia|vm_compute; reflexivity|].
  exact Hb.
Defined.

Lemma sample_started : run_start (Sample.at_ 100000 true) = Ok Sample.started.
Proof.
  unfold run_start.
  assert (eth_call (Sample.at_ 100000 true) ChainId = None) as -> by done.
  assert (parse_markets (eth_call (Sample.at_ 100000 true) AllMarkets) = Some [0xAB]) as ->
    by (vm_compute; reflexivity).
  assert (block_number (Sample.at_ 100000 true) = Some 100000) as -> by (vm_compute; reflexivity).
  cbn [mbind option_bind unwrap_or]. change (sat_sub 100000 seed_blocks) with 0.
  unfold Sample.started, Sample.seed_windows. generalize (windows true (turns 0 100000) 0 100000).
  intros ws. generalize (scan_windows (Sample.at_ 100000 true) [0xAB] ws ∅). reflexivity.
Qed.

Lemma sample_heads : Forall small_head [Sample.at_ 100000 true; Sample.at_ 150010 true].
Proof.
  apply Forall_cons. split; [apply sample_head; split; by vm_compute|].
  apply Forall_cons. split; [apply sample_head; split; by vm_compute|constructor].
Qed.

Lemma every_borrower_is_tracked_witness :
  9 ∈ borrowers (polls [Sample.at_ 150010 true] Sample.started).
Proof.
  apply (every_borrower_is_tracked Sample.borrows sample_width (Sample.at_ 100000 true)
    [Sample.at_ 150010 true] Sample.started).
  - exact sample_started.
  - exists 100000. vm_compute. reflexivity.
  - change (100000 ≤ 100000). lia.
  - repeat constructor.
  - exact sample_heads.
  - split; [lia|]. exists 150007, []. split; [|apply list_elem_of_here].
    change (last_scanned Sample.started - seed_blocks) with 0.
    change (last_scanned (polls [Sample.at_ 150010 true] Sample.started)) with 150010. lia.
Defined.

Lemma later_heads : Forall small_head [Sample.at_ 150020 true].
Proof. apply Forall_cons. split; [apply sample_head; split; by vm_compute|constructor]. Qed.

Lemma later_answers : Forall (answers_logs Sample.borrows) [Sample.at_ 150020 true].
Proof. repeat constructor. Qed.

Lemma failed_scan_is_skipped_witness :
  9 ∉ borrowers (polls [Sample.at_ 150010 false; Sample.at_ 150020 true] Sample.later).
Proof.
  intros H. assert (0 ≤ last_scanned Sample.later) as H0 by (cbn; lia).
  destruct (proj1 (failed_scan_is_skipped Sample.borrows sample_width (Sample.at_ 150010 false)
    150010 [Sample.at_ 150020 true] Sample.later eq_refl eq_refl (λ _ _ _, eq_refl) H0
    later_answers later_heads 9) H)
    as [Hin|(_ & b & r & Hb & Hin)].
  - by apply not_elem_of_empty in Hin.
  - change (last_scanned _) with 150020 in Hb. unfold Sample.borrows in Hin.
    destruct (Z.eqb_spec b 150000); [lia|]. destruct (Z.eqb_spec b 150007); [lia|].
    by apply elem_of_nil in Hin.
Defined.
