(* ===== verification/Sources.v ===== *)
(** * crates/bsc-sources: where raw transactions come from

    The websocket source (hashes, then a bounded backfill of each body), the
    IPC source (whole transactions, one JSON line each), their reconnection
    loops, and what both put on the channel of the pipeline.  serde_json's
    parser, alloy's decoding of a transaction object and its hash are
    parameters; what the network delivers is a sequence. *)

From Stdlib Require Import ZArith Lia Ascii String.
From S2P Require Import Prelude Bytes Rpc Bus.
Import Core.

Local Abbreviation text := (list ascii) (only parsing).

(** ** Reconnection *)

Record WssConfig : Type := {
  source_id : Z;
  backfill_concurrency : Z;
  backfill_retries : Z;
  initial_backoff : Z;
  max_backoff : Z;
}.

(** Durations in milliseconds. *)
Definition WssConfig_new (id : Z) : WssConfig :=
  {| source_id := id; backfill_concurrency := 32; backfill_retries := 2;
     initial_backoff := 500; max_backoff := 10000 |}.

(** [backoff_sleep]: the delay slept and the next one. *)
Definition backoff_sleep (current max_ : Z) : Z * Z := (current, Z.min (current * 2) max_).

(** How one subscription ends. *)
Inductive life : Type := Ended | Failed | ShutDown.
#[global] Instance life_eq_dec : EqDecision life.
Proof. solve_decision. Defined.

(** The loop of [Source::run]: the delays slept between subscriptions, and
    whether it returned. *)
Fixpoint reconnect_loop (backoff max_ : Z) (lives : list life) : list Z * bool :=
  match lives with
  | [] => ([], false)
  | ShutDown :: _ => ([], true)
  | _ :: rest =>
      let '(delay, next) := backoff_sleep backoff max_ in
      let '(ds, r) := reconnect_loop next max_ rest in (delay :: ds, r)
  end.

Definition WssSource_run (cfg : WssConfig) (lives : list life) : list Z * bool :=
  reconnect_loop (initial_backoff cfg) (max_backoff cfg) lives.

(** The IPC source idles until shutdown when its socket is missing. *)
Definition IpcSource_run (path_exists : bool) (lives : list life) : list Z * bool :=
  if path_exists then reconnect_loop 500 10000 lives
  else ([], bool_decide (ShutDown ∈ lives)).

(** ** Transactions *)

Section Tx.
Context {TxEnvelope : Type}.
Context (tx_hash : TxEnvelope → B256).
Context (from_str : text → option json) (from_value : json → option TxEnvelope).

Abbreviation Out := (chan (RawTx TxEnvelope)) (only parsing).

Definition raw_tx (source recv_ns : Z) (hash : B256) (tx : TxEnvelope) : RawTx TxEnvelope :=
{| raw_source := source; raw_recv_ns := recv_ns; raw_hash := hash; raw_payload := Decoded tx None |}.

(** *** The websocket's backfill *)

Inductive fetch : Type := Found (tx : TxEnvelope) | Missing | FetchError.

Definition DELAYS : list Z := [0; 100; 300].

(** The attempts of [backfill_one]: how many requests were made, and the body.
[reply] answers the n-th request. *)
Fixpoint attempts (n : nat) (delays : list Z) (reply : nat → fetch) : nat * option TxEnvelope :=
match delays with
| [] => (n, None)
| _ :: rest =>
match reply n with
| Found tx => (S n, Some tx)
| _ => attempts (S n) rest reply
end
end.

Definition max_attempts (cfg : WssConfig) : nat :=
Nat.min (Z.to_nat (backfill_retries cfg) + 1) (length DELAYS).

Definition backfill_one (cfg : WssConfig) (hash : B256) (recv_ns : Z) (reply : nat → fetch) (out : Out)
: Out :=
match (attempts 0 (take (max_attempts cfg) DELAYS) reply).2 with
| Some tx => (try_send out (raw_tx (source_id cfg) recv_ns hash tx)).1
| None => out
end.

(** *** The IPC stream *)

(** [handle_event], with the clock's reading. *)
Definition handle_event (now : Z) (line : text) (out : Out) : Out :=
match line with
| [] => out
| _ =>
match from_str line with
| None => out
| Some v =>
if negb (bool_decide ((m ← get "method" v; as_str m) =
                      Some (list_ascii_of_string "eth_subscription"))) then out
else
  match (p ← get "params" v; get "result" p) with
  | None => out
  | Some result =>
      match from_value result with
      | None => out
      | Some tx => (try_send out (raw_tx LOCAL_IPC now (tx_hash tx) tx)).1
      end
  end
end
end.

(** What [read_line] gives, with the clock at that time. *)
Inductive read : Type := Line (now : Z) (s : text) | Eof | IoError.

Inductive session_end : Type := Reconnect | ClosedBeforeAck | BadAck | Rejected | ReadError.

Fixpoint stream (reads : list read) (out : Out) : Out * session_end :=
match reads with
| Line now s :: rest => stream rest (handle_event now (trim s) out)
| IoError :: _ => (out, ReadError)
| _ => (out, Reconnect)
end.

(** [IpcSource::run_once] after the connection: the acknowledgement, then the
events. *)
Definition run_once (reads : list read) (out : Out) : Out * session_end :=
match reads with
| Line _ s :: rest =>
match from_str (trim s) with
| None => (out, BadAck)
| Some ack =>
if bool_decide (is_Some (get "error" ack)) then (out, Rejected) else stream rest out
end
| IoError :: _ => (out, ReadError)
| _ => (out, ClosedBeforeAck)
end.
End Tx.
Arguments fetch : clear implicits.

(** ** Properties *)

Lemma reconnect_loop_delays b m lives :
  0 ≤ b ≤ m →
  ∃ k, (reconnect_loop b m lives).1 = (λ i, Z.min (b * 2 ^ Z.of_nat i) m) <$> seq 0 k ∧
    ((reconnect_loop b m lives).2 = true ↔ ShutDown ∈ lives) ∧
    (ShutDown ∉ lives → k = length lives).
Proof.
  revert b. induction lives as [|l lives IH]; intros b Hb.
  { exists 0%nat. split_and!; [done| |done]. split; [done|]. by intros ?%elem_of_nil. }
  destruct l; cbn [reconnect_loop].
  3: { exists 0%nat. split_and!; [done| |]. - split; [intros _; apply list_elem_of_here|done].
       - intros []. apply list_elem_of_here. }
  all: cbn [backoff_sleep]; destruct (IH (Z.min (b * 2) m) ltac:(lia)) as (k & Hd & Hr & Hk);
    destruct (reconnect_loop (Z.min (b * 2) m) m lives) as [ds r]; cbn [fst snd] in *; exists (S k);
    (split_and!; [|rewrite Hr, elem_of_cons; naive_solver|
       intros Hn; cbn; f_equal; apply Hk; contradict Hn; by apply elem_of_cons; right]);
    cbn [seq fmap list_fmap]; f_equal; [cbn; lia|]; rewrite Hd, <- fmap_S_seq, <- list_fmap_compose;
    apply list_fmap_ext; intros i x _; cbn;
    rewrite Nat2Z.inj_succ, Z.pow_succ_r by lia;
    pose proof (Z.pow_pos_nonneg 2 (Z.of_nat x) ltac:(lia) ltac:(lia)); nia.
Qed.

(** Both sources reconnect for ever.  The loop returns only at shutdown, and
    the k-th wait is 500 ms doubled k times up to ten seconds, however the
    subscriptions ended: a long healthy one does not reset it, and there is no
    jitter. *)
Theorem reconnect_backs_off lives id :
  let waits k := (λ i, Z.min (500 * 2 ^ Z.of_nat i) 10000) <$> seq 0 k in
  IpcSource_run true lives = WssSource_run (WssConfig_new id) lives ∧
  ((IpcSource_run true lives).2 = true ↔ ShutDown ∈ lives) ∧
  ∃ k, (IpcSource_run true lives).1 = waits k ∧ (ShutDown ∉ lives → k = length lives).
Proof.
  intros waits. split; [done|]. unfold IpcSource_run.
  destruct (reconnect_loop_delays 500 10000 lives) as (k & Hd & Hr & Hk); [lia|].
  split; [done|]. by exists k.
Qed.

Section Delivery.
Context {TxEnvelope : Type} (tx_hash : TxEnvelope → B256).
Context (from_str : text → option json) (from_value : json → option TxEnvelope).

(** The body of an [eth_subscription] notification. *)
Definition notification (r : json) : json :=
JObject [(list_ascii_of_string "method", JString (list_ascii_of_string "eth_subscription"));
(list_ascii_of_string "params", result_reply r)].

Lemma handle_notification now line r out :
from_str line = Some (notification r) → line ≠ [] →
handle_event tx_hash from_str from_value now line out =
match from_value r with
| Some tx => (try_send out (raw_tx LOCAL_IPC now (tx_hash tx) tx)).1
| None => out
end.
Proof.
intros Hl Hne. unfold handle_event. destruct line as [|c line]; [done|]. rewrite Hl.
assert ((m ← get "method" (notification r); as_str m) = Some (list_ascii_of_string "eth_subscription"))
as -> by done.
rewrite bool_decide_eq_true_2 by done. cbn [negb].
assert ((p ← get "params" (notification r); get "result" p) = Some r) as -> by done. done.
Qed.

Lemma try_send_items {A : Type} (c : chan A) x :
chan_closed c = false → (length (chan_items c) ≤ chan_cap c)%nat →
chan_items (try_send c x).1 = take (chan_cap c) (chan_items c ++ [x]) ∧
chan_closed (try_send c x).1 = false ∧ chan_cap (try_send c x).1 = chan_cap c.
Proof.
intros Hc Hl. unfold try_send. rewrite Hc.
destruct (Nat.ltb_spec (length (chan_items c)) (chan_cap c)); cbn.
- rewrite take_ge; [done|]. rewrite length_app. cbn. lia.
- rewrite take_app_le by lia. rewrite take_ge by lia. done.
Qed.

(** What the notifications of a stream carry. *)
Definition carried (evs : list (Z * text * json)) : list (RawTx TxEnvelope) :=
omap (λ e, (λ tx, raw_tx LOCAL_IPC e.1.1 (tx_hash tx) tx) <$> from_value e.2) evs.

Lemma stream_spec evs out rest :
chan_closed out = false → (length (chan_items out) ≤ chan_cap out)%nat →
Forall (λ e, from_str (trim e.1.2) = Some (notification e.2) ∧ trim e.1.2 ≠ []) evs →
∃ out', stream tx_hash from_str from_value (((λ e, Line e.1.1 e.1.2) <$> evs) ++ rest) out =
stream tx_hash from_str from_value rest out' ∧
chan_items out' = take (chan_cap out) (chan_items out ++ carried evs) ∧
chan_cap out' = chan_cap out ∧ chan_closed out' = false.
Proof.
revert out. induction evs as [|[[now s] r] evs IH]; intros out Hc Hl Hev.
{ exists out. cbn. by rewrite app_nil_r, take_ge by done. }
apply Forall_cons in Hev as [[Hs Hne] Hev]. cbn [fst snd] in *.
cbn [fmap list_fmap app stream fst snd]. rewrite (handle_notification _ _ r) by done.
unfold carried in *. cbn [omap list_omap fst snd]. destruct (from_value r) as [tx|]; cbn [fmap option_fmap option_map].
- destruct (try_send_items out (raw_tx LOCAL_IPC now (tx_hash tx) tx) Hc Hl) as (Hi & Hc' & Hcap).
destruct (IH (try_send out (raw_tx LOCAL_IPC now (tx_hash tx) tx)).1) as (out' & He & Hi' & Hca & Hcl).
+ done.
+ rewrite Hi, Hcap, length_take. lia.
+ done.
+ exists out'. split_and!; [done| |congruence|done]. rewrite Hi', Hi, Hcap.
set (x := raw_tx _ _ _ _). set (r' := omap _ evs).
assert (chan_items out ++ x :: r' = (chan_items out ++ [x]) ++ r') as -> by by rewrite <- app_assoc.
set (l := chan_items out ++ [x]).
destruct (decide (length l ≤ chan_cap out)%nat).
* by rewrite (take_ge l) by done.
* rewrite take_app_le by (rewrite length_take; lia).
rewrite (take_app_le l r') by lia. by rewrite take_take, Nat.min_id.
- exact (IH out Hc Hl Hev).
Qed.

(** An IPC subscription puts every transaction it carries on the pipeline's
channel, in order and stamped with the time its line was read, until the
channel is full; notifications that do not decode are skipped, and the end
of the stream means reconnect. *)
Theorem ipc_subscription_delivers t0 ack ackv evs out :
from_str (trim ack) = Some ackv → get "error" ackv = None →
Forall (λ e, from_str (trim e.1.2) = Some (notification e.2) ∧ trim e.1.2 ≠ []) evs →
chan_closed out = false → (length (chan_items out) ≤ chan_cap out)%nat →
∃ out', run_once tx_hash from_str from_value
(Line t0 ack :: ((λ e, Line e.1.1 e.1.2) <$> evs) ++ [Eof]) out = (out', Reconnect) ∧
chan_items out' = take (chan_cap out) (chan_items out ++ carried evs).
Proof.
intros Hack Herr Hev Hc Hl. unfold run_once. rewrite Hack, Herr.
rewrite bool_decide_eq_false_2 by (by intros [? ?]).
destruct (stream_spec evs out [Eof] Hc Hl Hev) as (out' & -> & Hi & _ & _). by exists out'.
Qed.

Lemma attempts_spec n delays reply :
match attempts n delays reply with
| (m, Some tx) => ∃ i, (i < length delays)%nat ∧ m = (n + i + 1)%nat ∧ reply (n + i)%nat = Found tx ∧
∀ j, (j < i)%nat → ∀ tx', reply (n + j)%nat ≠ Found tx'
| (m, None) => m = (n + length delays)%nat ∧
∀ j, (j < length delays)%nat → ∀ tx', reply (n + j)%nat ≠ @Found TxEnvelope tx'
end.
Proof.
revert n. induction delays as [|d delays IH]; intros n; cbn [attempts length].
{ split; [lia|]. intros j Hj. lia. }
destruct (reply n) as [tx| |] eqn:E.
{ exists 0%nat. rewrite Nat.add_0_r. split_and!; [lia|lia|done|]. intros j Hj. lia. }
all: specialize (IH (S n)); destruct (attempts (S n) delays reply) as [m [tx|]];
[destruct IH as (i & Hi & -> & Hf & Hn); exists (S i);
replace (n + S i)%nat with (S n + i)%nat by lia; split_and!; [lia|lia|done|]
|destruct IH as [-> Hn]; split; [lia|]];
intros [|j] Hj tx'; rewrite ?Nat.add_0_r;
[congruence|replace (n + S j)%nat with (S n + j)%nat by lia; apply Hn; lia
|congruence|replace (n + S j)%nat with (S n + j)%nat by lia; apply Hn; lia].
Qed.
(** The backfill of a hash asks at most [retries + 1] times and never more
than three, stops at the first body, and sends exactly that body, stamped
with the time the hash was seen; when none of them has it, nothing is
sent. *)
Theorem backfill_sends_the_first_body cfg hash recv_ns reply (out : chan (RawTx TxEnvelope)) :
let n := max_attempts cfg in
(n ≤ 3)%nat ∧
((∃ i tx, (i < n)%nat ∧ reply i = Found tx ∧ (∀ j, (j < i)%nat → ∀ tx', reply j ≠ Found tx') ∧
backfill_one cfg hash recv_ns reply out =
(try_send out (raw_tx (source_id cfg) recv_ns hash tx)).1 ∧
(attempts 0 (take n DELAYS) reply).1 = S i) ∨
((∀ j, (j < n)%nat → ∀ tx', reply j ≠ Found tx') ∧
backfill_one cfg hash recv_ns reply out = out ∧
(attempts 0 (take n DELAYS) reply).1 = n)).
Proof.
intros n. assert (n ≤ 3)%nat as Hn by (unfold n, max_attempts; cbn [DELAYS length]; lia).
split; [done|]. unfold backfill_one. fold n.
pose proof (attempts_spec 0 (take n DELAYS) reply) as Ha.
assert (length (take n DELAYS) = n) as Hl by (rewrite length_take; cbn [DELAYS length]; lia).
rewrite Hl in Ha. destruct (attempts 0 (take n DELAYS) reply) as [m [tx|]]; cbn [fst snd].
- left. destruct Ha as (i & Hi & -> & Hf & Hno). exists i, tx. split_and!; try done. lia.
- right. destruct Ha as [-> Hno]. done.
Qed.

(** A transaction that arrives over both sources is published once.  Its
IPC notification and the backfilled body of its hash make two raw
transactions; the pipeline publishes the first, with the IPC source, and
records the second sighting with its own time. *)
Theorem two_sources_publish_once {RlpError RecoveryError : Type}
(alloy_decode : bytes → result TxEnvelope RlpError)
(alloy_recover : TxEnvelope → result Address RecoveryError)
line r tx from t1 t2 reply i (p : Pipeline.Pipeline) :
from_str line = Some (notification r) → line ≠ [] → from_value r = Some tx →
alloy_recover tx = Ok from → (i < 3)%nat → reply i = Found tx →
(∀ j, (j < i)%nat → ∀ tx', reply j ≠ Found tx') →
Dedupe.map (Pipeline.dedupe p) !! tx_hash tx = None →
let out0 := {| chan_cap := 2; chan_items := []; chan_closed := false |} in
let out1 := handle_event tx_hash from_str from_value t1 line out0 in
let out2 := backfill_one (WssConfig_new WSS_PROVIDER) (tx_hash tx) t2 reply out1 in
let p' := Pipeline.run alloy_decode alloy_recover p (Pipeline.Deliver <$> chan_items out2) in
(∃ q, Pipeline.bus p' = Pipeline.bus p ++ [q] ∧ p_hash q = tx_hash tx ∧ p_from q = from ∧
first_seen_ns q = t1 ∧ source_seen q = [(LOCAL_IPC, t1)]) ∧
(sources <$> Dedupe.snapshot (Pipeline.dedupe p') (tx_hash tx)) =
Some [(LOCAL_IPC, t1); (WSS_PROVIDER, t2)].
Proof.
intros Hl Hne Hv Hrec Hi Hf Hno Hnew. cbv zeta.
rewrite (handle_notification t1 line r) by done. rewrite Hv. unfold backfill_one.
change (take (max_attempts (WssConfig_new WSS_PROVIDER)) DELAYS) with DELAYS.
assert ((attempts 0 DELAYS reply).2 = Some tx) as ->.
{ pose proof (attempts_spec 0 DELAYS reply) as Ha.
destruct (attempts 0 DELAYS reply) as [m [tx'|]]; cbn [snd].
- destruct Ha as (k & Hk & _ & Hfk & Hnk). cbn [plus] in *. destruct (Nat.lt_trichotomy k i) as [Hlt|[->|Hgt]].
+ by destruct (Hno k Hlt tx').
+ congruence.
+ by destruct (Hnk i Hgt tx).
- destruct Ha as [_ Hnk]. by destruct (Hnk i Hi tx). }
cbn [try_send chan_closed chan_items chan_cap length app Nat.ltb Nat.leb fst fmap list_fmap].
unfold Pipeline.run. cbn [foldl Pipeline.step]. unfold Pipeline.run_decoder_worker, decode_to_decoded.
cbn [raw_tx raw_payload raw_hash raw_source raw_recv_ns result_bind].
unfold recover_signer. rewrite !Hrec. cbn [result_bind d_hash d_source d_recv_ns].
unfold Pipeline.run_dedupe at 2 4. cbn [d_hash d_source d_recv_ns].
unfold Dedupe.record at 1 2. rewrite Hnew. cbn [Pipeline.dedupe].
unfold Pipeline.run_dedupe. cbn [d_hash d_source d_recv_ns Pipeline.dedupe].
unfold Dedupe.record. cbn [Dedupe.map]. rewrite lookup_insert_eq. cbn [Pipeline.bus Pipeline.dedupe sources].
split.
- eexists. split; [reflexivity|]. done.
- unfold Dedupe.snapshot. cbn [Dedupe.map]. by rewrite lookup_insert_eq.
Qed.
End Delivery.

(** ** Instances *)

Module Feed.
Definition ack : text := list_ascii_of_string "ack".
Definition event : text := list_ascii_of_string "event".
Definition from_str (s : text) : option json :=
if bool_decide (s = ack) then Some (result_reply (JString ack))
else if bool_decide (s = event) then Some (notification (JInt 7)) else None.
(** A transaction is its number and its hash. *)
Definition from_value (v : json) : option Z := match v with JInt n => Some n | _ => None end.
Definition tx_hash (n : Z) : B256 := n.
Definition out : chan (RawTx Z) := {| chan_cap := 1; chan_items := []; chan_closed := false |}.
Definition decode (b : bytes) : result Z unit := Err tt.
Definition recover (n : Z) : result Address unit := Ok 5.
Definition start : Pipeline.Pipeline (TxEnvelope := Z) := Pipeline.build_pipeline Pipeline.default_config.
End Feed.

Lemma ipc_subscription_delivers_witness :
  ∃ out', run_once Feed.tx_hash Feed.from_str Feed.from_value
      [Line 1 Feed.ack; Line 2 Feed.event; Line 3 Feed.event; Eof] Feed.out = (out', Reconnect) ∧
    chan_items out' = [raw_tx LOCAL_IPC 2 7 7].
Proof.
  destruct (ipc_subscription_delivers Feed.tx_hash Feed.from_str Feed.from_value 1 Feed.ack
    (result_reply (JString Feed.ack)) [(2, Feed.event, JInt 7); (3, Feed.event, JInt 7)] Feed.out)
    as (out' & Hr & Hi); [done|done|by repeat constructor|done|cbn; lia|].
  exists out'. split; [exact Hr|exact Hi].
Defined.

Lemma two_sources_publish_once_witness :
  let out0 := {| chan_cap := 2; chan_items := []; chan_closed := false |} in
  let out1 := handle_event Feed.tx_hash Feed.from_str Feed.from_value 10 Feed.event out0 in
  let out2 := backfill_one (WssConfig_new WSS_PROVIDER) 7 20 (λ i, if (i =? 1)%nat then Found 7 else Missing) out1 in
  length (Pipeline.bus (Pipeline.run Feed.decode Feed.recover Feed.start (Pipeline.Deliver <$> chan_items out2))) = 1%nat.
Proof.
  destruct (two_sources_publish_once Feed.tx_hash Feed.from_str Feed.from_value Feed.decode Feed.recover
    Feed.event (JInt 7) 7 5 10 20 (λ i, if (i =? 1)%nat then Found 7 else Missing) 1 Feed.start)
    as [(q & Hq & _) _]; [done|done|done|done|lia|done| |done|].
  - intros [|j] Hj tx'; [done|lia].
  - cbv zeta. apply (f_equal length) in Hq. exact Hq.
Defined.
