(* ===== verification/DevResolver.v ===== *)
(** * trader/dev_resolver.rs and wallet.rs

    Module [Dev]: the lookup of a token's creator, its cache, and the race of
    the resolution against its time budget with the background task that a
    timeout leaves behind.  Module [Wallet]: the check that the key and the
    declared address belong together.  Node replies, address parsing and the
    signer are parameters. *)

From Stdlib Require Import ZArith Lia Ascii String.
From S2P Require Import Prelude Bytes Rpc Dex Trail.

Local Abbreviation text := (list ascii) (only parsing).

Module Dev.

(** ** Resolution *)

Definition ANCHOR_WINDOW_BLOCKS : Z := 5000.

(** The window of blocks asked for. *)
Definition window (anchor_block : Z) : Z * Z := (sat_sub anchor_block ANCHOR_WINDOW_BLOCKS, anchor_block).

Section Resolve.
Context {Url : Type} (get_logs : Url → Z * Z → option json) (get_tx : Url → text → option json).
Context (parse_address : text → option Address).

Definition tx_from (url : Url) (tx_hash : text) : option Address :=
v ← get_tx url tx_hash; r ← get "result" v; f ← get "from" r; s ← as_str f; parse_address s.

(** [format!("{:x}", token)]. *)
Definition tok_short (token : Address) : text := Hex.hex_encode (to_be 20 token).

Definition log_data (lg : json) : text :=
to_lowercase (unwrap_or (d ← get "data" lg; as_str d) []).

(** The first log of one endpoint that names the token: [None] when there is
none, otherwise what [resolve] returns. *)
Fixpoint scan_logs (url : Url) (token : Address) (logs : list json) : option (option Address) :=
match logs with
| [] => None
| lg :: rest =>
if contains (tok_short token) (log_data lg) then
Some (h ← get "transactionHash" lg; h ← as_str h; tx_from url h)
else scan_logs url token rest
end.

Fixpoint resolve (urls : list Url) (token : Address) (anchor_block : Z) : option Address :=
match urls with
| [] => None
| url :: rest =>
match (v ← get_logs url (window anchor_block); r ← get "result" v; as_array r) with
| None => resolve rest token anchor_block
| Some logs =>
match scan_logs url token logs with
| Some r => r
| None => resolve rest token anchor_block
end
end
end.
End Resolve.

(** ** Lookup *)

Inductive DevLookup : Type := WhitelistedDev | OtherDev | Unknown.

(** [running] lists the tokens of the background tasks in flight. *)
Record DevResolver : Type := {
whitelist : gset Address;
cache : gmap Address (option Address);
running : list Address;
}.

Definition load (devs : list (option Address)) : DevResolver :=
{| whitelist := list_to_set (omap id devs); cache := ∅; running := [] |}.

Definition classify (r : DevResolver) (dev : option Address) : DevLookup :=
match dev with
| Some d => if bool_decide (d ∈ whitelist r) then WhitelistedDev else OtherDev
| None => OtherDev
end.

Definition remember (r : DevResolver) (token : Address) (dev : option Address) : DevResolver :=
{| whitelist := whitelist r; cache := <[token := dev]> (cache r); running := running r |}.

(** [lookup]; [race] is what [resolve] returned within the budget, [None] when
it did not finish. *)
Definition lookup (r : DevResolver) (token : Address) (race : option (option Address))
: DevResolver * DevLookup :=
match cache r !! token with
| Some dev => (r, classify r dev)
| None =>
match race with
| Some dev => (remember r token dev, classify r dev)
| None =>
({| whitelist := whitelist r; cache := cache r; running := token :: running r |}, Unknown)
end
end.

(** One background task ends: the [i]-th of those in flight. *)
Definition finish (r : DevResolver) (i : nat) (dev : option Address) : DevResolver :=
match running r !! i with
| Some token =>
remember {| whitelist := whitelist r; cache := cache r; running := delete i (running r) |} token dev
| None => r
end.

Inductive event : Type :=
| Lookup (token : Address) (race : option (option Address))
| Finish (i : nat) (dev : option Address).

Definition step (r : DevResolver) (e : event) : DevResolver :=
match e with
| Lookup token race => (lookup r token race).1
| Finish i dev => finish r i dev
end.
Definition run (r : DevResolver) (es : list event) : DevResolver := foldl step r es.

(** ** Lemmas *)

Lemma step_whitelist r e : whitelist (step r e) = whitelist r.
Proof.
destruct e as [token race|i dev]; cbn.
- unfold lookup. destruct (cache r !! token); [done|]. by destruct race.
- unfold finish. by destruct (running r !! i).
Qed.

Lemma run_whitelist r es : whitelist (run r es) = whitelist r.
Proof.
revert r. induction es as [|e es IH]; intros r; [done|]. cbn.
change (foldl step (step r e) es) with (run (step r e) es). by rewrite IH, step_whitelist.
Qed.

(** The answers that [resolve] gave about the token. *)
Definition resolved_to (token : Address) (r : DevResolver) (e : event) (dev : option Address) : Prop :=
match e with
| Lookup t race => t = token ∧ race = Some dev
| Finish i d => running r !! i = Some token ∧ d = dev
end.

Lemma step_cache r e token dev :
cache (step r e) !! token = Some dev →
cache r !! token = Some dev ∨ resolved_to token r e dev.
Proof.
destruct e as [t race|i d]; cbn.
- unfold lookup. destruct (cache r !! t) eqn:E; [by left|]. destruct race as [d|]; [|by left]. cbn.
destruct (decide (t = token)) as [->|Hne].
+ rewrite lookup_insert_eq. intros [= ->]. by right.
+ rewrite lookup_insert_ne by done. by left.
- unfold finish. destruct (running r !! i) as [t|] eqn:E; [|by left]. cbn.
destruct (decide (t = token)) as [->|Hne].
+ rewrite lookup_insert_eq. intros [= ->]. by right.
+ rewrite lookup_insert_ne by done. by left.
Qed.

(** Events that are about other tokens, or a lookup, keep a cached answer. *)
Lemma step_keeps r e token dev :
cache r !! token = Some dev → token ∉ running r →
cache (step r e) !! token = Some dev ∧ token ∉ running (step r e).
Proof.
intros Hc Hr. destruct e as [t race|i d]; cbn.
- unfold lookup. destruct (cache r !! t) eqn:E; [done|].
assert (t ≠ token) by (intros ->; congruence). destruct race as [d|]; cbn.
+ by rewrite lookup_insert_ne.
+ split; [done|]. rewrite not_elem_of_cons. done.
- unfold finish. destruct (running r !! i) as [t|] eqn:E; [|done]. cbn.
assert (t ≠ token) by (intros ->; apply Hr; by eapply list_elem_of_lookup_2).
rewrite lookup_insert_ne by done. split; [done|]. intros H'. apply Hr.
apply list_elem_of_lookup in H' as [j Hj]. destruct (decide (j < i)%nat).
+ rewrite list_lookup_delete_lt in Hj by done. by eapply list_elem_of_lookup_2.
+ rewrite list_lookup_delete_ge in Hj by lia. by eapply list_elem_of_lookup_2.
Qed.

(** ** Properties *)

(** Trust is never invented.  Whenever a lookup says the creator is trusted,
a resolution of that very token, just now or earlier in the history,
returned a creator of the trust list. *)
Theorem trusted_dev_was_resolved r0 es token race :
cache r0 = ∅ → (lookup (run r0 es) token race).2 = WhitelistedDev →
∃ d, d ∈ whitelist r0 ∧
(race = Some (Some d) ∨
∃ k e, es !! k = Some e ∧ resolved_to token (run r0 (take k es)) e (Some d)).
Proof.
intros H0 Hl.
assert (∀ dev, cache (run r0 es) !! token = Some dev →
∃ k e, es !! k = Some e ∧ resolved_to token (run r0 (take k es)) e dev) as Hh.
{ clear Hl. intros dev. induction es as [|e es IH] using rev_ind; intros Hc.
- cbn in Hc. by rewrite H0 in Hc.
- unfold run in Hc. rewrite foldl_snoc in Hc. apply step_cache in Hc as [Hc|Hc].
+ destruct (IH Hc) as (k & e' & Hk & Hr). exists k, e'.
assert (k < length es)%nat by (by eapply lookup_lt_Some).
rewrite lookup_app_l, take_app_le by lia. done.
+ exists (length es), e. rewrite lookup_app_r, Nat.sub_diag, take_app_length by lia. done. }
unfold lookup in Hl. destruct (cache (run r0 es) !! token) as [dev|] eqn:Ec; cbn in Hl.
- unfold classify in Hl. destruct dev as [d|]; [|done]. case_bool_decide as Hd; [|done].
rewrite run_whitelist in Hd. exists d. split; [done|]. right. by apply Hh.
- destruct race as [dev|]; [|done]. cbn in Hl. unfold classify in Hl. destruct dev as [d|]; [|done].
case_bool_decide as Hd; [|done]. rewrite run_whitelist in Hd. exists d. split; [done|by left].
Qed.

(** A failed resolution is final.  When every endpoint fails, [resolve] gives
the same answer as for a token that is not on the launchpad; a lookup
caches it, and from then on, as long as no background task of the token is
in flight, every lookup says "another developer", whoever created it. *)
Theorem failed_resolution_is_final {Url : Type} (get_logs : Url → Z * Z → option json) get_tx pa
(urls : list Url) anchor r token es race :
(∀ u w, get_logs u w = None) → cache r !! token = None → token ∉ running r →
let r1 := (lookup r token (Some (resolve get_logs get_tx pa urls token anchor))).1 in
(lookup (run r1 es) token race).2 = OtherDev ∧ cache (run r1 es) !! token = Some None.
Proof.
intros Hdown Hc Hr. cbv zeta.
assert (resolve get_logs get_tx pa urls token anchor = None) as ->.
{ induction urls as [|u urls IH]; [done|]. cbn [resolve]. by rewrite Hdown. }
assert (cache (lookup r token (Some None)).1 !! token = Some None ∧
token ∉ running (lookup r token (Some None)).1) as [Hc1 Hr1].
{ unfold lookup. rewrite Hc. cbn. by rewrite lookup_insert_eq. }
revert Hc1 Hr1. generalize (lookup r token (Some None)).1. clear Hc Hr r.
intros r Hc Hr. assert (cache (run r es) !! token = Some None) as Hc'.
{ revert r Hc Hr. induction es as [|e es IH]; intros r Hc Hr; [done|].
destruct (step_keeps r e token None Hc Hr) as [Hc' Hr']. exact (IH _ Hc' Hr'). }
split; [|done]. unfold lookup. by rewrite Hc'.
Qed.
End Dev.

(** ** wallet.rs *)

Module Wallet.
Inductive wallet_error : Type :=
| KeyLength (n : Z)
| BadKey
| BadAddress
| Mismatch (declared derived : Address).

Section Wallet.
(** alloy's key parser, the address of a key, its address parser. *)
Context {Key : Type} (key_from_str : text → option Key) (key_address : Key → Address).
Context (address_from_str : text → option Address).

Record TraderWallet : Type := { signer : Key; address : Address }.

Definition from_parts (pk_hex declared_addr : text) : result TraderWallet wallet_error :=
let pk := trim_0x (trim pk_hex) in
if negb (Z.of_nat (length pk) =? 64) then Err (KeyLength (Z.of_nat (length pk)))
else
match key_from_str pk with
| None => Err BadKey
| Some k =>
match address_from_str (trim declared_addr) with
| None => Err BadAddress
| Some declared =>
if negb (key_address k =? declared) then Err (Mismatch declared (key_address k))
else Ok {| signer := k; address := key_address k |}
end
end.

(** The wallet starts only with the key of the declared address: it has 64
digits after its prefixes, and the address it signs for is both derived
from the key and the one declared. *)
Theorem wallet_signs_for_its_address pk declared w :
from_parts pk declared = Ok w →
length (trim_0x (trim pk)) = 64%nat ∧ key_from_str (trim_0x (trim pk)) = Some (signer w) ∧
address w = key_address (signer w) ∧ address_from_str (trim declared) = Some (address w).
Proof.
unfold from_parts. destruct (Z.eqb_spec (Z.of_nat (length (trim_0x (trim pk)))) 64); [|done].
destruct (key_from_str _) as [k|] eqn:Ek; [|done]. destruct (address_from_str _) as [d|] eqn:Ed; [|done].
cbn [negb]. destruct (Z.eqb_spec (key_address k) d) as [<-|]; [|done]. intros [= <-]. cbn.
split_and!; done || lia.
Qed.
End Wallet.
Arguments TraderWallet : clear implicits.
End Wallet.

(** ** Instances *)

Lemma trusted_dev_was_resolved_witness :
  ∃ d, d ∈ Dev.whitelist (Dev.load [Some 5]) ∧ d = 5.
Proof.
  destruct (Dev.trusted_dev_was_resolved (Dev.load [Some 5])
    [Dev.Lookup 9 None; Dev.Finish 0 (Some 5)] 9 None) as (d & Hd & _); [done|vm_compute; reflexivity|].
  exists d. split; [exact Hd|]. cbn in Hd. set_solver.
Defined.

Lemma failed_resolution_is_final_witness :
  let r1 := (Dev.lookup (Dev.load [Some 5]) 9
    (Some (Dev.resolve (λ _ _, None) (λ _ _, None) (λ _, None) [tt] 9 100))).1 in
  (Dev.lookup (Dev.run r1 [Dev.Lookup 9 (Some (Some 5))]) 9 (Some (Some 5))).2 = Dev.OtherDev.
Proof.
  refine (proj1 (Dev.failed_resolution_is_final (λ _ _, None) (λ _ _, None) (λ _, None) [tt] 100
    (Dev.load [Some 5]) 9 [Dev.Lookup 9 (Some (Some 5))] (Some (Some 5)) _ _ _)); try done.
  cbn. by apply not_elem_of_nil.
Defined.

Lemma wallet_signs_for_its_address_witness :
  ∃ w, Wallet.from_parts Some (λ _, 7) (λ _, Some 7) (replicate 64 "a"%char) [] = Ok w ∧
    Wallet.address w = 7.
Proof.
  eexists. split; [vm_compute; reflexivity|].
  refine (proj1 (proj2 (proj2 (Wallet.wallet_signs_for_its_address Some (λ _, 7) (λ _, Some 7)
    (replicate 64 "a"%char) [] _ _)))). vm_compute. reflexivity.
Defined.
