(* ===== verification/Telegram.v ===== *)
(** * kol_watch.rs: the Telegram alert

    The text of an alert and its keyboard, and the sending with its single
    retry.  The text is HTML: [markup] is a reader of the tags Telegram
    accepts, against which the formatter is proved. *)

From Stdlib Require Import ZArith Lia Floats.SpecFloat Ascii String.
From S2P Require Import Prelude F64 Bytes Rpc Dex Kol Trail Csv.
From S2P Require Services.
Import Kol.Watch.

Local Abbreviation text := (list ascii) (only parsing).

(** ** Formatting *)

Definition escape_char (c : ascii) : text :=
  if Ascii.eqb c "&" then str "&amp;"
  else if Ascii.eqb c "<" then str "&lt;"
  else if Ascii.eqb c ">" then str "&gt;"
  else [c].

(** The three [replace] calls, the ampersand first. *)
Definition replace (c : ascii) (by_ s : text) : text :=
  s ≫= λ x, if Ascii.eqb x c then by_ else [x].
Definition html_escape (s : text) : text :=
  replace ">" (str "&gt;") (replace "<" (str "&lt;") (replace "&" (str "&amp;") s)).

Definition action_emoji (method_label : option string) : text :=
  match method_label with
  | None => str "❓"
  | Some m =>
      if String.eqb m "BNB transfer" then str "💸"
      else if String.eqb m "BEP20 transfer" || String.eqb m "BEP20 transferFrom" then str "🪙"
      else if String.eqb m "BEP20 approve" then str "✅"
      else if String.eqb m "GMGN swap" then str "🐸"
      else if contains (str "swap") (str m) || contains (str "Swap") (str m) ||
              contains (str "Pancake") (str m) then str "💱"
      else str "🔧"
  end.

Definition format_value (bnb : f64) : option text :=
  if fle bnb f0 then None
  else
    let s := if fge bnb (f64_of_Z 100) then fmt_fixed 0 bnb
             else if fge bnb f1 then fmt_fixed 2 bnb
             else if fge bnb (f64_lit 1 1000) then fmt_fixed 4 bnb
             else fmt_fixed 6 bnb in
    Some (s ++ str " BNB").

Definition format_gwei (g : f64) : text :=
  (if fge g (f64_of_Z 100) then fmt_fixed 0 g
   else if fge g (f64_of_Z 10) then fmt_fixed 1 g
   else if fge g f1 then fmt_fixed 2 g
   else fmt_fixed 3 g) ++ str " gwei".

(** [{:02}] of a number below 100. *)
Definition pad2 (n : Z) : text := [hex_digit (n / 10); hex_digit (n mod 10)].
Definition now_hms_utc (secs : Z) : text :=
  pad2 (secs / 3600 mod 24) ++ str ":" ++ pad2 (secs / 60 mod 60) ++ str ":" ++ pad2 (secs mod 60) ++
  str " UTC".

Definition short_addr (addr : text) : text :=
  if (length addr <? 14)%nat then addr
  else take 8 addr ++ str "…" ++ drop (length addr - 4) addr.

Definition group_part (h : KolHit) : text :=
  match html_escape (unwrap_or (str <$> head (kol_groups h)) []) with
  | [] => []
  | g => str " · <i>" ++ g ++ str "</i>"
  end.

Definition side_part (h : KolHit) : text :=
  if bool_decide (side h = Some "BUY"%string) then str "🟩 <b>BUY</b> "
  else if bool_decide (side h = Some "SELL"%string) then str "🟥 <b>SELL</b> "
  else [].

Definition body_part (h : KolHit) : text :=
  let method := html_escape (str (unwrap_or (method_label h) (method_id h))) in
  side_part h ++ action_emoji (method_label h) ++ str " <b>" ++ method ++ str "</b>" ++
  match format_value (value_bnb h) with Some v => str " — " ++ html_escape v | None => [] end ++
  str " · " ++ html_escape (format_gwei (gas_price_gwei h)).

Definition token_line (h : KolHit) (token_label : option text) : text :=
  match token h with
  | Some addr =>
      let a := address_hex addr in
      let sym := match token_label with
                 | Some s => str "<b>" ++ html_escape s ++ str "</b> "
                 | None => []
                 end in
      newline :: str "🎯 " ++ sym ++ str "<a href=" ++ [dquote] ++ str "https://gmgn.ai/bsc/token/" ++ a ++
        [dquote] ++ str ">" ++ short_addr a ++ str "</a>"
  | None => []
  end.

Definition decoded_line (h : KolHit) : text :=
  match decoded h with
  | Some d => newline :: str "💎 <b>" ++ html_escape (str d) ++ str "</b>"
  | None => []
  end.

Definition dest_line (h : KolHit) : text :=
  match to_label h with
  | Some l => newline :: str "📍 via <code>" ++ html_escape (str l) ++ str "</code>"
  | None => []
  end.

Definition meta_line (h : KolHit) (now_secs : Z) : text :=
  str "<i>nonce " ++ u64_to_string (nonce h) ++ str " · " ++ html_escape (now_hms_utc now_secs) ++
  str "</i>".

Definition format_telegram_html (h : KolHit) (token_label : option text) (now_secs : Z) : text :=
  str "🟢 <b>PENDING</b> · BSC" ++ [newline; newline] ++
  str (unwrap_or (kol_emoji h) "🐐"%string) ++ str " <b>KOL " ++ html_escape (str (kol_name h)) ++
  str "</b>" ++ group_part h ++ [newline] ++ body_part h ++ token_line h token_label ++ decoded_line h ++
  dest_line h ++ [newline] ++ meta_line h now_secs.

(** [build_inline_keyboard]. *)
Definition button (label url : text) : json :=
  JObject [(str "text", JString label); (str "url", JString url)].
Definition build_inline_keyboard (h : KolHit) : json :=
  let tx_btn := button (str "🔍 BscScan tx") (str "https://bscscan.com/tx/" ++ str (tx_hash h)) in
  let from_btn := button (str "👤 " ++ str (kol_name h))
                    (str "https://bscscan.com/address/" ++ str (from_addr h)) in
  let to_btn :=
    match to_addr h with
    | Some to =>
        [button (str "🎯 " ++ match to_label h with Some l => str l | None => short_addr (str to) end)
                (str "https://bscscan.com/address/" ++ str to)]
    | None => []
    end in
  JArray [JArray [tx_btn]; JArray (from_btn :: to_btn)].

(** ** Sending *)

Inductive tg_reply : Type :=
| TgSuccess
| TgStatus (code : Z) (body : option json)
| TgError.

Definition parse_retry_after (body : option json) : option Z :=
  v ← body; p ← get "parameters" v; n ← get "retry_after" p; as_u64 n.

(** [send_one]: the replies of the requests, in turn; the seconds slept, the
    requests made, and whether the message was accepted. *)
Fixpoint send_attempts (attempts : list Z) (replies : nat → tg_reply) (n : nat) : list Z * nat * bool :=
  match attempts with
  | [] => ([], n, false)
  | attempt :: rest =>
      match replies n with
      | TgSuccess => ([], S n, true)
      | TgStatus code body =>
          if (code =? 429) && (attempt =? 0) then
            let '(slept, m, ok) := send_attempts rest replies (S n) in
            (unwrap_or (parse_retry_after body) 5 :: slept, m, ok)
          else ([], S n, false)
      | TgError => ([], S n, false)
      end
  end.
Definition send_one (replies : nat → tg_reply) : list Z * nat * bool := send_attempts [0; 1] replies 0.

(** ** The dispatcher

    The token's symbol is looked up off the hot path, then the alert is sent. *)

Record Post : Type := {
  post_text : text; post_keyboard : json; post_requests : nat; post_accepted : bool }.

Record Dispatcher : Type := {
  td_cache : gmap Address Services.Resolver.CacheEntry;
  td_posts : list Post;
}.

(** A hit from the channel, with what the resolver's node and Telegram answer
    and the clocks. *)
Record Arrival : Type := {
  ar_hit : KolHit;
  ar_now : Z;
  ar_token : Services.Resolver.Replies;
  ar_done : Z;
  ar_secs : Z;
  ar_http : nat → tg_reply;
}.

(** The body of [run_telegram] for one hit; [resolver] says whether it was
    given a resolver. *)
Definition run_telegram (resolver : bool) (d : Dispatcher) (a : Arrival) : Dispatcher :=
  let '(cache, info) :=
    match resolver, token (ar_hit a) with
    | true, Some addr =>
        Services.Resolver.lookup (td_cache d) addr (ar_now a) (ar_token a) (ar_done a)
    | _, _ => (td_cache d, None)
    end in
  let token_label := (λ i, ascii_of_byte <$> Services.Resolver.ti_symbol i) <$> info in
  let '(_, n, ok) := send_one (ar_http a) in
  {| td_cache := cache;
     td_posts := td_posts d ++
       [{| post_text := format_telegram_html (ar_hit a) token_label (ar_secs a);
           post_keyboard := build_inline_keyboard (ar_hit a);
           post_requests := n; post_accepted := ok |}] |}.

Definition dispatched (resolver : bool) (d : Dispatcher) (hits : list Arrival) : Dispatcher :=
  foldl (run_telegram resolver) d hits.

(** ** Telegram's reading of the markup

    A tag opens with [<name>] or [<name attributes>] and closes with
    [</name>]; tags nest; the text between them holds neither bracket. *)

Inductive mode : Type := MText | MTag (read_ : text) | MAttr (name : text).

Definition open_or_close (stack : list text) (tag : text) : option (list text * mode) :=
  match tag with
  | "/"%char :: name =>
      match stack with
      | top :: stack => if bool_decide (top = name) then Some (stack, MText) else None
      | [] => None
      end
  | _ => Some (tag :: stack, MText)
  end.

Definition read_char (s : option (list text * mode)) (c : ascii) : option (list text * mode) :=
  '(stack, m) ← s;
  match m with
  | MText => if Ascii.eqb c "<" then Some (stack, MTag [])
             else if Ascii.eqb c ">" then None else Some (stack, MText)
  | MTag t => if Ascii.eqb c "<" then None
              else if Ascii.eqb c ">" then open_or_close stack t
              else if Ascii.eqb c " " then Some (stack, MAttr t)
              else Some (stack, MTag (t ++ [c]))
  | MAttr t => if Ascii.eqb c "<" then None
               else if Ascii.eqb c ">" then Some (t :: stack, MText) else Some (stack, MAttr t)
  end.

Definition markup (s : option (list text * mode)) (t : text) : option (list text * mode) :=
  foldl read_char s t.

(** Readable from an empty stack to an empty stack. *)
Definition well_formed (t : text) : Prop := markup (Some ([], MText)) t = Some ([], MText).

(** No brackets. *)
Definition plain (t : text) : Prop := Forall (λ c, c ≠ "<"%char ∧ c ≠ ">"%char) t.

(** The entities read back. *)
Fixpoint unescape (s : text) : text :=
  match s with
  | "&"%char :: "a"%char :: "m"%char :: "p"%char :: ";"%char :: r => "&"%char :: unescape r
  | "&"%char :: "l"%char :: "t"%char :: ";"%char :: r => "<"%char :: unescape r
  | "&"%char :: "g"%char :: "t"%char :: ";"%char :: r => ">"%char :: unescape r
  | c :: r => c :: unescape r
  | [] => []
  end.

(** ** Lemmas *)

(** The three passes are one: the entities hold none of the later brackets,
    and the ampersands they add come after the pass over ampersands. *)
Lemma html_escape_one_pass s : html_escape s = s ≫= escape_char.
Proof.
  induction s as [|c s IH]; [done|]. unfold html_escape, replace in *.
  cbn [mbind list_bind]. rewrite !bind_app, IH. f_equal. unfold escape_char.
  destruct (Ascii.eqb_spec c "&"); [by subst|]. cbn [mbind list_bind].
  destruct (Ascii.eqb_spec c "<"); [by subst|]. cbn [mbind list_bind].
  rewrite app_nil_r. cbn [mbind list_bind]. by rewrite app_nil_r.
Qed.

Lemma plain_app a b : plain (a ++ b) ↔ plain a ∧ plain b.
Proof. apply Forall_app. Qed.

Lemma html_escape_plain s : plain (html_escape s).
Proof.
  rewrite html_escape_one_pass. induction s as [|c s IH]; [constructor|].
  cbn [mbind list_bind]. apply plain_app. split; [|done]. unfold escape_char.
  destruct (Ascii.eqb_spec c "&"); [by repeat constructor|].
  destruct (Ascii.eqb_spec c "<"); [by repeat constructor|].
  destruct (Ascii.eqb_spec c ">"); by repeat constructor.
Qed.

Lemma markup_app s a b : markup s (a ++ b) = markup (markup s a) b.
Proof. apply foldl_app. Qed.

Lemma markup_plain stack t : plain t → markup (Some (stack, MText)) t = Some (stack, MText).
Proof.
  induction 1 as [|c t [Hl Hg] _ IH]; [done|]. unfold markup in *. cbn [foldl read_char mbind option_bind].
  destruct (Ascii.eqb_spec c "<"); [done|]. by destruct (Ascii.eqb_spec c ">").
Qed.

Lemma markup_attr stack name t : plain t → markup (Some (stack, MAttr name)) t = Some (stack, MAttr name).
Proof.
  induction 1 as [|c t [Hl Hg] _ IH]; [done|]. unfold markup in *. cbn [foldl read_char mbind option_bind].
  destruct (Ascii.eqb_spec c "<"); [done|]. by destruct (Ascii.eqb_spec c ">").
Qed.

Lemma hex_plain c : is_hex c → c ≠ "<"%char ∧ c ≠ ">"%char.
Proof. intros H. split; intros ->; by destruct H. Qed.

Lemma hex_encode_plain bs : plain (Hex.hex_encode bs).
Proof.
  induction bs as [|b bs IH]; [constructor|]. rewrite Hex.hex_encode_cons.
  pose proof (byte_val_bound b). repeat constructor; try done; apply hex_plain, hex_digit_is_hex;
    first [apply Z.mod_pos_bound; lia|split; [apply Z.div_pos|apply Z.div_lt_upper_bound]; lia].
Qed.

Lemma address_plain a : plain (address_hex a).
Proof.
  unfold address_hex, plain. rewrite !Forall_cons. split; [done|]. split; [done|]. apply hex_encode_plain.
Qed.

Lemma short_addr_plain t : plain t → plain (short_addr t).
Proof.
  intros H. unfold short_addr. destruct (_ <? _)%nat; [done|].
  apply plain_app. split; [by apply Forall_take|]. apply plain_app. split; [by repeat constructor|].
  by apply Forall_drop.
Qed.

Lemma decimal_plain n : 0 ≤ n → plain (u64_to_string n).
Proof.
  intros Hn. eapply Forall_impl; [apply decimal_digits, Hn|]. intros c (d & Hd & ->).
  apply hex_plain, hex_digit_is_hex. lia.
Qed.

Lemma action_emoji_plain m : plain (action_emoji m).
Proof.
  unfold action_emoji. destruct m as [m|]; [|by repeat constructor].
  repeat (case_match; [by repeat constructor|]). by repeat constructor.
Qed.

(** *** The parts of the message: each is read on any stack and leaves it *)

Definition neutral (t : text) : Prop := ∀ st, markup (Some (st, MText)) t = Some (st, MText).

Lemma neutral_app a b : neutral a → neutral b → neutral (a ++ b).
Proof. intros Ha Hb st. by rewrite markup_app, Ha, Hb. Qed.

Lemma neutral_plain t : plain t → neutral t.
Proof. intros H st. by apply markup_plain. Qed.

(** A text between a tag and its end. *)
Lemma neutral_in (open_ close : text) name t :
  (∀ st, markup (Some (st, MText)) open_ = Some (name :: st, MText)) →
  (∀ st, markup (Some (name :: st, MText)) close = Some (st, MText)) →
  neutral t → neutral (open_ ++ t ++ close).
Proof. intros Ho Hc Ht st. by rewrite !markup_app, Ho, Ht, Hc. Qed.

Lemma neutral_escaped s : neutral (html_escape s).
Proof. apply neutral_plain, html_escape_plain. Qed.

(** Constant text, by evaluation. *)
Ltac constant := intros ?; vm_compute; reflexivity.

Lemma neutral_wrapped open_ close name s :
  (∀ st, markup (Some (st, MText)) (str open_) = Some (name :: st, MText)) →
  (∀ st, markup (Some (name :: st, MText)) (str close) = Some (st, MText)) →
  neutral (str open_ ++ html_escape s ++ str close).
Proof. intros Ho Hc. eapply neutral_in; [exact Ho|exact Hc|apply neutral_escaped]. Qed.

Lemma neutral_group h : neutral (group_part h).
Proof.
  unfold group_part. destruct (html_escape _) eqn:E; [constant|]. rewrite <- E.
  apply neutral_wrapped with (str "i"); constant.
Qed.

Lemma neutral_body h : neutral (body_part h).
Proof.
  unfold body_part. apply neutral_app.
  { unfold side_part. case_bool_decide; [constant|]. case_bool_decide; constant. }
  apply neutral_app; [apply neutral_plain, action_emoji_plain|].
  rewrite (app_assoc (html_escape _)), (app_assoc (str " <b>")).
  apply neutral_app; [apply neutral_wrapped with (str "b"); constant|].
  apply neutral_app.
  - destruct (format_value _); [|constant]. apply neutral_app; [constant|apply neutral_escaped].
  - apply neutral_app; [constant|apply neutral_escaped].
Qed.

(** The link: its attribute holds the address. *)
Lemma neutral_link url a t : plain url → plain a → plain t →
  neutral (str "<a href=" ++ [dquote] ++ url ++ a ++ [dquote] ++ str ">" ++ t ++ str "</a>").
Proof.
  intros Hu Ha Ht st. rewrite !markup_app.
  change (markup (Some (st, MText)) (str "<a href=")) with (Some (st, MAttr (str "a"))).
  rewrite (markup_attr _ _ [dquote]) by by repeat constructor.
  rewrite (markup_attr _ _ url), (markup_attr _ _ a) by done. rewrite (markup_attr _ _ [dquote]) by by repeat constructor.
  change (markup (Some (st, MAttr (str "a"))) (str ">")) with (Some (str "a" :: st, MText)).
  rewrite markup_plain by done. reflexivity.
Qed.

Lemma neutral_token h l : neutral (token_line h l).
Proof.
  unfold token_line. destruct (token h) as [a|]; [|constant]. cbv zeta.
  change (newline :: str "🎯 " ++ ?x) with ((newline :: str "🎯 ") ++ x).
  apply neutral_app; [constant|]. apply neutral_app.
  - destruct l; [|constant]. apply neutral_wrapped with (str "b"); constant.
  - apply neutral_link; [by repeat constructor|apply address_plain|apply short_addr_plain, address_plain].
Qed.

Lemma neutral_tagged open_ close name s :
  (∀ st, markup (Some (st, MText)) (newline :: str open_) = Some (name :: st, MText)) →
  (∀ st, markup (Some (name :: st, MText)) (str close) = Some (st, MText)) →
  neutral (newline :: str open_ ++ html_escape s ++ str close).
Proof.
  intros Ho Hc. change (newline :: str open_ ++ ?x) with ((newline :: str open_) ++ x).
  eapply neutral_in; [exact Ho|exact Hc|apply neutral_escaped].
Qed.

Lemma neutral_meta h now : 0 ≤ nonce h → neutral (meta_line h now).
Proof.
  intros Hn. unfold meta_line.
  assert (∀ a b c d e : text, a ++ b ++ c ++ d ++ e = a ++ (b ++ c ++ d) ++ e) as ->
    by (intros; by rewrite <- !app_assoc).
  apply neutral_in with (str "i"); [constant|constant|].
  apply neutral_app; [by apply neutral_plain, decimal_plain|].
  apply neutral_app; [constant|apply neutral_escaped].
Qed.

Lemma unescape_escaped s : unescape (s ≫= escape_char) = s.
Proof.
  induction s as [|c s IH]; [done|]. cbn [mbind list_bind]. unfold escape_char at 1.
  destruct (Ascii.eqb_spec c "&") as [->|Hamp]; [cbn; by rewrite IH|].
  destruct (Ascii.eqb_spec c "<") as [->|Hlt]; [cbn; by rewrite IH|].
  destruct (Ascii.eqb_spec c ">") as [->|Hgt]; [cbn; by rewrite IH|].
  cbn [app]. destruct c as [[] [] [] [] [] [] [] []]; cbn [unescape]; rewrite ?IH; done.
Qed.

(** ** Properties *)

(** Escaping loses nothing and leaves no markup.  The three replacements, in
    their order, give a text without angle brackets that reads back as the
    original. *)
Theorem html_escape_roundtrip s : unescape (html_escape s) = s ∧ plain (html_escape s).
Proof. split; [rewrite html_escape_one_pass; apply unescape_escaped|apply html_escape_plain]. Qed.

(** Every alert is well-formed markup.  Whatever the KOL's name, the group,
    the method, the decoded call, the labels and the token's symbol contain,
    the tags of the message nest and close, so Telegram does not refuse it;
    the emoji of the KOL list is the only text that is not escaped. *)
Theorem alert_is_well_formed h label now :
  0 ≤ nonce h → plain (str (unwrap_or (kol_emoji h) "🐐"%string)) →
  well_formed (format_telegram_html h label now).
Proof.
  intros Hn Hemoji. unfold well_formed. revert Hn.
  enough (0 ≤ nonce h → neutral (format_telegram_html h label now)) as H by (intros Hn; by apply H).
  intros Hn. unfold format_telegram_html.
  rewrite (app_assoc (html_escape _)), (app_assoc (str " <b>KOL ")).
  repeat match goal with
    | |- neutral (_ ++ html_escape _ ++ str _) => fail 1
    | |- neutral (_ ++ _) => apply neutral_app
    end.
  - constant.
  - constant.
  - by apply neutral_plain.
  - apply neutral_wrapped with (str "b"); constant.
  - apply neutral_group.
  - constant.
  - apply neutral_body.
  - apply neutral_token.
  - unfold decoded_line. destruct (decoded h); [|constant]. apply neutral_tagged with (str "b"); constant.
  - unfold dest_line. destruct (to_label h); [|constant]. apply neutral_tagged with (str "code"); constant.
  - constant.
  - by apply neutral_meta.
Qed.

(** At most two requests are made for an alert.  The second follows only a
    429 of the first, after the seconds the server asked for, whatever their
    number, or five; a success ends the sending. *)
Theorem alert_is_retried_once replies :
  match send_one replies with
  | (slept, n, ok) =>
      (1 ≤ n ≤ 2)%nat ∧ (ok = true → replies (n - 1)%nat = TgSuccess) ∧
      (n = 2%nat ↔ ∃ body, replies 0%nat = TgStatus 429 body) ∧
      ∀ body, replies 0%nat = TgStatus 429 body → slept = [unwrap_or (parse_retry_after body) 5]
  end.
Proof.
  unfold send_one. cbn [send_attempts]. destruct (replies 0%nat) as [|code body|] eqn:E0.
  - split_and!; [lia|lia|done|split; [done|]|done]. intros [b ?]. done.
  - destruct (Z.eqb_spec code 429) as [->|Hne]; cbn [andb Z.eqb].
    2: { split_and!; [lia|lia|done|split; [done|]|]. - intros [b [=]]; done. - intros b [=]. done. }
    destruct (replies 1%nat) as [|code' body'|] eqn:E1.
    + split_and!; [lia|lia|done|split; [eauto|done]|]. by intros b [= <-].
    + rewrite andb_false_r. split_and!; [lia|lia|done|split; [eauto|done]|]. by intros b [= <-].
    + split_and!; [lia|lia|done|split; [eauto|done]|]. by intros b [= <-].
  - split_and!; [lia|lia|done|split; [done|]|done]. intros [b ?]. done.
Qed.

(** Every hit of the channel becomes one message.  Whatever the token's
    contract and Telegram answer, each hit is posted once, in order, with well-formed
    markup, in one or two requests, and the token's cache stays usable: what it
    holds for an address has a symbol of 1 to 64 bytes. *)
Theorem dispatcher_posts_every_hit resolver hits :
  Forall (λ a, 0 ≤ nonce (ar_hit a) ∧
    plain (str (unwrap_or (kol_emoji (ar_hit a)) "🐐"%string))) hits →
  let d := dispatched resolver {| td_cache := ∅; td_posts := [] |} hits in
  length (td_posts d) = length hits ∧
  post_keyboard <$> td_posts d = build_inline_keyboard ∘ ar_hit <$> hits ∧
  Forall (λ p, well_formed (post_text p) ∧ (1 ≤ post_requests p ≤ 2)%nat) (td_posts d) ∧
  Services.ResolverFacts.cache_ok (td_cache d).
Proof.
  intros Hh. cbv zeta. induction hits as [|a hits IH] using rev_ind.
  { split_and!; [done..|constructor|]. intros addr i Hi. cbn in Hi. by rewrite lookup_empty in Hi. }
  apply Forall_app in Hh as [Hh [[Hn He] _]%Forall_cons]. destruct (IH Hh) as (H1 & H2 & H3 & H4).
  unfold dispatched in *. rewrite foldl_snoc.
  set (d := foldl _ _ _) in *. unfold run_telegram.
  set (q := match resolver, token (ar_hit a) with true, Some _ => _ | _, _ => _ end).
  assert (Services.ResolverFacts.cache_ok q.1) as Hq.
  { subst q. destruct resolver; [|done]. destruct (token _); [|done]. by apply Services.ResolverFacts.lookup_ok. }
  destruct q as [cache info]. pose proof (alert_is_retried_once (ar_http a)) as Hs.
  destruct (send_one (ar_http a)) as [[slept n] ok]. destruct Hs as [Hr _].
  cbn [td_posts td_cache]. rewrite !length_app, !fmap_app, H1, H2. split_and!; [done..| |done].
  apply Forall_app. split; [done|]. apply Forall_singleton. split; [|done].
  by apply alert_is_well_formed.
Qed.

(** ** Instances *)

Module Alert.
Definition hit : KolHit :=
{| kol_name := "<D & co>"; kol_emoji := None; kol_groups := ["a<b"%string]; tx_hash := "0x01";
from_addr := "0x05"; to_addr := Some "0x0123456789abcdef"%string; to_label := Some "GMGN"%string;
method_id := "0x12345678"; method_label := None; value_bnb := f64_lit 1 10;
gas_price_gwei := f1; gas_limit := 21000; nonce := 7; source_seen := "wss"; calldata := [];
decoded := Some "BUY > 1"%string; token := Some 9; side := Some "BUY"%string;
confirmed_block := None; visibility := "public" |}.
End Alert.

Lemma alert_is_well_formed_witness : well_formed (format_telegram_html Alert.hit (Some (str "<X>")) 3661).
Proof. apply alert_is_well_formed; [cbn; lia|by repeat constructor]. Defined.
