(* ===== verification/Alerts.v ===== *)
(** * trader/paper.rs and trader/mod.rs: the paper trader's messages

    The texts of the entry and exit alerts and of the daily summary.  They are
    read with the same [markup] as the KOL alerts of [Telegram]. *)

From Stdlib Require Import ZArith Lia Floats.SpecFloat Ascii String.
From S2P Require Import Prelude F64 Bytes Rpc Dex Types Sim Trail Paper Csv Telegram.

Local Abbreviation text := (list ascii) (only parsing).

(** ** Formatting *)

(** [wei.to_string().parse::<f64>()]: the nearest double, over 1e18. *)
Definition bnb_of (wei : U256) : f64 := fdiv (f64_of_Z wei) f1e18.

Definition format_bnb (wei : U256) : text :=
  let bnb := bnb_of wei in
  (if fge bnb f1 then fmt_fixed 3 bnb
   else if fge bnb (f64_lit 1 1000) then fmt_fixed 4 bnb
   else fmt_fixed 6 bnb) ++ str " BNB".

Definition format_bnb_short (wei : U256) : text := fmt_fixed 3 (bnb_of wei) ++ str " BNB".

(** [{:+.prec}]: a number that is not negative gets a plus. *)
Definition fmt_plus (prec : nat) (x : f64) : text :=
  match x with
  | S754_zero false | S754_infinity false | S754_finite false _ _ => "+"%char :: fmt_fixed prec x
  | _ => fmt_fixed prec x
  end.

Definition fee_part (quote : QuoteResult) : text :=
  match fee_tier quote with
  | Some f => str " (fee " ++ fmt_fixed 2 (fdiv (f64_of_Z f) (f64_of_Z 10000)) ++ str "%)"
  | None => []
  end.

Definition format_enter_alert (kol_name token_symbol : string) (token_addr : Address)
    (bnb_amount kol_bnb_input : U256) (quote : QuoteResult) (kol_tx : B256) : text :=
  let size_pct := fmul (fdiv (f64_of_Z bnb_amount) (f64_of_Z kol_bnb_input)) (f64_of_Z 100) in
  str "🟢 <b>PAPER ENTRY</b>" ++ [newline; newline] ++
  str "👤 KOL " ++ html_escape (str kol_name) ++ [newline] ++
  str "💰 in:  " ++ format_bnb bnb_amount ++ str "  (" ++ fmt_fixed 1 size_pct ++ str "% of KOL's " ++
    format_bnb kol_bnb_input ++ str ")" ++ [newline] ++
  str "🎯 token:  " ++ (str "<b>" ++ html_escape (str token_symbol) ++ str "</b>") ++ str "  " ++
    (str "<code>" ++ address_hex token_addr ++ str "</code>") ++ [newline] ++
  str "💱 venue:  " ++ str (venue_label (venue quote)) ++ fee_part quote ++ [newline] ++
  str "🧾 KOL tx:  " ++ (str "<a href=" ++ [dquote] ++ str "https://bscscan.com/tx/" ++ hash_hex kol_tx ++
    [dquote] ++ str ">" ++ str "view" ++ str "</a>").

Definition format_close_alert (trade : ClosedTrade) : text :=
  let icon := if 0 <=? pnl_wei trade then str "🟢" else str "🔴" in
  icon ++ str " <b>PAPER CLOSE</b> · " ++ str (portfolio_label (ct_portfolio trade)) ++
    [newline; newline] ++
  str "👤 KOL " ++ html_escape (str (ct_kol_name trade)) ++ [newline] ++
  str "🎯 " ++ (str "<b>" ++ html_escape (str (ct_token_symbol trade)) ++ str "</b>") ++ str "  " ++
    (str "<code>" ++ address_hex (ct_token_address trade) ++ str "</code>") ++ [newline] ++
  str "💰 in " ++ format_bnb (ct_bnb_in_wei trade) ++ str "  →  out " ++
    format_bnb (ct_bnb_out_wei trade) ++ [newline] ++
  str "📊 PnL:  " ++ (str "<b>" ++ (fmt_plus 2 (fmul (pnl_pct trade) (f64_of_Z 100)) ++ str "%") ++
    str "</b>") ++ [newline] ++
  str "⏱  held " ++ uint_text (held_secs trade) ++ str "s" ++ [newline] ++
  str "🛑 reason:  " ++ str (close_label (close_reason trade)).

(** ** The daily summary *)

Definition position_line (p : OpenPosition) : text :=
  str "  • " ++ (str "<b>" ++ html_escape (str (token_symbol p)) ++ str "</b>") ++ str " (" ++
  str (portfolio_label (portfolio p)) ++ str ") — in " ++ format_bnb_short (bnb_in p) ++ [newline].

Definition format_daily_summary (open : list OpenPosition) : text :=
  str "📊 <b>TRADER DAILY SUMMARY</b>" ++ [newline; newline] ++
  match open with
  | [] => str "(no open positions)" ++ [newline]
  | _ =>
      str "📂 " ++ uint_text (Z.of_nat (length open)) ++ str " open positions:" ++ [newline] ++
      (take 10 open ≫= position_line) ++
      if (10 <? length open)%nat
      then str "  …and " ++ uint_text (Z.of_nat (length open - 10)) ++ str " more" ++ [newline]
      else []
  end.

(** [TelegramAlerter::send]: the loop of [kol_watch::send_one]. *)
Definition send (replies : nat → tg_reply) : list Z * nat * bool := send_attempts [0; 1] replies 0.

(** ** Lemmas *)

Ltac no_bracket := first [done | split; discriminate].

Lemma bracket_free_digit n : 0 ≤ n < 16 → hex_digit n ≠ "<"%char ∧ hex_digit n ≠ ">"%char.
Proof. intros H. by apply hex_plain, hex_digit_is_hex. Qed.

Lemma neutral_fmt prec x : neutral (fmt_fixed prec x).
Proof.
  apply neutral_plain, fmt_chars; [apply bracket_free_digit|no_bracket|no_bracket|..];
    repeat constructor; no_bracket.
Qed.

Lemma neutral_plus prec x : neutral (fmt_plus prec x).
Proof.
  assert (neutral ("+"%char :: fmt_fixed prec x)) as Hp.
  { change (neutral (str "+" ++ fmt_fixed prec x)). apply neutral_app; [constant|apply neutral_fmt]. }
  destruct x as [[]|[]| |[] ? ?]; cbn [fmt_plus]; first [exact Hp|apply neutral_fmt].
Qed.

Lemma neutral_uint n : 0 ≤ n → neutral (uint_text n).
Proof. intros. apply neutral_plain, decimal_chars; [apply bracket_free_digit|done]. Qed.

Lemma neutral_address a : neutral (address_hex a).
Proof. apply neutral_plain, address_plain. Qed.

Lemma hash_plain h : Telegram.plain (hash_hex h).
Proof. unfold hash_hex. do 2 (constructor; [no_bracket|]). apply hex_encode_plain. Qed.

Lemma neutral_bnb wei : neutral (format_bnb wei).
Proof.
  unfold format_bnb. cbv zeta. apply neutral_app; [|constant].
  repeat case_scrut; apply neutral_fmt.
Qed.

Lemma neutral_bold t : neutral t → neutral (str "<b>" ++ t ++ str "</b>").
Proof. intros. apply neutral_in with (str "b"); [constant|constant|done]. Qed.
Lemma neutral_code t : neutral t → neutral (str "<code>" ++ t ++ str "</code>").
Proof. intros. apply neutral_in with (str "code"); [constant|constant|done]. Qed.

Lemma neutral_labels v m r :
  neutral (str (venue_label v)) ∧ neutral (str (portfolio_label m)) ∧ neutral (str (close_label r)).
Proof. split_and!; [destruct v|destruct m|destruct r]; constant. Qed.

Lemma neutral_bind {A : Type} (f : A → text) l :
  (∀ x, x ∈ l → neutral (f x)) → neutral (l ≫= f).
Proof.
  induction l as [|x l IH]; intros H; [constant|]. cbn [mbind list_bind].
  apply neutral_app; [apply H, list_elem_of_here|]. apply IH. intros y Hy. apply H. by right.
Qed.

Lemma neutral_well_formed t : neutral t → well_formed t.
Proof. intros H. apply H. Qed.

(** Splits a message at its [++], keeping each tag with its end. *)
Create HintDb neutral.
#[export] Hint Resolve neutral_escaped neutral_fmt neutral_plus neutral_uint neutral_address
  neutral_bnb : neutral.
Ltac message :=
  repeat match goal with
    | |- neutral (str "<b>" ++ _ ++ str "</b>") => apply neutral_bold
    | |- neutral (str "<code>" ++ _ ++ str "</code>") => apply neutral_code
    | |- neutral (str "<a href=" ++ _) => fail 1
    | |- neutral (_ ++ _) => apply neutral_app
    | |- neutral (str _) => constant
    | |- neutral (_ :: _) => constant
    | |- neutral _ => solve [auto with neutral]
    end.

Lemma neutral_position p : neutral (position_line p).
Proof.
  destruct (neutral_labels Bonding (portfolio p) KolSell) as (_ & Hp & _).
  unfold position_line, format_bnb_short. message.
Qed.

Lemma neutral_fee q : neutral (fee_part q).
Proof. unfold fee_part. destruct (fee_tier q); [message|constant]. Qed.

(** ** Properties *)

(** The paper trader's messages are well formed.  Whatever the names of the
    KOLs and the tokens' symbols hold, the tags of an entry alert, of an exit
    alert and of the daily summary nest and close. *)
Theorem paper_messages_are_well_formed kol sym token amt kin quote tx trade open :
  0 ≤ held_secs trade →
  well_formed (format_enter_alert kol sym token amt kin quote tx) ∧
  well_formed (format_close_alert trade) ∧ well_formed (format_daily_summary open).
Proof.
  intros Hh. split_and!; apply neutral_well_formed.
  - destruct (neutral_labels (venue quote) FastTip KolSell) as (Hv & _ & _).
    unfold format_enter_alert. message; [apply neutral_fee|].
    apply neutral_link; [by repeat constructor|apply hash_plain|by repeat constructor].
  - destruct (neutral_labels Bonding (ct_portfolio trade) (close_reason trade)) as (_ & Hp & Hr).
    unfold format_close_alert. cbv zeta. destruct (0 <=? _); message.
  - unfold format_daily_summary. destruct open as [|p open]; [constant|].
    message; [apply neutral_uint; lia|apply neutral_bind; intros; apply neutral_position|].
    destruct (10 <? _)%nat; [message; apply neutral_uint; lia|constant].
Qed.

Module Message.
Definition trade : ClosedTrade :=
{| ct_portfolio := FastTip; ct_kol_name := "D <3"; ct_token_address := 9; ct_token_symbol := "A&B";
ct_bnb_in_wei := 10 ^ 18; ct_bnb_out_wei := 9 * 10 ^ 17; tokens_traded := 1; pnl_wei := - 10 ^ 17;
pnl_pct := f64_lit (-1) 10; ct_opened_at_block := 1; ct_opened_at_unix_ns := 1;
closed_at_block := 2; closed_at_unix_ns := 2; held_secs := 60; buy_tx_count := 1;
close_reason := KolSell; trigger_sell_tx := None; ct_d_mcap_usd := f0; ct_our_entry_mcap_usd := f0;
bnb_usd_at_close := f0; kol_exit_count := 1; kol_exit_mcap_first_usd := f0;
kol_exit_mcap_last_usd := f0; our_avg_exit_mcap_usd := f0 |}.
Definition quote : QuoteResult := {| amount_out := 5; venue := PancakeV3; fee_tier := Some 2500 |}.
End Message.

Lemma paper_messages_are_well_formed_witness :
  well_formed (format_enter_alert "D <3" "A&B" 9 (10 ^ 17) (10 ^ 18) Message.quote 5) ∧
  well_formed (format_close_alert Message.trade) ∧ well_formed (format_daily_summary []).
Proof. apply paper_messages_are_well_formed. cbn. lia. Defined.
