(* ===== verification/LiveNotices.v ===== *)
(** * trader/executor_live.rs: the live executor's chat notices

    The texts sent when a buy or a sale was broadcast, and the form they are
    posted with.  Unlike the other messages of the program they hold the KOL's
    name as it is; the theorem says for which names Telegram can read them. *)

From Stdlib Require Import ZArith Lia Floats.SpecFloat Ascii String.
From S2P Require Import Prelude F64 Bytes Dex Limits ExecMath Executor Trail Csv Telegram Alerts.

Local Abbreviation text := (list ascii) (only parsing).

(** ** Credentials and the request *)

Record TgConfig : Type := { bot_token : text; chat_id : text }.

(** Both environment variables set and not empty. *)
Definition telegram_of (bt cid : option text) : option TgConfig :=
  match bt, cid with
  | Some (_ :: _ as bt), Some (_ :: _ as cid) => Some {| bot_token := bt; chat_id := cid |}
  | _, _ => None
  end.

(** [tg_send]: the URL and the form's fields; nothing without credentials. *)
Definition tg_send (telegram : option TgConfig) (html : text) : option (text * list (text * text)) :=
  tg ← telegram;
  Some (str "https://api.telegram.org/bot" ++ bot_token tg ++ str "/sendMessage",
        [(str "chat_id", chat_id tg); (str "text", html); (str "parse_mode", str "HTML");
         (str "disable_web_page_preview", str "true")]).

(** ** The texts *)

Definition route_label (r : BuyRoute) : text :=
  match r with PancakeV2 => str "V2" | FourMeme => str "FourMeme" end.

(** How the size of a buy came about; the cases are those of [size_buy]. *)
Definition sizing_tag (env : Env) (sc : LiveStrategyConfig) (visibility : string) : text :=
  if fgt (trade_size_usd sc) f0 then
    if fle (unwrap_or (bnb_usd env) f0) f0 then str "fallback_no_price"
    else if String.eqb visibility "private" then str "private" else str "public"
  else str "legacy_fraction".

Definition tx_short (tx_hash : B256) : text := take 14 (hash_hex tx_hash).

Definition tx_link (tx_hash : B256) : text :=
  str "<a href=" ++ [dquote] ++ str "https://bscscan.com/tx/" ++ hash_hex tx_hash ++ [dquote] ++
  str ">" ++ tx_short tx_hash ++ str "</a>".

Definition buy_notice (kol_name : text) (r : BuyRoute) (price : option f64) (bnb_in_f : f64)
    (tag : text) (token : Address) (tx_hash : B256) : text :=
  let trade_usd := fmul bnb_in_f (unwrap_or price f0) in
  str "🟢 <b>BUY " ++ kol_name ++ str "</b>" ++ str " via " ++ route_label r ++ [newline] ++
  str "size: " ++ (str "<b>" ++ (str "$" ++ fmt_fixed 2 trade_usd) ++ str "</b>") ++ str " (" ++
    fmt_fixed 4 bnb_in_f ++ str " BNB)  [" ++ tag ++ str "]" ++ [newline] ++
  str "token: " ++ (str "<code>" ++ address_hex token ++ str "</code>") ++ [newline] ++
  str "tx: " ++ tx_link tx_hash.

Definition close_tag (full : bool) (fraction : f64) : text :=
  if full then str "FULL" else fmt_fixed 0 (fmul fraction (f64_of_Z 100)) ++ str "%".

Definition sell_notice (kol_name : text) (r : BuyRoute) (fast : bool) (total_ms : Z) (full : bool)
    (fraction : f64) (token : Address) (wallet_bnb : f64) (tx_hash : B256) : text :=
  str "🔴 <b>SELL " ++ kol_name ++ str "</b>" ++ str " via " ++ route_label r ++ str " [" ++
    (if fast then str "⚡fast" else str "slow") ++ str " " ++ uint_text total_ms ++ str "ms · " ++
    close_tag full fraction ++ str "]" ++ [newline] ++
  str "token: " ++ (str "<code>" ++ address_hex token ++ str "</code>") ++ [newline] ++
  str "wallet now: " ++ fmt_fixed 4 wallet_bnb ++ str " BNB" ++ [newline] ++
  str "tx: " ++ tx_link tx_hash.

(** ** Lemmas *)

Lemma markup_None t : markup None t = None.
Proof. by induction t. Qed.

(** The end of a bold text is read back only from inside exactly it. *)
Lemma close_bold x rest :
  neutral rest →
  markup x (str "</b>" ++ rest) = Some ([], MText) ↔ x = Some ([str "b"], MText).
Proof.
  intros Hr. rewrite markup_app.
  assert (∀ st m, markup (Some (st, m)) (str "</b>") =
    match m, st with
    | MText, top :: st => if bool_decide (top = str "b") then Some (st, MText) else None
    | _, _ => None
    end) as Hclose by (intros [|top st] [|t|t]; reflexivity).
  destruct x as [[st m]|]; [|by rewrite !markup_None]. rewrite Hclose.
  destruct m as [|t|t], st as [|top st]; try (by rewrite markup_None).
  case_bool_decide as Ht; [subst top; rewrite Hr|rewrite markup_None]; split; [by intros [= ->]| |done|].
  - by intros [= ->].
  - by intros [= -> ->].
Qed.

Lemma neutral_tx_link h : neutral (tx_link h).
Proof.
  unfold tx_link. apply neutral_link; [by repeat constructor|apply hash_plain|].
  apply Forall_take, hash_plain.
Qed.

Lemma neutral_route r : neutral (route_label r).
Proof. destruct r; constant. Qed.

Lemma neutral_tag env sc vis : neutral (sizing_tag env sc vis).
Proof. unfold sizing_tag. repeat case_scrut; constant. Qed.

Lemma neutral_close full fr : neutral (close_tag full fr).
Proof. unfold close_tag. destruct full; [constant|]. apply neutral_app; [apply neutral_fmt|constant]. Qed.

#[local] Hint Resolve neutral_tx_link neutral_route neutral_tag neutral_close : neutral.

(** A notice is a bold name and a neutral rest. *)
Lemma notice_well_formed head name rest :
  markup (Some ([], MText)) head = Some ([str "b"], MText) → neutral rest →
  well_formed (head ++ name ++ str "</b>" ++ rest) ↔
  markup (Some ([str "b"], MText)) name = Some ([str "b"], MText).
Proof.
  intros Hh Hr. unfold well_formed. rewrite markup_app, Hh, markup_app. by apply close_bold.
Qed.

(** ** Properties *)

(** The live notices are readable exactly for harmless names.  Telegram can
    read the notice of a buy, and of a sale, if and only if the KOL's name,
    which is put in unescaped, leaves the bold text it stands in as it found
    it.  In particular a lone bracket in a name loses every notice about that
    KOL's trades, and the sending does not look at the answer. *)
Theorem live_notices_need_a_harmless_name env sc vis name r price bnb token tx fast ms full fr wallet :
  0 ≤ ms →
  let harmless := markup (Some ([str "b"], MText)) name = Some ([str "b"], MText) in
  (well_formed (buy_notice name r price bnb (sizing_tag env sc vis) token tx) ↔ harmless) ∧
  (well_formed (sell_notice name r fast ms full fr token wallet tx) ↔ harmless) ∧
  (plain name → harmless).
Proof.
  intros Hms. cbv zeta. split_and!.
  - apply notice_well_formed; [by vm_compute|]. cbv zeta. message.
  - apply notice_well_formed; [by vm_compute|]. message. destruct fast; constant.
  - intros H. by apply markup_plain.
Qed.

Lemma live_notices_need_a_harmless_name_witness :
  ¬ well_formed (buy_notice (str "D <3") FourMeme (Some (f64_of_Z 600)) f1
      (sizing_tag (Example.env None) (strategy example_config) "public") 9 7) ∧
  well_formed (sell_notice (str "TRAIL_trail") FourMeme true 12 true f1 9 f1 7).
Proof.
  destruct (live_notices_need_a_harmless_name (Example.env None) (strategy example_config) "public"
    (str "D <3") FourMeme (Some (f64_of_Z 600)) f1 9 7 true 12 true f1 f1) as [H _]; [lia|].
  destruct (live_notices_need_a_harmless_name (Example.env None) (strategy example_config) "public"
    (str "TRAIL_trail") FourMeme (Some (f64_of_Z 600)) f1 9 7 true 12 true f1 f1) as (_ & H2 & H3); [lia|].
  split; [rewrite H; by vm_compute|]. apply H2, H3. by repeat constructor.
Defined.
