(* ===== verification/System.v ===== *)
(** * wiring.rs: the running program

    [wiring::run] connects the parts: the sources feed the pipeline, the KOL
    watcher subscribes to its bus, the confirmation scanner reads the blocks,
    both send hits over shared channels, and the paper traders and the live
    trader consume them.
    The file composes the components' models into one system and shows what
    holds from the raw transactions to the relays. *)

From Stdlib Require Import ZArith Lia Floats.SpecFloat Ascii String.
From S2P Require Import Prelude F64 Bytes Types Dex Bus Kol Strategy FourMeme.
From S2P Require Import ExecMath Limits Executor Trail Live.
From S2P Require Nonce Paper Fanout.
Import Core Kol.Watch.

(** ** The sinks, seen by their consumers *)

(** [mpsc::channel(n)]. *)
Definition channel (n : nat) : sink :=
  Some {| chan_cap := n; chan_items := []; chan_closed := false |}.
Definition opened (on : bool) (n : nat) : sink := if on then channel n else None.

(** [rx.recv()], when something is queued. *)
Definition recv (s : sink) : option (KolHit * sink) :=
  c ← s;
  match chan_items c with
  | h :: l => Some (h, Some {| chan_cap := chan_cap c; chan_items := l; chan_closed := chan_closed c |})
  | [] => None
  end.

Lemma recv_received s h s' : recv s = Some (h, s') → received s = h :: received s'.
Proof.
  destruct s as [c|]; cbn; [|done]. unfold received.
  by destruct (chan_items c) as [|x l]; [|intros [= <- <-]].
Qed.

(** ** What the executor puts on the wire *)

(** The token a call buys. *)
Definition bought (c : call) : option Address :=
  match c with
  | swapExactETHForTokens _ path _ _ => last path
  | buyTokenAMAP token _ _ => Some token
  | _ => None
  end.

(** From [s] to [s'] only transactions of [Q] went out, under the same whitelist. *)
Definition sends (Q : Tx → Prop) (s s' : LiveExecutor) : Prop :=
  whitelist (limits_rt s') = whitelist (limits_rt s) ∧
  ∃ l, wire s' = wire s ++ l ∧ Forall (λ p, Q p.1) l.

Section Sends.
Context (Q : Tx → Prop).

Lemma sends_same s s' :
whitelist (limits_rt s') = whitelist (limits_rt s) → wire s' = wire s → sends Q s s'.
Proof. intros Hw Hs. split; [done|]. exists []. by rewrite app_nil_r. Qed.

Lemma sends_refl s : sends Q s s.
Proof. by apply sends_same. Qed.

Lemma sends_trans s1 s2 s3 : sends Q s1 s2 → sends Q s2 s3 → sends Q s1 s3.
Proof.
intros [W1 (l1 & H1 & F1)] [W2 (l2 & H2 & F2)]. split; [congruence|].
exists (l1 ++ l2). rewrite H2, H1, app_assoc. split; [done|]. by apply Forall_app.
Qed.

Lemma sends_push s t b : Q t → sends Q s (push_wire s t b).
Proof. intros Ht. split; [done|]. exists [(t, b)]. split; [done|]. by apply Forall_singleton. Qed.

Lemma sends_caches s s' : caches_only s s' → sends Q s s'.
Proof. intros (g & v & ->). by apply sends_same. Qed.

Lemma sends_resync env s : sends Q s (resync_nonce env s).
Proof. destruct (resync_nonce_of env s) as (m & -> & _). by apply sends_same. Qed.

Lemma sends_record_buy env s r kol vis token amount gwei n h b :
sends Q s (record_buy env s r kol vis token amount gwei n h b).
Proof. unfold record_buy. by destruct b; apply sends_same. Qed.

Lemma sends_record_exit s kol token gwei n h b : sends Q s (record_exit s kol token gwei n h b).
Proof. by apply sends_same. Qed.

Lemma sends_shrink s token fc bal amount : sends Q s (shrink_cache s token fc bal amount).
Proof.
destruct (shrink_cache_frame s token fc bal amount) as (Hw & _ & _ & _ & Hl & _).
apply sends_same; [by rewrite Hl|done].
Qed.

Lemma sends_bump s : sends Q s (bump s).
Proof. by apply sends_same. Qed.
End Sends.

Create HintDb sends.
#[export] Hint Resolve sends_refl sends_caches sends_resync sends_bump sends_record_buy
  sends_record_exit sends_shrink : sends.

(** Everything but a buy sends no buy. *)
Abbreviation not_buy := (λ t, bought (tx_call t) = None) (only parsing).

Lemma sell_tx_not_buy env s r token amount fee : not_buy (sell_tx env s r token amount fee).
Proof. unfold sell_tx, sell_call. by destruct r. Qed.

Lemma sends_approve env s token spender : sends not_buy s (submit_approve env s token spender).1.
Proof.
  unfold submit_approve. rewrite reserve_nonce_eq.
  pose proof (gas_wei_caches env (bump s)) as Hg. apply (sends_caches not_buy) in Hg.
  destruct (gas_wei env (bump s)) as [s1 g]. cbn [fst] in Hg.
  assert (sends not_buy s s1) as H1 by (apply (sends_trans _ _ (bump s)); auto with sends).
  destruct (sign env _); [|done]. destruct (broadcast_enabled _); [|done].
  eapply sends_trans; [done|]. by apply sends_push.
Qed.

Lemma sends_send_exit env s r kol token bal amount fc :
  sends not_buy s (send_exit env s r kol token bal amount fc).
Proof.
  destruct (send_exit_cases env s r kol token bal amount fc)
    as (s1 & fee & Hc & _ & Hcases).
  assert (sends not_buy s s1) as H1 by (apply (sends_trans _ _ (bump s)); auto with sends). clear Hc.
  set (t := sell_tx env s r token amount fee) in *.
  assert (not_buy t) as Ht by apply sell_tx_not_buy.
  destruct Hcases as [[_ ->]|(h & _ & [(_ & _ & ->)|[(_ & _ & ->)|(_ & ->)]])].
  - eapply sends_trans; [exact H1|auto with sends].
  - eapply sends_trans; [exact H1|]. apply (sends_trans _ _ (push_wire s1 t false)); [by apply sends_push|].
    auto with sends.
  - eapply sends_trans; [exact H1|]. apply (sends_trans _ _ (push_wire s1 t true)); [by apply sends_push|].
    eapply sends_trans; [apply sends_shrink|auto with sends].
  - eapply sends_trans; [exact H1|auto with sends].
Qed.

Lemma sends_exit env s token kol blk addr :
  sends not_buy s (execute_exit env s token kol blk addr).
Proof.
  unfold execute_exit. destruct (check_blacklisted _ _); [apply sends_refl|]. cbv zeta.
  pose proof (exit_source_caches env s token) as Hx. apply (sends_caches not_buy) in Hx.
  destruct (exit_source env s token) as [s1 [[[bal r] fast]|]]; cbn [fst] in Hx; [|done].
  destruct (negb _ && (_ =? 0)); [done|].
  assert (∀ s2 acc fb fc amount, sends not_buy s s2 →
    sends not_buy s (let '(s', fresh) := pick_route env acc s2 token in
                     send_exit env s' (unwrap_or fresh fb) kol token bal amount fc)) as Htail.
  { intros s2 acc fb fc amount H2. pose proof (pick_route_caches env acc s2 token) as Hp.
    apply (sends_caches not_buy) in Hp.
    destruct (pick_route env acc s2 token) as [s3 fresh]. cbn [fst] in Hp.
    eapply sends_trans; [exact H2|]. eapply sends_trans; [exact Hp|]. apply sends_send_exit. }
  match goal with |- context [if ?c then submit_approve env s1 token ?sp else _] =>
    pose proof (sends_trans _ _ _ _ Hx (sends_approve env s1 token sp)) as Ha;
    destruct c; [destruct (submit_approve env s1 token sp) as [s2 [|]]; cbn [fst negb] in Ha |- *|cbn [negb]]
  end.
  - by apply Htail.
  - eapply sends_trans; [exact Ha|apply sends_resync].
  - by apply Htail.
Qed.

(** A buy sends at most a call that buys its token, for a whitelisted KOL. *)
Definition buys_for (s : LiveExecutor) (d : Decision) (t : Tx) : Prop :=
  ∃ kol token amt kin blk h, d = Enter kol token amt kin blk h ∧
    bought (tx_call t) = Some token ∧ kol ∈ whitelist (limits_rt s).

Lemma buy_tx_bought env s r token amount fee :
  bought (tx_call (buy_tx env s r token amount fee)) = Some token.
Proof. unfold buy_tx. by destruct r. Qed.

Lemma sends_send_buy env s r kol vis token amount fee :
  sends (λ t, bought (tx_call t) = Some token) s (send_buy env s r kol vis token amount fee).
Proof.
  destruct (send_buy_cases env s r kol vis token amount fee)
    as [[_ ->]|(h & _ & [(_ & _ & ->)|[(_ & _ & ->)|(_ & ->)]])];
    (eapply sends_trans; [apply sends_bump|]).
  - apply sends_resync.
  - eapply sends_trans; [apply sends_push, buy_tx_bought|apply sends_resync].
  - eapply sends_trans; [apply sends_push, buy_tx_bought|apply sends_record_buy].
  - apply sends_record_buy.
Qed.

Lemma sends_gated_buy env s kol vis token f amount n :
  sends (λ t, bought (tx_call t) = Some token) s (gated_buy env s kol vis token f amount n).
Proof.
  unfold gated_buy. pose proof (gas_wei_caches env s) as Hg.
  apply (sends_caches (λ t, bought (tx_call t) = Some token)) in Hg.
  destruct (gas_wei env s) as [s1 g]. cbn [fst] in Hg. eapply sends_trans; [exact Hg|].
  cbv zeta. set (x := Build_TradeCheck _ _ _ _ _ _).
  assert (whitelist (check (now_ms env) (limits_rt s1) x).1 = whitelist (limits_rt s1)) as Hl.
  { cbn. unfold maybe_reset_day. by case_scrut. }
  destruct (check _ _ x) as [l [[]|why]]; cbn [fst] in Hl; [|by apply sends_same].
  eapply sends_trans; [by apply (sends_same _ s1 (set_limits s1 l))|].
  pose proof (pick_route_caches env (accepts_buy env token amount) (set_limits s1 l) token) as Hp.
  apply (sends_caches (λ t, bought (tx_call t) = Some token)) in Hp.
  destruct (pick_route _ _ _ _) as [s2 [r|]]; cbn [fst] in Hp; (eapply sends_trans; [exact Hp|]);
    [|by apply sends_same].
  destruct (sell_tax_refuses _ _ _ _ _); [by apply sends_same|]. apply sends_send_buy.
Qed.

Lemma sends_enter env s kol token amt kin blk h vis n :
  sends (λ t, bought (tx_call t) = Some token) s
    (execute env s (Enter kol token amt kin blk h) vis n).
Proof.
  unfold execute. destruct (dup_guard s token) as [s0|] eqn:Ed; [|apply sends_refl].
  apply dup_guard_spec in Ed as [_ [p ->]]. set (s0 := set_positions s p _ _).
  eapply sends_trans; [by apply (sends_same _ s s0)|].
  destruct (size_buy _ _ _ _); [|apply sends_refl].
  destruct (check_blacklisted _ _); [by apply sends_same|].
  destruct (clamp_buy _ _). apply sends_gated_buy.
Qed.

Lemma sends_execute env s d vis n : sends (buys_for s d) s (execute env s d vis n).
Proof.
  destruct d as [|kol token amt kin blk h|]; try apply sends_refl.
  destruct (sends_enter env s kol token amt kin blk h vis n) as [Hw (l & Hl & Hb)].
  split; [done|]. exists l. split; [done|]. destruct l as [|x l]; [done|].
  destruct (execute_sends env s (Enter kol token amt kin blk h) vis n)
    as (? & ? & ? & ? & ? & ? & sized & t & ok & [= <- <- <- <- <- <-] & _ & _ & _ & Hg).
  { rewrite Hl. intros H. apply (f_equal length) in H. rewrite length_app in H. cbn in H. lia. }
  destruct (clamp_buy _ _) as [f amount]. destruct Hg as (_ & Hk & _).
  eapply Forall_impl; [exact Hb|]. intros y Hy. by exists kol, token, amt, kin, blk, h.
Qed.

(** One operation of the executor. *)
Definition buys_of (s : LiveExecutor) (e : Executor.event) (t : Tx) : Prop :=
  match bought (tx_call t) with
  | None => True
  | Some _ => match e with EvBuy _ d _ _ => buys_for s d t | _ => False end
  end.

Lemma sends_impl (Q R : Tx → Prop) s s' : (∀ t, Q t → R t) → sends Q s s' → sends R s s'.
Proof.
  intros Hqr [Hw (l & Hl & HQ)]. split; [done|]. exists l. split; [done|].
  eapply Forall_impl; [exact HQ|]. eauto.
Qed.

Lemma sends_step s e : sends (buys_of s e) s (Executor.step s e).
Proof.
  assert (∀ s', sends not_buy s s' → sends (buys_of s e) s s') as Hno.
  { intros s'. apply sends_impl. intros t Ht. unfold buys_of. by rewrite Ht. }
  destruct e as [env d vis n|env token kol blk addr|env token id|env token id|id|l|r]; cbn.
  - eapply sends_impl; [|apply sends_execute]. intros t Ht. unfold buys_of. by case_scrut.
  - apply Hno, sends_exit.
  - unfold bg_balance. repeat case_scrut; by apply sends_same.
  - apply Hno. unfold bg_approve. destruct (heap s !! id); [|apply sends_refl].
    destruct (_ && _); [|apply sends_refl]. rewrite reserve_nonce_eq.
    destruct (sign env _); [|by apply sends_same].
    apply (sends_trans _ _ (bump s)); [apply sends_bump|by apply sends_push].
  - unfold bg_approved. repeat case_scrut; by apply sends_same.
  - destruct (sync_fields l (limits_rt s)) as (_ & Hw & _). by apply sends_same.
  - unfold refresh_wallet. case_scrut; by apply sends_same.
Qed.

Lemma sends_run s es :
  sends (λ t, bought (tx_call t) = None ∨
    ∃ env d vis n s0, EvBuy env d vis n ∈ es ∧ whitelist (limits_rt s0) = whitelist (limits_rt s) ∧
      buys_for s0 d t) s (Executor.run s es).
Proof.
  induction es as [|e es IH] using rev_ind; [apply sends_refl|].
  rewrite run_app. cbn. eapply sends_trans.
  - eapply sends_impl; [|exact IH]. intros t [?|(env & d & vis & n & s0 & ? & ?)]; [by left|].
    right. exists env, d, vis, n, s0. rewrite elem_of_app. by split; [left|].
  - eapply sends_impl; [|apply sends_step]. destruct IH as [Hw _]. intros t. unfold buys_of.
    destruct (bought (tx_call t)); [|by left]. destruct e as [env d vis n| | | | | |]; try done.
    intros Ht. right. exists env, d, vis, n, (Executor.run s es).
    rewrite elem_of_app, list_elem_of_singleton. by split; [right|].
Qed.

(** One step of the live trader: a buy comes from its hit, whose KOL is
    whitelisted. *)
Definition buys_hit (w : gset string) (e : step_of) (t : Tx) : Prop :=
  ∀ tok, bought (tx_call t) = Some tok →
    ∃ env price hit, e = Hit env price hit ∧ side hit = Some "BUY"%string ∧
      token hit = Some tok ∧ kol_name hit ∈ w.

Lemma trader_step_sends pb pa pu t e t' :
  trader_step pb pa pu t e = Some t' →
  sends (buys_hit (whitelist (limits_rt (executor t))) e) (executor t) (executor t').
Proof.
  intros [(es & -> & Hes) _]%trader_step_events. eapply sends_impl; [|apply sends_run].
  intros x [Hx|(env & d & vis & n & s0 & Hin & Hw & kol & token & amt & kin & blk & h & Hd & Hb & Hk)] tok Ht;
    [congruence|].
  rewrite Forall_forall in Hes. destruct (Hes _ Hin) as (price & hit & -> & _ & ->).
  apply evaluate_enter_spec in Hd as [(_ & _ & Htok & Hside & _) (-> & _)].
  exists env, price, hit. rewrite <- Hw. split_and!; try done. congruence.
Qed.

(** ** The system *)

Section System.
Context {TxEnvelope RlpError RecoveryError : Type}.
Context (alloy_decode : bytes → result TxEnvelope RlpError).
Context (alloy_recover : TxEnvelope → result Address RecoveryError).
(** alloy's accessors and parsers, and the KOL list both watchers load. *)
Context (view : TxEnvelope → TxView).
Context (parse_b256 : string → option B256) (parse_address : string → option Address).
Context (parse_u256_hex : list ascii → option U256).
Context (index : gmap Address Kol).

(** A paper trader: what it was started with and what it has done. *)
Record PaperTask : Type := {
pt_config : Paper.PaperConfig;
pt_strategy : StrategyConfig;
pt_hold_secs : Z;
pt_history : Paper.history;
}.
Definition paper_event (p : PaperTask) (e : Paper.event) : PaperTask :=
{| pt_config := pt_config p; pt_strategy := pt_strategy p; pt_hold_secs := pt_hold_secs p;
pt_history := Paper.paper_step (pt_config p) (pt_history p) e |}.

(** [confirm] holds the registry that both watchers share and the channels of
the traders; [cursor] is the KOL watcher's place on the bus. *)
Record System : Type := {
pipeline : Pipeline.Pipeline (TxEnvelope := TxEnvelope);
cursor : nat;
confirm : Confirm.state;
telegram : sink;
public : option PaperTask;
private : option PaperTask;
live : option LiveTrader;
}.

(** [run]: the channels exist as far as their consumers were started. *)
Definition start (cfg : Pipeline.PipelineConfig) (telegram_on : bool)
(public private : option PaperTask) (trader : option LiveTrader) : System :=
{| pipeline := Pipeline.build_pipeline cfg; cursor := 0;
confirm := {| Confirm.pending := ∅; Confirm.log := [];
Confirm.sinks := {| Confirm.trader_tx := opened (bool_decide (is_Some public)) 256;
                 Confirm.private_tx := opened (bool_decide (is_Some private)) 256;
                 Confirm.live_tx := opened (bool_decide (is_Some trader)) 1024 |} |};
telegram := opened telegram_on 256; public := public; private := private; live := trader |}.

(** The steps of the tasks.  A subscriber that lags behind the broadcast ring
skips what was overwritten: [skipped] says how many. *)
Inductive event : Type :=
| FromSource (e : Pipeline.event (TxEnvelope := TxEnvelope))
| WatchRecv (now : Z) (skipped : nat)
| BlockTxn (block_number : Z) (txn : Confirm.BlockTx)
| SweepRegistry (now : Z)
| TelegramRecv
| TraderRecv (w : Paper.World) (ws : Types.PositionKey → Paper.World) (price : option f64)
| PrivateRecv (w : Paper.World) (ws : Types.PositionKey → Paper.World) (price : option f64)
| TraderSweep (now : Z) (ws : Types.PositionKey → Paper.World)
| PrivateSweep (now : Z) (ws : Types.PositionKey → Paper.World)
| LiveRecv (env : Env) (price : option f64)
| LiveTask (e : step_of).

Definition with_confirm (s : System) (c : Confirm.state) : System :=
{| pipeline := pipeline s; cursor := cursor s; confirm := c; telegram := telegram s;
public := public s; private := private s; live := live s |}.
Definition with_papers (s : System) (public private : option PaperTask) : System :=
{| pipeline := pipeline s; cursor := cursor s; confirm := confirm s; telegram := telegram s;
public := public; private := private; live := live s |}.
Definition with_sinks (c : Confirm.state) (k : Confirm.Sinks) : Confirm.state :=
{| Confirm.pending := Confirm.pending c; Confirm.sinks := k; Confirm.log := Confirm.log c |}.
Definition with_live (s : System) (t : LiveTrader) : System :=
{| pipeline := pipeline s; cursor := cursor s; confirm := confirm s; telegram := telegram s;
public := public s; private := private s; live := Some t |}.

(** [process_one] on the channels of the system, with the position [at_] that
the subscription is then at. *)
Definition watched (now : Z) (p : PendingTx TxEnvelope) (at_ : nat) (s : System) : System :=
let c := confirm s in
let k := Confirm.sinks c in
let ws := Dispatch.process_one view index now p
{| Dispatch.w_telegram := telegram s; Dispatch.w_trader := Confirm.trader_tx k;
Dispatch.w_live := Confirm.live_tx k; Dispatch.w_confirm := Some (Confirm.pending c) |} in
{| pipeline := pipeline s; cursor := at_;
confirm := {| Confirm.pending := unwrap_or (Dispatch.w_confirm ws) ∅;
Confirm.sinks := {| Confirm.trader_tx := Dispatch.w_trader ws;
                 Confirm.private_tx := Confirm.private_tx k;
                 Confirm.live_tx := Dispatch.w_live ws |};
Confirm.log := Confirm.log c |};
telegram := Dispatch.w_telegram ws; public := public s; private := private s; live := live s |}.

(** One message of the KOL watcher's subscription ([kol_watch::run_consumer]),
the [skipped] before it having been overrun. *)
Definition watch_recv (now : Z) (skipped : nat) (s : System) : System :=
match Pipeline.bus (pipeline s) !! (cursor s + skipped)%nat with
| None => s
| Some p => watched now p (S (cursor s + skipped)) s
end.

(** One hit of a paper trader's consumer, one tick of its sweeper. *)
Definition paper_recv (w : Paper.World) (ws : Types.PositionKey → Paper.World) (price : option f64)
(hit : KolHit) (p : PaperTask) : PaperTask :=
paper_event p (Paper.on_hit parse_b256 parse_address (pt_strategy p) price w ws hit).
Definition paper_sweep (now : Z) (ws : Types.PositionKey → Paper.World) (p : PaperTask) : PaperTask :=
paper_event p (Paper.Sweep now (pt_hold_secs p * 1000000000) ws).

Definition drained (s : sink) : sink := match recv s with Some (_, s') => s' | None => s end.

Definition step (s : System) (e : event) : option System :=
let c := confirm s in
let k := Confirm.sinks c in
match e with
| FromSource e =>
Some {| pipeline := Pipeline.step alloy_decode alloy_recover (pipeline s) e;
    cursor := cursor s; confirm := c; telegram := telegram s;
    public := public s; private := private s; live := live s |}
| WatchRecv now skipped => Some (watch_recv now skipped s)
| BlockTxn n txn => Some (with_confirm s (Confirm.process_tx index n c txn))
| SweepRegistry now =>
Some (with_confirm s {| Confirm.pending := (Confirm.sweep_expired now (Confirm.pending c)).1;
                    Confirm.sinks := k; Confirm.log := Confirm.log c |})
| TelegramRecv =>
Some {| pipeline := pipeline s; cursor := cursor s; confirm := c;
    telegram := drained (telegram s); public := public s; private := private s; live := live s |}
| TraderRecv w ws price =>
match public s, recv (Confirm.trader_tx k) with
| Some p, Some (hit, rest) =>
Some (with_confirm (with_papers s (Some (paper_recv w ws price hit p)) (private s))
  (with_sinks c {| Confirm.trader_tx := rest; Confirm.private_tx := Confirm.private_tx k;
                   Confirm.live_tx := Confirm.live_tx k |}))
| _, _ => Some s
end
| PrivateRecv w ws price =>
match private s, recv (Confirm.private_tx k) with
| Some p, Some (hit, rest) =>
Some (with_confirm (with_papers s (public s) (Some (paper_recv w ws price hit p)))
  (with_sinks c {| Confirm.trader_tx := Confirm.trader_tx k; Confirm.private_tx := rest;
                   Confirm.live_tx := Confirm.live_tx k |}))
| _, _ => Some s
end
| TraderSweep now ws => Some (with_papers s (paper_sweep now ws <$> public s) (private s))
| PrivateSweep now ws => Some (with_papers s (public s) (paper_sweep now ws <$> private s))
| LiveRecv env price =>
match live s, recv (Confirm.live_tx k) with
| Some t, Some (hit, rest) =>
let s := with_live s (on_hit parse_b256 parse_address env price hit t) in
Some (with_confirm s (with_sinks c
  {| Confirm.trader_tx := Confirm.trader_tx k;
     Confirm.private_tx := Confirm.private_tx k; Confirm.live_tx := rest |}))
| _, _ => Some s
end
| LiveTask e =>
match live s, e with
| Some _, Hit _ _ _ => Some s
| Some t, e => t' ← trader_step parse_b256 parse_address parse_u256_hex t e; Some (with_live s t')
| None, _ => Some s
end
end.

Definition system_run (s : System) (es : list event) : option System :=
foldl (λ o e, s ← o; step s e) (Some s) es.

(** *** Where a hit comes from *)

(** A watched wallet bought [tok]: its transaction came in from a source, or
was read in a block, and decodes as a buy. *)
Definition decodes_buy (input : bytes) (value : U256) (tok : Address) : Prop :=
Gmgn.decode input value = Some {| Gmgn.token := tok; Gmgn.side := Gmgn.Buy |}.

Definition pending_buy (es : list event) (k : Kol) (tok : Address) : Prop :=
∃ raw d, FromSource (Pipeline.Deliver raw) ∈ es ∧
decode_to_decoded alloy_decode alloy_recover raw = Ok d ∧ index !! d_from d = Some k ∧
decodes_buy (v_input (view (d_tx d))) (v_value (view (d_tx d))) tok.
Definition block_buy (es : list event) (k : Kol) (tok : Address) : Prop :=
∃ n txn, BlockTxn n txn ∈ es ∧ index !! Confirm.bt_signer txn = Some k ∧
decodes_buy (Confirm.bt_input txn) (Confirm.bt_value txn) tok.
Definition kol_bought (es : list event) (k : Kol) (tok : Address) : Prop :=
pending_buy es k tok ∨ block_buy es k tok.

(** What the bus holds was delivered and decoded. *)
Definition delivered (es : list event) (p : PendingTx TxEnvelope) : Prop :=
∃ raw d, FromSource (Pipeline.Deliver raw) ∈ es ∧
decode_to_decoded alloy_decode alloy_recover raw = Ok d ∧ p_from p = d_from d ∧ p_tx p = d_tx d.

(** What a queued hit may be: a buy that [B] accounts for. *)
Definition explained (B : list event → Kol → Address → Prop) (es : list event) (h : KolHit) : Prop :=
side h = Some "BUY"%string →
∃ k tok, B es k tok ∧ kol_name h = name k ∧ token h = Some tok.

(** Accounts that stay true. *)
Definition lasting (B : list event → Kol → Address → Prop) : Prop :=
∀ es e k tok, B es k tok → B (es ++ [e]) k tok.
Lemma pending_lasting : lasting pending_buy.
Proof. intros es e k tok (raw & d & H & ?). exists raw, d. split; [|done]. rewrite elem_of_app. by left. Qed.
Lemma block_lasting : lasting block_buy.
Proof. intros es e k tok (n & txn & H & ?). exists n, txn. split; [|done]. rewrite elem_of_app. by left. Qed.
Lemma bought_lasting : lasting kol_bought.
Proof. intros es e k tok [?|?]; [left; by apply pending_lasting|right; by apply block_lasting]. Qed.

Lemma explained_snoc B es e h : lasting B → explained B es h → explained B (es ++ [e]) h.
Proof. intros HB H Hs. destruct (H Hs) as (k & tok & ? & ?). exists k, tok. by split; [apply HB|]. Qed.

Lemma explained_weaken (B C : list event → Kol → Address → Prop) es h :
(∀ k tok, B es k tok → C es k tok) → explained B es h → explained C es h.
Proof. intros HBC H Hs. destruct (H Hs) as (k & tok & ? & ?). exists k, tok. eauto. Qed.

Lemma delivered_snoc es e p : delivered es p → delivered (es ++ [e]) p.
Proof. intros (raw & d & H & ?). exists raw, d. split; [|done]. rewrite elem_of_app. by left. Qed.

Lemma pending_explained es k p :
delivered es p → index !! p_from p = Some k → explained pending_buy es (from_pending view k p).
Proof.
intros (raw & d & Hin & Hd & Hf & Ht) Hk Hside. cbn in Hside |- *.
destruct (Gmgn.decode _ _) as [[t sd]|] eqn:Eg; [|done]. destruct sd; [|done].
exists k, t. split_and!; try done. exists raw, d. unfold decodes_buy.
rewrite <- Hf, <- Ht. by split_and!.
Qed.

(** A pipeline step publishes at most the transaction delivered. *)
Lemma pipeline_delivered es (pl : Pipeline.Pipeline) e :
Forall (delivered es) (Pipeline.bus pl) →
Forall (delivered (es ++ [FromSource e]))
(Pipeline.bus (Pipeline.step alloy_decode alloy_recover pl e)).
Proof.
intros Hb. assert (Forall (delivered (es ++ [FromSource e])) (Pipeline.bus pl)) as Hb'.
{ eapply Forall_impl; [exact Hb|]. apply delivered_snoc. }
destruct e as [raw| |]; [|done|done]. cbn. unfold Pipeline.run_decoder_worker.
destruct (decode_to_decoded _ _ raw) as [d|] eqn:Ed; [|done].
unfold Pipeline.run_dedupe. destruct (Dedupe.record _ _ _ _) as [dd [fs|]]; [|done].
cbn. apply Forall_app. split; [done|]. apply Forall_singleton. exists raw, d.
rewrite elem_of_app, list_elem_of_singleton. by split_and!; [right|..].
Qed.

(** What the three channels hold: the public trader's buys were pending, the
private trader's were read in blocks, the live trader's are either. *)
Definition queues_explained (es : list event) (k : Confirm.Sinks) : Prop :=
Forall (explained pending_buy es) (received (Confirm.trader_tx k)) ∧
Forall (explained block_buy es) (received (Confirm.private_tx k)) ∧
Forall (explained kol_bought es) (received (Confirm.live_tx k)).

Lemma queues_snoc es e k : queues_explained es k → queues_explained (es ++ [e]) k.
Proof.
intros (H1 & H2 & H3). split_and!; (eapply Forall_impl; [eassumption|]; intros ?; apply explained_snoc);
[apply pending_lasting|apply block_lasting|apply bought_lasting].
Qed.

Lemma offer_explained B es q h :
Forall (explained B es) (received q) → explained B es h → Forall (explained B es) (received (offer q h)).
Proof.
intros Hq Hh. apply Forall_forall. intros x [Hx| ->]%received_offer; [by eapply Forall_forall in Hq|done].
Qed.

Lemma sell_explained B es kol txn tok n vis : explained B es (Confirm.confirmed_hit kol txn "SELL" tok n vis).
Proof. done. Qed.

(** A block's transaction adds sells, and a private buy to two of them. *)
Lemma block_explained es n c txn :
queues_explained es (Confirm.sinks c) →
queues_explained (es ++ [BlockTxn n txn]) (Confirm.sinks (Confirm.process_tx index n c txn)).
Proof.
intros Hq%(queues_snoc _ (BlockTxn n txn)). pose proof Hq as (H1 & H2 & H3). unfold Confirm.process_tx.
destruct (Confirm.pending c !! _) as [m|] eqn:Em.
- cbn. destruct (Confirm.m_side m) as [sd|]; [|done]. destruct (Confirm.m_token m) as [tok|]; [|done].
destruct (String.eqb sd "SELL"); [|done].
split_and!; apply offer_explained; try done; apply sell_explained.
- destruct (lookup index (Confirm.bt_signer txn)) as [k|] eqn:Ek; [|done].
cbn. destruct (Gmgn.decode _ _) as [[tok sd]|] eqn:Eg; [|done].
destruct sd; cbn; split_and!; try done; apply offer_explained; try done; try apply sell_explained;
intros _; exists k, tok; (split; [|done]); [|right];
exists n, txn; rewrite elem_of_app, list_elem_of_singleton; by split_and!; [right|..].
Qed.

(** *** The invariant *)

Definition copied (es : list event) (w : gset string) (t : Tx) : Prop :=
∀ tok, bought (tx_call t) = Some tok → ∃ k, kol_bought es k tok ∧ name k ∈ w.

(** A paper trader's entry is for a buy that [B] accounts for. *)
Definition copies (B : list event → Kol → Address → Prop) (es : list event) (e : Paper.event) : Prop :=
match e with
| Paper.Hit _ _ (Enter kol tok _ _ _ _) _ => ∃ k, B es k tok ∧ name k = kol
| _ => True
end.

(** From [p0], [p] has taken such hits and sweeps. *)
Definition follows (B : list event → Kol → Address → Prop) (es : list event)
(p0 p : option PaperTask) : Prop :=
match p0, p with
| Some p0, Some p => ∃ hs, p = foldl paper_event p0 hs ∧ Forall (copies B es) hs
| None, None => True
| _, _ => False
end.

Lemma copies_snoc B es e pe : lasting B → copies B es pe → copies B (es ++ [e]) pe.
Proof.
intros HB. destruct pe as [w ws [] cd|]; cbn; try done. intros (k & ? & ?). exists k. by split; [apply HB|].
Qed.

Lemma follows_snoc B es e p0 p : lasting B → follows B es p0 p → follows B (es ++ [e]) p0 p.
Proof.
intros HB. destruct p0, p; cbn; try done. intros (hs & -> & HF). exists hs. split; [done|].
eapply Forall_impl; [exact HF|]. intros pe. by apply copies_snoc.
Qed.

Lemma follows_event B es p0 p pe :
copies B es pe → follows B es p0 (Some p) → follows B es p0 (Some (paper_event p pe)).
Proof.
intros Hc. destruct p0; cbn; [|done]. intros (hs & -> & HF). exists (hs ++ [pe]).
rewrite foldl_app. split; [done|]. apply Forall_app. split; [done|]. by apply Forall_singleton.
Qed.

Lemma on_hit_copies B es strat price w ws hit :
explained B es hit → copies B es (Paper.on_hit parse_b256 parse_address strat price w ws hit).
Proof.
intros Hx. unfold Paper.on_hit. cbn. destruct (evaluate _ _ _ _ _) as [|kol tok o kin blk h|] eqn:E; try done.
apply evaluate_enter_spec in E as [(_ & _ & Ht & Hs & _) (-> & _)].
destruct (Hx Hs) as (k & tok' & Hb & Hn & Ht'). exists k. assert (tok' = tok) as -> by congruence. done.
Qed.

Record traced (w : gset string) (sent0 : list (Tx * bool)) (p0 q0 : option PaperTask)
(es : list event) (s : System) : Prop := {
tr_bus : Forall (delivered es) (Pipeline.bus (pipeline s));
tr_queues : queues_explained es (Confirm.sinks (confirm s));
tr_public : follows pending_buy es p0 (public s);
tr_private : follows block_buy es q0 (private s);
tr_wire : ∀ t, live s = Some t → whitelist (limits_rt (executor t)) = w ∧
∃ l, wire (executor t) = sent0 ++ l ∧ Forall (λ p, copied es w p.1) l;
}.

Section Traced.
Context (w : gset string) (l : list (Tx * bool)) (p0 q0 : option PaperTask).

Lemma traced_snoc es s e : traced w l p0 q0 es s → traced w l p0 q0 (es ++ [e]) s.
Proof.
intros [Hb Hq Hp Hp' Hw]. split.
- eapply Forall_impl; [exact Hb|]. apply delivered_snoc.
- by apply queues_snoc.
- by apply follows_snoc; [apply pending_lasting|].
- by apply follows_snoc; [apply block_lasting|].
- intros t Ht. destruct (Hw t Ht) as [Hwl (l' & Hl & HF)]. split; [done|].
exists l'. split; [done|]. eapply Forall_impl; [exact HF|]. intros p Hx tok Hb'.
destruct (Hx tok Hb') as (k & ? & ?). exists k. by split; [apply bought_lasting|].
Qed.

(** A step of the trader on a hit of the queue keeps the trace. *)
Lemma traced_trader es s e t te t' :
traced w l p0 q0 es s → live s = Some t →
(∀ env price hit, te = Hit env price hit → explained kol_bought es hit) →
trader_step parse_b256 parse_address parse_u256_hex t te = Some t' →
traced w l p0 q0 (es ++ [e]) (with_live s t').
Proof.
intros Htr Ht Hte Hstep. pose proof (traced_snoc _ _ e Htr) as [Hb Hq Hp Hp' Hw]. split; [done..|].
intros t1 [= <-]. destruct (tr_wire _ _ _ _ _ _ Htr t Ht) as [Hwl _].
destruct (Hw t Ht) as [_ (l1 & Hl1 & HF)].
apply trader_step_sends in Hstep as [Hwl' (l2 & Hl2 & H2)]. rewrite Hwl in *. split; [done|].
exists (l1 ++ l2). rewrite Hl2, Hl1, app_assoc. split; [done|]. apply Forall_app. split; [done|].
eapply Forall_impl; [exact H2|]. intros x Hx tok Hb'.
destruct (Hx tok Hb') as (env & price & hit & -> & Hside & Htok & Hk).
destruct (Hte _ _ _ eq_refl Hside) as (k & tok' & Hkb & Hn & Htok').
exists k. assert (tok' = tok) as -> by congruence. rewrite <- Hn.
by split; [apply bought_lasting|].
Qed.

Lemma traced_sinks es s c :
traced w l p0 q0 es s → queues_explained es (Confirm.sinks c) → traced w l p0 q0 es (with_confirm s c).
Proof. by intros [Hb _ Hp Hp' Hw] Hq. Qed.

Lemma traced_papers es s p q :
traced w l p0 q0 es s → follows pending_buy es p0 p → follows block_buy es q0 q →
traced w l p0 q0 es (with_papers s p q).
Proof. by intros [Hb Hq _ _ Hw] Hp Hp'. Qed.

Lemma traced_watch es s now n :
traced w l p0 q0 es s → traced w l p0 q0 es (watch_recv now n s).
Proof.
intros [Hb Hq Hp Hp' Hw]. unfold watch_recv, watched.
destruct (Pipeline.bus (pipeline s) !! _) as [p|] eqn:Ep; [|done].
split; [done| |done..]. unfold Dispatch.process_one.
destruct (lookup index (p_from p)) as [k|] eqn:Ek; [|done].
assert (explained pending_buy es (from_pending view k p)) as Hx
by (apply pending_explained; [|done]; by eapply Forall_lookup).
destruct Hq as (H1 & H2 & H3). cbn. split_and!; [by apply offer_explained|done|].
apply offer_explained; [done|]. eapply explained_weaken; [|exact Hx]. by left.
Qed.

(** Taking a hit from a channel leaves an explained channel. *)
Lemma recv_explained B es q hit rest :
recv q = Some (hit, rest) → Forall (explained B es) (received q) →
explained B es hit ∧ Forall (explained B es) (received rest).
Proof. intros ->%recv_received H. by apply Forall_cons in H. Qed.

Lemma traced_step es s e s' :
traced w l p0 q0 es s → step s e = Some s' → traced w l p0 q0 (es ++ [e]) s'.
Proof.
intros Htr. pose proof (traced_snoc _ _ e Htr) as Hs. pose proof (tr_queues _ _ _ _ _ _ Hs) as (Q1 & Q2 & Q3).
destruct e as [e|now n|n txn|now| |pw ws price|pw ws price|now ws|now ws|env price|e]; cbn.
- intros [= <-]. destruct Hs as [_ Hq Hp Hp' Hw]. split; [|done..]. apply pipeline_delivered, Htr.
- intros [= <-]. by apply traced_watch.
- intros [= <-]. apply traced_sinks; [done|]. apply block_explained, Htr.
- intros [= <-]. by apply traced_sinks.
- intros [= <-]. by destruct Hs.
- destruct (public s) as [p|] eqn:Ep; [|by intros [= <-]].
destruct (recv _) as [[hit rest]|] eqn:Er; [|by intros [= <-]]. intros [= <-].
destruct (recv_explained _ _ _ _ _ Er Q1) as [Hx Hr]. apply traced_sinks; [|by split_and!].
apply traced_papers; [done| |by destruct Hs]. apply follows_event; [by apply on_hit_copies|].
rewrite <- Ep. by destruct Hs.
- destruct (private s) as [p|] eqn:Ep; [|by intros [= <-]].
destruct (recv _) as [[hit rest]|] eqn:Er; [|by intros [= <-]]. intros [= <-].
destruct (recv_explained _ _ _ _ _ Er Q2) as [Hx Hr]. apply traced_sinks; [|by split_and!].
apply traced_papers; [done|by destruct Hs|]. apply follows_event; [by apply on_hit_copies|].
rewrite <- Ep. by destruct Hs.
- intros [= <-]. pose proof Hs as [_ _ Hp Hp' _]. apply traced_papers; [done| |done].
destruct (public s); [by apply follows_event|done].
- intros [= <-]. pose proof Hs as [_ _ Hp Hp' _]. apply traced_papers; [done..|].
destruct (private s); [by apply follows_event|done].
- destruct (live s) as [t|] eqn:Et; [|by intros [= <-]].
destruct (recv _) as [[hit rest]|] eqn:Er; [|by intros [= <-]]. intros [= <-].
destruct (recv_explained _ _ _ _ _ Er Q3) as [_ Hr].
pose proof (tr_queues _ _ _ _ _ _ Htr) as (_ & _ & Q).
destruct (recv_explained _ _ _ _ _ Er Q) as [Hx _]. apply traced_sinks; [|by split_and!].
eapply (traced_trader _ _ _ _ (Hit env price hit)); [done|done| |done]. by intros ? ? ? [= _ _ <-].
- destruct (live s) as [t|] eqn:Et; [|by intros [= <-]].
destruct e as [env price hit| | | | | |]; [by intros [= <-]|..];
(intros (t' & Hx & [= <-])%bind_Some; eapply traced_trader; [done|done| |exact Hx]; done).
Qed.
End Traced.

Lemma system_run_None es : foldl (λ o e, s ← o; step s e) None es = None.
Proof. by induction es. Qed.

Lemma system_run_snoc s es e : system_run s (es ++ [e]) = s' ← system_run s es; step s' e.
Proof. unfold system_run. by rewrite foldl_app. Qed.

(** Without a live trader there is none later. *)
Lemma no_trader cfg tg p0 q0 es s : system_run (start cfg tg p0 q0 None) es = Some s → live s = None.
Proof.
revert s. induction es as [|e es IH] using rev_ind; intros s; [by intros [= <-]|].
rewrite system_run_snoc. intros (s1 & H1 & H2)%bind_Some. specialize (IH _ H1).
destruct e; cbn in H2; rewrite ?IH in H2; repeat case_scrut_in H2; injection H2 as <-; try done.
cbn. unfold watch_recv. by case_scrut.
Qed.

Lemma traced_run w l p0 q0 s0 es s :
traced w l p0 q0 [] s0 → system_run s0 es = Some s → traced w l p0 q0 es s.
Proof.
intros H0. revert s. induction es as [|e es IH] using rev_ind; intros s.
- by intros [= <-].
- rewrite system_run_snoc. intros (s1 & H1 & H2)%bind_Some. eapply traced_step; [by apply IH|done].
Qed.

(** Without a block the exit is a full one. *)
Lemma exit_amount_pending env tok addr bal : exit_amount env tok 0 addr bal = bal.
Proof.
unfold exit_amount, kol_sell_fraction. rewrite orb_true_r. cbn [unwrap_or].
by change (fge f1 FULL_CLOSE) with true.
Qed.

(** The watcher's step on a KOL's transaction puts its hit in the live channel. *)
Lemma watch_one now n s p k :
Pipeline.bus (pipeline s) !! (cursor s + n)%nat = Some p → index !! p_from p = Some k →
received (Confirm.live_tx (Confirm.sinks (confirm s))) = [] →
has_room 1 (Confirm.live_tx (Confirm.sinks (confirm s))) →
∃ rest, live (watch_recv now n s) = live s ∧
recv (Confirm.live_tx (Confirm.sinks (confirm (watch_recv now n s)))) =
Some (from_pending view k p, rest).
Proof.
intros Hp Hk He Hr. unfold watch_recv. rewrite Hp. unfold watched, Dispatch.process_one, lookup.
rewrite Hk. cbn. destruct (Confirm.live_tx (Confirm.sinks (confirm s))) as [c|]; [|done].
destruct Hr as [Hc Hl]. unfold received in He. eexists. split; [done|].
rewrite He in Hl. cbn in Hl.
unfold offer, try_send. cbn -[Nat.ltb]. rewrite Hc, He. cbn -[Nat.ltb].
by rewrite (proj2 (Nat.ltb_lt 0 (chan_cap c))) by lia.
Qed.

(** At the start nothing is queued, and each trader is itself. *)
Lemma start_traced cfg tg p0 q0 t0 w l :
(∀ t, t0 = Some t → w = whitelist (limits_rt (executor t)) ∧ l = wire (executor t)) →
traced w l p0 q0 [] (start cfg tg p0 q0 t0).
Proof.
assert (∀ B p, follows B [] p p) as Hf by (intros B [p|]; [by exists []|done]).
assert (∀ b n, received (opened b n) = []) as Ho by by intros [] ?.
intros Ht. split; [constructor| |apply Hf|apply Hf|].
- unfold queues_explained. cbn. rewrite !Ho. by split_and!.
- intros t E. destruct (Ht t E) as [-> ->]. split; [done|]. exists []. by rewrite app_nil_r.
Qed.

(** Buys are copies: what the trader adds to the wire, over any history. *)
Lemma buys_copied cfg tg p0 q0 t0 es s t tx ok tok :
system_run (start cfg tg p0 q0 (Some t0)) es = Some s → live s = Some t →
(tx, ok) ∈ wire (executor t) → bought (tx_call tx) = Some tok →
(tx, ok) ∈ wire (executor t0) ∨
∃ k, kol_bought es k tok ∧ name k ∈ whitelist (limits_rt (executor t0)).
Proof.
intros Hrun Ht Hin Hb.
assert (traced (whitelist (limits_rt (executor t0))) (wire (executor t0)) p0 q0 []
(start cfg tg p0 q0 (Some t0))) as H0 by (apply start_traced; by intros ? [= <-]).
destruct (tr_wire _ _ _ _ _ _ (traced_run _ _ _ _ _ _ _ H0 Hrun) t Ht) as [_ (l & Hl & HF)].
rewrite Hl in Hin. apply elem_of_app in Hin as [?|Hin]; [by left|right].
by apply (proj1 (Forall_forall _ _) HF _ Hin tok).
Qed.

(** What a paper trader has done is a run of it. *)
Lemma follows_run B es p0 p :
follows B es (Some p0) (Some p) →
pt_config p = pt_config p0 ∧
∃ hs, pt_history p = foldl (Paper.paper_step (pt_config p0)) (pt_history p0) hs ∧ Forall (copies B es) hs.
Proof.
intros (hs & -> & HF). enough (pt_config (foldl paper_event p0 hs) = pt_config p0 ∧
pt_history (foldl paper_event p0 hs) = foldl (Paper.paper_step (pt_config p0)) (pt_history p0) hs)
as [? ?] by (split; [done|by exists hs]).
clear HF. induction hs as [|e hs [IH1 IH2]] using rev_ind; [done|].
rewrite !foldl_app. cbn. by rewrite IH1, IH2.
Qed.

Lemma papers_follow cfg tg p0 q0 t0 es s :
system_run (start cfg tg p0 q0 t0) es = Some s →
follows pending_buy es p0 (public s) ∧ follows block_buy es q0 (private s).
Proof.
intros Hrun.
assert (∃ w l, traced w l p0 q0 [] (start cfg tg p0 q0 t0)) as (w & l & H0).
{ destruct t0 as [t|]; [eexists _, _|exists ∅, []]; apply start_traced; [by intros ? [= <-]|done]. }
pose proof (traced_run _ _ _ _ _ _ _ H0 Hrun) as Htr. by split; apply Htr.
Qed.


(** A delivery of a transaction not seen before puts it at the end of the bus. *)
Lemma delivery_published pl raw d :
decode_to_decoded alloy_decode alloy_recover raw = Ok d →
Dedupe.map (Pipeline.dedupe pl) !! d_hash d = None →
∃ p, Pipeline.bus (Pipeline.step alloy_decode alloy_recover pl (Pipeline.Deliver raw)) =
Pipeline.bus pl ++ [p] ∧
p_hash p = d_hash d ∧ p_from p = d_from d ∧ p_tx p = d_tx d.
Proof.
intros Hd Hf. cbn. unfold Pipeline.run_decoder_worker. rewrite Hd. unfold Pipeline.run_dedupe, Dedupe.record.
rewrite Hf. cbn. eexists. by split.
Qed.

(** [C3] A KOL's buy is copied.  When a transaction of a watched wallet that buys
[tok] arrives, the strategy's gates let it pass and the executor is willing,
three steps later - the delivery, the watcher, the trader - one buy of [tok]
for the sized amount is on the wire and its position is open. *)
Theorem kol_buy_is_copied s t raw d k tok now env price h amount :
let c := strategy_cfg t in
let bnb := wei_to_bnb (v_value (view (d_tx d))) in
live s = Some t →
decode_to_decoded alloy_decode alloy_recover raw = Ok d → index !! d_from d = Some k →
decodes_buy (v_input (view (d_tx d))) (v_value (view (d_tx d))) tok →
Dedupe.map (Pipeline.dedupe (pipeline s)) !! d_hash d = None →
cursor s = length (Pipeline.bus (pipeline s)) →
received (Confirm.live_tx (Confirm.sinks (confirm s))) = [] →
has_room 1 (Confirm.live_tx (Confirm.sinks (confirm s))) →
kol_filter c = [] ∨ name k ∈ kol_filter c →
parse_b256 (format_hex 32 (d_hash d)) = Some h →
fle bnb f0 = false → (fgt (min_buy_bnb c) f0 = true → flt bnb (min_buy_bnb c) = false) →
(fgt (min_buy_usd c) f0 = true → flt (fmul bnb (unwrap_or price f0)) (min_buy_usd c) = false) →
willing env (executor t) (name k) "public" tok
(scale_size (f64_to_uint 128 (fmul bnb f1e18)) (size_fraction c))
(open_count (ledger (executor t))) amount →
∃ s' t' tx id e,
system_run s [FromSource (Pipeline.Deliver raw); WatchRecv now 0; LiveRecv env price] = Some s' ∧
live s' = Some t' ∧ wire (executor t') = wire (executor t) ++ [(tx, true)] ∧
bought (tx_call tx) = Some tok ∧ tx_value tx = amount ∧
tx_nonce tx = Nonce.current (Executor.nonce (executor t)) ∧
entry_of (executor t') tok = Some (id, e) ∧ tokens_bought e = 0 ∧ entry_bnb_in e = amount.
Proof.
intros c bnb Ht Hd Hk Hg Hf Hc Hempty Hroom Hsc Hh H0 Hb Hu Hw.
destruct (delivery_published (pipeline s) raw d Hd Hf) as (p & Hbus & Hph & Hpf & Hpt).
unfold system_run. cbn [foldl mbind option_bind step].
set (s1 := {| pipeline := Pipeline.step _ _ _ _ |}).
assert (Pipeline.bus (pipeline s1) !! (cursor s1 + 0)%nat = Some p) as Hp.
{ unfold s1. cbn [pipeline cursor]. rewrite Hbus, Hc, Nat.add_0_r.
rewrite lookup_app_r by lia. by rewrite Nat.sub_diag. }
destruct (watch_one now 0 s1 p k) as (rest & Hl & Hrecv); [done|by rewrite Hpf|done|done|].
rewrite Hl. change (live s1) with (live s). rewrite Ht, Hrecv.
set (hit := from_pending view k p).
assert (evaluate parse_b256 parse_address c hit (unwrap_or price f0) =
Enter (name k) tok (scale_size (f64_to_uint 128 (fmul bnb f1e18)) (size_fraction c))
(f64_to_uint 128 (fmul bnb f1e18)) 0 h) as Hev.
{ apply evaluate_enter_spec. unfold hit, in_scope. cbn. rewrite Hpt, Hph, Hg. fold bnb.
split_and!; try done; apply scale_size_bounds;
pose proof (f64_to_uint_width 128 (fmul bnb f1e18)); width. }
destruct (willing_buys env (executor t) (name k) "public" tok _ _ amount
(f64_to_uint 128 (fmul bnb f1e18)) 0 h Hw) as (s0 & r & fee & id & Hwire & Hn & He).
assert (executor (on_hit parse_b256 parse_address env price hit t) =
execute env (executor t) (Enter (name k) tok
(scale_size (f64_to_uint 128 (fmul bnb f1e18)) (size_fraction c))
(f64_to_uint 128 (fmul bnb f1e18)) 0 h) "public" (open_count (ledger (executor t)))) as Hon
by (unfold on_hit; fold c; by rewrite Hev).
destruct (buy_tx_fields env s0 r tok amount fee) as (Hv & Hnn & _).
eexists _, _, (buy_tx env s0 r tok amount fee), id, _.
split; [done|]. split; [done|]. fold hit. rewrite Hon. split_and!; [exact Hwire|apply buy_tx_bought|done|congruence|exact He|done..].
Qed.
(** *** The watcher on its subscription *)

Section Watcher.
Context `{!Fanout.BroadcastLaws (PendingTx TxEnvelope)}.

(** [run_consumer]: its loop body on the system's channels. *)
Definition run_consumer (now : Z) (s : System) (p : PendingTx TxEnvelope) : System :=
watched now p (cursor s) s.

(** A turn of the KOL watcher's loop on its subscription to the bus is the
[WatchRecv] step that skips what the ring has overwritten, or nothing. *)
Lemma watcher_turn_refines_step now b sub s :
Fanout.holds (Fanout.tx b) (Pipeline.bus (pipeline s)) →
(cursor s ≤ Fanout.seen (Fanout.rx sub) ≤ length (Pipeline.bus (pipeline s)))%nat →
let '(sub', s', on) := Fanout.turn (run_consumer now) b sub s in
(cursor s ≤ Fanout.seen (Fanout.rx sub') ≤ length (Pipeline.bus (pipeline s)))%nat ∧
((s' = s ∧ on = negb (Fanout.hung (Fanout.tx b) &&
(Fanout.seen (Fanout.rx sub) =? length (Pipeline.bus (pipeline s)))%nat)) ∨
(on = true ∧ ∃ p, Pipeline.bus (pipeline s) !! Fanout.seen (Fanout.rx sub) = Some p ∧
s' = watched now p (cursor s) s ∧
watch_recv now (Fanout.seen (Fanout.rx sub) - cursor s) s =
watched now p (Fanout.seen (Fanout.rx sub')) s)).
Proof.
intros Hh [Hc Hl]. pose proof (Fanout.turn_cases (run_consumer now) b sub s _ Hh Hl) as Ht.
destruct (Fanout.turn _ _ _ _) as [[sub' s'] on]. destruct Ht as [Hl' Ht].
destruct Ht as [(H1 & H2 & -> & ->)|[(H1 & H2 & -> & ->)|(p & Hp & H2 & -> & ->)]].
- split; [lia|left]. split; [done|]. rewrite (proj2 (Nat.eqb_eq _ _) H1). by rewrite andb_true_r.
- split; [lia|left]. split; [done|]. rewrite (proj2 (Nat.eqb_neq _ _)) by lia. by rewrite andb_false_r.
- split; [lia|right]. split; [done|]. exists p. split_and!; [done|done|]. unfold watch_recv.
replace (cursor s + (Fanout.seen (Fanout.rx sub) - cursor s))%nat
with (Fanout.seen (Fanout.rx sub)) by lia.
by rewrite Hp, H2.
Qed.
End Watcher.

End System.

(** ** Witnesses *)

Module Market.
(** Transactions are what the accessors show, signed by wallet 5. *)
Definition decode (_ : bytes) : result TxView unit := Err tt.
Definition recover (_ : TxView) : result Address unit := Ok 5.
Definition token : Address := 2 ^ 130.
Definition trade (value : Z) : TxView :=
{| v_input := Gmgn.GMGN_SELECTOR ++ word token; v_to := None; v_value := value; v_gas_price := None;
v_max_fee_per_gas := 0; v_gas_limit := 0; v_nonce := 0 |}.
Definition raw (h value : Z) : RawTx TxView :=
{| raw_source := LOCAL_IPC; raw_recv_ns := 1; raw_hash := h; raw_payload := Decoded (trade value) None |}.
Definition kol : Kol := {| address := 5; name := "D"; emoji := None; groups := [] |}.
Definition kols : gmap Address Kol := {[ 5 := kol ]}.

Definition run := system_run decode recover id Live.Example.pb Live.Example.pa Live.Example.pu kols.
Definition begin (t : LiveTrader) : System (TxEnvelope := TxView) :=
start Pipeline.default_config false None None (Some t).

(** D buys for one BNB; the hit reaches the funded trader. *)
Definition env : Env := Executor.Example.env None.
Definition bnb : Z := 10 ^ 18.
Definition buy_history : list (event (TxEnvelope := TxView)) :=
[FromSource (Pipeline.Deliver (raw 1 bnb)); WatchRecv 1 0; LiveRecv env Live.Example.price].
Definition holds_500 : Env := Executor.Example.holds_500.
(** Its 500 tokens arrive; then D sells. *)
Definition settle : list (event (TxEnvelope := TxView)) :=
[LiveTask (BgBalance holds_500 token 0); LiveTask (BgApproved 0);
FromSource (Pipeline.Deliver (raw 2 0))].
Definition after_buy : option (System (TxEnvelope := TxView)) := run (begin Live.Example.funded) buy_history.
Definition selling : System (TxEnvelope := TxView) :=
unwrap_or (s ← after_buy; run s settle) (begin Live.Example.funded).
Definition trader : LiveTrader := unwrap_or (live selling) Live.Example.funded.
Definition sale : PendingTx TxView :=
{| p_hash := 2; p_from := 5; p_tx := trade 0; first_seen_ns := 1;
Core.source_seen := [(LOCAL_IPC, 1)]; p_raw := None;
block_context := Some (CurrentBlock.block_context_for CurrentBlock.default 1) |}.
(** D's purchase, decoded. *)
Definition purchase : DecodedTx TxView :=
{| d_source := LOCAL_IPC; d_recv_ns := 1; d_hash := 1; d_from := 5; d_tx := trade bnb; d_raw := None |}.
(** What those steps did to the executor. *)
Definition operations : list Executor.event :=
[EvBuy env (Enter "D" token 16666666666666666 0 0 1) "public" 0; EvBgBalance holds_500 token 0; EvBgApproved 0].
(** The public paper trader next to it. *)
Definition paper : PaperTask :=
{| pt_config := Paper.Example.config; pt_strategy := strategy_cfg Live.Example.funded;
pt_hold_secs := 86400;
pt_history := {| Paper.final := Paper.Example.start; Paper.closed := []; Paper.entries := [] |} |}.
Definition paper_world : Paper.World := Paper.Example.world 30 70000 50.
Definition both : System (TxEnvelope := TxView) :=
start Pipeline.default_config false (Some paper) None (Some Live.Example.funded).
Definition paper_history : list (event (TxEnvelope := TxView)) :=
buy_history ++ [TraderRecv paper_world (λ _, paper_world) Live.Example.price].
End Market.


Lemma kol_buy_is_copied_witness :
  ∃ s' t', Market.run (Market.begin Live.Example.funded) Market.buy_history = Some s' ∧
    live s' = Some t' ∧ length (wire (executor t')) = 1%nat.
Proof.
  destruct (kol_buy_is_copied Market.decode Market.recover id Live.Example.pb Live.Example.pa
    Live.Example.pu Market.kols (Market.begin Live.Example.funded) Live.Example.funded
    (Market.raw 1 Market.bnb) Market.purchase Market.kol Market.token 1 Market.env Live.Example.price 1
    16666666666666666)
    as (s' & t' & tx & id & e & Hr & Hl & Hw & _);
    [reflexivity|reflexivity|vm_compute; reflexivity|vm_compute; reflexivity|reflexivity|reflexivity|
     reflexivity|split; [reflexivity|vm_compute; lia]|right; vm_compute; apply list_elem_of_here|
     reflexivity|vm_compute; reflexivity|vm_compute; reflexivity|vm_compute; reflexivity|..].
  - split.
    + vm_compute. exact I.
    + vm_compute. reflexivity.
    + eexists _, _. split; [vm_compute; reflexivity|]. split; vm_compute; reflexivity.
    + reflexivity.
    + intros tax Ht. vm_compute in Ht. injection Ht as <-. vm_compute. discriminate.
    + vm_compute. reflexivity.
    + intros tx. eexists. reflexivity.
    + reflexivity.
  - exists s', t'. split; [exact Hr|]. split; [exact Hl|]. rewrite Hw. reflexivity.
Defined.

