(* ===== verification/Config.v ===== *)
(** * config.rs: the configuration file

    Figment merges the TOML file and the environment into one value (a
    parameter); serde's derived deserialisers read the structs from it.  The
    model has the value type, one decoder per struct with the field's
    attribute -- required, [#[serde(default)]], [default = "..."], [Option] --
    and the defaults.  An encoder is the reference for the round trip. *)

From Stdlib Require Import ZArith Lia Floats.SpecFloat Ascii String.
From S2P Require Import Prelude F64 Bus Trail.

(** ** Values *)

#[warnings="-register-all"]
Inductive value : Type :=
| VBool (b : bool)
| VInt (n : Z)
| VFloat (x : f64)
| VStr (s : string)
| VArray (l : list value)
| VTable (t : list (string * value)).

Abbreviation table := (list (string * value)) (only parsing).

(** The scalars, as serde reads them: an integer in the range of its type, a
    float from a float or an integer. *)
Definition d_bool (v : value) : option bool := match v with VBool b => Some b | _ => None end.
Definition d_str (v : value) : option string := match v with VStr s => Some s | _ => None end.
Definition d_uint (w : Z) (v : value) : option Z :=
  match v with VInt n => try_from_width w n | _ => None end.
Definition d_i64 (v : value) : option Z :=
  match v with VInt n => if (imin 64 <=? n) && (n <=? imax 64) then Some n else None | _ => None end.
Definition d_i32 (v : value) : option Z :=
  match v with VInt n => if (imin 32 <=? n) && (n <=? imax 32) then Some n else None | _ => None end.
Definition d_f64 (v : value) : option f64 :=
  match v with VFloat x => Some x | VInt n => Some (f64_of_Z n) | _ => None end.
Definition d_list {A : Type} (d : value → option A) (v : value) : option (list A) :=
  match v with VArray l => mapM d l | _ => None end.
Definition d_table {A : Type} (d : table → option A) (v : value) : option A :=
  match v with VTable t => d t | _ => None end.

(** ** Fields *)

Fixpoint member (k : string) (t : table) : option value :=
  match t with
  | [] => None
  | (k', v) :: t => if String.eqb k' k then Some v else member k t
  end.

Section Fields.
Context {A : Type} (d : value → option A) (k : string) (t : table).

Definition required : option A := v ← member k t; d v.
Definition defaulted (x : A) : option A :=
match member k t with Some v => d v | None => Some x end.
Definition optional : option (option A) :=
match member k t with Some v => x ← d v; Some (Some x) | None => Some None end.
End Fields.

(** ** The structs *)

Record ChainConfig : Type := { id : Z; name : string; native_symbol : string; native_decimals : Z }.
Definition d_chain (t : table) : option ChainConfig :=
  i ← required (d_uint 64) "id" t; n ← required d_str "name" t;
  s ← required d_str "native_symbol" t; c ← required (d_uint 8) "native_decimals" t;
  Some {| id := i; name := n; native_symbol := s; native_decimals := c |}.

Record CaptureConfig : Type := {
  cap_enabled : bool; dir : string; rotate_secs : Z; retention_bytes : Z; max_age_secs : Z;
  zstd_level : Z;
}.
Definition d_capture (t : table) : option CaptureConfig :=
  e ← required d_bool "enabled" t; d ← required d_str "dir" t;
  r ← required (d_uint 64) "rotate_secs" t; b ← required (d_uint 64) "retention_bytes" t;
  a ← required (d_uint 64) "max_age_secs" t; z ← required d_i32 "zstd_level" t;
  Some {| cap_enabled := e; dir := d; rotate_secs := r; retention_bytes := b; max_age_secs := a;
          zstd_level := z |}.

(** Every field is required: the bus's own defaults are never used. *)
Definition d_pipeline (t : table) : option Pipeline.PipelineConfig :=
  a ← required (d_uint 64) "raw_channel_capacity" t;
  b ← required (d_uint 64) "decoded_channel_capacity" t;
  c ← required (d_uint 64) "broadcast_capacity" t;
  d ← required (d_uint 64) "dedupe_capacity" t;
  e ← required (d_uint 64) "dedupe_ttl_secs" t;
  f ← required (d_uint 64) "decoder_workers" t;
  g ← required (d_uint 64) "janitor_interval_secs" t;
  Some {| Pipeline.raw_channel_capacity := a; Pipeline.decoded_channel_capacity := b;
          Pipeline.broadcast_capacity := c; Pipeline.dedupe_capacity := d;
          Pipeline.dedupe_ttl_secs := e; Pipeline.decoder_workers := f;
          Pipeline.janitor_interval_secs := g |}.

Record WssEntry : Type := {
  wss_name : string; source_id : Z; url : string; backfill_concurrency : option Z }.
Definition d_wss (t : table) : option WssEntry :=
  n ← required d_str "name" t; s ← required (d_uint 8) "source_id" t;
  u ← required d_str "url" t; b ← optional (d_uint 64) "backfill_concurrency" t;
  Some {| wss_name := n; source_id := s; url := u; backfill_concurrency := b |}.

(** [sources.ipc] is an entry whose path may be left out. *)
Definition d_ipc (t : table) : option (option string) := optional d_str "path" t.

Record SourcesConfig : Type := { wss : list WssEntry; ipc : option (option string) }.
Definition d_sources (t : table) : option SourcesConfig :=
  w ← defaulted (d_list (d_table d_wss)) "wss" t []; i ← optional (d_table d_ipc) "ipc" t;
  Some {| wss := w; ipc := i |}.

Record TelegramConfig : Type := { tg_enabled : bool; bot_token : string; chat_id : Z }.
Definition no_telegram : TelegramConfig := {| tg_enabled := false; bot_token := ""; chat_id := 0 |}.
Definition d_telegram (t : table) : option TelegramConfig :=
  e ← defaulted d_bool "enabled" t false; b ← defaulted d_str "bot_token" t ""%string;
  c ← defaulted d_i64 "chat_id" t 0;
  Some {| tg_enabled := e; bot_token := b; chat_id := c |}.

Record TraderDexConfig : Type := {
  v2_factory : string; v2_router : string; v3_factory : string; v3_router : string;
  v3_quoter_v2 : string; multicall3 : string; wbnb : string; v3_fee_tiers : list Z; prefer_v2 : bool;
}.
Definition no_dex : TraderDexConfig :=
  {| v2_factory := ""; v2_router := ""; v3_factory := ""; v3_router := ""; v3_quoter_v2 := "";
     multicall3 := ""; wbnb := ""; v3_fee_tiers := []; prefer_v2 := false |}.
Definition d_dex (t : table) : option TraderDexConfig :=
  let text k := defaulted d_str k t ""%string in
  a ← text "v2_factory"%string; b ← text "v2_router"%string; c ← text "v3_factory"%string;
  d ← text "v3_router"%string; e ← text "v3_quoter_v2"%string; f ← text "multicall3"%string;
  g ← text "wbnb"%string; h ← defaulted (d_list (d_uint 32)) "v3_fee_tiers" t [];
  i ← defaulted d_bool "prefer_v2" t false;
  Some {| v2_factory := a; v2_router := b; v3_factory := c; v3_router := d; v3_quoter_v2 := e;
          multicall3 := f; wbnb := g; v3_fee_tiers := h; prefer_v2 := i |}.

Record TraderConfig : Type := {
  tr_enabled : bool;
  tr_mode : string;
  min_buy_bnb_wei : string;
  kol_filter : list string;
  min_buy_usd : f64;
  size_fraction : f64;
  rpc_url : string;
  archive_rpc_url : string;
  ledger_dir : string;
  hold_timeout_secs : Z;
  sweep_interval_secs : Z;
  daily_summary_utc_hour : Z;
  slippage_bps_v2 : Z;
  slippage_bps_bonding : Z;
  gas_per_trade_usd : f64;
  per_kol_budget_bnb_wei : string;
  position_pct_bps : Z;
  dust_floor_wei : string;
  tr_telegram : TelegramConfig;
  dex : TraderDexConfig;
}.

(** [TraderConfig::default], of a section that is missing. *)
Definition no_trader : TraderConfig :=
  {| tr_enabled := false; tr_mode := ""; min_buy_bnb_wei := ""; kol_filter := []; min_buy_usd := f0;
     size_fraction := f0; rpc_url := ""; archive_rpc_url := ""; ledger_dir := "";
     hold_timeout_secs := 0; sweep_interval_secs := 0; daily_summary_utc_hour := 0;
     slippage_bps_v2 := 0; slippage_bps_bonding := 0; gas_per_trade_usd := f0;
     per_kol_budget_bnb_wei := ""; position_pct_bps := 0; dust_floor_wei := "";
     tr_telegram := no_telegram; dex := no_dex |}.

Definition d_trader (t : table) : option TraderConfig :=
  e ← required d_bool "enabled" t; m ← required d_str "mode" t;
  w ← required d_str "min_buy_bnb_wei" t;
  kf ← defaulted (d_list d_str) "kol_filter" t []; mu ← defaulted d_f64 "min_buy_usd" t f0;
  sf ← required d_f64 "size_fraction" t; r ← required d_str "rpc_url" t;
  ar ← defaulted d_str "archive_rpc_url" t ""%string; l ← required d_str "ledger_dir" t;
  h ← required (d_uint 64) "hold_timeout_secs" t; s ← required (d_uint 64) "sweep_interval_secs" t;
  u ← required (d_uint 8) "daily_summary_utc_hour" t;
  s2 ← defaulted (d_uint 32) "slippage_bps_v2" t 150;
  sb ← defaulted (d_uint 32) "slippage_bps_bonding" t 500;
  g ← defaulted d_f64 "gas_per_trade_usd" t (f64_lit 30 100);
  kb ← defaulted d_str "per_kol_budget_bnb_wei" t ""%string;
  pp ← defaulted (d_uint 32) "position_pct_bps" t 1000;
  df ← defaulted d_str "dust_floor_wei" t "1000000000000000"%string;
  tg ← defaulted (d_table d_telegram) "telegram" t no_telegram;
  dx ← defaulted (d_table d_dex) "dex" t no_dex;
  Some {| tr_enabled := e; tr_mode := m; min_buy_bnb_wei := w; kol_filter := kf; min_buy_usd := mu;
          size_fraction := sf; rpc_url := r; archive_rpc_url := ar; ledger_dir := l;
          hold_timeout_secs := h; sweep_interval_secs := s; daily_summary_utc_hour := u;
          slippage_bps_v2 := s2; slippage_bps_bonding := sb; gas_per_trade_usd := g;
          per_kol_budget_bnb_wei := kb; position_pct_bps := pp; dust_floor_wei := df;
          tr_telegram := tg; dex := dx |}.

(** The trail's state machine and the two endpoints of its watcher. *)
Record TrailSection : Type := { trail : TrailConfig; trail_ws_url : string; trail_rpc_url : string }.
Definition no_trail : TrailSection :=
  {| trail := default_trail; trail_ws_url := ""; trail_rpc_url := "" |}.
Definition d_trail (t : table) : option TrailSection :=
  e ← defaulted d_bool "enabled" t false;
  a ← defaulted d_f64 "arm_pct" t (arm_pct default_trail);
  tp ← defaulted d_f64 "trail_pct" t (trail_pct default_trail);
  sl ← defaulted d_f64 "hard_sl_pct" t (hard_sl_pct default_trail);
  h ← defaulted (d_uint 64) "max_hold_blocks" t (max_hold_blocks default_trail);
  w ← defaulted d_str "ws_url" t ""%string; r ← defaulted d_str "rpc_url" t ""%string;
  ba ← defaulted d_f64 "breakeven_at_pct" t (breakeven_at_pct default_trail);
  bl ← defaulted d_f64 "breakeven_lock_pct" t (breakeven_lock_pct default_trail);
  Some {| trail := {| enabled := e; arm_pct := a; trail_pct := tp; hard_sl_pct := sl;
                      max_hold_blocks := h; breakeven_at_pct := ba; breakeven_lock_pct := bl |};
          trail_ws_url := w; trail_rpc_url := r |}.

Record DevSniperConfig : Type := {
  sn_enabled : bool; sn_mode : string; trade_size_usd : f64; trade_size_bnb_wei : string;
  dev_whitelist_file : string; sn_ws_url : string; sn_rpc_url : string; profit_take_pct : f64;
  stop_loss_pct : f64; timeout_secs : Z; eval_interval_secs : Z;
}.
(** [DevSniperConfig::default] is derived: it does not use the fields' defaults. *)
Definition no_sniper : DevSniperConfig :=
  {| sn_enabled := false; sn_mode := ""; trade_size_usd := f0; trade_size_bnb_wei := "";
     dev_whitelist_file := ""; sn_ws_url := ""; sn_rpc_url := ""; profit_take_pct := f0;
     stop_loss_pct := f0; timeout_secs := 0; eval_interval_secs := 0 |}.
Definition d_sniper (t : table) : option DevSniperConfig :=
  e ← defaulted d_bool "enabled" t false; m ← defaulted d_str "mode" t "paper"%string;
  u ← defaulted d_f64 "trade_size_usd" t (f64_of_Z 10);
  b ← defaulted d_str "trade_size_bnb_wei" t ""%string;
  f ← defaulted d_str "dev_whitelist_file" t ""%string;
  w ← defaulted d_str "ws_url" t ""%string; r ← defaulted d_str "rpc_url" t ""%string;
  p ← defaulted d_f64 "profit_take_pct" t (f64_of_Z 50);
  s ← defaulted d_f64 "stop_loss_pct" t (f64_of_Z 30);
  o ← defaulted (d_uint 64) "timeout_secs" t 1800;
  i ← defaulted (d_uint 64) "eval_interval_secs" t 30;
  Some {| sn_enabled := e; sn_mode := m; trade_size_usd := u; trade_size_bnb_wei := b;
          dev_whitelist_file := f; sn_ws_url := w; sn_rpc_url := r; profit_take_pct := p;
          stop_loss_pct := s; timeout_secs := o; eval_interval_secs := i |}.

Record KolWatchConfig : Type := {
  kw_enabled : bool; file : string; groups : list string; kw_telegram : TelegramConfig }.
Definition no_kol_watch : KolWatchConfig :=
  {| kw_enabled := false; file := ""; groups := []; kw_telegram := no_telegram |}.
Definition d_kol_watch (t : table) : option KolWatchConfig :=
  e ← defaulted d_bool "enabled" t false; f ← defaulted d_str "file" t ""%string;
  g ← defaulted (d_list d_str) "groups" t [];
  tg ← defaulted (d_table d_telegram) "telegram" t no_telegram;
  Some {| kw_enabled := e; file := f; groups := g; kw_telegram := tg |}.

Record LiquidatorConfig : Type := {
  lq_enabled : bool; protocol : string; lq_rpc_url : string; lq_ledger_dir : option string;
  comptroller : string; poll_interval_secs : Z; watch_threshold : f64; alert_cooldown_secs : Z;
  min_alert_bounty_usd : f64; digest_interval_secs : Z; digest_top_n : Z; lq_telegram : TelegramConfig;
}.
Definition no_liquidator : LiquidatorConfig :=
  {| lq_enabled := false; protocol := ""; lq_rpc_url := ""; lq_ledger_dir := None; comptroller := "";
     poll_interval_secs := 0; watch_threshold := f0; alert_cooldown_secs := 0;
     min_alert_bounty_usd := f0; digest_interval_secs := 0; digest_top_n := 0;
     lq_telegram := no_telegram |}.
(** [ledger_dir] has both [default] and [Option]. *)
Definition d_liquidator (t : table) : option LiquidatorConfig :=
  e ← defaulted d_bool "enabled" t false; p ← defaulted d_str "protocol" t ""%string;
  r ← defaulted d_str "rpc_url" t ""%string; l ← optional d_str "ledger_dir" t;
  c ← defaulted d_str "comptroller" t ""%string; i ← defaulted (d_uint 64) "poll_interval_secs" t 0;
  w ← defaulted d_f64 "watch_threshold" t f0; a ← defaulted (d_uint 64) "alert_cooldown_secs" t 0;
  b ← defaulted d_f64 "min_alert_bounty_usd" t f0;
  d ← defaulted (d_uint 64) "digest_interval_secs" t 0; n ← defaulted (d_uint 64) "digest_top_n" t 0;
  tg ← defaulted (d_table d_telegram) "telegram" t no_telegram;
  Some {| lq_enabled := e; protocol := p; lq_rpc_url := r; lq_ledger_dir := l; comptroller := c;
          poll_interval_secs := i; watch_threshold := w; alert_cooldown_secs := a;
          min_alert_bounty_usd := b; digest_interval_secs := d; digest_top_n := n; lq_telegram := tg |}.

Record FourMemeConfig : Type := { fm_enabled : bool; launchpad : string }.
Definition no_four_meme : FourMemeConfig := {| fm_enabled := false; launchpad := "" |}.
Definition d_four_meme (t : table) : option FourMemeConfig :=
  e ← defaulted d_bool "enabled" t false; l ← defaulted d_str "launchpad" t ""%string;
  Some {| fm_enabled := e; launchpad := l |}.

(** ** The file *)

Record Config : Type := {
  chain : ChainConfig;
  listen_addr : string;
  capture : CaptureConfig;
  pipeline : Pipeline.PipelineConfig;
  sources : SourcesConfig;
  el_ws_url : string;
  trader : TraderConfig;
  trader_private : TraderConfig;
  kol_watch : KolWatchConfig;
  liquidator : LiquidatorConfig;
  four_meme : FourMemeConfig;
  dev_sniper : DevSniperConfig;
  adaptive_trail : TrailSection;
  sniper_trail : TrailSection;
}.

(** [load]: [v] is what figment merged, if it could. *)
Definition d_config (t : table) : option Config :=
  ch ← required (d_table d_chain) "chain" t;
  me ← required (d_table (required d_str "listen_addr")) "metrics" t;
  ca ← required (d_table d_capture) "capture" t; pi ← required (d_table d_pipeline) "pipeline" t;
  so ← required (d_table d_sources) "sources" t;
  bo ← required (d_table (required d_str "el_ws_url")) "block_oracle" t;
  tr ← required (d_table d_trader) "trader" t;
  tp ← defaulted (d_table d_trader) "trader_private" t no_trader;
  kw ← defaulted (d_table d_kol_watch) "kol_watch" t no_kol_watch;
  lq ← defaulted (d_table d_liquidator) "liquidator" t no_liquidator;
  fm ← defaulted (d_table d_four_meme) "four_meme" t no_four_meme;
  sn ← defaulted (d_table d_sniper) "dev_sniper" t no_sniper;
  at_ ← defaulted (d_table d_trail) "adaptive_trail" t no_trail;
  st ← defaulted (d_table d_trail) "sniper_trail" t no_trail;
  Some {| chain := ch; listen_addr := me; capture := ca; pipeline := pi; sources := so;
          el_ws_url := bo; trader := tr; trader_private := tp; kol_watch := kw; liquidator := lq;
          four_meme := fm; dev_sniper := sn; adaptive_trail := at_; sniper_trail := st |}.

Definition load (v : option value) : option Config := x ← v; d_table d_config x.

(** ** The reference encoder *)

Definition e_texts (l : list string) : value := VArray (VStr <$> l).
Definition e_ints (l : list Z) : value := VArray (VInt <$> l).
(** An [Option] that is [None] is left out. *)
Definition e_opt {A : Type} (k : string) (f : A → value) (o : option A) : table :=
  match o with Some x => [(k, f x)] | None => [] end.

Definition e_chain (c : ChainConfig) : table :=
  [("id", VInt (id c)); ("name", VStr (name c)); ("native_symbol", VStr (native_symbol c));
   ("native_decimals", VInt (native_decimals c))]%string.
Definition e_capture (c : CaptureConfig) : table :=
  [("enabled", VBool (cap_enabled c)); ("dir", VStr (dir c)); ("rotate_secs", VInt (rotate_secs c));
   ("retention_bytes", VInt (retention_bytes c)); ("max_age_secs", VInt (max_age_secs c));
   ("zstd_level", VInt (zstd_level c))]%string.
Definition e_pipeline (c : Pipeline.PipelineConfig) : table :=
  [("raw_channel_capacity", VInt (Pipeline.raw_channel_capacity c));
   ("decoded_channel_capacity", VInt (Pipeline.decoded_channel_capacity c));
   ("broadcast_capacity", VInt (Pipeline.broadcast_capacity c));
   ("dedupe_capacity", VInt (Pipeline.dedupe_capacity c));
   ("dedupe_ttl_secs", VInt (Pipeline.dedupe_ttl_secs c));
   ("decoder_workers", VInt (Pipeline.decoder_workers c));
   ("janitor_interval_secs", VInt (Pipeline.janitor_interval_secs c))]%string.
Definition e_wss (c : WssEntry) : table :=
  [("name", VStr (wss_name c)); ("source_id", VInt (source_id c)); ("url", VStr (url c))]%string ++
  e_opt "backfill_concurrency" VInt (backfill_concurrency c).
Definition e_sources (c : SourcesConfig) : table :=
  ("wss"%string, VArray ((λ x, VTable (e_wss x)) <$> wss c)) ::
  e_opt "ipc" (λ p, VTable (e_opt "path" VStr p)) (ipc c).
Definition e_telegram (c : TelegramConfig) : table :=
  [("enabled", VBool (tg_enabled c)); ("bot_token", VStr (bot_token c));
   ("chat_id", VInt (chat_id c))]%string.
Definition e_dex (c : TraderDexConfig) : table :=
  [("v2_factory", VStr (v2_factory c)); ("v2_router", VStr (v2_router c));
   ("v3_factory", VStr (v3_factory c)); ("v3_router", VStr (v3_router c));
   ("v3_quoter_v2", VStr (v3_quoter_v2 c)); ("multicall3", VStr (multicall3 c));
   ("wbnb", VStr (wbnb c)); ("v3_fee_tiers", e_ints (v3_fee_tiers c));
   ("prefer_v2", VBool (prefer_v2 c))]%string.
Definition e_trader (c : TraderConfig) : table :=
  [("enabled", VBool (tr_enabled c)); ("mode", VStr (tr_mode c));
   ("min_buy_bnb_wei", VStr (min_buy_bnb_wei c)); ("kol_filter", e_texts (kol_filter c));
   ("min_buy_usd", VFloat (min_buy_usd c)); ("size_fraction", VFloat (size_fraction c));
   ("rpc_url", VStr (rpc_url c)); ("archive_rpc_url", VStr (archive_rpc_url c));
   ("ledger_dir", VStr (ledger_dir c)); ("hold_timeout_secs", VInt (hold_timeout_secs c));
   ("sweep_interval_secs", VInt (sweep_interval_secs c));
   ("daily_summary_utc_hour", VInt (daily_summary_utc_hour c));
   ("slippage_bps_v2", VInt (slippage_bps_v2 c));
   ("slippage_bps_bonding", VInt (slippage_bps_bonding c));
   ("gas_per_trade_usd", VFloat (gas_per_trade_usd c));
   ("per_kol_budget_bnb_wei", VStr (per_kol_budget_bnb_wei c));
   ("position_pct_bps", VInt (position_pct_bps c)); ("dust_floor_wei", VStr (dust_floor_wei c));
   ("telegram", VTable (e_telegram (tr_telegram c))); ("dex", VTable (e_dex (dex c)))]%string.
Definition e_trail (c : TrailSection) : table :=
  [("enabled", VBool (enabled (trail c))); ("arm_pct", VFloat (arm_pct (trail c)));
   ("trail_pct", VFloat (trail_pct (trail c))); ("hard_sl_pct", VFloat (hard_sl_pct (trail c)));
   ("max_hold_blocks", VInt (max_hold_blocks (trail c))); ("ws_url", VStr (trail_ws_url c));
   ("rpc_url", VStr (trail_rpc_url c)); ("breakeven_at_pct", VFloat (breakeven_at_pct (trail c)));
   ("breakeven_lock_pct", VFloat (breakeven_lock_pct (trail c)))]%string.
Definition e_sniper (c : DevSniperConfig) : table :=
  [("enabled", VBool (sn_enabled c)); ("mode", VStr (sn_mode c));
   ("trade_size_usd", VFloat (trade_size_usd c)); ("trade_size_bnb_wei", VStr (trade_size_bnb_wei c));
   ("dev_whitelist_file", VStr (dev_whitelist_file c)); ("ws_url", VStr (sn_ws_url c));
   ("rpc_url", VStr (sn_rpc_url c)); ("profit_take_pct", VFloat (profit_take_pct c));
   ("stop_loss_pct", VFloat (stop_loss_pct c)); ("timeout_secs", VInt (timeout_secs c));
   ("eval_interval_secs", VInt (eval_interval_secs c))]%string.
Definition e_kol_watch (c : KolWatchConfig) : table :=
  [("enabled", VBool (kw_enabled c)); ("file", VStr (file c)); ("groups", e_texts (groups c));
   ("telegram", VTable (e_telegram (kw_telegram c)))]%string.
Definition e_liquidator (c : LiquidatorConfig) : table :=
  [("enabled", VBool (lq_enabled c)); ("protocol", VStr (protocol c));
   ("rpc_url", VStr (lq_rpc_url c))]%string ++ e_opt "ledger_dir" VStr (lq_ledger_dir c) ++
  [("comptroller", VStr (comptroller c)); ("poll_interval_secs", VInt (poll_interval_secs c));
   ("watch_threshold", VFloat (watch_threshold c));
   ("alert_cooldown_secs", VInt (alert_cooldown_secs c));
   ("min_alert_bounty_usd", VFloat (min_alert_bounty_usd c));
   ("digest_interval_secs", VInt (digest_interval_secs c)); ("digest_top_n", VInt (digest_top_n c));
   ("telegram", VTable (e_telegram (lq_telegram c)))]%string.
Definition e_four_meme (c : FourMemeConfig) : table :=
  [("enabled", VBool (fm_enabled c)); ("launchpad", VStr (launchpad c))]%string.

Definition encode (c : Config) : value :=
  VTable [("chain", VTable (e_chain (chain c)));
    ("metrics", VTable [("listen_addr", VStr (listen_addr c))]);
    ("capture", VTable (e_capture (capture c))); ("pipeline", VTable (e_pipeline (pipeline c)));
    ("sources", VTable (e_sources (sources c)));
    ("block_oracle", VTable [("el_ws_url", VStr (el_ws_url c))]);
    ("trader", VTable (e_trader (trader c)));
    ("trader_private", VTable (e_trader (trader_private c)));
    ("kol_watch", VTable (e_kol_watch (kol_watch c)));
    ("liquidator", VTable (e_liquidator (liquidator c)));
    ("four_meme", VTable (e_four_meme (four_meme c)));
    ("dev_sniper", VTable (e_sniper (dev_sniper c)));
    ("adaptive_trail", VTable (e_trail (adaptive_trail c)));
    ("sniper_trail", VTable (e_trail (sniper_trail c)))]%string.

(** ** The ranges of the fields' types *)

Definition u8 := in_width 8.
Definition u32 := in_width 32.
Definition u64 := in_width 64.

Definition f_chain (c : ChainConfig) : Prop := u64 (id c) ∧ u8 (native_decimals c).
Definition f_capture (c : CaptureConfig) : Prop :=
  u64 (rotate_secs c) ∧ u64 (retention_bytes c) ∧ u64 (max_age_secs c) ∧
  imin 32 ≤ zstd_level c ≤ imax 32.
Definition f_pipeline (c : Pipeline.PipelineConfig) : Prop :=
  u64 (Pipeline.raw_channel_capacity c) ∧ u64 (Pipeline.decoded_channel_capacity c) ∧
  u64 (Pipeline.broadcast_capacity c) ∧ u64 (Pipeline.dedupe_capacity c) ∧
  u64 (Pipeline.dedupe_ttl_secs c) ∧ u64 (Pipeline.decoder_workers c) ∧
  u64 (Pipeline.janitor_interval_secs c).
Definition f_wss (c : WssEntry) : Prop :=
  u8 (source_id c) ∧ match backfill_concurrency c with Some n => u64 n | None => True end.
Definition f_telegram (c : TelegramConfig) : Prop := imin 64 ≤ chat_id c ≤ imax 64.
Definition f_trader (c : TraderConfig) : Prop :=
  u64 (hold_timeout_secs c) ∧ u64 (sweep_interval_secs c) ∧ u8 (daily_summary_utc_hour c) ∧
  u32 (slippage_bps_v2 c) ∧ u32 (slippage_bps_bonding c) ∧ u32 (position_pct_bps c) ∧
  f_telegram (tr_telegram c) ∧ Forall u32 (v3_fee_tiers (dex c)).
Definition f_trail (c : TrailSection) : Prop := u64 (max_hold_blocks (trail c)).
Definition f_sniper (c : DevSniperConfig) : Prop := u64 (timeout_secs c) ∧ u64 (eval_interval_secs c).
Definition f_liquidator (c : LiquidatorConfig) : Prop :=
  u64 (poll_interval_secs c) ∧ u64 (alert_cooldown_secs c) ∧ u64 (digest_interval_secs c) ∧
  u64 (digest_top_n c) ∧ f_telegram (lq_telegram c).

Definition fits (c : Config) : Prop :=
  f_chain (chain c) ∧ f_capture (capture c) ∧ f_pipeline (pipeline c) ∧
  Forall f_wss (wss (sources c)) ∧ f_trader (trader c) ∧ f_trader (trader_private c) ∧
  f_telegram (kw_telegram (kol_watch c)) ∧ f_liquidator (liquidator c) ∧ f_sniper (dev_sniper c) ∧
  f_trail (adaptive_trail c) ∧ f_trail (sniper_trail c).

(** ** Lemmas: each struct reads back *)

Lemma uint_back w n : in_width w n → d_uint w (VInt n) = Some n.
Proof.
  intros [H1 H2]. cbn. unfold try_from_width.
  by rewrite (proj2 (Z.leb_le _ _) H1), (proj2 (Z.ltb_lt _ _) H2).
Qed.
Lemma i64_back n : imin 64 ≤ n ≤ imax 64 → d_i64 (VInt n) = Some n.
Proof. intros [H1 H2]. cbn. by rewrite (proj2 (Z.leb_le _ _) H1), (proj2 (Z.leb_le _ _) H2). Qed.
Lemma i32_back n : imin 32 ≤ n ≤ imax 32 → d_i32 (VInt n) = Some n.
Proof. intros [H1 H2]. cbn. by rewrite (proj2 (Z.leb_le _ _) H1), (proj2 (Z.leb_le _ _) H2). Qed.

Lemma list_back {A B} (d : value → option A) (e : B → value) (f : B → A) l :
  (∀ x, x ∈ l → d (e x) = Some (f x)) → d_list d (VArray (e <$> l)) = Some (f <$> l).
Proof.
  cbn. induction l as [|x l IH]; intros H; [done|]. cbn.
  rewrite H by set_solver. cbn. rewrite IH by set_solver. done.
Qed.

Lemma texts_back l : d_list d_str (e_texts l) = Some l.
Proof. unfold e_texts. rewrite (list_back d_str VStr (λ s, s)) by done. by rewrite list_fmap_id. Qed.
Lemma ints_back w l : Forall (in_width w) l → d_list (d_uint w) (e_ints l) = Some l.
Proof.
  intros H. unfold e_ints. rewrite (list_back (d_uint w) VInt (λ n, n)); [by rewrite list_fmap_id|].
  intros n Hn. apply uint_back. by eapply Forall_forall in H.
Qed.

(** Looks the members up, decodes the ones in range, and puts the struct
    together again. *)
Ltac members := unfold required, defaulted, optional; cbn [member String.eqb Ascii.eqb Bool.eqb
  app e_opt mbind option_bind d_table d_str d_bool d_f64].
Ltac read_back := members;
  repeat first [rewrite uint_back by done|rewrite i64_back by done|rewrite i32_back by done
               |rewrite texts_back|rewrite (ints_back 32) by done];
  cbn [mbind option_bind].

Lemma chain_back c : f_chain c → d_chain (e_chain c) = Some c.
Proof. intros [? ?]. unfold d_chain, e_chain. read_back. by destruct c. Qed.

Lemma capture_back c : f_capture c → d_capture (e_capture c) = Some c.
Proof. intros (? & ? & ? & ?). unfold d_capture, e_capture. read_back. by destruct c. Qed.

Lemma pipeline_back c : f_pipeline c → d_pipeline (e_pipeline c) = Some c.
Proof. intros (? & ? & ? & ? & ? & ? & ?). unfold d_pipeline, e_pipeline. read_back. by destruct c. Qed.

Lemma wss_back c : f_wss c → d_wss (e_wss c) = Some c.
Proof.
  intros [? Hb]. unfold d_wss, e_wss. destruct (backfill_concurrency c) as [b|] eqn:E;
    read_back; destruct c; by simplify_eq/=.
Qed.

Lemma sources_back c : Forall f_wss (wss c) → d_sources (e_sources c) = Some c.
Proof.
  intros Hw. unfold d_sources, e_sources. members.
  rewrite (list_back (d_table d_wss) (λ x, VTable (e_wss x)) (λ x, x)).
  2: { intros x Hx. apply wss_back. by eapply Forall_forall in Hw. }
  rewrite list_fmap_id. cbn [mbind option_bind]. destruct c as [w [[p|]|]]; done.
Qed.

Lemma telegram_back c : f_telegram c → d_telegram (e_telegram c) = Some c.
Proof. intros ?. unfold d_telegram, e_telegram. read_back. by destruct c. Qed.

Lemma dex_back c : Forall u32 (v3_fee_tiers c) → d_dex (e_dex c) = Some c.
Proof. intros ?. unfold d_dex, e_dex. read_back. by destruct c. Qed.

Lemma trader_back c : f_trader c → d_trader (e_trader c) = Some c.
Proof.
  intros (? & ? & ? & ? & ? & ? & ? & ?). unfold d_trader, e_trader. read_back.
  rewrite telegram_back, dex_back by done. cbn [mbind option_bind]. by destruct c.
Qed.

Lemma trail_back c : f_trail c → d_trail (e_trail c) = Some c.
Proof. intros ?. unfold d_trail, e_trail. read_back. by destruct c as [[] ? ?]. Qed.

Lemma sniper_back c : f_sniper c → d_sniper (e_sniper c) = Some c.
Proof. intros [? ?]. unfold d_sniper, e_sniper. read_back. by destruct c. Qed.

Lemma kol_watch_back c : f_telegram (kw_telegram c) → d_kol_watch (e_kol_watch c) = Some c.
Proof.
  intros ?. unfold d_kol_watch, e_kol_watch. read_back. rewrite telegram_back by done.
  cbn [mbind option_bind]. by destruct c.
Qed.

Lemma liquidator_back c : f_liquidator c → d_liquidator (e_liquidator c) = Some c.
Proof.
  intros (? & ? & ? & ? & ?). unfold d_liquidator, e_liquidator.
  destruct (lq_ledger_dir c) as [d|] eqn:E; read_back; rewrite telegram_back by done;
    destruct c; by simplify_eq/=.
Qed.

Lemma four_meme_back c : d_four_meme (e_four_meme c) = Some c.
Proof. unfold d_four_meme, e_four_meme. members. by destruct c. Qed.

(** ** Properties *)


(** A part is switched on by its own section. *)
Definition switched_on (sec : string) (t : table) : Prop :=
  ∃ s, member sec t = Some (VTable s) ∧ member "enabled" s = Some (VBool true).

(** Opens a decoder that succeeded. *)
Ltac binds H := repeat (apply bind_Some in H as (? & ? & H)); injection H as <-.

Lemma enabled_defaulted s : defaulted d_bool "enabled" s false = Some true →
  member "enabled" s = Some (VBool true).
Proof. unfold defaulted. destruct (member _ s) as [[]|]; naive_solver. Qed.
Lemma enabled_required s : required d_bool "enabled" s = Some true →
  member "enabled" s = Some (VBool true).
Proof. unfold required. destruct (member _ s) as [[]|]; naive_solver. Qed.

Lemma required_member {A} (d : value → option A) k t x :
  required d k t = Some x → is_Some (member k t).
Proof. unfold required. intros (v & -> & _)%bind_Some. eauto. Qed.

Section Switch.
Context {A : Type} (d : table → option A) (on : A → bool).
Context (Hd : ∀ s x, d s = Some x → on x = true → member "enabled" s = Some (VBool true)).

Lemma switched_required k t x :
required (d_table d) k t = Some x → on x = true → switched_on k t.
Proof.
unfold required. intros (v & Hm & Hv)%bind_Some Hon. destruct v; try done. exists t0. eauto.
Qed.

Lemma switched_defaulted k t x0 x :
defaulted (d_table d) k t x0 = Some x → on x0 = false → on x = true → switched_on k t.
Proof.
unfold defaulted. destruct (member k t) as [v|] eqn:Hm; intros Hv H0 Hon; [|congruence].
destruct v; try done. exists t0. eauto.
Qed.
End Switch.

Lemma trader_on s x : d_trader s = Some x → tr_enabled x = true →
  member "enabled" s = Some (VBool true).
Proof. unfold d_trader. intros H. binds H. cbn. intros ->. by apply enabled_required. Qed.
Lemma capture_on s x : d_capture s = Some x → cap_enabled x = true →
  member "enabled" s = Some (VBool true).
Proof. unfold d_capture. intros H. binds H. cbn. intros ->. by apply enabled_required. Qed.
Lemma kol_watch_on s x : d_kol_watch s = Some x → kw_enabled x = true →
  member "enabled" s = Some (VBool true).
Proof. unfold d_kol_watch. intros H. binds H. cbn. intros ->. by apply enabled_defaulted. Qed.
Lemma liquidator_on s x : d_liquidator s = Some x → lq_enabled x = true →
  member "enabled" s = Some (VBool true).
Proof. unfold d_liquidator. intros H. binds H. cbn. intros ->. by apply enabled_defaulted. Qed.
Lemma sniper_on s x : d_sniper s = Some x → sn_enabled x = true →
  member "enabled" s = Some (VBool true).
Proof. unfold d_sniper. intros H. binds H. cbn. intros ->. by apply enabled_defaulted. Qed.
Lemma trail_on s x : d_trail s = Some x → enabled (trail x) = true →
  member "enabled" s = Some (VBool true).
Proof. unfold d_trail. intros H. binds H. cbn. intros ->. by apply enabled_defaulted. Qed.

(** Everything is opt-in.  From any file that loads, a part runs only when its
    section is there and says [enabled = true]: the traders, the KOL watcher,
    the liquidator, the sniper, both trails and the capture; and a file without
    a pipeline, a trader or a source section does not load at all. *)
Theorem parts_are_opt_in t c :
  load (Some (VTable t)) = Some c →
  (tr_enabled (trader c) = true → switched_on "trader" t) ∧
  (tr_enabled (trader_private c) = true → switched_on "trader_private" t) ∧
  (kw_enabled (kol_watch c) = true → switched_on "kol_watch" t) ∧
  (lq_enabled (liquidator c) = true → switched_on "liquidator" t) ∧
  (sn_enabled (dev_sniper c) = true → switched_on "dev_sniper" t) ∧
  (enabled (trail (adaptive_trail c)) = true → switched_on "adaptive_trail" t) ∧
  (enabled (trail (sniper_trail c)) = true → switched_on "sniper_trail" t) ∧
  (cap_enabled (capture c) = true → switched_on "capture" t) ∧
  is_Some (member "pipeline" t) ∧ is_Some (member "trader" t) ∧ is_Some (member "sources" t).
Proof.
  intros Ht. cbn in Ht. unfold d_config in Ht. binds Ht. cbn [trader trader_private kol_watch
    liquidator dev_sniper adaptive_trail sniper_trail capture].
  split_and!.
  - by apply (switched_required _ _ trader_on).
  - by apply (switched_defaulted _ _ trader_on _ _ no_trader).
  - by apply (switched_defaulted _ _ kol_watch_on _ _ no_kol_watch).
  - by apply (switched_defaulted _ _ liquidator_on _ _ no_liquidator).
  - by apply (switched_defaulted _ _ sniper_on _ _ no_sniper).
  - by apply (switched_defaulted _ _ trail_on _ _ no_trail).
  - by apply (switched_defaulted _ _ trail_on _ _ no_trail).
  - by apply (switched_required _ _ capture_on).
  - by eapply required_member.
  - by eapply required_member.
  - by eapply required_member.
Qed.

(** The shipped file lists the WSS providers under the wrong table.  In
    config/default.toml the [wss] array follows the [[sources.ipc]] header, so
    it is a member of that table, which the deserialiser ignores: whatever
    providers are entered there, the configuration has no WSS source. *)
Theorem shipped_wss_list_is_ignored t c path providers :
  load (Some (VTable t)) = Some c →
  member "sources" t =
    Some (VTable [("ipc"%string, VTable [("path"%string, VStr path);
                                         ("wss"%string, VArray providers)])]) →
  wss (sources c) = [] ∧ ipc (sources c) = Some (Some path).
Proof.
  intros Ht Hs. cbn in Ht. unfold d_config in Ht. binds Ht. cbn.
  match goal with H : required (d_table d_sources) _ _ = _ |- _ =>
    unfold required in H; rewrite Hs in H; by injection H as <- end.
Qed.

(** ** Witnesses *)

Module Shipped.
Local Open Scope string_scope.
Definition telegram : value := VTable [("enabled", VBool false); ("chat_id", VInt (-1003366848833))].
Definition exchange : value := VTable [
("v2_factory", VStr "0xcA143Ce32Fe78f1f7019d7d551a6402fC5350c73");
("v2_router", VStr "0x10ED43C718714eb63d5aA57B78B54704E256024E");
("v3_fee_tiers", VArray [VInt 10000; VInt 2500; VInt 500; VInt 100]); ("prefer_v2", VBool true)].
Definition paper (ledger : string) (v2 bonding : Z) : value := VTable [
("enabled", VBool true); ("mode", VStr "paper"); ("min_buy_bnb_wei", VStr "500000000000000000");
("kol_filter", VArray []); ("min_buy_usd", VFloat (f64_of_Z 50));
("size_fraction", VFloat (f64_lit 1 100)); ("rpc_url", VStr "http://127.0.0.1:8545");
("ledger_dir", VStr ledger); ("hold_timeout_secs", VInt 86400); ("sweep_interval_secs", VInt 300);
("daily_summary_utc_hour", VInt 0); ("per_kol_budget_bnb_wei", VStr "300000000000000000");
("position_pct_bps", VInt 1000); ("dust_floor_wei", VStr "1000000000000000");
("slippage_bps_v2", VInt v2); ("slippage_bps_bonding", VInt bonding);
("gas_per_trade_usd", VFloat (f64_lit 30 100)); ("telegram", telegram); ("dex", exchange)].
(** config/default.toml, with [providers] in its [wss] array. *)
Definition file (providers : list value) : table := [
("chain", VTable [("id", VInt 56); ("name", VStr "bsc-mainnet"); ("native_symbol", VStr "BNB");
        ("native_decimals", VInt 18)]);
("metrics", VTable [("listen_addr", VStr "127.0.0.1:9102")]);
("capture", VTable [("enabled", VBool false); ("dir", VStr "/data/bsc-meme-mev/captures");
("rotate_secs", VInt 3600); ("retention_bytes", VInt 107374182400);
("max_age_secs", VInt 172800); ("zstd_level", VInt 3)]);
("pipeline", VTable (e_pipeline Pipeline.default_config));
("sources", VTable [("ipc", VTable [("path", VStr "/data/bsc-meme-mev/bsc-geth/geth.ipc");
                          ("wss", VArray providers)])]);
("block_oracle", VTable [("el_ws_url", VStr "ws://127.0.0.1:8546")]);
("kol_watch", VTable [("enabled", VBool true); ("file", VStr "config/kols.toml");
            ("groups", VArray [])]);
("trader", paper "/data/bsc-meme-mev/trader" 150 500);
("trader_private", paper "/data/bsc-meme-mev/trader_private" 100 400);
("adaptive_trail", VTable [("enabled", VBool true); ("arm_pct", VFloat (f64_lit 30 100));
("trail_pct", VFloat (f64_lit 30 100)); ("hard_sl_pct", VFloat (f64_lit 30 100));
("max_hold_blocks", VInt 4000)]);
("dev_sniper", VTable [("enabled", VBool true); ("mode", VStr "paper");
("trade_size_bnb_wei", VStr "27100000000000000")])].
Definition provider : value :=
VTable [("name", VStr "quicknode-bsc"); ("source_id", VInt 1); ("url", VStr "wss://host")].
(** The configuration it gives, with the trader that is not configured. *)
Definition config : Config :=
unwrap_or (load (Some (VTable (file []))))
{| chain := {| id := 0; name := ""; native_symbol := ""; native_decimals := 0 |};
listen_addr := ""; capture := {| cap_enabled := false; dir := ""; rotate_secs := 0;
retention_bytes := 0; max_age_secs := 0; zstd_level := 0 |};
pipeline := Pipeline.default_config; sources := {| wss := []; ipc := None |}; el_ws_url := "";
trader := no_trader; trader_private := no_trader; kol_watch := no_kol_watch;
liquidator := no_liquidator; four_meme := no_four_meme; dev_sniper := no_sniper;
adaptive_trail := no_trail; sniper_trail := no_trail |}.
End Shipped.


Lemma parts_are_opt_in_witness :
  load (Some (VTable (Shipped.file []))) = Some Shipped.config ∧
  enabled (trail (adaptive_trail Shipped.config)) = true ∧
  switched_on "adaptive_trail" (Shipped.file []).
Proof.
  assert (load (Some (VTable (Shipped.file []))) = Some Shipped.config) as H
    by (vm_compute; reflexivity).
  split; [exact H|]. split; [vm_compute; reflexivity|].
  destruct (parts_are_opt_in (Shipped.file []) Shipped.config H) as (_ & _ & _ & _ & _ & Ht & _).
  apply Ht. vm_compute. reflexivity.
Defined.

Lemma shipped_wss_list_is_ignored_witness :
  ∃ c, load (Some (VTable (Shipped.file [Shipped.provider]))) = Some c ∧ wss (sources c) = [].
Proof.
  destruct (load (Some (VTable (Shipped.file [Shipped.provider])))) as [c|] eqn:E;
    [|vm_compute in E; discriminate].
  exists c. split; [reflexivity|].
  apply (shipped_wss_list_is_ignored (Shipped.file [Shipped.provider]) c
    "/data/bsc-meme-mev/bsc-geth/geth.ipc" [Shipped.provider] E). reflexivity.
Defined.
