(* ===== verification/Runner.v ===== *)
(** * wiring.rs, trader/mod.rs: starting the program

    From the configuration, the files and the environment: which parts start,
    and in which state.  [run] puts the parts of [System] together; the paper
    traders, the live trader and the sources have their own starts, each of
    which can decline.  The daily summary's clock and the head updater's
    reconnection are here too. *)

From Stdlib Require Import ZArith Lia Floats.SpecFloat Ascii String.
From S2P Require Import Prelude F64 Bytes Types Dex Bus.
From S2P Require Kol KolBudget Positions Strategy FourMeme ExecMath Limits Nonce Executor Trail Live.
From S2P Require PaperPrice Paper Csv Sniper Sources DevResolver System Config.

Local Abbreviation text := (list ascii) (only parsing).
#[local] Existing Instance Sniper.executor_buys.

(** ** The paper traders *)

Record PaperTrader : Type := {
  p_executor : Paper.PaperExecutor;
  p_config : Paper.PaperConfig;
  p_strategy : Strategy.StrategyConfig;
  p_alerts : bool;
  p_hold_secs : Z;
  p_sweep_secs : Z;
  p_summary_hour : option Z;
}.

(** What [start] finds on the disk: the directory, the book, the budgets. *)
Record LedgerDir : Type := {
  ld_ready : bool;
  ld_book : Positions.Ledger.json_file;
  ld_budgets : option (gmap string KolBudget.KolBudget);
  ld_disk : Paper.Disk;
}.

Definition parse_u128 (s : string) : option Z := Trail.parse_u128 (list_ascii_of_string s).

(** The budget book, when a budget is configured. *)
Definition budgets_of (cfg : Config.TraderConfig) (d : LedgerDir) : option KolBudget.KolBudgetBook :=
  let budget_wei := unwrap_or (parse_u128 (Config.per_kol_budget_bnb_wei cfg)) 0 in
  if 0 <? budget_wei then
    let dust := unwrap_or (parse_u128 (Config.dust_floor_wei cfg)) 1000000000000000 in
    Some (KolBudget.load_or_new (ld_budgets d) budget_wei (Config.position_pct_bps cfg) dust)
  else None.

Definition alerts_on (t : Config.TelegramConfig) : bool :=
  Config.tg_enabled t && negb (String.eqb (Config.bot_token t) "") && negb (Config.chat_id t =? 0).

Definition start (cfg : Config.TraderConfig) (d : LedgerDir) (now : Z) : option PaperTrader :=
  if negb (Config.tr_enabled cfg) then None
  else if negb (String.eqb (Config.tr_mode cfg) "paper") then None
  else if negb (ld_ready d) then None
  else Some {|
    p_executor := Paper.PaperExecutor_new now (ld_book d) (budgets_of cfg d)
      {| PaperPrice.calls := 0; PaperPrice.last_ns := 0 |} (ld_disk d);
    p_config := {| Paper.costs := {| Paper.slip_v2_bps := Config.slippage_bps_v2 cfg;
        Paper.slip_bonding_bps := Config.slippage_bps_bonding cfg;
        Paper.gas_per_trade_usd := Config.gas_per_trade_usd cfg |};
      Paper.archive_on := negb (String.eqb (Config.archive_rpc_url cfg) "") |};
    p_strategy := {| Strategy.kol_filter := Config.kol_filter cfg;
      Strategy.min_buy_usd := Config.min_buy_usd cfg; Strategy.min_buy_bnb := f0;
      Strategy.size_fraction := Config.size_fraction cfg |};
    p_alerts := alerts_on (Config.tr_telegram cfg);
    p_hold_secs := Config.hold_timeout_secs cfg;
    p_sweep_secs := Z.max (Config.sweep_interval_secs cfg) 60;
    p_summary_hour := if Config.daily_summary_utc_hour cfg <? 24
                      then Some (Config.daily_summary_utc_hour cfg) else None |}.

(** Its consumer and its sweeper, before the first hit. *)
Definition paper_task (p : PaperTrader) : System.PaperTask :=
  {| System.pt_config := p_config p; System.pt_strategy := p_strategy p;
     System.pt_hold_secs := p_hold_secs p;
     System.pt_history := {| Paper.final := p_executor p; Paper.closed := []; Paper.entries := [] |} |}.

(** [run_daily_summary]: how long to sleep at [now], in seconds. *)
Definition summary_wait (now utc_hour : Z) : Z :=
  let seconds_today := now mod 86400 in
  let target := sat_mul 64 utc_hour 3600 in
  if seconds_today <? target then target - seconds_today else 86400 - seconds_today + target.

(** The times it fires at: each turn takes [late] longer than it slept. *)
Fixpoint summaries (now utc_hour : Z) (late : list Z) : list Z :=
  match late with
  | [] => []
  | l :: late => let fired := now + summary_wait now utc_hour + l in
                 fired :: summaries fired utc_hour late
  end.

(** ** The live trader *)

(** What [build_live_executor] reads: config/limits.toml, the wallet's two
    variables, the nonce file and the node's pending nonce, the live ledger
    ([None] when it cannot be opened), the blacklist, and whether the HTTP
    client can be built. *)
Record LiveWorld : Type := {
  lw_limits : option string;
  lw_key : option text;
  lw_address : option text;
  lw_nonce_file : option text;
  lw_nonce_reply : rpc_reply;
  lw_ledger : option Csv.found_file;
  lw_blacklist : ExecMath.blacklist_file;
  lw_http : bool;
  lw_now : Z;
}.

Section Live.
Context (toml : string → option Limits.LimitsConfig).
Context {Key : Type} (key_from_str : text → option Key) (key_address : Key → Address).
Context (address_from_str : text → option Address) (parse_address : string → option Address).

(** [TraderWallet::from_env]. *)
Definition from_env (w : LiveWorld) : option (DevResolver.Wallet.TraderWallet Key) :=
k ← lw_key w; a ← lw_address w;
match DevResolver.Wallet.from_parts key_from_str key_address address_from_str k a with
| Ok t => Some t
| Err _ => None
end.

Definition build_live_executor (w : LiveWorld) : option Executor.LiveExecutor :=
match Limits.load_config toml (lw_limits w) with
| Err _ => None
| Ok cfg =>
wallet ← from_env w;
match Nonce.NonceManager_new true (lw_nonce_file w) (lw_nonce_reply w) with
| Err _ => None
| Ok nonce =>
_ ← lw_ledger w;
let blacklist :=
  match ExecMath.blacklist_load parse_address (lw_blacklist w) with
  | Ok b => Some b
  | Err _ => None
  end in
if negb (lw_http w) then None
else Some (Executor.LiveExecutor_new (DevResolver.Wallet.address wallet) nonce
       (Limits.LimitsRuntime_new cfg (lw_now w))
       {| ExecMath.rows := []; ExecMath.open_count := 0 |} blacklist)
end
end.

(** [start_live_only], with the baseline its poller reads. *)
Definition start_live_only (trail : Trail.TrailConfig) (w : LiveWorld) (balance : option f64)
: option Live.LiveTrader :=
e ← build_live_executor w; Some (Live.start_live_only trail e balance (lw_now w)).
End Live.

(** ** The sources and the head updater *)

(** [spawn_sources]: the WSS sources with a valid URL, and the IPC socket. *)
Definition wss_config (e : Config.WssEntry) : Sources.WssConfig :=
  let c := Sources.WssConfig_new (Config.source_id e) in
  {| Sources.source_id := Sources.source_id c;
     Sources.backfill_concurrency :=
       unwrap_or (Config.backfill_concurrency e) (Sources.backfill_concurrency c);
     Sources.backfill_retries := Sources.backfill_retries c;
     Sources.initial_backoff := Sources.initial_backoff c; Sources.max_backoff := Sources.max_backoff c |}.

Definition spawn_sources (valid_url : string → bool) (auto_detect : option string)
    (s : Config.SourcesConfig) : list Sources.WssConfig * option string :=
  (wss_config <$> filter (λ e, valid_url (Config.url e) = true) (Config.wss s),
   entry ← Config.ipc s; match entry with Some p => Some p | None => auto_detect end).

(** The loop around every head and log subscription of the runner: the pauses
    and whether it returned; a subscription that ended in order resets them. *)
Fixpoint subscribe_loop (cap backoff : Z) (lives : list Sources.life) : list Z * bool :=
  match lives with
  | [] => ([], false)
  | Sources.ShutDown :: _ => ([], true)
  | l :: lives =>
      let delay := match l with Sources.Ended => 500 | _ => backoff end in
      let '(waits, stopped) := subscribe_loop cap (Z.min (delay * 2) cap) lives in
      (delay :: waits, stopped)
  end.
Definition run_head_state_updater : list Sources.life → list Z * bool := subscribe_loop 10000 500.
Definition kol_confirm_start : list Sources.life → list Z * bool := subscribe_loop 10000 500.
Definition price_feed_start : list Sources.life → list Z * bool := subscribe_loop 15000 500.
Definition sniper_detection : list Sources.life → list Z * bool := subscribe_loop 15000 500.
Definition trail_start (cfg : Trail.TrailConfig) (lives : list Sources.life) : list Z * bool :=
  if Trail.enabled cfg then subscribe_loop 15000 500 lives else ([], true).

(** The block oracle: it idles without a node or a table, and its backoff is
    never reset. *)
Fixpoint oracle_loop (backoff : Z) (lives : list Sources.life) : list Z * bool :=
  match lives with
  | [] => ([], false)
  | Sources.ShutDown :: _ => ([], true)
  | _ :: lives =>
      let '(waits, stopped) := oracle_loop (Z.min (backoff * 2) 10000) lives in
      (backoff :: waits, stopped)
  end.
Definition block_oracle_run (el_ws_url : option string) (dedupe : bool) (lives : list Sources.life)
  : list Z * bool :=
  match el_ws_url with
  | Some _ => if dedupe then oracle_loop 500 lives else ([], bool_decide (Sources.ShutDown ∈ lives))
  | None => ([], bool_decide (Sources.ShutDown ∈ lives))
  end.

(** ** The program *)

(** Everything [run] finds outside. *)
Record World : Type := {
  w_metrics : bool;          (* the metrics address parses, its server starts *)
  w_capture : bool;          (* the capture directory opens *)
  w_public : LedgerDir;
  w_private : LedgerDir;
  w_live : LiveWorld;
  w_balance : option f64;
  w_kols : string → option (list Kol.Watch.Kol);
  w_devs : string → option (gset Address);
  w_valid_url : string → bool;
  w_auto_detect : option string;
  w_now : Z;
}.

(** What is running afterwards. *)
Record Running (TxEnvelope : Type) : Type := {
  r_system : System.System (TxEnvelope := TxEnvelope);
  r_index : gmap Address Kol.Watch.Kol;
  r_watching : bool;
  r_public : option PaperTrader;
  r_private : option PaperTrader;
  r_flow : bool;
  r_capture : bool;
  r_liquidator : bool;
  r_sniper : option (Sniper.SniperConfig * gset Address * Sniper.Sniper Executor.LiveExecutor);
  r_sources : list Sources.WssConfig * option string;
}.
Arguments r_system {_}. Arguments r_index {_}. Arguments r_watching {_}. Arguments r_public {_}.
Arguments r_private {_}. Arguments r_flow {_}. Arguments r_capture {_}. Arguments r_liquidator {_}.
Arguments r_sniper {_}. Arguments r_sources {_}.

Definition kol_file (cfg : Config.KolWatchConfig) : string :=
  if String.eqb (Config.file cfg) "" then "config/kols.toml"%string else Config.file cfg.

(** The KOL list both watchers load; a list that cannot be read is empty. *)
Definition kol_index (cfg : Config.KolWatchConfig) (w : World) : gmap Address Kol.Watch.Kol :=
  if Config.kw_enabled cfg
  then unwrap_or (Kol.Watch.load (w_kols w (kol_file cfg)) (Config.groups cfg)) ∅ else ∅.

(** [kol_watch::start]: the index its consumer runs with and whether the
    Telegram channel exists; it does not start without a list. *)
Definition kol_watch_start (cfg : Config.KolWatchConfig) (kols : string → option (list Kol.Watch.Kol))
  : option (gmap Address Kol.Watch.Kol * bool) :=
  if negb (Config.kw_enabled cfg) then None
  else
    index ← Kol.Watch.load (kols (kol_file cfg)) (Config.groups cfg);
    if bool_decide (index = ∅) then None else Some (index, alerts_on (Config.kw_telegram cfg)).

(** [dev_sniper::start]: the executor it is given is always [None]. *)
Definition sniper_start (cfg : Config.DevSniperConfig) (w : World)
  : option (Sniper.SniperConfig * gset Address * Sniper.Sniper Executor.LiveExecutor) :=
  if negb (Config.sn_enabled cfg) then None
  else
    devs ← w_devs w (Config.dev_whitelist_file cfg);
    Some ({| Sniper.mode := Config.sn_mode cfg; Sniper.trade_size_usd := Config.trade_size_usd cfg;
             Sniper.trade_size_bnb_wei := Config.trade_size_bnb_wei cfg |}, devs,
          {| Sniper.sn_positions := ∅; Sniper.sn_exec := None |}).

Section Run.
Context (toml : string → option Limits.LimitsConfig).
Context {Key : Type} (key_from_str : text → option Key) (key_address : Key → Address).
Context (address_from_str : text → option Address) (parse_address : string → option Address).
Context {TxEnvelope : Type}.

Definition run (cfg : option Config.Config) (w : World) : option (Running TxEnvelope) :=
cfg ← cfg;
if negb (w_metrics w) then None
else if Config.cap_enabled (Config.capture cfg) && negb (w_capture w) then None
else
let public := start (Config.trader cfg) (w_public w) (w_now w) in
let private := start (Config.trader_private cfg) (w_private w) (w_now w) in
let live := start_live_only toml key_from_str key_address address_from_str parse_address
        (Config.trail (Config.adaptive_trail cfg)) (w_live w) (w_balance w) in
let kw := Config.kol_watch cfg in
let watch := kol_watch_start kw (w_kols w) in
Some {|
r_system := System.start (Config.pipeline cfg) (unwrap_or (snd <$> watch) false)
          (paper_task <$> public) (paper_task <$> private) live;
r_index := kol_index kw w; r_watching := bool_decide (is_Some watch);
r_public := public; r_private := private; r_flow := bool_decide (is_Some public);
r_capture := Config.cap_enabled (Config.capture cfg);
r_liquidator := Config.lq_enabled (Config.liquidator cfg) &&
            String.eqb (Config.protocol (Config.liquidator cfg)) "venus";
r_sniper := sniper_start (Config.dev_sniper cfg) w;
r_sources := spawn_sources (w_valid_url w) (w_auto_detect w) (Config.sources cfg) |}.
End Run.

(** ** Lemmas *)

Lemma load_config_ok toml f cfg : Limits.load_config toml f = Ok cfg → ∃ s, f = Some s ∧ toml s = Some cfg.
Proof.
  unfold Limits.load_config. destruct f as [s|]; [|done]. destruct (toml s) as [c|] eqn:E; [|done].
  destruct (Nat.eqb _ _); [|done]. intros [= <-]. by exists s.
Qed.

Section Build.
Context (toml : string → option Limits.LimitsConfig).
Context {Key : Type} (key_from_str : text → option Key) (key_address : Key → Address).
Context (address_from_str : text → option Address) (parse_address : string → option Address).

Abbreviation build := (build_live_executor toml key_from_str key_address address_from_str parse_address).
Abbreviation wallet_of := (from_env key_from_str key_address address_from_str).

(** What the executor was built from. *)
Lemma build_spec w e :
build w = Some e →
∃ cfg t chain_n bl, Limits.load_config toml (lw_limits w) = Ok cfg ∧ wallet_of w = Some t ∧
Nonce.fetch_pending_nonce (lw_nonce_reply w) = Ok chain_n ∧ is_Some (lw_ledger w) ∧
lw_http w = true ∧
e = Executor.LiveExecutor_new (DevResolver.Wallet.address t)
{| Nonce.current := Z.max chain_n (Nonce.disk_n (lw_nonce_file w)); Nonce.persist := true;
Nonce.disk := lw_nonce_file w |}
(Limits.LimitsRuntime_new cfg (lw_now w)) {| ExecMath.rows := []; ExecMath.open_count := 0 |} bl.
Proof.
unfold build_live_executor, Nonce.NonceManager_new.
destruct (Limits.load_config _ _) as [cfg|] eqn:Ec; [|done].
destruct (wallet_of w) as [t|] eqn:Et; [|done]. cbn [mbind option_bind].
destruct (Nonce.fetch_pending_nonce _) as [n|] eqn:En; [|done]. cbn [result_bind].
destruct (lw_ledger w) as [l|]; [|done]. cbn [mbind option_bind].
destruct (lw_http w); [|done]. cbn [negb]. intros [= <-]. eauto 12.
Qed.

Lemma build_complete w :
is_ok (Limits.load_config toml (lw_limits w)) = true → is_Some (wallet_of w) →
is_ok (Nonce.fetch_pending_nonce (lw_nonce_reply w)) = true → is_Some (lw_ledger w) →
lw_http w = true → is_Some (build w).
Proof.
intros Hc [t Ht] Hn [l Hl] Hh. unfold build_live_executor, Nonce.NonceManager_new.
rewrite Ht, Hl, Hh. cbn [mbind option_bind].
destruct (Limits.load_config _ _); [|done]. destruct (Nonce.fetch_pending_nonce _); [|done].
cbn. eauto.
Qed.

Lemma wallet_of_env w t : wallet_of w = Some t →
∃ k a, lw_key w = Some k ∧ lw_address w = Some a ∧
address_from_str (trim a) = Some (DevResolver.Wallet.address t) ∧
key_address (DevResolver.Wallet.signer t) = DevResolver.Wallet.address t.
Proof.
unfold from_env. intros (k & Hk & (a & Ha & H)%bind_Some)%bind_Some.
unfold DevResolver.Wallet.from_parts in H. destruct (negb (Z.of_nat _ =? 64)); [done|].
destruct (key_from_str _) as [key|]; [|done].
destruct (address_from_str (trim a)) as [d|] eqn:Ed; [|done].
destruct (Z.eqb_spec (key_address key) d) as [<-|]; [|done]. injection H as <-. eauto 8.
Qed.

(** The live trader starts exactly when everything it needs is there: the
limits with one phase, the key of the declared address, the node's nonce,
the ledger and the HTTP client.  It then signs for the declared wallet,
from a nonce no lower than the chain's and the saved one, under the limits
of the file, and it holds no position and has sent nothing. *)
Theorem live_trader_starts_clean w :
(is_Some (build w) ↔
is_ok (Limits.load_config toml (lw_limits w)) = true ∧ is_Some (wallet_of w) ∧
is_ok (Nonce.fetch_pending_nonce (lw_nonce_reply w)) = true ∧ is_Some (lw_ledger w) ∧
lw_http w = true) ∧
∀ e, build w = Some e →
(∃ a, lw_address w = Some a ∧ address_from_str (trim a) = Some (Executor.wallet e)) ∧
(∃ n, Nonce.fetch_pending_nonce (lw_nonce_reply w) = Ok n ∧
n ≤ Nonce.current (Executor.nonce e) ∧
Nonce.disk_n (lw_nonce_file w) ≤ Nonce.current (Executor.nonce e)) ∧
Limits.load_config toml (lw_limits w) = Ok (Limits.cfg (Executor.limits_rt e)) ∧
Executor.positions e = ∅ ∧ Executor.wire e = [] ∧ ExecMath.open_count (Executor.ledger e) = 0.
Proof.
split.
- split; [|intros (? & ? & ? & ? & ?); by apply build_complete].
intros [e (cfg & t & n & bl & -> & -> & -> & Hl & Hh & _)%build_spec]. by split_and!.
- intros e (cfg & t & n & bl & Hc & Ht & Hn & _ & _ & ->)%build_spec.
apply wallet_of_env in Ht as (k & a & _ & Ha & Hd & _).
split_and!; try done; [by exists a|]. exists n. split_and!; [done|cbn; lia..].
Qed.

(** [C25] A restart orphans the tokens held.  Whatever the wallet holds, the trader
that starts knows no position, so with the trail on no block and no hit but
a new buy changes anything: the tokens bought before have no exit left,
neither the trail's nor the KOL's. *)
Theorem restart_orphans_positions pb pa pu trail w balance t es :
start_live_only toml key_from_str key_address address_from_str parse_address trail w balance =
Some t →
Trail.enabled trail = true →
(∀ e, e ∈ es →
(∃ env price hit, e = Live.Hit env price hit ∧ Kol.Watch.side hit ≠ Some "BUY"%string) ∨
(∃ te order n, e = Live.Head te order n ∧ ∀ ps, order ps ≡ₚ ps)) →
Live.trader_run pb pa pu t es = Some t.
Proof.
unfold start_live_only. intros (e & (cfg & tw & n & bl & _ & _ & _ & _ & _ & ->)%build_spec & [= <-])%bind_Some.
intros Hen. induction es as [|e es IH]; intros Hes; [done|]. rewrite Live.trader_run_cons.
set (t := Live.start_live_only _ _ _ _) in *.
assert (Live.trail_active t = true) as Hact by done.
assert (Live.trader_step pb pa pu t e = Some t) as ->; [|apply IH; set_solver].
destruct (Hes e) as [(env & price & hit & -> & Hs)|(te & order & m & -> & Ho)]; [set_solver|..]; cbn.
- unfold Live.on_hit.
pose proof (Live.non_buy_never_enters pb pa (Live.strategy_cfg t) hit (unwrap_or price f0) Hs) as Hno.
destruct (Strategy.evaluate _ _ _ _ _); [done|done|]. by rewrite Hact.
- unfold Live.on_head. rewrite Hact.
assert (Trail.on_block pu te order (Live.watcher t) m = Some (Live.watcher t)) as ->; [|done].
apply Trail.v2_block_inert; [done| |done]. by intros ? ? ?.
Qed.
End Build.

(** ** The wired program *)

Section Wired.
Context (toml : string → option Limits.LimitsConfig).
Context {Key : Type} (key_from_str : text → option Key) (key_address : Key → Address).
Context (address_from_str : text → option Address) (parse_address : string → option Address).
Context {TxEnvelope RlpError RecoveryError : Type}.
Context (alloy_decode : bytes → result TxEnvelope RlpError).
Context (alloy_recover : TxEnvelope → result Address RecoveryError).
Context (view : TxEnvelope → Kol.Watch.TxView).
Context (pb : string → option B256) (pu : text → option U256).

Abbreviation wired := (run toml key_from_str key_address address_from_str parse_address).
Abbreviation session index := (System.system_run alloy_decode alloy_recover view pb parse_address pu index).

(** What [run] put together. *)
Lemma run_spec cfg w r :
wired (Some cfg) w = Some r →
r_index r = kol_index (Config.kol_watch cfg) w ∧
r_sniper r = sniper_start (Config.dev_sniper cfg) w ∧
∃ tg, r_system r = System.start (TxEnvelope := TxEnvelope) (Config.pipeline cfg) tg
(paper_task <$> r_public r) (paper_task <$> r_private r)
(start_live_only toml key_from_str key_address address_from_str parse_address
(Config.trail (Config.adaptive_trail cfg)) (w_live w) (w_balance w)).
Proof.
unfold run. cbn [mbind option_bind]. destruct (negb (w_metrics w)); [done|].
destruct (_ && _); [done|]. intros [= <-]. by split_and!; [..|eexists _].
Qed.

Lemma run_public cfg w r :
wired (Some cfg) w = Some r →
∃ q t0 tg, r_system r = System.start (TxEnvelope := TxEnvelope) (Config.pipeline cfg) tg
(paper_task <$> start (Config.trader cfg) (w_public w) (w_now w)) q t0.
Proof.
unfold run. cbn [mbind option_bind]. destruct (negb (w_metrics w)); [done|].
destruct (_ && _); [done|]. intros [= <-]. by eexists _, _, _.
Qed.

(** The consumer of the bus runs exactly when the list it shares with the block
scan is not empty, and with that list. *)
Lemma watcher_index cfg w :
fst <$> kol_watch_start cfg (w_kols w) =
if bool_decide (kol_index cfg w = ∅) then None else Some (kol_index cfg w).
Proof.
unfold kol_watch_start, kol_index. destruct (Config.kw_enabled cfg); cbn [negb].
- destruct (Kol.Watch.load _ _) as [m|]; cbn [mbind option_bind unwrap_or fmap option_fmap option_map].
+ by case_bool_decide.
+ by rewrite bool_decide_eq_true_2.
- by rewrite bool_decide_eq_true_2.
Qed.

Lemma kol_index_lookup cfg w a k :
kol_index cfg w !! a = Some k → Config.kw_enabled cfg = true ∧
∃ kols, w_kols w (kol_file cfg) = Some kols ∧ k ∈ kols ∧ Kol.Watch.address k = a.
Proof.
unfold kol_index. destruct (Config.kw_enabled cfg); [|by rewrite lookup_empty].
unfold Kol.Watch.load. destruct (w_kols w (kol_file cfg)) as [kols|]; cbn; [|by rewrite lookup_empty].
intros H. split; [done|]. exists kols. split; [done|]. revert H.
generalize (Config.groups cfg) as gs. intros gs.
enough (∀ l (m : gmap Address Kol.Watch.Kol), foldl (λ m k, <[Kol.Watch.address k:=k]> m) m l !! a = Some k →
m !! a = Some k ∨ k ∈ l ∧ Kol.Watch.address k = a) as Hf.
{ intros [H|[Hk Ha]]%Hf; [by rewrite lookup_empty in H|]. by apply list_elem_of_filter in Hk as [_ ?]. }
induction l as [|x l IH]; intros m; cbn; [by left|].
intros [H|[]]%IH; [|right; by split; [right|]].
destruct (decide (Kol.Watch.address x = a)) as [<-|].
- rewrite lookup_insert_eq in H. injection H as ->. right. by split; [left|].
- rewrite lookup_insert_ne in H by done. by left.
Qed.

(** [C2] Every buy copies a KOL.  However the wired program runs, over any sequence
of raw transactions, blocks, queue reads and polls, each buy on the live
wallet's wire is for a token that a wallet of the configured KOL list
bought, in a transaction that a source delivered or a block held, and that
KOL is on the whitelist of limits.toml. *)
Theorem every_buy_copies_a_kol cfg w r es s t tx ok tok :
wired (Some cfg) w = Some r → session (r_index r) (r_system r) es = Some s →
System.live s = Some t → (tx, ok) ∈ Executor.wire (Live.executor t) →
System.bought (Executor.tx_call tx) = Some tok →
∃ k kols limits,
System.kol_bought alloy_decode alloy_recover view (r_index r) es k tok ∧
w_kols w (kol_file (Config.kol_watch cfg)) = Some kols ∧ k ∈ kols ∧
Limits.load_config toml (lw_limits (w_live w)) = Ok limits ∧
Kol.Watch.name k ∈ Limits.kol_whitelist (Limits.strategy limits).
Proof.
intros (Hi & _ & tg & ->)%run_spec Hs Ht Hin Hb. unfold start_live_only in Hs.
destruct (build_live_executor _ _ _ _ _ _) as [e|] eqn:E; cbn [mbind option_bind] in Hs.
- apply build_spec in E as (lim & tw & n & bl & Hl & _ & _ & _ & _ & ->).
destruct (System.buys_copied _ _ _ _ _ _ _ _ _ _ _ _ _ _ _ _ _ _ Hs Ht Hin Hb) as [Hw|(k & Hk & Hw)].
+ by apply not_elem_of_nil in Hw.
+ exists k. cbn in Hw. apply elem_of_list_to_set in Hw.
assert (∃ a, r_index r !! a = Some k) as [a Ha] by (destruct Hk as [(? & ? & _ & _ & ? & _)|(? & ? & _ & ? & _)]; eauto).
rewrite Hi in Ha. apply kol_index_lookup in Ha as (_ & kols & ? & ? & _). by exists kols, lim.
- apply System.no_trader in Hs. congruence.
Qed.

End Wired.

(** ** The subscriptions *)

(** How many times in a row each pause has been doubled: not at all at first
    and after an orderly end, and once more at each failure. *)
Fixpoint streaks (k : nat) (lives : list Sources.life) : list nat :=
  match lives with
  | [] | Sources.ShutDown :: _ => []
  | l :: lives => let k := match l with Sources.Ended => 0%nat | _ => k end in k :: streaks (S k) lives
  end.
Definition pauses (cap : Z) (lives : list Sources.life) : list Z * bool :=
  ((λ k, Z.min (500 * 2 ^ Z.of_nat k) cap) <$> streaks 0 lives, bool_decide (Sources.ShutDown ∈ lives)).

Lemma subscribe_loop_pauses cap k lives :
  500 ≤ cap →
  let d k := Z.min (500 * 2 ^ Z.of_nat k) cap in
  subscribe_loop cap (d k) lives = (d <$> streaks k lives, bool_decide (Sources.ShutDown ∈ lives)).
Proof.
  intros Hc d. assert (d 0%nat = 500) as H0 by (unfold d; cbn; lia).
  assert (∀ n, Z.min (d n * 2) cap = d (S n)) as Hd
    by (intros n; unfold d; rewrite Nat2Z.inj_succ, Z.pow_succ_r by lia; lia).
  clearbody d. revert k. induction lives as [|l lives IH]; intros k; [done|].
  assert (∀ l', l' ≠ Sources.ShutDown →
    bool_decide (Sources.ShutDown ∈ l' :: lives) = bool_decide (Sources.ShutDown ∈ lives)) as Hs
    by (intros; apply bool_decide_ext; rewrite elem_of_cons; naive_solver).
  destruct l; cbn [subscribe_loop streaks].
  - rewrite <- H0, Hd, IH, Hs by done. done.
  - rewrite Hd, IH, Hs by done. done.
  - rewrite bool_decide_eq_true_2 by apply list_elem_of_here. done.
Qed.

Lemma oracle_loop_pauses k lives :
  let d k := Z.min (500 * 2 ^ Z.of_nat k) 10000 in
  Sources.ShutDown ∉ lives →
  oracle_loop (d k) lives = (d <$> seq k (length lives), false).
Proof.
  intros d. assert (∀ n, Z.min (d n * 2) 10000 = d (S n)) as Hd
    by (intros n; unfold d; rewrite Nat2Z.inj_succ, Z.pow_succ_r by lia; lia).
  clearbody d. revert k. induction lives as [|l lives IH]; intros k Hl; [done|].
  apply not_elem_of_cons in Hl as [Hne Hl].
  destruct l; [..|done]; cbn [oracle_loop length seq fmap list_fmap]; by rewrite Hd, IH.
Qed.

(** The block oracle's backoff is never reset.  Whatever ended its
    subscriptions and however long they lasted, the pauses are half a second
    doubled up to ten: from the sixth on, each new subscription waits ten
    seconds, during which no block is counted. *)
Theorem oracle_backoff_never_resets url lives :
  Sources.ShutDown ∉ lives →
  block_oracle_run (Some url) true lives =
    ((λ k, Z.min (500 * 2 ^ Z.of_nat k) 10000) <$> seq 0 (length lives), false).
Proof. apply (oracle_loop_pauses 0). Qed.

(** Subscriptions come back.  Every subscription loop of the runner opens a new
    subscription after each one that ends, until the shutdown and only then;
    the pause before it is half a second, doubled at each failure in a row and
    capped at 10 or 15 seconds, and an orderly end resets it. *)
Theorem subscriptions_come_back lives cfg :
  run_head_state_updater lives = pauses 10000 lives ∧ kol_confirm_start lives = pauses 10000 lives ∧
  price_feed_start lives = pauses 15000 lives ∧ sniper_detection lives = pauses 15000 lives ∧
  trail_start cfg lives = if Trail.enabled cfg then pauses 15000 lives else ([], true).
Proof.
  pose proof (subscribe_loop_pauses 10000 0 lives ltac:(lia)) as H1.
  pose proof (subscribe_loop_pauses 15000 0 lives ltac:(lia)) as H2.
  unfold trail_start. split_and!; try assumption. by destruct (Trail.enabled cfg).
Qed.

(** ** The daily summary *)

Lemma summary_wait_spec now h :
  0 ≤ h < 24 → 1 ≤ summary_wait now h ≤ 86400 ∧ (now + summary_wait now h) mod 86400 = h * 3600.
Proof.
  intros Hh. unfold summary_wait, sat_mul, umax. rewrite Z.min_l by lia.
  pose proof (Z.mod_pos_bound now 86400 ltac:(lia)) as Hm.
  pose proof (Z.div_mod now 86400 ltac:(lia)) as Hd.
  destruct (Z.ltb_spec (now mod 86400) (h * 3600)); (split; [lia|]).
  - rewrite Hd at 1. replace (_ + _) with (h * 3600 + now / 86400 * 86400) by lia.
    rewrite Z.mod_add, Z.mod_small; lia.
  - rewrite Hd at 1. replace (_ + _) with (h * 3600 + (now / 86400 + 1) * 86400) by lia.
    rewrite Z.mod_add, Z.mod_small; lia.
Qed.

(** A turn that starts less than a day after the hour waits for the next one. *)
Lemma summary_wait_after t h l :
  0 ≤ h < 24 → t mod 86400 = h * 3600 → 0 ≤ l < 86400 → l + summary_wait (t + l) h = 86400.
Proof.
  intros Hh Ht Hl. unfold summary_wait, sat_mul, umax. rewrite Z.min_l by lia.
  pose proof (Z.div_mod t 86400 ltac:(lia)) as Hd. rewrite Ht in Hd.
  destruct (Z.lt_ge_cases (h * 3600 + l) 86400).
  - replace ((t + l) mod 86400) with (h * 3600 + l).
    + destruct (Z.ltb_spec (h * 3600 + l) (h * 3600)); lia.
    + rewrite Hd at 1. replace (_ + _ + _) with (h * 3600 + l + t / 86400 * 86400) by lia.
      rewrite Z.mod_add, Z.mod_small; lia.
  - replace ((t + l) mod 86400) with (h * 3600 + l - 86400).
    + destruct (Z.ltb_spec (h * 3600 + l - 86400) (h * 3600)); lia.
    + rewrite Hd at 1.
      replace (_ + _ + _) with (h * 3600 + l - 86400 + (t / 86400 + 1) * 86400) by lia.
      rewrite Z.mod_add, Z.mod_small; lia.
Qed.

Lemma summaries_from t h l late i s :
  0 ≤ h < 24 → t mod 86400 = h * 3600 → 0 ≤ l < 86400 → Forall (λ l, 0 ≤ l < 86400) late →
  summaries (t + l) h late !! i = Some s →
  ∃ l', late !! i = Some l' ∧ s = t + 86400 * (Z.of_nat i + 1) + l'.
Proof.
  intros Hh Ht Hl HF. revert t l i Ht Hl. induction HF as [|l' late Hl' HF IH]; intros t l i Ht Hl; [done|].
  pose proof (summary_wait_after t h l Hh Ht Hl) as Hw. cbn [summaries].
  destruct i as [|i]; cbn.
  - intros [= <-]. exists l'. split; [done|lia].
  - replace (t + l + summary_wait (t + l) h + l') with (t + 86400 + l') by lia.
    intros Hs. destruct (IH (t + 86400) l' i) as (l2 & ? & ->); [|done|done|].
    + rewrite <- Ht. replace (t + 86400) with (t + 1 * 86400) by lia. apply Z.mod_add. lia.
    + exists l2. split; [done|lia].
Qed.

(** One summary a day.  From any start, the first summary comes within a day,
    at the configured hour; and as long as each turn takes less than a day
    beyond its sleep, the i-th comes exactly i days after the first hour, late
    by its own turn only: no day is skipped and none gets two. *)
Theorem summary_fires_daily now h late i s :
  0 ≤ h < 24 → Forall (λ l, 0 ≤ l < 86400) late → summaries now h late !! i = Some s →
  ∃ first l, late !! i = Some l ∧ now < first ≤ now + 86400 ∧ first mod 86400 = h * 3600 ∧
    s = first + 86400 * Z.of_nat i + l.
Proof.
  intros Hh HF Hs. destruct (summary_wait_spec now h Hh) as [Hb Hm].
  exists (now + summary_wait now h). destruct HF as [|l late Hl HF]; [done|].
  destruct i as [|i]; cbn in Hs.
  - injection Hs as <-. exists l. split_and!; try done; lia.
  - destruct (summaries_from _ _ _ _ _ _ Hh Hm Hl HF Hs) as (l' & ? & ->).
    exists l'. split_and!; try done; lia.
Qed.

(** ** The sniper, as it is wired *)

Lemma sniper_step_idle pu cfg devs tc (s s' : Sniper.Sniper Executor.LiveExecutor) e :
  Sniper.mode cfg = "live"%string → Sniper.sn_exec s = None → Sniper.sn_positions s = ∅ →
  (match e with Sniper.Head _ order _ => ∀ l, order l ≡ₚ l | _ => True end) →
  Sniper.sniper_step pu cfg devs tc s e = Some s' → s' = s.
Proof.
  intros Hm Hx Hp Ho. destruct e as [env usd log|tick order n]; cbn.
  - intros [= <-]. destruct (Sniper.handle_log_cases cfg devs env usd s log)
      as [|(? & ? & ? & ? & _ & _ & _ & _ & _ & _ & Hl & _)]; [done|].
    destruct (Hl Hm). congruence.
  - unfold Sniper.on_head. rewrite Hp, map_to_list_empty.
    rewrite (proj1 (Permutation_nil_r _) (Ho [])). by intros [= <-].
Qed.

(** The sniper cannot trade live.  [run] passes it no executor, so with
    [mode = live] in the configuration no launch and no block, whatever they
    hold, ever makes it open a position or buy. *)
Theorem wired_sniper_never_trades {TxEnvelope Key : Type} toml (kf : text → option Key) ka af pa
    cfg w (r : Running TxEnvelope) sc devs s0 pu tc es s :
  run toml kf ka af pa (Some cfg) w = Some r → r_sniper r = Some (sc, devs, s0) →
  Config.sn_mode (Config.dev_sniper cfg) = "live"%string →
  Forall (λ e, match e with Sniper.Head _ order _ => ∀ l, order l ≡ₚ l | _ => True end) es →
  Sniper.sniper_run pu sc devs tc s0 es = Some s →
  Sniper.sn_positions s = ∅ ∧ Sniper.sn_exec s = None.
Proof.
  intros Hr Hs Hm HF Hrun.
  assert (Sniper.mode sc = "live"%string ∧ Sniper.sn_exec s0 = None ∧ Sniper.sn_positions s0 = ∅)
    as (Hmode & Hx & Hp).
  { unfold run in Hr. cbn [mbind option_bind] in Hr.
    destruct (negb (w_metrics w)); [done|]. destruct (_ && _); [done|].
    injection Hr as <-. cbn [r_sniper] in Hs. unfold sniper_start in Hs.
    destruct (negb _); [done|]. apply bind_Some in Hs as (d & _ & [= <- <- <-]). done. }
  assert (s = s0) as ->; [|done]. clear Hr Hs. revert Hrun. unfold Sniper.sniper_run.
  induction HF as [|e es He HF IH]; cbn; [by intros [= <-]|].
  destruct (Sniper.sniper_step pu sc devs tc s0 e) as [s1|] eqn:E; [|by rewrite Sniper.foldl_None].
  by rewrite (sniper_step_idle _ _ _ _ _ _ _ Hmode Hx Hp He E).
Qed.

(** ** Witnesses *)

Module Launch.
Definition key_of (_ : text) : option Z := Some 1.
Definition address_of (_ : Z) : Address := 0x77.
Definition wallet_of (_ : text) : option Address := Some 0x77.
Definition toml (_ : string) : option Limits.LimitsConfig := Some Limits.example_config.
Definition now : Z := 86400.

(** A machine with all that the live trader needs. *)
Definition live_world : LiveWorld :=
{| lw_limits := Some "config/limits.toml"%string; lw_key := Some (repeat "1"%char 64);
lw_address := Some (list_ascii_of_string "0x77"); lw_nonce_file := None;
lw_nonce_reply := Reply true None (Some (list_ascii_of_string "0x7"));
lw_ledger := Some Csv.NoFile; lw_blacklist := ExecMath.BlMissing; lw_http := true; lw_now := now |}.
Definition fresh : LedgerDir :=
{| ld_ready := true; ld_book := Positions.Ledger.Missing; ld_budgets := None; ld_disk := {| Paper.open_positions := ∅; Paper.budgets_json := None; Paper.closed_rows := [] |} |}.
Definition world : World :=
{| w_metrics := true; w_capture := true; w_public := fresh; w_private := fresh; w_live := live_world;
w_balance := Some f1; w_kols := λ _, Some [System.Market.kol];
w_devs := λ _, Some {[ Sniper.Example.dev ]}; w_valid_url := λ _, true; w_auto_detect := None;
w_now := now |}.

(** config/default.toml, and the same with the sniper in live mode. *)
Definition cfg : Config.Config := Eval vm_compute in Config.Shipped.config.
Definition sniping : Config.Config :=
let d := Config.dev_sniper cfg in
{| Config.chain := Config.chain cfg; Config.listen_addr := Config.listen_addr cfg;
Config.capture := Config.capture cfg; Config.pipeline := Config.pipeline cfg;
Config.sources := Config.sources cfg; Config.el_ws_url := Config.el_ws_url cfg;
Config.trader := Config.trader cfg; Config.trader_private := Config.trader_private cfg;
Config.kol_watch := Config.kol_watch cfg; Config.liquidator := Config.liquidator cfg;
Config.four_meme := Config.four_meme cfg;
Config.dev_sniper := {| Config.sn_enabled := Config.sn_enabled d; Config.sn_mode := "live";
Config.trade_size_usd := Config.trade_size_usd d;
Config.trade_size_bnb_wei := Config.trade_size_bnb_wei d;
Config.dev_whitelist_file := Config.dev_whitelist_file d; Config.sn_ws_url := Config.sn_ws_url d;
Config.sn_rpc_url := Config.sn_rpc_url d; Config.profit_take_pct := Config.profit_take_pct d;
Config.stop_loss_pct := Config.stop_loss_pct d; Config.timeout_secs := Config.timeout_secs d;
Config.eval_interval_secs := Config.eval_interval_secs d |};
Config.adaptive_trail := Config.adaptive_trail cfg; Config.sniper_trail := Config.sniper_trail cfg |}.
Abbreviation launch c := (run (TxEnvelope := Kol.Watch.TxView) toml key_of address_of wallet_of
                  Live.Example.pa (Some c) world).

(** The wallet is read, then the KOL D buys. *)
Definition events : list (System.event (TxEnvelope := Kol.Watch.TxView)) :=
System.LiveTask (Live.WalletPoll (Some (list_ascii_of_string "0xde0b6b3a7640000")))
:: System.Market.buy_history.
Abbreviation play r es := (System.system_run System.Market.decode System.Market.recover id
Live.Example.pb Live.Example.pa Live.Example.pu (r_index r) (r_system r) es).
Abbreviation session := (r ← launch cfg; play r events).
Definition wire : list (Executor.Tx * bool) :=
unwrap_or (s ← session; t ← System.live s; Some (Executor.wire (Live.executor t))) [].
(** The public paper trader takes the same hit, with a node that knows the token. *)
Definition paper_world : Paper.World :=
let w := Paper.Example.world 30 70000 50 in
{| Paper.w_resolver := λ _, Some {| Paper.symbol := "T"; Paper.decimals := 18 |};
Paper.w_node := Paper.w_node w; Paper.w_after := Paper.w_after w; Paper.w_chain := Paper.w_chain w;
Paper.w_price := Paper.w_price w; Paper.w_bnb_usd := Paper.w_bnb_usd w;
Paper.w_pool := Paper.w_pool w; Paper.w_supply := Paper.w_supply w; Paper.w_head := Paper.w_head w;
Paper.w_now := Paper.w_now w; Paper.w_balance := Paper.w_balance w;
Paper.w_parse_u256 := Paper.w_parse_u256 w; Paper.w_saves := Paper.w_saves w |}.
Definition paper_events : list (System.event (TxEnvelope := Kol.Watch.TxView)) :=
events ++ [System.TraderRecv paper_world (λ _, paper_world) Live.Example.price].
Abbreviation paper_session := (r ← launch cfg; play r paper_events).
Definition paper_history : Paper.history :=
unwrap_or (s ← paper_session; p ← System.public s; Some (System.pt_history p))
{| Paper.final := Paper.Example.start; Paper.closed := []; Paper.entries := [] |}.
Definition sniper := r ← launch sniping; r_sniper r.
Definition snipes : option (Sniper.Sniper Executor.LiveExecutor) :=
x ← sniper; Sniper.sniper_run Sniper.Example.pu x.1.1 x.1.2 Trail.default_trail x.2 Sniper.Example.events.

Lemma some_of {A : Type} (o : option A) : bool_decide (is_Some o) = true → ∃ x, o = Some x.
Proof. intros [x Hx]%bool_decide_eq_true. by exists x. Qed.
Lemma launched : ∃ r, launch cfg = Some r.
Proof. apply some_of. vm_compute. reflexivity. Qed.
Lemma played : ∃ s, session = Some s.
Proof. apply some_of. vm_compute. reflexivity. Qed.
Lemma paper_played : ∃ s, paper_session = Some s.
Proof. apply some_of. vm_compute. reflexivity. Qed.
Lemma trading : ∃ t, (s ← session; System.live s) = Some t.
Proof. apply some_of. vm_compute. reflexivity. Qed.
Lemma paper_trading : ∃ p, (s ← paper_session; System.public s) = Some p.
Proof. apply some_of. vm_compute. reflexivity. Qed.
Lemma watched r : launch cfg = Some r → r_index r = {[ 5 := System.Market.kol ]}.
Proof.
assert (r_index <$> launch cfg = Some {[ 5 := System.Market.kol ]}) as H by (vm_compute; reflexivity).
intros E. rewrite E in H. by injection H.
Qed.
Lemma wire_is : ∃ tx ok, wire = [(tx, ok)] ∧ System.bought (Executor.tx_call tx) = Some System.Market.token.
Proof. eexists _, _. split; vm_compute; reflexivity. Qed.
End Launch.

Lemma live_trader_starts_clean_witness :
  ∃ e, build_live_executor Launch.toml Launch.key_of Launch.address_of Launch.wallet_of
         Live.Example.pa Launch.live_world = Some e ∧
       Nonce.current (Executor.nonce e) = 7 ∧ Executor.positions e = ∅.
Proof.
  destruct (build_live_executor _ _ _ _ _ _) as [e|] eqn:E; [|vm_compute in E; discriminate].
  destruct (live_trader_starts_clean Launch.toml Launch.key_of Launch.address_of Launch.wallet_of
    Live.Example.pa Launch.live_world) as [_ Hok].
  destruct (Hok e E) as (_ & _ & _ & Hp & _). exists e. split; [reflexivity|]. split; [|exact Hp].
  assert ((λ e, Nonce.current (Executor.nonce e)) <$> build_live_executor Launch.toml Launch.key_of
    Launch.address_of Launch.wallet_of Live.Example.pa Launch.live_world = Some 7) as Hn
    by (vm_compute; reflexivity).
  rewrite E in Hn. by injection Hn.
Defined.

Lemma every_buy_copies_a_kol_witness :
  ∃ tx ok, (tx, ok) ∈ Launch.wire ∧ System.bought (Executor.tx_call tx) = Some System.Market.token ∧
  ∃ k kols limits,
    System.kol_bought System.Market.decode System.Market.recover id
      {[ 5 := System.Market.kol ]} Launch.events k System.Market.token ∧
    w_kols Launch.world "config/kols.toml" = Some kols ∧ k ∈ kols ∧
    Kol.Watch.name k ∈ Limits.kol_whitelist (Limits.strategy limits).
Proof.
  destruct Launch.launched as [r Er], Launch.played as [s Es], Launch.trading as [t Et],
    Launch.wire_is as (tx & ok & Hwire & Hb).
  rewrite Es in Et. cbn [mbind option_bind] in Et.
  assert (Launch.wire = Executor.wire (Live.executor t)) as Hw
    by (unfold Launch.wire; rewrite Es; cbn [mbind option_bind]; by rewrite Et).
  rewrite Er in Es. cbn [mbind option_bind] in Es.
  destruct (every_buy_copies_a_kol Launch.toml Launch.key_of Launch.address_of Launch.wallet_of
    Live.Example.pa System.Market.decode System.Market.recover id Live.Example.pb Live.Example.pu
    Launch.cfg Launch.world r Launch.events s t tx ok System.Market.token Er Es Et)
    as (k & kols & lim & Hk & Hl & Hin & _ & Hn).
  - rewrite <- Hw, Hwire. left.
  - exact Hb.
  - exists tx, ok. rewrite Hwire. split; [left|]. split; [exact Hb|].
    exists k, kols, lim. rewrite <- (Launch.watched r Er). split; [exact Hk|]. split; [exact Hl|]. by split.
Defined.

Lemma restart_orphans_positions_witness :
  ∃ t, start_live_only Launch.toml Launch.key_of Launch.address_of Launch.wallet_of Live.Example.pa
         Live.Example.trail_on Launch.live_world (Some f1) = Some t ∧
       Live.trader_run Live.Example.pb Live.Example.pa Live.Example.pu t Live.Example.signals = Some t.
Proof.
  destruct (start_live_only _ _ _ _ _ _ _ _) as [t|] eqn:E; [|vm_compute in E; discriminate].
  exists t. split; [done|].
  apply (restart_orphans_positions Launch.toml Launch.key_of Launch.address_of Launch.wallet_of
    Live.Example.pa Live.Example.pb Live.Example.pa Live.Example.pu Live.Example.trail_on
    Launch.live_world (Some f1) t Live.Example.signals E); [done|].
  intros e [->|[->|H]%elem_of_cons]%elem_of_cons; [left|right|by apply not_elem_of_nil in H].
  - eexists _, _, _. by split.
  - eexists _, _, _. by split.
Defined.

Lemma summary_fires_daily_witness :
  summaries 100000 5 [7; 8; 9] = [104407; 190808; 277209] ∧
  ∃ first l, [7; 8; 9] !! 2%nat = Some l ∧ first mod 86400 = 18000 ∧ 277209 = first + 172800 + l.
Proof.
  split; [by vm_compute|].
  destruct (summary_fires_daily 100000 5 [7; 8; 9] 2 277209) as (first & l & Hl & _ & Hm & Hs);
    [lia|repeat constructor; lia|by vm_compute|].
  exists first, l. by split_and!.
Defined.

Lemma wired_sniper_never_trades_witness :
  ∃ s, Launch.snipes = Some s ∧ Sniper.sn_positions s = ∅.
Proof.
  destruct Launch.snipes as [s|] eqn:E; [|vm_compute in E; discriminate].
  exists s. split; [reflexivity|]. unfold Launch.snipes, Launch.sniper in E.
  destruct (Launch.launch Launch.sniping) as [r|] eqn:Er; [|discriminate]. cbn [mbind option_bind] in E.
  destruct (r_sniper r) as [[[sc devs] s0]|] eqn:Hs; [|discriminate]. cbn [mbind option_bind] in E.
  apply (wired_sniper_never_trades Launch.toml Launch.key_of Launch.address_of Launch.wallet_of
    Live.Example.pa Launch.sniping Launch.world r sc devs s0 Sniper.Example.pu Trail.default_trail
    Sniper.Example.events s Er Hs); [by vm_compute|by repeat constructor|exact E].
Defined.

